(** * Source-control state synchronisation between plugin host and browser

    A shallow embedding of
    - [packages/plugin-ext/src/plugin/scm.ts] (the provider side, which owns
      the declared model), and
    - [packages/plugin-ext/src/main/browser/scm-main.ts] (the mirror side,
      which replays the updates it receives),
    followed by the properties of the synchronisation protocol.

    JavaScript numbers that the code only uses as counters, indices and
    comparison results are integers of [Z]; [Map]s keyed by a handle are
    [gmap Z]; arrays are lists. *)

From stdpp Require Import gmap strings list fin_maps.
From Stdlib Require Import ZArith Lia.

Local Open Scope Z_scope.

(** ** What the two files import from elsewhere

    [vscode-uri], [comparePaths] of [common/paths-util], the engine's
    [String.prototype.localeCompare] and [Array.prototype.sort], and the
    values a plugin puts into [Command.arguments] are not part of the two
    files: they are an interface the model is parametric in. *)
Class Host := {
  Uri : Type;
  (** [uri.fsPath] *)
  fsPath : Uri -> string;
  (** [URI.file(path)] *)
  uri_file : string -> Uri;
  (** [uri.toString()] *)
  uri_toString : Uri -> string;
  (** [comparePaths(one, other, caseSensitive?)]; [None] when the call site
      leaves the third argument out. *)
  comparePaths : string -> string -> option bool -> Z;
  (** [a.localeCompare(b)] *)
  localeCompare : string -> string -> Z;
  (** an element of [Command.arguments] ([any] in the source) *)
  Arg : Type;
  (** [x === y] on two such elements *)
  arg_strict_eq : Arg -> Arg -> bool;
  (** [x < y] on two such elements *)
  arg_lt : Arg -> Arg -> bool;
  (** [array.sort(compare)]: the engine hands back the elements it was
      given; in which order is its own affair where [compare] is not a
      consistent comparator, so nothing more is asked of it here. *)
  array_sort : forall A : Type, (A -> A -> Z) -> list A -> list A;
  array_sort_perm :
    forall (A : Type) (compare : A -> A -> Z) (l : list A), array_sort A compare l ≡ₚ l;
}.
Arguments array_sort {_ _} _ _.
Arguments array_sort_perm {_ _} _ _.

(** ** JavaScript strings

    A string is held as its UTF-8 bytes. The relational operators compare
    two strings by their UTF-16 code units: a code point from U+10000 on is
    the two units of its surrogate pair. Bytes that are no UTF-8 are outside
    of what a JavaScript string is held as. *)
Definition units_of_code_point (c : N) : list N :=
  if (c <? 65536)%N then [c]
  else [(55296 + (c - 65536) / 1024)%N; (56320 + (c - 65536) mod 1024)%N].

(** [pending] bytes of the code point that has [acc] so far are still to
    come. *)
Fixpoint code_units_from (pending : nat) (acc : N) (bytes : list N) : list N :=
  match bytes with
  | [] => []
  | b :: rest =>
      match pending with
      | O =>
          if (b <? 128)%N then b :: code_units_from 0 0%N rest
          else if (b <? 224)%N then code_units_from 1 (b mod 32)%N rest
          else if (b <? 240)%N then code_units_from 2 (b mod 16)%N rest
          else code_units_from 3 (b mod 8)%N rest
      | S O => units_of_code_point (acc * 64 + b mod 64)%N ++ code_units_from 0 0%N rest
      | S n => code_units_from n (acc * 64 + b mod 64)%N rest
      end
  end.

Definition code_units (s : string) : list N :=
  code_units_from 0 0%N (Ascii.N_of_ascii <$> String.list_ascii_of_string s).

(** [a < b] on two arrays of code units: the first unit that differs
    decides, and a proper prefix is less. *)
Fixpoint units_lt (a b : list N) : bool :=
  match a, b with
  | _, [] => false
  | [], _ :: _ => true
  | x :: a', y :: b' =>
      if (x <? y)%N then true else if (y <? x)%N then false else units_lt a' b'
  end.

(** [a < b] on two strings. *)
Definition string_lt (a b : string) : bool := units_lt (code_units a) (code_units b).

Section DataModel.
Context `{Host}.

(** [iconPath?: string | Uri] *)
Inductive IconPath :=
  | IconString (s : string)
  | IconUri (u : Uri).

(** [theia.SourceControlResourceThemableDecorations] *)
Record ThemableDecorations := {
  td_iconPath : option IconPath;
}.

(** [theia.SourceControlResourceDecorations]; every field is optional in the
    API, so [undefined] and [false] (or the empty string) are distinct
    values. *)
Record ResourceDecorations := {
  rd_iconPath : option IconPath;
  rd_strikeThrough : option bool;
  rd_faded : option bool;
  rd_tooltip : option string;
  rd_light : option ThemableDecorations;
  rd_dark : option ThemableDecorations;
}.

(** An [arguments] array: [arr_id] is the identity of the array object
    (what [===] on two arrays compares), [arr_items] its content. *)
Record ArgArray := {
  arr_id : positive;
  arr_items : list Arg;
}.

(** [theia.Command] *)
Record Command := {
  cmd_command : option string;
  cmd_title : option string;
  cmd_tooltip : option string;
  cmd_arguments : option ArgArray;
}.

(** [theia.SourceControlResourceState] *)
Record ResourceState := {
  rs_resourceUri : Uri;
  rs_command : option Command;
  rs_decorations : option ResourceDecorations;
  rs_contextValue : option string;
}.

(** *** JavaScript operators used by the comparators *)

(** Truthiness of an optional boolean. *)
Definition truthy_bool (b : option bool) : bool :=
  match b with Some true => true | _ => false end.

(** Truthiness of [iconPath]: [undefined] and the empty string are falsy,
    an object is truthy. *)
Definition truthy_icon (p : option IconPath) : bool :=
  match p with
  | None => false
  | Some (IconString s) => negb (String.eqb s "")
  | Some (IconUri _) => true
  end.

(** [x || ''] on an optional string. *)
Definition or_empty (s : option string) : string :=
  match s with Some x => x | None => "" end.

(** [x !== y] on optional strings and optional booleans. *)
Definition strict_ne_string (x y : option string) : bool :=
  negb (bool_decide (x = y)).
Definition strict_ne_bool (x y : option bool) : bool :=
  negb (bool_decide (x = y)).

(** [x! < y!] on strings: code-unit order when both are strings; with
    [undefined] on either side the relational comparison is false. *)
Definition js_lt_string (x y : option string) : bool :=
  match x, y with
  | Some a, Some b => string_lt a b
  | _, _ => false
  end.

(** *** The comparators of scm.ts *)

Definition getIconResource (decorations : option ThemableDecorations) : option Uri :=
  match decorations with
  | None => None
  | Some d =>
      match td_iconPath d with
      | Some (IconString s) => Some (uri_file s)
      | Some (IconUri u) => Some u
      | None => None
      end
  end.

(** [typeof p === 'string' ? p : p.fsPath] *)
Definition iconPathString (p : IconPath) : string :=
  match p with
  | IconString s => s
  | IconUri u => fsPath u
  end.

Definition compareResourceThemableDecorations (a b : ThemableDecorations) : Z :=
  if negb (truthy_icon (td_iconPath a)) && negb (truthy_icon (td_iconPath b)) then 0
  else if negb (truthy_icon (td_iconPath a)) then -1
  else if negb (truthy_icon (td_iconPath b)) then 1
  else
    match td_iconPath a, td_iconPath b with
    | Some pa, Some pb => comparePaths (iconPathString pa) (iconPathString pb) None
    | _, _ => 0 (* not reached: both are truthy here *)
    end.

(** A [SourceControlResourceDecorations] read as the themable decorations it
    extends. *)
Definition themable (d : ResourceDecorations) : ThemableDecorations :=
  {| td_iconPath := rd_iconPath d |}.

Definition compareResourceStatesDecorations (a b : ResourceDecorations) : Z :=
  if strict_ne_bool (rd_strikeThrough a) (rd_strikeThrough b) then
    (if truthy_bool (rd_strikeThrough a) then 1 else -1)
  else if strict_ne_bool (rd_faded a) (rd_faded b) then
    (if truthy_bool (rd_faded a) then 1 else -1)
  else if strict_ne_string (rd_tooltip a) (rd_tooltip b) then
    localeCompare (or_empty (rd_tooltip a)) (or_empty (rd_tooltip b))
  else
    let result := compareResourceThemableDecorations (themable a) (themable b) in
    if negb (result =? 0) then result
    else
      (* the [light] stage: [inl r] carries on with [result = r],
         [inr r] has returned [r] *)
      let after_light : Z + Z :=
        match rd_light a, rd_light b with
        | Some la, Some lb => inl (compareResourceThemableDecorations la lb)
        | Some _, None => inr 1
        | None, Some _ => inr (-1)
        | None, None => inl result
        end in
      match after_light with
      | inr r => r
      | inl result =>
          if negb (result =? 0) then result
          else
            match rd_dark a, rd_dark b with
            | Some da, Some db => compareResourceThemableDecorations da db
            | Some _, None => 1
            | None, Some _ => -1
            | None, None => result
            end
      end.

(** The loop over the two argument arrays of [compareCommands]; it is only
    entered when the two arrays have the same length. *)
Fixpoint compareArguments (a b : list Arg) : Z :=
  match a, b with
  | x :: a', y :: b' =>
      if arg_strict_eq x y then compareArguments a' b'
      else if arg_lt x y then -1 else 1
  | _, _ => 0
  end.

Definition compareCommands (a b : Command) : Z :=
  if strict_ne_string (cmd_command a) (cmd_command b) then
    (if js_lt_string (cmd_command a) (cmd_command b) then -1 else 1)
  else if strict_ne_string (cmd_title a) (cmd_title b) then
    (if js_lt_string (cmd_title a) (cmd_title b) then -1 else 1)
  else
    let tooltip_stage : option Z :=
      if strict_ne_string (cmd_tooltip a) (cmd_tooltip b) then
        match cmd_tooltip a, cmd_tooltip b with
        | Some ta, Some tb => Some (if string_lt ta tb then -1 else 1)
        | Some _, None => Some 1
        | None, Some _ => Some (-1)
        | None, None => None
        end
      else None in
    match tooltip_stage with
    | Some r => r
    | None =>
        match cmd_arguments a, cmd_arguments b with
        | None, None => 0
        | None, Some _ => -1
        | Some _, None => 1
        | Some aa, Some ab =>
            if Pos.eqb (arr_id aa) (arr_id ab) then 0
            else if negb (length (arr_items aa) =? length (arr_items ab))%nat then
              Z.of_nat (length (arr_items aa)) - Z.of_nat (length (arr_items ab))
            else compareArguments (arr_items aa) (arr_items ab)
        end
    end.

Definition compareResourceStates (a b : ResourceState) : Z :=
  let result := comparePaths (fsPath (rs_resourceUri a)) (fsPath (rs_resourceUri b)) (Some true) in
  if negb (result =? 0) then result
  else
    let after_command : Z + Z :=
      match rs_command a, rs_command b with
      | Some ca, Some cb => inl (compareCommands ca cb)
      | Some _, None => inr 1
      | None, Some _ => inr (-1)
      | None, None => inl result
      end in
    match after_command with
    | inr r => r
    | inl result =>
        if negb (result =? 0) then result
        else
          match rs_decorations a, rs_decorations b with
          | Some da, Some db => compareResourceStatesDecorations da db
          | Some _, None => 1
          | None, Some _ => -1
          | None, None => result
          end
    end.

End DataModel.

(** ** Arrays *)

Section Arrays.
Context {A : Type}.

(** [Array.prototype.splice(start, deleteCount, ...items)] on integer
    arguments: a negative [start] counts from the end, both arguments are
    clamped to the array. Returns the array after the call and the removed
    elements. *)
Definition array_splice (l : list A) (start deleteCount : Z) (items : list A)
  : list A * list A :=
  let len := Z.of_nat (length l) in
  let actualStart := if start <? 0 then Z.max (len + start) 0 else Z.min start len in
  let actualDeleteCount := Z.min (Z.max deleteCount 0) (len - actualStart) in
  (take (Z.to_nat actualStart) l ++ items
     ++ drop (Z.to_nat (actualStart + actualDeleteCount)) l,
   take (Z.to_nat actualDeleteCount) (drop (Z.to_nat actualStart) l)).

(** A sort an engine may have: stable insertion from the right, which
    places an element before the first later element it does not compare
    greater than. The host of the examples sorts with it. *)
Fixpoint sort_insert (compare : A -> A -> Z) (x : A) (l : list A) : list A :=
  match l with
  | [] => [x]
  | y :: l' => if compare x y <=? 0 then x :: l else y :: sort_insert compare x l'
  end.

Definition insertion_sort (compare : A -> A -> Z) (l : list A) : list A :=
  foldr (sort_insert compare) [] l.

End Arrays.

(** [Splice<T>] of [common/arrays]. *)
Record Splice (T : Type) := mkSplice {
  start : Z;
  deleteCount : Z;
  toInsert : list T;
}.
Arguments mkSplice {T} _ _ _.
Arguments start {T} _.
Arguments deleteCount {T} _.
Arguments toInsert {T} _.

Section SortedDiff.
Context {T : Type}.

(** Modelled from the spec: [sortedDiff] of [common/arrays.ts], which is not
    under src/. "A classic sorted-array diff [...] is computed between the
    previous sorted snapshot and the new sorted snapshot, producing an
    ordered list of {start index, delete count, inserted items} edits
    against the *previous* array"; "computing the diff twice against an
    unchanged declared list yields an empty splice set". The walk keeps one
    cursor per array; an edit that removes nothing and inserts nothing is
    not recorded, and an edit that starts where the latest one ends extends
    it. *)
Definition pushSplice (result : list (Splice T)) (start0 deleteCount0 : Z)
    (toInsert0 : list T) : list (Splice T) :=
  if (deleteCount0 =? 0) && bool_decide (length toInsert0 = 0%nat) then result
  else
    match last result with
    | Some latest =>
        if start latest + deleteCount latest =? start0 then
          removelast result
            ++ [mkSplice (start latest) (deleteCount latest + deleteCount0)
                  (toInsert latest ++ toInsert0)]
        else result ++ [mkSplice start0 deleteCount0 toInsert0]
    | None => result ++ [mkSplice start0 deleteCount0 toInsert0]
    end.

(** [before] and [after] are what is left of the two arrays from the cursors
    on; [beforeIdx] is the cursor into the previous array. *)
Fixpoint sortedDiff_from (compare : T -> T -> Z) (before after : list T)
    (beforeIdx : Z) (result : list (Splice T)) {struct before} : list (Splice T) :=
  match before with
  | [] => pushSplice result beforeIdx 0 after
  | beforeElement :: before' =>
      (fix scan (after : list T) (result : list (Splice T)) {struct after} :=
         match after with
         | [] => pushSplice result beforeIdx (Z.of_nat (length before)) []
         | afterElement :: after' =>
             let n := compare beforeElement afterElement in
             if n =? 0 then
               sortedDiff_from compare before' after' (beforeIdx + 1) result
             else if n <? 0 then
               sortedDiff_from compare before' after (beforeIdx + 1)
                 (pushSplice result beforeIdx 1 [])
             else
               scan after' (pushSplice result beforeIdx 0 [afterElement])
         end) after result
  end.

Definition sortedDiff (before after : list T) (compare : T -> T -> Z)
  : list (Splice T) :=
  sortedDiff_from compare before after 0 [].

End SortedDiff.

(** ** Replaying splices *)

Section Replay.
Context {A : Type}.

(** Left-to-right sequential semantics: every splice is applied to the list
    the splices before it have produced. *)
Definition replay (splices : list (Splice A)) (l : list A) : list A :=
  foldl (fun l s => (array_splice l (start s) (deleteCount s) (toInsert s)).1) l splices.

(** Splices in the order they are applied, each one ending at or before the
    position the one applied before it starts at, the first one ending at or
    before [bound]. *)
Fixpoint ascending (applied : list (Splice A)) (bound : Z) : Prop :=
  match applied with
  | [] => 0 <= bound
  | s :: applied' =>
      0 <= deleteCount s /\ start s + deleteCount s <= bound
      /\ ascending applied' (start s)
  end.

(** The same splices with the inserted items translated. *)
Definition splice_map {B : Type} (f : A -> B) (s : Splice A) : Splice B :=
  mkSplice (start s) (deleteCount s) (f <$> toInsert s).

End Replay.

(** ** The wire format and the command converter *)

Section Wire.
Context `{Host}.

(** The two identifiers scm.ts forwards through the converter. *)
Definition trustedCommand (id : option string) : bool :=
  bool_decide (id = Some "theia.open") || bool_decide (id = Some "theia.diff").

(** Modelled from the spec: the command descriptor that crosses the wire and
    [CommandsConverter.toSafeCommand] of [plugin/command-registry.ts], which
    is not under src/. "If the command is one of a small set of built-in,
    trusted identifiers it is forwarded as a plain descriptor; any other
    command is registered behind an opaque, disposably-scoped proxy so that
    the Mirror Side can invoke it only through the registry". *)
Inductive SafeCommand :=
  | PlainCommand (c : Command)
  | ProxyCommand (title tooltip : option string) (proxy : Z).

(** What a [DisposableCollection] of the converter holds: the removal of one
    proxy from the registry. *)
Inductive Disposable :=
  | DisposeProxy (proxy : Z).

Record CommandsConverter := mkConverter {
  conv_handle : Z;
  conv_commandsMap : gmap Z Command;
}.

Definition toSafeCommand (conv : CommandsConverter) (c : Command)
    (disposables : list Disposable)
  : SafeCommand * CommandsConverter * list Disposable :=
  if trustedCommand (cmd_command c) then (PlainCommand c, conv, disposables)
  else
    let id := conv_handle conv in
    (ProxyCommand (cmd_title c) (cmd_tooltip c) id,
     mkConverter (id + 1) (<[id := c]> (conv_commandsMap conv)),
     disposables ++ [DisposeProxy id]).

(** [collection.dispose()]: every proxy of the collection leaves the
    registry. *)
Definition disposeAll (conv : CommandsConverter) (disposables : list Disposable)
  : CommandsConverter :=
  foldl (fun c d => match d with
                    | DisposeProxy id =>
                        mkConverter (conv_handle c) (delete id (conv_commandsMap c))
                    end) conv disposables.

(** [ScmRawResource] as scm.ts builds it: the object literal
    [{ handle, sourceUri, icons, tooltip, strikeThrough, faded, contextValue, command }]. *)
Record ScmRawResource := mkRaw {
  raw_handle : Z;
  raw_sourceUri : Uri;
  raw_icons : list Uri;
  raw_tooltip : string;
  raw_strikeThrough : option bool;
  raw_faded : option bool;
  raw_contextValue : string;
  raw_command : option SafeCommand;
}.

(** [ScmRawResourceSplice] as scm.ts builds it: the object literal
    [{ start, deleteCount, rawResources }]. *)
Definition ScmRawResourceSplice := Splice ScmRawResource.

(** [ScmRawResourceSplices] as scm.ts builds it: the object literal
    [{ handle, splices }] with the splices of one group. *)
Record ScmRawResourceSplices := mkGroupSplices {
  gs_handle : Z;
  gs_splices : list ScmRawResourceSplice;
}.

(** [SCMRawResourceSplices] as scm-main.ts takes it apart: arrays, read by
    position. A raw resource is
    [[handle, sourceUri, icons, tooltip, strikeThrough, faded, contextValue, command]],
    a splice is [[start, deleteCount, rawResources]], and the splices of one
    group are [[groupHandle, groupSlices]]. *)
Record SCMRawResource := mkRawTuple {
  tuple_handle : Z;
  tuple_sourceUri : Uri;
  tuple_icons : list Uri;
  tuple_tooltip : string;
  tuple_strikeThrough : option bool;
  tuple_faded : option bool;
  tuple_contextValue : string;
  tuple_command : option SafeCommand;
}.

Definition SCMRawResourceSplice := Splice SCMRawResource.

Record SCMRawResourceSplices := mkGroupSlices {
  slices_groupHandle : Z;
  slices_groupSlices : list SCMRawResourceSplice;
}.

(** An element of the [splices] that [$spliceGroupResourceStates] is handed:
    an array as above, or an object literal as scm.ts builds it. The array
    pattern of [for (const [groupHandle, groupSlices] of splices)] takes the
    first apart and throws a [TypeError] on the second, which is not
    iterable. *)
Inductive ReceivedSplices :=
  | ObjectLiteral (o : ScmRawResourceSplices)
  | TupleArray (t : SCMRawResourceSplices).

(** [SourceControlGroupFeatures]: [hideWhenEmpty] is [None] when the object
    has no such key and [Some v] when it has it with value [v] (which may be
    [undefined]). *)
Record SourceControlGroupFeatures := mkGroupFeatures {
  hideWhenEmpty : option (option bool);
}.

(** [SourceControlProviderFeatures]; in a patch a field is [None] when the
    key is absent and [Some v] when it is present with value [v]. *)
Record SourceControlProviderFeatures := mkFeatures {
  hasQuickDiffProvider : option (option bool);
  count : option (option Z);
  commitTemplate : option (option string);
  acceptInputCommand : option (option SafeCommand);
  statusBarCommands : option (option (list SafeCommand));
}.

(** One entry of the [groups] argument of [$registerGroups]. *)
Record GroupEntry := mkGroupEntry {
  ge_handle : Z;
  ge_id : string;
  ge_label : string;
  ge_features : SourceControlGroupFeatures;
}.

End Wire.

(** A loop that may throw: it got through, or it threw; either way with
    what it has done to the state by then. *)
Inductive Run (S : Type) :=
  | Through (s : S)
  | Thrown (s : S).
Arguments Through {S} _.
Arguments Thrown {S} _.

Definition left_behind {S : Type} (r : Run S) : S :=
  match r with Through s | Thrown s => s end.

(** A JavaScript [map] whose callback has side effects: the state is
    threaded through the calls from left to right. *)
Fixpoint map_state {S A B : Type} (f : S -> A -> B * S) (s : S) (l : list A)
  : list B * S :=
  match l with
  | [] => ([], s)
  | x :: l' =>
      let '(y, s1) := f s x in
      let '(ys, s2) := map_state f s1 l' in
      (y :: ys, s2)
  end.

(** A [Map] whose iteration order matters: [get], [set] (in place when the
    key is there, at the end when it is not) and [delete]. *)
Section InsertionOrder.
Context {K V : Type} `{EqDecision K}.

Fixpoint map_get (m : list (K * V)) (k : K) : option V :=
  match m with
  | [] => None
  | (k', v) :: m' => if decide (k' = k) then Some v else map_get m' k
  end.

Fixpoint map_set (m : list (K * V)) (k : K) (v : V) : list (K * V) :=
  match m with
  | [] => [(k, v)]
  | (k', v') :: m' =>
      if decide (k' = k) then (k, v) :: m' else (k', v') :: map_set m' k v
  end.

Definition map_delete (m : list (K * V)) (k : K) : list (K * V) :=
  filter (fun kv => kv.1 <> k) m.

(** A [Set] in insertion order: [add] and [delete]. *)
Definition set_add (s : list K) (k : K) : list K :=
  if decide (k ∈ s) then s else s ++ [k].

Definition set_delete (s : list K) (k : K) : list K :=
  filter (fun k' => k' <> k) s.

(** [disposable.dispose()] of the disposable an emitter returned for a
    listener: the listener is taken off the emitter. *)
Fixpoint remove_listener (l : list K) (k : K) : list K :=
  match l with
  | [] => []
  | k' :: l' => if decide (k' = k) then l' else k' :: remove_listener l' k
  end.

End InsertionOrder.

(** [(x && y) || z] on values that are [undefined] or an object. *)
Definition or_else {A : Type} (x y : option A) : option A :=
  match x with Some _ => x | None => y end.

(** ** The provider side: the objects of scm.ts *)

(** A promise as the caller of a wire operation sees it. *)
Inductive Promise (R : Type) :=
  | Resolved (r : R)
  | Rejected
  | Pending.
Arguments Resolved {R} _.
Arguments Rejected {R}.
Arguments Pending {R}.

Section ProviderObjects.
Context `{Host}.

(** The callbacks a source control registers on its groups. Objects live in
    a store and are named by their position in it; the callbacks name the
    source control that registered them.
    - [MarkUpdated]: [() => { this.updatedResourceGroups.add(group);
      this.eventuallyUpdateResourceStates(); }]
    - [ForgetCreated]: [() => this.createdResourceGroups.delete(group)]
    - [Unregister]: the callback added by [eventuallyAddResourceGroups]. *)
Inductive UpdateListener :=
  | MarkUpdated (owner : nat).
Inductive DisposeListener :=
  | ForgetCreated (owner : nat)
  | Unregister (owner : nat).

#[global] Instance UpdateListener_eq_dec : EqDecision UpdateListener.
Proof. solve_decision. Defined.
#[global] Instance DisposeListener_eq_dec : EqDecision DisposeListener.
Proof. solve_decision. Defined.

(** [ExtHostSourceControlResourceGroup] *)
Record Group := mkGroup {
  (** [readonly handle = ExtHostSourceControlResourceGroup._handlePool++] *)
  handle : Z;
  _sourceControlHandle : Z;
  _id : string;
  _label : string;
  _hideWhenEmpty : option bool;
  _resourceHandlePool : Z;
  _resourceStates : list ResourceState;
  _resourceStatesMap : gmap Z ResourceState;
  _resourceStatesCommandsMap : gmap Z Command;
  _resourceStatesDisposablesMap : gmap Z (list Disposable);
  (** the listeners of the emitter, in the order they were added *)
  _onDidUpdateResourceStates : list UpdateListener;
  _disposed : bool;
  _onDidDispose : list DisposeListener;
  _handlesSnapshot : list Z;
  _resourceSnapshot : list ResourceState;
}.

Definition set_resourceHandlePool (v : Z) (x : Group) : Group :=
  mkGroup (handle x) (_sourceControlHandle x) (_id x) (_label x)
    (_hideWhenEmpty x) v (_resourceStates x) (_resourceStatesMap x)
    (_resourceStatesCommandsMap x) (_resourceStatesDisposablesMap x)
    (_onDidUpdateResourceStates x) (_disposed x) (_onDidDispose x)
    (_handlesSnapshot x) (_resourceSnapshot x) .
Definition set_resourceStates (v : list ResourceState) (x : Group) : Group :=
  mkGroup (handle x) (_sourceControlHandle x) (_id x) (_label x)
    (_hideWhenEmpty x) (_resourceHandlePool x) v (_resourceStatesMap x)
    (_resourceStatesCommandsMap x) (_resourceStatesDisposablesMap x)
    (_onDidUpdateResourceStates x) (_disposed x) (_onDidDispose x)
    (_handlesSnapshot x) (_resourceSnapshot x) .
Definition set_resourceStatesMap (v : gmap Z ResourceState) (x : Group) : Group :=
  mkGroup (handle x) (_sourceControlHandle x) (_id x) (_label x)
    (_hideWhenEmpty x) (_resourceHandlePool x) (_resourceStates x) v
    (_resourceStatesCommandsMap x) (_resourceStatesDisposablesMap x)
    (_onDidUpdateResourceStates x) (_disposed x) (_onDidDispose x)
    (_handlesSnapshot x) (_resourceSnapshot x) .
Definition set_resourceStatesCommandsMap (v : gmap Z Command) (x : Group) : Group :=
  mkGroup (handle x) (_sourceControlHandle x) (_id x) (_label x)
    (_hideWhenEmpty x) (_resourceHandlePool x) (_resourceStates x)
    (_resourceStatesMap x) v (_resourceStatesDisposablesMap x)
    (_onDidUpdateResourceStates x) (_disposed x) (_onDidDispose x)
    (_handlesSnapshot x) (_resourceSnapshot x) .
Definition set_resourceStatesDisposablesMap (v : gmap Z (list Disposable)) (x : Group) : Group :=
  mkGroup (handle x) (_sourceControlHandle x) (_id x) (_label x)
    (_hideWhenEmpty x) (_resourceHandlePool x) (_resourceStates x)
    (_resourceStatesMap x) (_resourceStatesCommandsMap x) v
    (_onDidUpdateResourceStates x) (_disposed x) (_onDidDispose x)
    (_handlesSnapshot x) (_resourceSnapshot x) .
Definition set_onDidUpdateResourceStates (v : list UpdateListener) (x : Group) : Group :=
  mkGroup (handle x) (_sourceControlHandle x) (_id x) (_label x)
    (_hideWhenEmpty x) (_resourceHandlePool x) (_resourceStates x)
    (_resourceStatesMap x) (_resourceStatesCommandsMap x)
    (_resourceStatesDisposablesMap x) v (_disposed x) (_onDidDispose x)
    (_handlesSnapshot x) (_resourceSnapshot x) .
Definition set_disposed (v : bool) (x : Group) : Group :=
  mkGroup (handle x) (_sourceControlHandle x) (_id x) (_label x)
    (_hideWhenEmpty x) (_resourceHandlePool x) (_resourceStates x)
    (_resourceStatesMap x) (_resourceStatesCommandsMap x)
    (_resourceStatesDisposablesMap x) (_onDidUpdateResourceStates x) v
    (_onDidDispose x) (_handlesSnapshot x) (_resourceSnapshot x) .
Definition set_onDidDispose (v : list DisposeListener) (x : Group) : Group :=
  mkGroup (handle x) (_sourceControlHandle x) (_id x) (_label x)
    (_hideWhenEmpty x) (_resourceHandlePool x) (_resourceStates x)
    (_resourceStatesMap x) (_resourceStatesCommandsMap x)
    (_resourceStatesDisposablesMap x) (_onDidUpdateResourceStates x)
    (_disposed x) v (_handlesSnapshot x) (_resourceSnapshot x) .
Definition set_handlesSnapshot (v : list Z) (x : Group) : Group :=
  mkGroup (handle x) (_sourceControlHandle x) (_id x) (_label x)
    (_hideWhenEmpty x) (_resourceHandlePool x) (_resourceStates x)
    (_resourceStatesMap x) (_resourceStatesCommandsMap x)
    (_resourceStatesDisposablesMap x) (_onDidUpdateResourceStates x)
    (_disposed x) (_onDidDispose x) v (_resourceSnapshot x) .
Definition set_resourceSnapshot (v : list ResourceState) (x : Group) : Group :=
  mkGroup (handle x) (_sourceControlHandle x) (_id x) (_label x)
    (_hideWhenEmpty x) (_resourceHandlePool x) (_resourceStates x)
    (_resourceStatesMap x) (_resourceStatesCommandsMap x)
    (_resourceStatesDisposablesMap x) (_onDidUpdateResourceStates x)
    (_disposed x) (_onDidDispose x) (_handlesSnapshot x) v.

(** [new ExtHostSourceControlResourceGroup(proxy, commands, sourceControlHandle, id, label)]
    with the handle the static pool hands out. *)
Definition newGroup (handle0 sourceControlHandle : Z) (id label : string) : Group :=
  mkGroup handle0 sourceControlHandle id label None 0 [] ∅ ∅ ∅ [] false [] [] [].

End ProviderObjects.

Module ExtHostSourceControlResourceGroup.
Section Methods.
Context `{Host}.

(** [$executeResourceCommand(handle, preserveFocus)]: what it hands to
    [this._commands.executeCommand]. *)
Record Execution := mkExecution {
  exec_command : option string;
  exec_arguments : list Arg;
  exec_preserveFocus : bool;
}.

(** [set resourceStates(resources)], up to the firing of
    [_onDidUpdateResourceStates], which is the caller's part. *)
Definition assignResourceStates (resources : list ResourceState) (g : Group) : Group :=
  set_resourceStates resources g.

Definition getResourceState (g : Group) (handle0 : Z) : option ResourceState :=
  _resourceStatesMap g !! handle0.

(** The promise of the second branch never settles: its executor calls
    [executeCommand] and neither [resolve] nor [reject]. *)
Definition executeResourceCommand (g : Group) (handle0 : Z) (preserveFocus : bool)
  : Promise unit * option Execution :=
  match _resourceStatesCommandsMap g !! handle0 with
  | None => (Resolved tt, None)
  | Some command =>
      (Pending,
       Some (mkExecution (cmd_command command)
               (match cmd_arguments command with
                | Some a => arr_items a
                | None => []
                end)
               preserveFocus))
  end.

(** The fields of the encoded resource that the callback of
    [diff.toInsert.map] computes from [r] alone, around the [command] it has
    decided on. *)
Definition rawResourceWith (handle0 : Z) (r : ResourceState)
    (command : option SafeCommand) : ScmRawResource :=
  let sourceUri := rs_resourceUri r in
  let iconUri := getIconResource (themable <$> rs_decorations r) in
  let lightIconUri :=
    or_else (rs_decorations r ≫= fun d => getIconResource (rd_light d)) iconUri in
  let darkIconUri :=
    or_else (rs_decorations r ≫= fun d => getIconResource (rd_dark d)) iconUri in
  let icons :=
    match lightIconUri with Some u => [u] | None => [] end
    ++ match darkIconUri with
       | Some d =>
           if negb (bool_decide (Some (uri_toString d) = uri_toString <$> lightIconUri))
           then [d] else []
       | None => []
       end in
  let tooltip := or_empty (rs_decorations r ≫= rd_tooltip) in
  let strikeThrough := (fun d => truthy_bool (rd_strikeThrough d)) <$> rs_decorations r in
  let faded := (fun d => truthy_bool (rd_faded d)) <$> rs_decorations r in
  let contextValue := or_empty (rs_contextValue r) in
  mkRaw handle0 sourceUri icons tooltip strikeThrough faded contextValue command.

(** The callback of [diff.toInsert.map] in [_takeResourceStateSnapshot]: it
    allocates the handle of [r], records [r] and its command, and encodes
    [r] for the wire. The state it works on is the group and the command
    converter. *)
Definition encodeInserted (st : Group * CommandsConverter) (r : ResourceState)
  : (ScmRawResource * Z) * (Group * CommandsConverter) :=
  let '(g, conv) := st in
  let handle0 := _resourceHandlePool g in
  let g := set_resourceHandlePool (handle0 + 1) g in
  let g := set_resourceStatesMap (<[handle0 := r]> (_resourceStatesMap g)) g in
  let '(command, g, conv) :=
    match rs_command r with
    | Some c =>
        if trustedCommand (cmd_command c) then
          let '(safe, conv', disposables) := toSafeCommand conv c [] in
          (Some safe,
           set_resourceStatesDisposablesMap
             (<[handle0 := disposables]> (_resourceStatesDisposablesMap g)) g,
           conv')
        else
          (None,
           set_resourceStatesCommandsMap
             (<[handle0 := c]> (_resourceStatesCommandsMap g)) g,
           conv)
    | None => (None, g, conv)
    end in
  let rawResource := rawResourceWith handle0 r command in
  ((rawResource, handle0), (g, conv)).

(** The body of [for (const handle of handlesToDelete)]. *)
Definition retireHandle (st : Group * CommandsConverter) (handle0 : Z)
  : Group * CommandsConverter :=
  let '(g, conv) := st in
  let disposables := _resourceStatesDisposablesMap g !! handle0 in
  let g := set_resourceStatesMap (delete handle0 (_resourceStatesMap g)) g in
  let g := set_resourceStatesCommandsMap (delete handle0 (_resourceStatesCommandsMap g)) g in
  let conv := match disposables with
              | Some d => disposeAll conv d
              | None => conv
              end in
  let g := set_resourceStatesDisposablesMap
             (delete handle0 (_resourceStatesDisposablesMap g)) g in
  (g, conv).

(** The body of [for (const { start, deleteCount, toInsert } of reverseSplices)]. *)
Definition applyToHandles (st : Group * CommandsConverter)
    (s : Splice (ScmRawResource * Z)) : Group * CommandsConverter :=
  let '(g, conv) := st in
  let handles := snd <$> toInsert s in
  let '(kept, handlesToDelete) :=
    array_splice (_handlesSnapshot g) (start s) (deleteCount s) handles in
  let g := set_handlesSnapshot kept g in
  foldl retireHandle (g, conv) handlesToDelete.

Definition _takeResourceStateSnapshot (g : Group) (conv : CommandsConverter)
  : list ScmRawResourceSplice * Group * CommandsConverter :=
  let snapshot := array_sort compareResourceStates (_resourceStates g) in
  let diffs := sortedDiff (_resourceSnapshot g) snapshot compareResourceStates in
  let '(splices, st) :=
    map_state
      (fun st diff =>
         let '(toInsert0, st) := map_state encodeInserted st (toInsert diff) in
         (mkSplice (start diff) (deleteCount diff) toInsert0, st))
      (g, conv) diffs in
  let rawResourceSplices :=
    (fun s => mkSplice (start s) (deleteCount s) (fst <$> toInsert s)) <$> splices in
  let reverseSplices := rev splices in
  let '(g, conv) := foldl applyToHandles st reverseSplices in
  let g := set_resourceSnapshot snapshot g in
  (rawResourceSplices, g, conv).

End Methods.
End ExtHostSourceControlResourceGroup.

(** ** The provider side: source controls and the extension-host service *)

Section ProviderWorld.
Context `{Host}.

(** The calls of [ScmMain] that cross the wire. *)
Inductive MainCall :=
  | Main_registerSourceControl (handle0 : Z) (id label : string) (rootUri : option Uri)
  | Main_updateSourceControl (handle0 : Z) (features : SourceControlProviderFeatures)
  | Main_unregisterSourceControl (handle0 : Z)
  | Main_registerGroups (sourceControlHandle : Z) (groups0 : list GroupEntry)
      (splices : list ScmRawResourceSplices)
  | Main_updateGroup (sourceControlHandle groupHandle : Z)
      (features : SourceControlGroupFeatures)
  | Main_updateGroupLabel (sourceControlHandle groupHandle : Z) (label : string)
  | Main_spliceResourceStates (sourceControlHandle : Z)
      (splices : list ScmRawResourceSplices)
  | Main_unregisterGroup (sourceControlHandle groupHandle : Z)
  | Main_setInputBoxValue (sourceControlHandle : Z) (value : string)
  | Main_setInputBoxPlaceholder (sourceControlHandle : Z) (placeholder : string)
  | Main_setInputBoxVisibility (sourceControlHandle : Z) (visible : bool).

(** What the emitters the plugin listens to fire; source controls are named
    by their position in the store. *)
Inductive PluginEvent :=
  | DidChangeSelection (sourceControl : nat) (selected : bool)
  | InputBoxDidChange (sourceControl : nat) (value : string).

(** [theia.QuickDiffProvider] *)
Record QuickDiffProvider := mkQuickDiff {
  provideOriginalResource : option (Uri -> option Uri);
}.

(** [ScmInputBoxImpl] *)
Record ScmInputBoxImpl := mkInputBox {
  _value : string;
  _placeholder : string;
  (** the plugin's validation function: text and cursor position to a message and its severity, or nothing *)
  _validateInput : option (string -> Z -> Promise (option (string * Z)));
  ib_sourceControlHandle : Z;
}.

(** [ExtHostSourceControl], without the fields behind the setters that are
    not modelled ([count], [commitTemplate], [acceptInputCommand],
    [statusBarCommands]). *)
Record SourceControl := mkSourceControl {
  (** [private handle = ExtHostSourceControl._handlePool++] *)
  sc_handle : Z;
  sc_id : string;
  sc_label : string;
  sc_rootUri : option Uri;
  _inputBox : ScmInputBoxImpl;
  _quickDiffProvider : option QuickDiffProvider;
  _selected : bool;
  (** a [Map] from group handles to group objects, in insertion order *)
  _groups : list (Z * nat);
  (** a [Map] from group objects to the disposable of the listener named, in insertion order *)
  createdResourceGroups : list (nat * DisposeListener);
  (** a [Set] of group objects, in insertion order *)
  updatedResourceGroups : list nat;
}.

Definition set_inputBox (v : ScmInputBoxImpl) (x : SourceControl) : SourceControl :=
  mkSourceControl (sc_handle x) (sc_id x) (sc_label x) (sc_rootUri x) v
    (_quickDiffProvider x) (_selected x) (_groups x) (createdResourceGroups x)
    (updatedResourceGroups x).
Definition set_selected (v : bool) (x : SourceControl) : SourceControl :=
  mkSourceControl (sc_handle x) (sc_id x) (sc_label x) (sc_rootUri x)
    (_inputBox x) (_quickDiffProvider x) v (_groups x)
    (createdResourceGroups x) (updatedResourceGroups x).
Definition set_groups (v : list (Z * nat)) (x : SourceControl) : SourceControl :=
  mkSourceControl (sc_handle x) (sc_id x) (sc_label x) (sc_rootUri x)
    (_inputBox x) (_quickDiffProvider x) (_selected x) v
    (createdResourceGroups x) (updatedResourceGroups x).
Definition set_createdResourceGroups (v : list (nat * DisposeListener)) (x : SourceControl) : SourceControl :=
  mkSourceControl (sc_handle x) (sc_id x) (sc_label x) (sc_rootUri x)
    (_inputBox x) (_quickDiffProvider x) (_selected x) (_groups x) v
    (updatedResourceGroups x).
Definition set_updatedResourceGroups (v : list nat) (x : SourceControl) : SourceControl :=
  mkSourceControl (sc_handle x) (sc_id x) (sc_label x) (sc_rootUri x)
    (_inputBox x) (_quickDiffProvider x) (_selected x) (_groups x)
    (createdResourceGroups x) v.

(** The extension host: the static handle pools, the objects, the one
    [ScmExtImpl], and what has left it. *)
Record ExtWorld := mkExtWorld {
  (** [ExtHostSourceControlResourceGroup._handlePool] *)
  Group_handlePool : Z;
  (** [ExtHostSourceControl._handlePool] *)
  SourceControl_handlePool : Z;
  (** [ScmExtImpl._handlePool] *)
  ScmExt_handlePool : Z;
  (** the group objects created so far *)
  groupStore : list Group;
  (** the source control objects created so far *)
  sourceControlStore : list SourceControl;
  _sourceControls : gmap Z nat;
  _selectedSourceControlHandle : option Z;
  _commands : CommandsConverter;
  (** the calls made on the [ScmMain] proxy, oldest first *)
  outbox : list MainCall;
  (** what the listeners of the plugin were called with, oldest first, each with the source control objects as they were at that moment *)
  observed : list (PluginEvent * list SourceControl);
  (** the commands handed to [executeCommand], oldest first *)
  executed : list ExtHostSourceControlResourceGroup.Execution;
}.

Definition put_Group_handlePool (v : Z) (x : ExtWorld) : ExtWorld :=
  mkExtWorld v (SourceControl_handlePool x) (ScmExt_handlePool x)
    (groupStore x) (sourceControlStore x) (_sourceControls x)
    (_selectedSourceControlHandle x) (_commands x) (outbox x) (observed x)
    (executed x).
Definition put_SourceControl_handlePool (v : Z) (x : ExtWorld) : ExtWorld :=
  mkExtWorld (Group_handlePool x) v (ScmExt_handlePool x) (groupStore x)
    (sourceControlStore x) (_sourceControls x) (_selectedSourceControlHandle x)
    (_commands x) (outbox x) (observed x) (executed x).
Definition put_ScmExt_handlePool (v : Z) (x : ExtWorld) : ExtWorld :=
  mkExtWorld (Group_handlePool x) (SourceControl_handlePool x) v (groupStore x)
    (sourceControlStore x) (_sourceControls x) (_selectedSourceControlHandle x)
    (_commands x) (outbox x) (observed x) (executed x).
Definition put_groupStore (v : list Group) (x : ExtWorld) : ExtWorld :=
  mkExtWorld (Group_handlePool x) (SourceControl_handlePool x)
    (ScmExt_handlePool x) v (sourceControlStore x) (_sourceControls x)
    (_selectedSourceControlHandle x) (_commands x) (outbox x) (observed x)
    (executed x).
Definition put_sourceControlStore (v : list SourceControl) (x : ExtWorld) : ExtWorld :=
  mkExtWorld (Group_handlePool x) (SourceControl_handlePool x)
    (ScmExt_handlePool x) (groupStore x) v (_sourceControls x)
    (_selectedSourceControlHandle x) (_commands x) (outbox x) (observed x)
    (executed x).
Definition put_sourceControls (v : gmap Z nat) (x : ExtWorld) : ExtWorld :=
  mkExtWorld (Group_handlePool x) (SourceControl_handlePool x)
    (ScmExt_handlePool x) (groupStore x) (sourceControlStore x) v
    (_selectedSourceControlHandle x) (_commands x) (outbox x) (observed x)
    (executed x).
Definition put_selectedSourceControlHandle (v : option Z) (x : ExtWorld) : ExtWorld :=
  mkExtWorld (Group_handlePool x) (SourceControl_handlePool x)
    (ScmExt_handlePool x) (groupStore x) (sourceControlStore x)
    (_sourceControls x) v (_commands x) (outbox x) (observed x) (executed x).
Definition put_commands (v : CommandsConverter) (x : ExtWorld) : ExtWorld :=
  mkExtWorld (Group_handlePool x) (SourceControl_handlePool x)
    (ScmExt_handlePool x) (groupStore x) (sourceControlStore x)
    (_sourceControls x) (_selectedSourceControlHandle x) v (outbox x)
    (observed x) (executed x).
Definition put_outbox (v : list MainCall) (x : ExtWorld) : ExtWorld :=
  mkExtWorld (Group_handlePool x) (SourceControl_handlePool x)
    (ScmExt_handlePool x) (groupStore x) (sourceControlStore x)
    (_sourceControls x) (_selectedSourceControlHandle x) (_commands x) v
    (observed x) (executed x).
Definition put_observed (v : list (PluginEvent * list SourceControl)) (x : ExtWorld) : ExtWorld :=
  mkExtWorld (Group_handlePool x) (SourceControl_handlePool x)
    (ScmExt_handlePool x) (groupStore x) (sourceControlStore x)
    (_sourceControls x) (_selectedSourceControlHandle x) (_commands x)
    (outbox x) v (executed x).
Definition put_executed (v : list ExtHostSourceControlResourceGroup.Execution) (x : ExtWorld) : ExtWorld :=
  mkExtWorld (Group_handlePool x) (SourceControl_handlePool x)
    (ScmExt_handlePool x) (groupStore x) (sourceControlStore x)
    (_sourceControls x) (_selectedSourceControlHandle x) (_commands x)
    (outbox x) (observed x) v.

(** The extension host before anything was created. *)
Definition initialWorld : ExtWorld :=
  mkExtWorld 0 0 0 [] [] ∅ None (mkConverter 0 ∅) [] [] [].

(** [proxy.$...(...)] *)
Definition send (call : MainCall) (w : ExtWorld) : ExtWorld :=
  put_outbox (outbox w ++ [call]) w.

(** [emitter.fire(...)] towards the plugin. *)
Definition notify (event : PluginEvent) (w : ExtWorld) : ExtWorld :=
  put_observed (observed w ++ [(event, sourceControlStore w)]) w.

(** In-place changes of the object at a position of a store. *)
Definition updateGroupAt (i : nat) (f : Group -> Group) (w : ExtWorld) : ExtWorld :=
  put_groupStore (alter f i (groupStore w)) w.

Definition updateSourceControlAt (i : nat) (f : SourceControl -> SourceControl)
    (w : ExtWorld) : ExtWorld :=
  put_sourceControlStore (alter f i (sourceControlStore w)) w.

End ProviderWorld.

Module ExtHostSourceControl.
Section Methods.
Context `{Host}.
Import ExtHostSourceControlResourceGroup.

Definition getResourceGroup (sc : SourceControl) (handle0 : Z) : option nat :=
  map_get (_groups sc) handle0.

(** [get features()] of a group. *)
Definition features (g : Group) : SourceControlGroupFeatures :=
  mkGroupFeatures (Some (_hideWhenEmpty g)).

(** [group._takeResourceStateSnapshot()] on the group object at [group]. *)
Definition takeSnapshotAt (group : nat) (w : ExtWorld)
  : option (list ScmRawResourceSplice * Group) * ExtWorld :=
  match groupStore w !! group with
  | None => (None, w)
  | Some g =>
      let '(snapshot, g, conv) := _takeResourceStateSnapshot g (_commands w) in
      (Some (snapshot, g), put_commands conv (put_groupStore (<[group := g]> (groupStore w)) w))
  end.

(** The debounce decorator of this method is commented out in the source:
    a call runs the body at once. *)
Definition eventuallyUpdateResourceStates (this : nat) (w : ExtWorld) : ExtWorld :=
  match sourceControlStore w !! this with
  | None => w
  | Some sc =>
      let '(splices, w) :=
        foldl
          (fun '(splices, w) group =>
             match takeSnapshotAt group w with
             | (Some (snapshot, g), w) =>
                 if bool_decide (length snapshot = 0%nat) then (splices, w)
                 else (splices ++ [mkGroupSplices (handle g) snapshot], w)
             | (None, w) => (splices, w)
             end)
          ([], w) (updatedResourceGroups sc) in
      let w :=
        if bool_decide (0 < length splices)%nat
        then send (Main_spliceResourceStates (sc_handle sc) splices) w
        else w in
      updateSourceControlAt this (set_updatedResourceGroups []) w
  end.

(** The listener [eventuallyAddResourceGroups] puts on
    [group.onDidUpdateResourceStates]. *)
Definition onDidUpdateResourceStates (this group : nat) (w : ExtWorld) : ExtWorld :=
  let w :=
    updateSourceControlAt this
      (fun sc => set_updatedResourceGroups (set_add (updatedResourceGroups sc) group) sc) w in
  eventuallyUpdateResourceStates this w.

(** The body of the loop of [eventuallyAddResourceGroups] for one entry of
    [createdResourceGroups]. *)
Definition addResourceGroup (this : nat)
    (st : list GroupEntry * list ScmRawResourceSplices * ExtWorld)
    (entry : nat * DisposeListener)
  : list GroupEntry * list ScmRawResourceSplices * ExtWorld :=
  let '(groups0, splices, w) := st in
  let '(group, disposable) := entry in
  (* disposable.dispose() *)
  let w :=
    updateGroupAt group
      (fun g => set_onDidDispose (remove_listener (_onDidDispose g) disposable) g) w in
  (* const updateListener = group.onDidUpdateResourceStates(...) *)
  let w :=
    updateGroupAt group
      (fun g => set_onDidUpdateResourceStates
                  (_onDidUpdateResourceStates g ++ [MarkUpdated this]) g) w in
  (* group.onDidDispose(...) *)
  let w :=
    updateGroupAt group
      (fun g => set_onDidDispose (_onDidDispose g ++ [Unregister this]) g) w in
  match groupStore w !! group with
  | None => st
  | Some g =>
      let groups0 := groups0 ++ [mkGroupEntry (handle g) (_id g) (_label g) (features g)] in
      match takeSnapshotAt group w with
      | (Some (snapshot, g), w) =>
          let splices :=
            if bool_decide (0 < length snapshot)%nat
            then splices ++ [mkGroupSplices (handle g) snapshot]
            else splices in
          let w :=
            updateSourceControlAt this
              (fun sc => set_groups (map_set (_groups sc) (handle g) group) sc) w in
          (groups0, splices, w)
      | (None, w) => (groups0, splices, w)
      end
  end.

(** The debounce decorator of this method is commented out in the source:
    a call runs the body at once. *)
Definition eventuallyAddResourceGroups (this : nat) (w : ExtWorld) : ExtWorld :=
  match sourceControlStore w !! this with
  | None => w
  | Some sc =>
      let '(groups0, splices, w) :=
        foldl (addResourceGroup this) ([], [], w) (createdResourceGroups sc) in
      let w := send (Main_registerGroups (sc_handle sc) groups0 splices) w in
      updateSourceControlAt this (set_createdResourceGroups []) w
  end.

Definition createResourceGroup (this : nat) (id label : string) (w : ExtWorld)
  : option nat * ExtWorld :=
  match sourceControlStore w !! this with
  | None => (None, w)
  | Some sc =>
      let g := newGroup (Group_handlePool w) (sc_handle sc) id label in
      let group := length (groupStore w) in
      let w := put_Group_handlePool (Group_handlePool w + 1) w in
      (* const disposable = group.onDidDispose(...) *)
      let g := set_onDidDispose (_onDidDispose g ++ [ForgetCreated this]) g in
      let w := put_groupStore (groupStore w ++ [g]) w in
      let w :=
        updateSourceControlAt this
          (fun sc => set_createdResourceGroups
                       (map_set (createdResourceGroups sc) group (ForgetCreated this)) sc) w in
      let w := eventuallyAddResourceGroups this w in
      (Some group, w)
  end.

Definition setSelectionState (this : nat) (selected : bool) (w : ExtWorld) : ExtWorld :=
  let w := updateSourceControlAt this (set_selected selected) w in
  notify (DidChangeSelection this selected) w.

(** [group.resourceStates = resources], with the listeners of
    [_onDidUpdateResourceStates] that it fires. *)
Definition assignGroupResourceStates (group : nat) (resources0 : list ResourceState)
    (w : ExtWorld) : ExtWorld :=
  match groupStore w !! group with
  | None => w
  | Some g =>
      let w := updateGroupAt group (assignResourceStates resources0) w in
      foldl (fun w listener =>
               match listener with
               | MarkUpdated owner => onDidUpdateResourceStates owner group w
               end)
        w (_onDidUpdateResourceStates g)
  end.

(** The two listeners a source control puts on [group.onDidDispose]. *)
Definition onDidDispose (listener : DisposeListener) (group : nat) (w : ExtWorld)
  : ExtWorld :=
  match listener, groupStore w !! group with
  | ForgetCreated this, _ =>
      updateSourceControlAt this
        (fun sc => set_createdResourceGroups
                     (map_delete (createdResourceGroups sc) group) sc) w
  | Unregister this, Some g =>
      let w :=
        updateSourceControlAt this
          (fun sc => set_updatedResourceGroups
                       (set_delete (updatedResourceGroups sc) group) sc) w in
      (* updateListener.dispose() *)
      let w :=
        updateGroupAt group
          (fun g => set_onDidUpdateResourceStates
                      (remove_listener (_onDidUpdateResourceStates g) (MarkUpdated this)) g)
          w in
      let w :=
        updateSourceControlAt this
          (fun sc => set_groups (map_delete (_groups sc) (handle g)) sc) w in
      match sourceControlStore w !! this with
      | Some sc => send (Main_unregisterGroup (sc_handle sc) (handle g)) w
      | None => w
      end
  | Unregister _, None => w
  end.

(** [group.dispose()], with the listeners of [_onDidDispose] that it
    fires. *)
Definition disposeGroup (group : nat) (w : ExtWorld) : ExtWorld :=
  match groupStore w !! group with
  | None => w
  | Some g =>
      let w := updateGroupAt group (set_disposed true) w in
      foldl (fun w listener => onDidDispose listener group w) w (_onDidDispose g)
  end.

(** [dispose()] of a source control. [Map.prototype.forEach] does not visit
    an entry that was deleted before its turn. The two disposable
    collections of commands belong to setters that are not modelled. *)
Definition dispose (this : nat) (w : ExtWorld) : ExtWorld :=
  match sourceControlStore w !! this with
  | None => w
  | Some sc =>
      let w :=
        foldl
          (fun w entry =>
             match sourceControlStore w !! this with
             | Some sc' =>
                 if bool_decide (map_get (_groups sc') entry.1 = Some entry.2)
                 then disposeGroup entry.2 w else w
             | None => w
             end)
          w (_groups sc) in
      send (Main_unregisterSourceControl (sc_handle sc)) w
  end.

End Methods.
End ExtHostSourceControl.

Module ScmInputBoxImpl.
Section Methods.
Context `{Host}.

(** [updateValue(value)] of the input box of the source control at
    [sourceControl]. *)
Definition updateValue (sourceControl : nat) (value : string) (w : ExtWorld) : ExtWorld :=
  let w :=
    updateSourceControlAt sourceControl
      (fun sc =>
         set_inputBox
           (mkInputBox value (_placeholder (_inputBox sc)) (_validateInput (_inputBox sc))
              (ib_sourceControlHandle (_inputBox sc))) sc) w in
  notify (InputBoxDidChange sourceControl value) w.

Definition onInputBoxValueChange (sourceControl : nat) (value : string) (w : ExtWorld)
  : ExtWorld :=
  updateValue sourceControl value w.

(** [set value(value)] *)
Definition set_value (sourceControl : nat) (value : string) (w : ExtWorld) : ExtWorld :=
  match sourceControlStore w !! sourceControl with
  | None => w
  | Some sc =>
      let w := send (Main_setInputBoxValue (ib_sourceControlHandle (_inputBox sc)) value) w in
      updateValue sourceControl value w
  end.

End Methods.
End ScmInputBoxImpl.

Module ScmExtImpl.
Section Methods.
Context `{Host}.

(** [this._sourceControls.get(handle)] *)
Definition sourceControlAt (w : ExtWorld) (handle0 : Z) : option (nat * SourceControl) :=
  _sourceControls w !! handle0 ≫= fun i => (fun sc => (i, sc)) <$> sourceControlStore w !! i.

Definition createSourceControl (id label : string) (rootUri : option Uri) (w : ExtWorld)
  : nat * ExtWorld :=
  let handle0 := ScmExt_handlePool w in
  let w := put_ScmExt_handlePool (handle0 + 1) w in
  (* new ExtHostSourceControl(...) *)
  let scHandle := SourceControl_handlePool w in
  let w := put_SourceControl_handlePool (scHandle + 1) w in
  let sc :=
    mkSourceControl scHandle id label rootUri (mkInputBox "" "" None scHandle) None false
      [] [] [] in
  let sourceControl := length (sourceControlStore w) in
  let w := put_sourceControlStore (sourceControlStore w ++ [sc]) w in
  let w := send (Main_registerSourceControl scHandle id label rootUri) w in
  let w := put_sourceControls (<[handle0 := sourceControl]> (_sourceControls w)) w in
  (sourceControl, w).

(** The promise of the second branch never settles: its executor calls the
    provider and neither [resolve] nor [reject]. *)
Definition provideOriginalResource (sourceControlHandle : Z) (uriComponents : string)
    (w : ExtWorld) : Promise (option Uri) * ExtWorld :=
  match sourceControlAt w sourceControlHandle with
  | None => (Resolved None, w)
  | Some (_, sc) =>
      match _quickDiffProvider sc ≫= provideOriginalResource with
      | None => (Resolved None, w)
      | Some _ => (Pending, w)
      end
  end.

Definition onInputBoxValueChange (sourceControlHandle : Z) (value : string) (w : ExtWorld)
  : Promise unit * ExtWorld :=
  match sourceControlAt w sourceControlHandle with
  | None => (Resolved tt, w)
  | Some (i, _) => (Resolved tt, ScmInputBoxImpl.onInputBoxValueChange i value w)
  end.

Definition executeResourceCommand (sourceControlHandle groupHandle handle0 : Z)
    (preserveFocus : bool) (w : ExtWorld) : Promise unit * ExtWorld :=
  match sourceControlAt w sourceControlHandle with
  | None => (Resolved tt, w)
  | Some (_, sc) =>
      match ExtHostSourceControl.getResourceGroup sc groupHandle ≫= fun i => groupStore w !! i with
      | None => (Resolved tt, w)
      | Some g =>
          let '(promise, execution) :=
            ExtHostSourceControlResourceGroup.executeResourceCommand g handle0 preserveFocus in
          (promise,
           match execution with
           | Some e => put_executed (executed w ++ [e]) w
           | None => w
           end)
      end
  end.

Definition validateInput (sourceControlHandle : Z) (value : string) (cursorPosition : Z)
    (w : ExtWorld) : Promise (option (string * Z)) * ExtWorld :=
  match sourceControlAt w sourceControlHandle with
  | None => (Resolved None, w)
  | Some (_, sc) =>
      match _validateInput (_inputBox sc) with
      | None => (Resolved None, w)
      | Some validate => (validate value cursorPosition, w)
      end
  end.

(** [this._sourceControls.get(handle)?.setSelectionState(selected)] *)
Definition selectIfRegistered (handle0 : Z) (selected : bool) (w : ExtWorld) : ExtWorld :=
  match sourceControlAt w handle0 with
  | Some (i, _) => ExtHostSourceControl.setSelectionState i selected w
  | None => w
  end.

Definition setSelectedSourceControl (selectedSourceControlHandle : option Z) (w : ExtWorld)
  : Promise unit * ExtWorld :=
  let w :=
    match selectedSourceControlHandle with
    | Some h => selectIfRegistered h true w
    | None => w
    end in
  let w :=
    match _selectedSourceControlHandle w with
    | Some h => selectIfRegistered h false w
    | None => w
    end in
  (Resolved tt, put_selectedSourceControlHandle selectedSourceControlHandle w).

End Methods.
End ScmExtImpl.

(** ** The mirror side: the objects of scm-main.ts *)

Section MirrorObjects.
Context `{Host}.

(** [ScmResourceDecorations] as [$spliceGroupResourceStates] builds it. *)
Record ScmResourceDecorations := mkDecorations {
  icon : option Uri;
  iconDark : option Uri;
  tooltip : string;
  strikeThrough : option bool;
  faded : option bool;
}.

(** [PluginScmResource]. Its [group] field is the group object the resource
    was spliced into; it is named by [res_sourceControlHandle] and
    [res_groupHandle], which the constructor receives next to it. *)
Record PluginScmResource := mkResource {
  res_sourceControlHandle : Z;
  res_groupHandle : Z;
  res_handle : Z;
  res_sourceUri : Uri;
  res_decorations : ScmResourceDecorations;
  res_contextValue : option string;
  res_command : option SafeCommand;
}.

(** [PluginScmResourceGroup] *)
Record PluginScmResourceGroup := mkMirrorGroup {
  mg_sourceControlHandle : Z;
  mg_handle : Z;
  mg_features : SourceControlGroupFeatures;
  mg_label : string;
  mg_id : string;
  resources : list PluginScmResource;
}.

(** What the emitters of the mirror objects fire. Group objects are named by
    their position in the provider's store. *)
Inductive MirrorEvent :=
  | DidSplice (group : nat) (start0 deleteCount0 : Z) (toInsert0 : list PluginScmResource)
  | GroupDidChange (group : nat)
  | DidChangeResources
  | DidChange
  | DidChangeCommitTemplate (template : string)
  | DidChangeStatusBarCommands (commands : option (list SafeCommand))
  | Warn (groupHandle : Z).

(** [PluginScmProvider]. [groupObjects] is the store of the group objects
    this provider created; [groups] and [_groupsByHandle] refer to them by
    position. *)
Record PluginScmProvider := mkProvider {
  p_handle : Z;
  p_contextValue : string;
  p_label : string;
  p_rootUri : option Uri;
  p_features : SourceControlProviderFeatures;
  groupObjects : list PluginScmResourceGroup;
  groups : list nat;
  _groupsByHandle : gmap Z nat;
}.

Definition set_groupObjects (v : list PluginScmResourceGroup) (p : PluginScmProvider)
  : PluginScmProvider :=
  mkProvider (p_handle p) (p_contextValue p) (p_label p) (p_rootUri p) (p_features p)
    v (groups p) (_groupsByHandle p).

Definition set_features (v : SourceControlProviderFeatures) (p : PluginScmProvider)
  : PluginScmProvider :=
  mkProvider (p_handle p) (p_contextValue p) (p_label p) (p_rootUri p) v
    (groupObjects p) (groups p) (_groupsByHandle p).

Definition set_resources (v : list PluginScmResource) (g : PluginScmResourceGroup)
  : PluginScmResourceGroup :=
  mkMirrorGroup (mg_sourceControlHandle g) (mg_handle g) (mg_features g) (mg_label g)
    (mg_id g) v.

(** The group object [_groupsByHandle[handle]], if there is one. *)
Definition groupByHandle (p : PluginScmProvider) (handle0 : Z)
  : option (nat * PluginScmResourceGroup) :=
  _groupsByHandle p !! handle0 ≫= fun i => (fun g => (i, g)) <$> groupObjects p !! i.

End MirrorObjects.

Module PluginScmResourceGroup.
Section Methods.
Context `{Host}.

Definition splice (g : PluginScmResourceGroup) (start0 deleteCount0 : Z)
    (toInsert0 : list PluginScmResource) : PluginScmResourceGroup :=
  set_resources (fst (array_splice (resources g) start0 deleteCount0 toInsert0)) g.

(** [this.features = { ...this.features, ...features }] *)
Definition updateGroup (g : PluginScmResourceGroup) (features : SourceControlGroupFeatures)
  : PluginScmResourceGroup :=
  mkMirrorGroup (mg_sourceControlHandle g) (mg_handle g)
    (mkGroupFeatures (or_else (hideWhenEmpty features) (hideWhenEmpty (mg_features g))))
    (mg_label g) (mg_id g) (resources g).

Definition updateGroupLabel (g : PluginScmResourceGroup) (label : string)
  : PluginScmResourceGroup :=
  mkMirrorGroup (mg_sourceControlHandle g) (mg_handle g) (mg_features g) label (mg_id g)
    (resources g).

End Methods.
End PluginScmResourceGroup.

Module PluginScmProvider.
Section Methods.
Context `{Host}.

(** [{ ...this.features, ...features }] *)
Definition mergeFeatures (old patch : SourceControlProviderFeatures)
  : SourceControlProviderFeatures :=
  mkFeatures
    (or_else (hasQuickDiffProvider patch) (hasQuickDiffProvider old))
    (or_else (count patch) (count old))
    (or_else (commitTemplate patch) (commitTemplate old))
    (or_else (acceptInputCommand patch) (acceptInputCommand old))
    (or_else (statusBarCommands patch) (statusBarCommands old)).

(** [p[key]] for a key that may be absent or hold [undefined]. *)
Definition valueOf {A : Type} (field : option (option A)) : option A :=
  match field with Some v => v | None => None end.

Definition updateSourceControl (p : PluginScmProvider)
    (features : SourceControlProviderFeatures) : PluginScmProvider * list MirrorEvent :=
  let p := set_features (mergeFeatures (p_features p) features) p in
  (p,
   [DidChange]
   ++ match valueOf (commitTemplate features) with
      | Some _ => [DidChangeCommitTemplate (or_empty (valueOf (commitTemplate (p_features p))))]
      | None => []
      end
   ++ match valueOf (statusBarCommands features) with
      | Some _ => [DidChangeStatusBarCommands (valueOf (statusBarCommands (p_features p)))]
      | None => []
      end).

Definition registerGroups (p : PluginScmProvider) (groups0 : list GroupEntry)
  : PluginScmProvider :=
  let '(created, p) :=
    map_state
      (fun p entry =>
         let group :=
           mkMirrorGroup (p_handle p) (ge_handle entry) (ge_features entry)
             (ge_label entry) (ge_id entry) [] in
         let i := length (groupObjects p) in
         (i,
          mkProvider (p_handle p) (p_contextValue p) (p_label p) (p_rootUri p)
            (p_features p) (groupObjects p ++ [group]) (groups p)
            (<[ge_handle entry := i]> (_groupsByHandle p))))
      p groups0 in
  mkProvider (p_handle p) (p_contextValue p) (p_label p) (p_rootUri p) (p_features p)
    (groupObjects p)
    (array_splice (groups p) (Z.of_nat (length (groups p))) 0 created).1
    (_groupsByHandle p).

Definition updateGroup (p : PluginScmProvider) (handle0 : Z)
    (features : SourceControlGroupFeatures) : PluginScmProvider * list MirrorEvent :=
  match groupByHandle p handle0 with
  | None => (p, [])
  | Some (i, group) =>
      (set_groupObjects
         (<[i := PluginScmResourceGroup.updateGroup group features]> (groupObjects p)) p,
       [GroupDidChange i])
  end.

Definition updateGroupLabel (p : PluginScmProvider) (handle0 : Z) (label : string)
  : PluginScmProvider * list MirrorEvent :=
  match groupByHandle p handle0 with
  | None => (p, [])
  | Some (i, group) =>
      (set_groupObjects
         (<[i := PluginScmResourceGroup.updateGroupLabel group label]> (groupObjects p)) p,
       [GroupDidChange i])
  end.

(** [array.indexOf(x)] *)
Fixpoint indexOf (l : list nat) (x : nat) : Z :=
  match l with
  | [] => -1
  | y :: l' =>
      if decide (y = x) then 0
      else let r := indexOf l' x in if r <? 0 then -1 else r + 1
  end.

Definition unregisterGroup (p : PluginScmProvider) (handle0 : Z) : PluginScmProvider :=
  match groupByHandle p handle0 with
  | None => p
  | Some (i, _) =>
      mkProvider (p_handle p) (p_contextValue p) (p_label p) (p_rootUri p) (p_features p)
        (groupObjects p)
        (array_splice (groups p) (indexOf (groups p) i) 1 []).1
        (delete handle0 (_groupsByHandle p))
  end.

(** The callback of [rawResources.map] in [$spliceGroupResourceStates]. *)
Definition decodeResource (p : PluginScmProvider) (groupHandle : Z)
    (rawResource : SCMRawResource) : PluginScmResource :=
  let icon0 := tuple_icons rawResource !! 0%nat in
  let iconDark0 := or_else (tuple_icons rawResource !! 1%nat) icon0 in
  let decorations :=
    mkDecorations icon0 iconDark0 (tuple_tooltip rawResource)
      (tuple_strikeThrough rawResource) (tuple_faded rawResource) in
  mkResource (p_handle p) groupHandle (tuple_handle rawResource)
    (tuple_sourceUri rawResource) decorations
    (if String.eqb (tuple_contextValue rawResource) "" then None
     else Some (tuple_contextValue rawResource))
    (tuple_command rawResource).

(** The body of [for (const [start, deleteCount, rawResources] of groupSlices)]
    on the group object at position [i]. *)
Definition spliceGroup (groupHandle : Z) (i : nat)
    (st : PluginScmProvider * list MirrorEvent) (s : SCMRawResourceSplice)
  : PluginScmProvider * list MirrorEvent :=
  let '(p, events) := st in
  match groupObjects p !! i with
  | Some group =>
      let resources0 := decodeResource p groupHandle <$> toInsert s in
      let group := PluginScmResourceGroup.splice group (start s) (deleteCount s) resources0 in
      (set_groupObjects (<[i := group]> (groupObjects p)) p,
       events ++ [DidSplice i (start s) (deleteCount s) resources0])
  | None => st
  end.

(** The body of [for (const [groupHandle, groupSlices] of splices)] for an
    element that the array pattern has taken apart. *)
Definition spliceOneGroup (st : PluginScmProvider * list MirrorEvent)
    (splices : SCMRawResourceSplices) : PluginScmProvider * list MirrorEvent :=
  let '(p, events) := st in
  match groupByHandle p (slices_groupHandle splices) with
  | None => (p, events ++ [Warn (slices_groupHandle splices)])
  | Some (i, _) =>
      (* reverse the splices sequence in order to apply them correctly *)
      foldl (spliceGroup (slices_groupHandle splices) i) st
        (rev (slices_groupSlices splices))
  end.

(** The loop [for (const [groupHandle, groupSlices] of splices)]: it ends
    where the array pattern throws. *)
Fixpoint spliceEach (st : PluginScmProvider * list MirrorEvent)
    (splices : list ReceivedSplices) : Run (PluginScmProvider * list MirrorEvent) :=
  match splices with
  | [] => Through st
  | ObjectLiteral _ :: _ => Thrown st
  | TupleArray t :: rest => spliceEach (spliceOneGroup st t) rest
  end.

(** [this._onDidChangeResources.fire()] is the last statement: it is not
    reached when the loop throws. *)
Definition spliceGroupResourceStates (p : PluginScmProvider)
    (splices : list ReceivedSplices) : Run (PluginScmProvider * list MirrorEvent) :=
  match spliceEach (p, []) splices with
  | Through (p, events) => Through (p, events ++ [DidChangeResources])
  | Thrown st => Thrown st
  end.

End Methods.
End PluginScmProvider.

Section MirrorWorld.
Context `{Host}.

(** [ScmRepository] of the scm package, as far as scm-main.ts uses it: the
    provider it was registered for, and its input. *)
Record ScmRepository := mkRepository {
  provider : PluginScmProvider;
  input_value : string;
  input_placeholder : string;
}.

(** [ScmMainImpl]. A [DisposableCollection] of [_repositoryDisposables]
    holds the two listeners [$registerSourceControl] registers with the scm
    service, which are the service's part. *)
Record MainWorld := mkMainWorld {
  _repositories : gmap Z ScmRepository;
  _repositoryDisposables : gmap Z unit;
  (** what the emitters of the providers fired, oldest first, each with
      the handle of its provider *)
  fired : list (Z * MirrorEvent);
}.

Definition put_repository (handle0 : Z) (p : PluginScmProvider) (events : list MirrorEvent)
    (w : MainWorld) : MainWorld :=
  match _repositories w !! handle0 with
  | None => w
  | Some r =>
      mkMainWorld
        (<[handle0 := mkRepository p (input_value r) (input_placeholder r)]> (_repositories w))
        (_repositoryDisposables w)
        (fired w ++ ((fun e => (handle0, e)) <$> events))
  end.

End MirrorWorld.

Module ScmMainImpl.
Section Methods.
Context `{Host}.

(** The answer to the selection and the input of the new repository, which
    the scm service decides on, is not part of this method. *)
Definition registerSourceControl (handle0 : Z) (id label : string) (rootUri : option Uri)
    (w : MainWorld) : Promise unit * MainWorld :=
  let p := mkProvider handle0 id label rootUri (mkFeatures None None None None None) [] [] ∅ in
  (Resolved tt,
   mkMainWorld (<[handle0 := mkRepository p "" ""]> (_repositories w))
     (<[handle0 := tt]> (_repositoryDisposables w)) (fired w)).

Definition updateSourceControl (handle0 : Z) (features : SourceControlProviderFeatures)
    (w : MainWorld) : Promise unit * MainWorld :=
  match _repositories w !! handle0 with
  | None => (Resolved tt, w)
  | Some repository =>
      let '(p, events) := PluginScmProvider.updateSourceControl (provider repository) features in
      (Resolved tt, put_repository handle0 p events w)
  end.

(** [this._repositoryDisposables.get(handle)!.dispose()] throws when there
    is no such collection. *)
Definition unregisterSourceControl (handle0 : Z) (w : MainWorld)
  : Promise unit * MainWorld :=
  match _repositories w !! handle0 with
  | None => (Resolved tt, w)
  | Some repository =>
      match _repositoryDisposables w !! handle0 with
      | None => (Rejected, w)
      | Some _ =>
          (Resolved tt,
           mkMainWorld (delete handle0 (_repositories w))
             (delete handle0 (_repositoryDisposables w)) (fired w))
      end
  end.

(** What a method of the provider has done by the time it returns or
    throws stays; the call is rejected when it throws. *)
Definition settle (sourceControlHandle : Z)
    (r : Run (PluginScmProvider * list MirrorEvent)) (w : MainWorld)
  : Promise unit * MainWorld :=
  match r with
  | Through (p, events) => (Resolved tt, put_repository sourceControlHandle p events w)
  | Thrown (p, events) => (Rejected, put_repository sourceControlHandle p events w)
  end.

Definition registerGroups (sourceControlHandle : Z) (groups0 : list GroupEntry)
    (splices : list ReceivedSplices) (w : MainWorld) : Promise unit * MainWorld :=
  match _repositories w !! sourceControlHandle with
  | None => (Resolved tt, w)
  | Some repository =>
      let p := PluginScmProvider.registerGroups (provider repository) groups0 in
      settle sourceControlHandle (PluginScmProvider.spliceGroupResourceStates p splices) w
  end.

Definition updateGroup (sourceControlHandle groupHandle : Z)
    (features : SourceControlGroupFeatures) (w : MainWorld) : Promise unit * MainWorld :=
  match _repositories w !! sourceControlHandle with
  | None => (Resolved tt, w)
  | Some repository =>
      let '(p, events) :=
        PluginScmProvider.updateGroup (provider repository) groupHandle features in
      (Resolved tt, put_repository sourceControlHandle p events w)
  end.

Definition updateGroupLabel (sourceControlHandle groupHandle : Z) (label : string)
    (w : MainWorld) : Promise unit * MainWorld :=
  match _repositories w !! sourceControlHandle with
  | None => (Resolved tt, w)
  | Some repository =>
      let '(p, events) :=
        PluginScmProvider.updateGroupLabel (provider repository) groupHandle label in
      (Resolved tt, put_repository sourceControlHandle p events w)
  end.

Definition spliceResourceStates (sourceControlHandle : Z)
    (splices : list ReceivedSplices) (w : MainWorld) : Promise unit * MainWorld :=
  match _repositories w !! sourceControlHandle with
  | None => (Resolved tt, w)
  | Some repository =>
      settle sourceControlHandle
        (PluginScmProvider.spliceGroupResourceStates (provider repository) splices) w
  end.

Definition unregisterGroup (sourceControlHandle handle0 : Z) (w : MainWorld)
  : Promise unit * MainWorld :=
  match _repositories w !! sourceControlHandle with
  | None => (Resolved tt, w)
  | Some repository =>
      let p := PluginScmProvider.unregisterGroup (provider repository) handle0 in
      (Resolved tt, put_repository sourceControlHandle p [] w)
  end.

(** [repository.input.value = value]; the listeners of the input are the
    scm package's part. *)
Definition setInputBoxValue (sourceControlHandle : Z) (value : string) (w : MainWorld)
  : Promise unit * MainWorld :=
  match _repositories w !! sourceControlHandle with
  | None => (Resolved tt, w)
  | Some repository =>
      (Resolved tt,
       mkMainWorld
         (<[sourceControlHandle :=
              mkRepository (provider repository) value (input_placeholder repository)]>
            (_repositories w))
         (_repositoryDisposables w) (fired w))
  end.

Definition setInputBoxPlaceholder (sourceControlHandle : Z) (placeholder : string)
    (w : MainWorld) : Promise unit * MainWorld :=
  match _repositories w !! sourceControlHandle with
  | None => (Resolved tt, w)
  | Some repository =>
      (Resolved tt,
       mkMainWorld
         (<[sourceControlHandle :=
              mkRepository (provider repository) (input_value repository) placeholder]>
            (_repositories w))
         (_repositoryDisposables w) (fired w))
  end.

Definition setInputBoxVisibility (sourceControlHandle : Z) (visible : bool) (w : MainWorld)
  : Promise unit * MainWorld :=
  (Resolved tt, w).

(** A call of scm.ts that arrives over the wire, with the arguments scm.ts
    gave it: its splices arrive as the object literals they are. *)
Definition receive (call : MainCall) (w : MainWorld) : Promise unit * MainWorld :=
  match call with
  | Main_registerSourceControl h id label rootUri => registerSourceControl h id label rootUri w
  | Main_updateSourceControl h features => updateSourceControl h features w
  | Main_unregisterSourceControl h => unregisterSourceControl h w
  | Main_registerGroups h groups0 splices =>
      registerGroups h groups0 (ObjectLiteral <$> splices) w
  | Main_updateGroup h g features => updateGroup h g features w
  | Main_updateGroupLabel h g label => updateGroupLabel h g label w
  | Main_spliceResourceStates h splices =>
      spliceResourceStates h (ObjectLiteral <$> splices) w
  | Main_unregisterGroup h g => unregisterGroup h g w
  | Main_setInputBoxValue h value => setInputBoxValue h value w
  | Main_setInputBoxPlaceholder h placeholder => setInputBoxPlaceholder h placeholder w
  | Main_setInputBoxVisibility h visible => setInputBoxVisibility h visible w
  end.

End Methods.
End ScmMainImpl.

(** ** The snapshot in terms of handles and states *)

Section Numbering.
Context `{Host}.

(** The command of [r] as it is put on the wire: a trusted one as a plain
    descriptor, any other one not at all. *)
Definition wireCommand (r : ResourceState) : option SafeCommand :=
  match rs_command r with
  | Some c => if trustedCommand (cmd_command c) then Some (PlainCommand c) else None
  | None => None
  end.

(** The command of [r] that the group keeps to itself, under the handle of
    [r]. *)
Definition keptCommand (r : ResourceState) : option Command :=
  match rs_command r with
  | Some c => if trustedCommand (cmd_command c) then None else Some c
  | None => None
  end.

(** The encoding of [r] under the handle [handle0]. *)
Definition wireResource (hr : Z * ResourceState) : ScmRawResource :=
  ExtHostSourceControlResourceGroup.rawResourceWith hr.1 hr.2 (wireCommand hr.2).

(** Consecutive handles from [pool] on, for a list of states and for the
    inserted states of a list of splices. *)
Definition number {T : Type} (pool : Z) (l : list T) : list (Z * T) * Z :=
  map_state (fun p r => ((p, r), p + 1)) pool l.

Definition number_splices {T : Type} (pool : Z) (diffs : list (Splice T))
  : list (Splice (Z * T)) * Z :=
  map_state
    (fun p diff =>
       let '(toInsert0, p) := number p (toInsert diff) in
       (mkSplice (start diff) (deleteCount diff) toInsert0, p))
    pool diffs.

(** Two states of a group that differ at most in the handle pool and the
    three maps keyed by resource handles. *)
Definition same_frame (g g' : Group) : Prop :=
  handle g' = handle g
  /\ _sourceControlHandle g' = _sourceControlHandle g
  /\ _id g' = _id g /\ _label g' = _label g
  /\ _hideWhenEmpty g' = _hideWhenEmpty g
  /\ _resourceStates g' = _resourceStates g
  /\ _onDidUpdateResourceStates g' = _onDidUpdateResourceStates g
  /\ _disposed g' = _disposed g
  /\ _onDidDispose g' = _onDidDispose g
  /\ _handlesSnapshot g' = _handlesSnapshot g
  /\ _resourceSnapshot g' = _resourceSnapshot g.

(** Two states of the same group object: what its owner and its listeners
    are, and what the plugin declared, is the same. *)
Definition same_identity (g g' : Group) : Prop :=
  handle g' = handle g
  /\ _sourceControlHandle g' = _sourceControlHandle g
  /\ _id g' = _id g /\ _label g' = _label g
  /\ _hideWhenEmpty g' = _hideWhenEmpty g
  /\ _resourceStates g' = _resourceStates g
  /\ _onDidUpdateResourceStates g' = _onDidUpdateResourceStates g
  /\ _disposed g' = _disposed g
  /\ _onDidDispose g' = _onDidDispose g.

(** The three maps agree at the key [k]. *)
Definition maps_agree (g g' : Group) (k : Z) : Prop :=
  _resourceStatesMap g' !! k = _resourceStatesMap g !! k
  /\ _resourceStatesCommandsMap g' !! k = _resourceStatesCommandsMap g !! k
  /\ _resourceStatesDisposablesMap g' !! k = _resourceStatesDisposablesMap g !! k.

(** What the three maps hold for a state [hr.2] recorded under the handle
    [hr.1] that had no entry before. *)
Definition recorded (g' : Group) (hr : Z * ResourceState) : Prop :=
  _resourceStatesMap g' !! hr.1 = Some hr.2
  /\ _resourceStatesCommandsMap g' !! hr.1 = keptCommand hr.2.

(** No map has an entry at or above the pool. *)
Definition pool_fresh (g : Group) : Prop :=
  forall k, _resourceHandlePool g <= k ->
    _resourceStatesMap g !! k = None
    /\ _resourceStatesCommandsMap g !! k = None
    /\ _resourceStatesDisposablesMap g !! k = None.

(** The resource handles of a group are in step with its snapshot, below
    the pool and pairwise distinct, and no map has an entry at or above the
    pool. *)
Definition group_ok (g : Group) : Prop :=
  length (_handlesSnapshot g) = length (_resourceSnapshot g)
  /\ Forall (fun h => h < _resourceHandlePool g) (_handlesSnapshot g)
  /\ NoDup (_handlesSnapshot g)
  /\ pool_fresh g.

(** An inserted state with its handle, as [_takeResourceStateSnapshot]
    keeps it until the handles are applied. *)
Definition wirePair (hr : Z * ResourceState) : ScmRawResource * Z :=
  (wireResource hr, hr.1).

(** Everything a list of splices inserts, in order. *)
Definition inserted {T : Type} (splices : list (Splice T)) : list T :=
  concat (toInsert <$> splices).

End Numbering.

(** ** What a group holds, in words *)

Section TrackingWords.
Context `{Host}.

(** The resource states a group holds, each with its handle and in the
    order of [_handlesSnapshot]: [_resourceStatesMap] has these states
    under these handles and nothing else, and [_resourceStatesCommandsMap]
    has the commands of those that carry one that is not trusted, and
    nothing else. *)
Definition tracks (g : Group) (held : list (Z * ResourceState)) : Prop :=
  fst <$> held = _handlesSnapshot g
  /\ (forall h, _resourceStatesMap g !! h
                = (list_to_map held : gmap Z ResourceState) !! h)
  /\ (forall h, _resourceStatesCommandsMap g !! h
                = (list_to_map held : gmap Z ResourceState) !! h ≫= keptCommand).

(** A group that is in order and whose maps hold the live states. *)
Definition group_exact (g : Group) : Prop :=
  group_ok g /\ exists held, tracks g held.

End TrackingWords.

(** ** What the mirror holds, in terms of the provider's states *)

Section Sync.
Context `{Host}.








(** What the mirror does with the splices of one group, on the list of this
    group: [groupSlices.reverse()], then one [splice] after the other. *)
Definition mirrorReplay (p : PluginScmProvider) (groupHandle : Z)
    (splices : list SCMRawResourceSplice) (m : list PluginScmResource)
  : list PluginScmResource :=
  foldl (fun m s =>
           (array_splice m (start s) (deleteCount s)
              (PluginScmProvider.decodeResource p groupHandle <$> toInsert s)).1)
    m (rev splices).



End Sync.

(** ** The order of resource states, in words *)

Section Order.
Context `{Host}.

(** [a] is sorted before [b]. *)
Definition orders_before (a b : ResourceState) : Prop := compareResourceStates a b < 0.

(** The attached commands compare equal: there is none on either side, or
    [compareCommands] returns 0. *)
Definition commands_rank_equal (a b : ResourceState) : Prop :=
  match rs_command a, rs_command b with
  | Some ca, Some cb => compareCommands ca cb = 0
  | None, None => True
  | _, _ => False
  end.

End Order.

(** ** Flushing, in words *)

Section FlushingWords.
Context `{Host}.
Import ExtHostSourceControlResourceGroup ExtHostSourceControl.

(** The group object [createResourceGroup] leaves behind for the source
    control at [this]. *)
Definition registeredGroup (this : nat) (handle0 sourceControlHandle : Z) (id label : string)
  : Group :=
  mkGroup handle0 sourceControlHandle id label None 0 [] ∅ ∅ ∅ [MarkUpdated this] false
    [Unregister this] [] [].

(** What an assignment to a registered group sends: nothing when the diff is
    empty, else one message for this group alone. *)
Definition spliceMessage (sourceControlHandle groupHandle : Z)
    (splices : list ScmRawResourceSplice) : list MainCall :=
  if bool_decide (length splices = 0%nat) then []
  else [Main_spliceResourceStates sourceControlHandle
          [mkGroupSplices groupHandle splices]].

(** The splice set that [_takeResourceStateSnapshot] computes for the group
    is empty: the diff of its snapshot and of what is declared for it has
    no splice. *)
Definition nothing_to_send (g : Group) : Prop :=
  sortedDiff (_resourceSnapshot g)
    (array_sort compareResourceStates (_resourceStates g)) compareResourceStates = [].

(** The plugin creates one group after the other, and assigns to one group
    after the other, without anything else happening in between. *)
Definition createResourceGroups (this : nat) (specs : list (string * string))
    (w : ExtWorld) : ExtWorld :=
  foldl (fun w spec => (createResourceGroup this spec.1 spec.2 w).2) w specs.

Definition assignAll (updates : list (nat * list ResourceState)) (w : ExtWorld)
  : ExtWorld :=
  foldl (fun w u => assignGroupResourceStates u.1 u.2 w) w updates.

(** A [$spliceResourceStates] for one group, with splices. *)
Definition coversOneGroup (sourceControlHandle : Z) (call : MainCall) : Prop :=
  exists groupHandle splices,
    call = Main_spliceResourceStates sourceControlHandle
             [mkGroupSplices groupHandle splices]
    /\ splices <> [].

End FlushingWords.

(** ** Handles, in words *)

Section HandlesWords.
Context `{Host}.

(** The resource handles that [splices] carry for the group with the
    handle [groupHandle], in the order in which they are listed. *)
Definition pendingHandles (groupHandle : Z) (splices : list ScmRawResourceSplices)
  : list Z :=
  concat ((fun entry =>
             if bool_decide (gs_handle entry = groupHandle)
             then raw_handle <$> inserted (gs_splices entry) else [])
            <$> splices).

(** The resource handles that the calls made so far carry for that group. *)
Definition sentHandles (groupHandle : Z) (calls : list MainCall) : list Z :=
  concat ((fun call =>
             match call with
             | Main_registerGroups _ _ splices
             | Main_spliceResourceStates _ splices => pendingHandles groupHandle splices
             | _ => []
             end) <$> calls).

(** Every counter stands at the number of objects it has numbered: the
    source controls and the groups carry their position in creation order,
    the resource handles of a group that were sent or are about to be sent
    with [pending] count up from zero to its pool, and nothing was sent
    under a group handle that is still to be handed out. The numbers of the
    source are taken as integers without bound. *)
Definition handles_in_order (w : ExtWorld) (pending : list ScmRawResourceSplices)
  : Prop :=
  ScmExt_handlePool w = Z.of_nat (length (sourceControlStore w))
  /\ SourceControl_handlePool w = Z.of_nat (length (sourceControlStore w))
  /\ (forall i sc, sourceControlStore w !! i = Some sc -> sc_handle sc = Z.of_nat i)
  /\ Group_handlePool w = Z.of_nat (length (groupStore w))
  /\ (forall i g, groupStore w !! i = Some g ->
        handle g = Z.of_nat i
        /\ group_ok g
        /\ 0 <= _resourceHandlePool g
        /\ sentHandles (handle g) (outbox w) ++ pendingHandles (handle g) pending
           = seqZ 0 (_resourceHandlePool g))
  /\ (forall groupHandle, Group_handlePool w <= groupHandle ->
        sentHandles groupHandle (outbox w) ++ pendingHandles groupHandle pending = []).

(** From [w] to [w'] no counter went down and every object kept its
    handle. *)
Definition grows (w w' : ExtWorld) : Prop :=
  Group_handlePool w <= Group_handlePool w'
  /\ SourceControl_handlePool w <= SourceControl_handlePool w'
  /\ ScmExt_handlePool w <= ScmExt_handlePool w'
  /\ (forall i sc, sourceControlStore w !! i = Some sc ->
        exists sc', sourceControlStore w' !! i = Some sc'
                    /\ sc_handle sc' = sc_handle sc)
  /\ (forall i g, groupStore w !! i = Some g ->
        exists g', groupStore w' !! i = Some g'
                   /\ handle g' = handle g
                   /\ _resourceHandlePool g <= _resourceHandlePool g').

(** What the plugin and the main side can ask of the extension host. *)
Inductive Operation :=
  | CreateSourceControl (id label : string) (rootUri : option Uri)
  | CreateResourceGroup (sourceControl : nat) (id label : string)
  | AssignResourceStates (group : nat) (resources0 : list ResourceState)
  | DisposeGroup (group : nat)
  | DisposeSourceControl (sourceControl : nat)
  | SetInputBoxValue (sourceControl : nat) (value : string)
  | AddResourceGroupsAgain (sourceControl : nat)
  | UpdateResourceStatesAgain (sourceControl : nat)
  | OnInputBoxValueChange (sourceControlHandle : Z) (value : string)
  | ExecuteResourceCommand (sourceControlHandle groupHandle handle0 : Z)
      (preserveFocus : bool)
  | SetSelectedSourceControl (selectedSourceControlHandle : option Z).

Definition perform (w : ExtWorld) (op : Operation) : ExtWorld :=
  match op with
  | CreateSourceControl id label rootUri =>
      (ScmExtImpl.createSourceControl id label rootUri w).2
  | CreateResourceGroup sourceControl id label =>
      (ExtHostSourceControl.createResourceGroup sourceControl id label w).2
  | AssignResourceStates group resources0 =>
      ExtHostSourceControl.assignGroupResourceStates group resources0 w
  | DisposeGroup group => ExtHostSourceControl.disposeGroup group w
  | DisposeSourceControl sourceControl => ExtHostSourceControl.dispose sourceControl w
  | SetInputBoxValue sourceControl value => ScmInputBoxImpl.set_value sourceControl value w
  | AddResourceGroupsAgain sourceControl =>
      ExtHostSourceControl.eventuallyAddResourceGroups sourceControl w
  | UpdateResourceStatesAgain sourceControl =>
      ExtHostSourceControl.eventuallyUpdateResourceStates sourceControl w
  | OnInputBoxValueChange sourceControlHandle value =>
      (ScmExtImpl.onInputBoxValueChange sourceControlHandle value w).2
  | ExecuteResourceCommand sourceControlHandle groupHandle handle0 preserveFocus =>
      (ScmExtImpl.executeResourceCommand sourceControlHandle groupHandle handle0
         preserveFocus w).2
  | SetSelectedSourceControl selectedSourceControlHandle =>
      (ScmExtImpl.setSelectedSourceControl selectedSourceControlHandle w).2
  end.

Definition run (ops : list Operation) (w : ExtWorld) : ExtWorld :=
  foldl perform w ops.

(** A world function that keeps the handles in order, whatever is
    pending. *)
Definition keeps (f : ExtWorld -> ExtWorld) : Prop :=
  forall w pending,
    handles_in_order w pending -> handles_in_order (f w) pending /\ grows w (f w).

(** A change of a group that leaves its handle and what [group_ok] is
    about alone. *)
Definition keeps_tracking (f : Group -> Group) : Prop :=
  forall g,
    handle (f g) = handle g
    /\ _resourceHandlePool (f g) = _resourceHandlePool g
    /\ (group_ok g -> group_ok (f g)).

(** A world function that keeps the handles in order when nothing is
    pending. *)
Definition settles (f : ExtWorld -> ExtWorld) : Prop :=
  forall w, handles_in_order w [] -> handles_in_order (f w) [] /\ grows w (f w).

End HandlesWords.

(** ** Selection, in words *)

Section Selection.
Context `{Host}.

(** How many source controls have their selected flag set. *)
Definition selectedCount (store : list SourceControl) : nat :=
  length (filter (fun sc => _selected sc = true) store).

(** What was observed since the world was [w]. *)
Definition observedSince (w w' : ExtWorld) : list (PluginEvent * list SourceControl) :=
  drop (length (observed w)) (observed w').

(** What was sent since the world was [w]. *)
Definition sentSince (w w' : ExtWorld) : list MainCall :=
  drop (length (outbox w)) (outbox w').

End Selection.

(** ** The main side, in words *)

Section MirrorWords.
Context `{Host}.

(** The group object [$registerGroups] creates for one entry. *)
Definition registeredMirrorGroup (p : PluginScmProvider) (entry : GroupEntry)
  : PluginScmResourceGroup :=
  mkMirrorGroup (p_handle p) (ge_handle entry) (ge_features entry) (ge_label entry)
    (ge_id entry) [].

(** The registry of a provider is in order: [groups] lists group objects
    that exist, each one once, and every handle of [_groupsByHandle] leads
    to a listed group object that carries this handle. *)
Definition registry_ok (p : PluginScmProvider) : Prop :=
  NoDup (groups p)
  /\ Forall (fun i => (i < length (groupObjects p))%nat) (groups p)
  /\ (forall h i, _groupsByHandle p !! h = Some i ->
        i ∈ groups p /\ exists g, groupObjects p !! i = Some g /\ mg_handle g = h).

(** Two states of a mirror group that differ at most in the resources. *)
Definition same_mirror_group (g g' : PluginScmResourceGroup) : Prop :=
  mg_sourceControlHandle g' = mg_sourceControlHandle g
  /\ mg_handle g' = mg_handle g
  /\ mg_features g' = mg_features g
  /\ mg_label g' = mg_label g
  /\ mg_id g' = mg_id g.

(** What [$spliceGroupResourceStates] fires for one entry of a batch: a
    warning for a group it does not know, else one [onDidSplice] per splice,
    last splice first. *)
Definition entryEvents (p : PluginScmProvider) (entry : SCMRawResourceSplices)
  : list MirrorEvent :=
  match groupByHandle p (slices_groupHandle entry) with
  | None => [Warn (slices_groupHandle entry)]
  | Some (i, _) =>
      (fun s => DidSplice i (start s) (deleteCount s)
                  (PluginScmProvider.decodeResource p (slices_groupHandle entry)
                     <$> toInsert s))
        <$> rev (slices_groupSlices entry)
  end.

(** What a batch does to the resource list [m] of the group object at
    position [i]: the entries that name it are replayed one after the
    other, each one last splice first. *)
Definition batchReplay (p : PluginScmProvider) (i : nat)
    (batch : list SCMRawResourceSplices) (m : list PluginScmResource)
  : list PluginScmResource :=
  foldl (fun m entry =>
           if bool_decide (_groupsByHandle p !! slices_groupHandle entry = Some i)
           then mirrorReplay p (slices_groupHandle entry) (slices_groupSlices entry) m
           else m)
    m batch.

(** The source control a call is addressed to. *)
Definition addressee (call : MainCall) : Z :=
  match call with
  | Main_registerSourceControl h _ _ _ | Main_updateSourceControl h _
  | Main_unregisterSourceControl h | Main_registerGroups h _ _
  | Main_updateGroup h _ _ | Main_updateGroupLabel h _ _
  | Main_spliceResourceStates h _ | Main_unregisterGroup h _
  | Main_setInputBoxValue h _ | Main_setInputBoxPlaceholder h _
  | Main_setInputBoxVisibility h _ => h
  end.

(** The main side before anything was registered, and the calls of a list
    received one after the other: the answers and the state they leave. *)
Definition emptyMirror : MainWorld := mkMainWorld ∅ ∅ [].

Definition deliver (calls : list MainCall) (m : MainWorld)
  : list (Promise unit) * MainWorld :=
  map_state (fun m call => ScmMainImpl.receive call m) m calls.

(** A call that hands a batch of splices that is not empty to a source
    control the main side has a repository for. *)
Definition hands_over_resources (call : MainCall) (m : MainWorld) : bool :=
  match call with
  | Main_registerGroups h _ (_ :: _) | Main_spliceResourceStates h (_ :: _) =>
      bool_decide (is_Some (_repositories m !! h))
  | _ => false
  end.

(** Every repository has its disposables, and its provider has the handle
    it is registered under and a registry in order. *)
Definition mirror_ok (m : MainWorld) : Prop :=
  (forall h, is_Some (_repositories m !! h) <-> is_Some (_repositoryDisposables m !! h))
  /\ (forall h r, _repositories m !! h = Some r ->
        p_handle (provider r) = h /\ registry_ok (provider r)).

End MirrorWords.

(** ** The setters of a source control, and the getters of the main side *)

Section CommandEquality.
Context `{Host}.
(** The value [undefined] among the values a plugin puts into
    [Command.arguments]: what [b[i]] is from the length of [b] on. *)
Context (undefined : Arg).

(** [compareArgs(a, b)]: the loop runs over the indices of [a]. *)
Fixpoint compareArgs (a b : list Arg) : bool :=
  match a with
  | [] => true
  | x :: a' =>
      if negb (arg_strict_eq x (hd undefined b)) then false
      else compareArgs a' (tl b)
  end.

Definition commandEquals (a b : Command) : bool :=
  negb (strict_ne_string (cmd_command a) (cmd_command b))
  && negb (strict_ne_string (cmd_title a) (cmd_title b))
  && negb (strict_ne_string (cmd_tooltip a) (cmd_tooltip b))
  && match cmd_arguments a, cmd_arguments b with
     | Some aa, Some ab => compareArgs (arr_items aa) (arr_items ab)
     | None, None => true
     | _, _ => false
     end.

(** An array of commands: [cl_id] is the identity of the array object,
    [cl_items] its content. *)
Record CommandList := mkCommandList {
  cl_id : positive;
  cl_items : list Command;
}.

(** The loop of [equals]; it is only entered when the two arrays have the
    same length. *)
Fixpoint itemsEqual {T : Type} (itemEquals : T -> T -> bool) (one other : list T) : bool :=
  match one, other with
  | x :: one', y :: other' =>
      if negb (itemEquals x y) then false else itemsEqual itemEquals one' other'
  | _, _ => true
  end.

(** [equals(one, other, itemEquals)] on two arrays, either of which may be
    [undefined]; an array is its identity and its content. *)
Definition equals {T : Type} (itemEquals : T -> T -> bool)
    (one other : option (positive * list T)) : bool :=
  match one, other with
  | None, None => true
  | Some (i, xs), Some (j, ys) =>
      if Pos.eqb i j then true
      else if negb (length xs =? length ys)%nat then false
      else itemsEqual itemEquals xs ys
  | _, _ => false
  end.

Definition commandListEquals (a b : CommandList) : bool :=
  equals commandEquals (Some (cl_id a, cl_items a)) (Some (cl_id b, cl_items b)).

(** The fields of [ExtHostSourceControl] behind the setters of [count],
    [commitTemplate] and [statusBarCommands]. *)
Record SourceControlSettings := mkSettings {
  _count : option Z;
  _commitTemplate : option string;
  _statusBarCommands : option CommandList;
  _statusBarDisposables : list Disposable;
}.

(** [set count(count)] of the source control with the handle [handle0]:
    the settings it leaves and the calls it makes. *)
Definition assignCount (handle0 : Z) (count0 : option Z) (s : SourceControlSettings)
  : SourceControlSettings * list MainCall :=
  if bool_decide (_count s = count0) then (s, [])
  else
    (mkSettings count0 (_commitTemplate s) (_statusBarCommands s) (_statusBarDisposables s),
     [Main_updateSourceControl handle0 (mkFeatures None (Some count0) None None None)]).

(** [set commitTemplate(commitTemplate)] *)
Definition assignCommitTemplate (handle0 : Z) (commitTemplate0 : option string)
    (s : SourceControlSettings) : SourceControlSettings * list MainCall :=
  if bool_decide (commitTemplate0 = _commitTemplate s) then (s, [])
  else
    (mkSettings (_count s) commitTemplate0 (_statusBarCommands s) (_statusBarDisposables s),
     [Main_updateSourceControl handle0
        (mkFeatures None None (Some commitTemplate0) None None)]).

(** [set statusBarCommands(statusBarCommands)]: the state it works on is
    the settings and the command converter. The collection of disposables
    it replaces is not disposed of. *)
Definition assignStatusBarCommands (handle0 : Z) (statusBarCommands0 : option CommandList)
    (st : SourceControlSettings * CommandsConverter)
  : SourceControlSettings * CommandsConverter * list MainCall :=
  let '(s, conv) := st in
  if match _statusBarCommands s, statusBarCommands0 with
     | Some old, Some new => commandListEquals old new
     | _, _ => false
     end
  then (s, conv, [])
  else
    let '(internal, (conv, disposables)) :=
      map_state
        (fun '(conv, disposables) c =>
           let '(safe, conv, disposables) := toSafeCommand conv c disposables in
           (safe, (conv, disposables)))
        (conv, [])
        (match statusBarCommands0 with Some l => cl_items l | None => [] end) in
    (mkSettings (_count s) (_commitTemplate s) statusBarCommands0 disposables, conv,
     [Main_updateSourceControl handle0
        (mkFeatures None None None None (Some (Some internal)))]).

(** The getters of [PluginScmProvider] and [PluginScmResourceGroup]. *)
Definition get_count (p : PluginScmProvider) : option Z :=
  PluginScmProvider.valueOf (count (p_features p)).

Definition get_commitTemplate (p : PluginScmProvider) : string :=
  or_empty (PluginScmProvider.valueOf (commitTemplate (p_features p))).

Definition get_statusBarCommands (p : PluginScmProvider) : option (list SafeCommand) :=
  PluginScmProvider.valueOf (statusBarCommands (p_features p)).

Definition get_hideWhenEmpty (g : PluginScmResourceGroup) : bool :=
  truthy_bool (PluginScmProvider.valueOf (hideWhenEmpty (mg_features g))).

(** The command [b] is the command [a] with more arguments at the end. *)
Definition appends_arguments (a b : Command) : Prop :=
  cmd_command a = cmd_command b
  /\ cmd_title a = cmd_title b
  /\ cmd_tooltip a = cmd_tooltip b
  /\ exists aa ab more,
       cmd_arguments a = Some aa /\ cmd_arguments b = Some ab
       /\ arr_items ab = arr_items aa ++ more.

End CommandEquality.

(** ** The remaining setters of a group and of an input box *)

Section Setters.
Context `{Host}.

Definition set_label (v : string) (x : Group) : Group :=
  mkGroup (handle x) (_sourceControlHandle x) (_id x) v (_hideWhenEmpty x)
    (_resourceHandlePool x) (_resourceStates x) (_resourceStatesMap x)
    (_resourceStatesCommandsMap x) (_resourceStatesDisposablesMap x)
    (_onDidUpdateResourceStates x) (_disposed x) (_onDidDispose x)
    (_handlesSnapshot x) (_resourceSnapshot x).
Definition set_hideWhenEmpty (v : option bool) (x : Group) : Group :=
  mkGroup (handle x) (_sourceControlHandle x) (_id x) (_label x) v
    (_resourceHandlePool x) (_resourceStates x) (_resourceStatesMap x)
    (_resourceStatesCommandsMap x) (_resourceStatesDisposablesMap x)
    (_onDidUpdateResourceStates x) (_disposed x) (_onDidDispose x)
    (_handlesSnapshot x) (_resourceSnapshot x).

(** [set label(label)] of the group object at [group]. *)
Definition assignLabel (group : nat) (label : string) (w : ExtWorld) : ExtWorld :=
  match groupStore w !! group with
  | None => w
  | Some g =>
      let w := updateGroupAt group (set_label label) w in
      send (Main_updateGroupLabel (_sourceControlHandle g) (handle g) label) w
  end.

(** [set hideWhenEmpty(hideWhenEmpty)] of the group object at [group];
    [this.features] is read after the field was written. *)
Definition assignHideWhenEmpty (group : nat) (hideWhenEmpty0 : option bool) (w : ExtWorld)
  : ExtWorld :=
  match groupStore w !! group with
  | None => w
  | Some g =>
      let g := set_hideWhenEmpty hideWhenEmpty0 g in
      let w := put_groupStore (<[group := g]> (groupStore w)) w in
      send (Main_updateGroup (_sourceControlHandle g) (handle g)
              (ExtHostSourceControl.features g)) w
  end.

(** [set placeholder(placeholder)] of the input box of the source control
    at [sourceControl]. *)
Definition assignPlaceholder (sourceControl : nat) (placeholder : string) (w : ExtWorld)
  : ExtWorld :=
  match sourceControlStore w !! sourceControl with
  | None => w
  | Some sc =>
      let w :=
        send (Main_setInputBoxPlaceholder (ib_sourceControlHandle (_inputBox sc))
                placeholder) w in
      updateSourceControlAt sourceControl
        (fun sc =>
           set_inputBox
             (mkInputBox (_value (_inputBox sc)) placeholder
                (_validateInput (_inputBox sc)) (ib_sourceControlHandle (_inputBox sc)))
             sc) w
  end.

(** What the plugin and the main side can ask of the extension host, the
    three setters included. *)
Inductive Action :=
  | Plain (op : Operation)
  | SetGroupLabel (group : nat) (label : string)
  | SetGroupHideWhenEmpty (group : nat) (hideWhenEmpty0 : option bool)
  | SetInputBoxPlaceholder (sourceControl : nat) (placeholder : string).

Definition act (w : ExtWorld) (a : Action) : ExtWorld :=
  match a with
  | Plain op => perform w op
  | SetGroupLabel group label => assignLabel group label w
  | SetGroupHideWhenEmpty group hideWhenEmpty0 =>
      assignHideWhenEmpty group hideWhenEmpty0 w
  | SetInputBoxPlaceholder sourceControl placeholder =>
      assignPlaceholder sourceControl placeholder w
  end.

Definition play (acts : list Action) (w : ExtWorld) : ExtWorld :=
  foldl act w acts.

End Setters.

(** ** The argument processor of [ScmExtImpl] *)

Section ArgumentProcessor.
Context `{Host}.

(** [ScmCommandArg] of plugin-api-rpc: the two optional handles are there
    when [typeof ... === 'number']. *)
Record ScmCommandArg := mkScmCommandArg {
  arg_sourceControlHandle : Z;
  arg_resourceGroupHandle : option Z;
  arg_resourceStateHandle : option Z;
}.

(** An argument of a command, after [ScmCommandArg.is] has looked at it. *)
Inductive CommandArgument :=
  | OtherArgument (arg : Arg)
  | ScmArgument (arg : ScmCommandArg).

(** What the processor hands on: the argument itself, [undefined], or the
    object the handles name. *)
Inductive ProcessedArgument :=
  | SameArgument (arg : Arg)
  | UndefinedArgument
  | SourceControlArgument (sourceControl : nat)
  | GroupArgument (group : nat)
  | ResourceStateArgument (state : ResourceState).

(** [processArgument] of the processor the constructor registers. *)
Definition processArgument (w : ExtWorld) (arg : CommandArgument) : ProcessedArgument :=
  match arg with
  | OtherArgument arg => SameArgument arg
  | ScmArgument arg =>
      match ScmExtImpl.sourceControlAt w (arg_sourceControlHandle arg) with
      | None => UndefinedArgument
      | Some (i, sourceControl) =>
          match arg_resourceGroupHandle arg with
          | None => SourceControlArgument i
          | Some groupHandle =>
              let resourceGroup :=
                ExtHostSourceControl.getResourceGroup sourceControl groupHandle in
              match arg_resourceStateHandle arg with
              | None =>
                  match resourceGroup with
                  | Some group => GroupArgument group
                  | None => UndefinedArgument
                  end
              | Some stateHandle =>
                  match resourceGroup ≫= fun group => groupStore w !! group with
                  | Some g =>
                      match ExtHostSourceControlResourceGroup.getResourceState g
                              stateHandle with
                      | Some state => ResourceStateArgument state
                      | None => UndefinedArgument
                      end
                  | None => UndefinedArgument
                  end
              end
          end
      end
  end.

End ArgumentProcessor.

(** ** The objects of the extension host and what the main side shows, in words *)

Section ShapeWords.
Context `{Host}.

(** The objects hang together: the three counters stand at the number of
    objects they have numbered; [_sourceControls] has every source control
    under the handle it sends to the main side; no source control has a
    group waiting to be flushed; [_groups] of a source control has groups it
    has created, each under its handle; and a group carries the listener that
    unregisters it from its source control, and the one that marks it as
    updated when, and only when, it is in [_groups], which is as long as it
    is not disposed of; no handle is twice in [_groups]. *)
Definition world_shape (w : ExtWorld) : Prop :=
  ScmExt_handlePool w = Z.of_nat (length (sourceControlStore w))
  /\ SourceControl_handlePool w = Z.of_nat (length (sourceControlStore w))
  /\ Group_handlePool w = Z.of_nat (length (groupStore w))
  /\ (forall h i, _sourceControls w !! h = Some i <->
        h = Z.of_nat i /\ (i < length (sourceControlStore w))%nat)
  /\ (forall i sc, sourceControlStore w !! i = Some sc ->
        sc_handle sc = Z.of_nat i
        /\ ib_sourceControlHandle (_inputBox sc) = Z.of_nat i
        /\ createdResourceGroups sc = []
        /\ updatedResourceGroups sc = []
        /\ forall gh j, map_get (_groups sc) gh = Some j ->
             gh = Z.of_nat j
             /\ exists g, groupStore w !! j = Some g
                          /\ _sourceControlHandle g = Z.of_nat i)
  /\ (forall j g, groupStore w !! j = Some g ->
        handle g = Z.of_nat j
        /\ exists owner sc,
             _sourceControlHandle g = Z.of_nat owner
             /\ sourceControlStore w !! owner = Some sc
             /\ _onDidDispose g = [Unregister owner]
             /\ (_onDidUpdateResourceStates g = [MarkUpdated owner]
                 /\ _disposed g = false
                 /\ map_get (_groups sc) (Z.of_nat j) = Some j
                 \/ _onDidUpdateResourceStates g = []
                    /\ _disposed g = true
                    /\ map_get (_groups sc) (Z.of_nat j) = None))
  /\ (forall i sc, sourceControlStore w !! i = Some sc -> NoDup (fst <$> _groups sc)).

(** The group object [mg] of the main side shows the group [g]: it has its
    handles, its id, its label and its features, and no resource. *)
Definition group_shown (g : Group) (mg : PluginScmResourceGroup) : Prop :=
  mg_sourceControlHandle mg = _sourceControlHandle g
  /\ mg_handle mg = handle g
  /\ mg_id mg = _id g
  /\ mg_label mg = _label g
  /\ mg_features mg = ExtHostSourceControl.features g
  /\ resources mg = [].

(** What the provider [p] of the main side has under the group handle [gh]
    is what the source control [sc] has there: nothing when [_groups] has
    nothing, else a group object that shows the group of [_groups]. *)
Definition shown_at (w : ExtWorld) (sc : SourceControl) (p : PluginScmProvider) (gh : Z)
  : Prop :=
  match groupByHandle p gh with
  | None => map_get (_groups sc) gh = None
  | Some (_, mg) =>
      exists j g,
        map_get (_groups sc) gh = Some j
        /\ groupStore w !! j = Some g
        /\ group_shown g mg
  end.

(** [groups] of the provider [p] lists the group objects of the handles
    [handles], in this order. *)
Definition listed_as (p : PluginScmProvider) (handles : list Z) : Prop :=
  Forall2 (fun i gh => exists mg, groupByHandle p gh = Some (i, mg)) (groups p) handles.

(** The provider [p] of the main side shows the source control at [i]: it
    lists the groups in the order of [_groups], and has for each handle what
    the source control has. *)
Definition provider_shows (w : ExtWorld) (i : nat) (p : PluginScmProvider) : Prop :=
  exists sc,
    sourceControlStore w !! i = Some sc
    /\ listed_as p (fst <$> _groups sc)
    /\ forall gh, shown_at w sc p gh.

(** Every repository of the main side shows a source control of the
    extension host. *)
Definition shows (w : ExtWorld) (m : MainWorld) : Prop :=
  forall h repo, _repositories m !! h = Some repo ->
    exists i, h = Z.of_nat i /\ provider_shows w i (provider repo).

End ShapeWords.

(** ** Changes that leave the links between the objects alone *)

Section Frames.
Context `{Host}.

(** Two states of a source control with the same handles and the same
    groups, registered and waiting. *)
Definition same_links_sc (sc sc' : SourceControl) : Prop :=
  sc_handle sc' = sc_handle sc
  /\ ib_sourceControlHandle (_inputBox sc') = ib_sourceControlHandle (_inputBox sc)
  /\ createdResourceGroups sc' = createdResourceGroups sc
  /\ updatedResourceGroups sc' = updatedResourceGroups sc
  /\ _groups sc' = _groups sc.

(** Two states of a group with the same handles and listeners. *)
Definition same_links (g g' : Group) : Prop :=
  handle g' = handle g
  /\ _sourceControlHandle g' = _sourceControlHandle g
  /\ _onDidDispose g' = _onDidDispose g
  /\ _onDidUpdateResourceStates g' = _onDidUpdateResourceStates g
  /\ _disposed g' = _disposed g.

(** Two states of a group that the main side cannot tell apart. *)
Definition same_shown (g g' : Group) : Prop :=
  handle g' = handle g
  /\ _sourceControlHandle g' = _sourceControlHandle g
  /\ _id g' = _id g
  /\ _label g' = _label g
  /\ _hideWhenEmpty g' = _hideWhenEmpty g.

(** What a call does to the provider it is addressed to. *)
Definition provider_after (call : MainCall) (p : PluginScmProvider) : PluginScmProvider :=
  match call with
  | Main_updateSourceControl _ features => (PluginScmProvider.updateSourceControl p features).1
  | Main_registerGroups _ groups0 splices =>
      (left_behind
         (PluginScmProvider.spliceGroupResourceStates
            (PluginScmProvider.registerGroups p groups0) (ObjectLiteral <$> splices))).1
  | Main_updateGroup _ groupHandle features =>
      (PluginScmProvider.updateGroup p groupHandle features).1
  | Main_updateGroupLabel _ groupHandle label =>
      (PluginScmProvider.updateGroupLabel p groupHandle label).1
  | Main_spliceResourceStates _ splices =>
      (left_behind
         (PluginScmProvider.spliceGroupResourceStates p (ObjectLiteral <$> splices))).1
  | Main_unregisterGroup _ groupHandle => PluginScmProvider.unregisterGroup p groupHandle
  | _ => p
  end.

(** A call that neither registers nor unregisters a source control. *)
Definition keeps_repositories (call : MainCall) : Prop :=
  match call with
  | Main_registerSourceControl _ _ _ _ | Main_unregisterSourceControl _ => False
  | _ => True
  end.

End Frames.

Section Quiet.
Context `{Host}.

(** From [w] to [w'] the counters, [_sourceControls] and the links between
    the objects are the same, and no group changed in a way the main side
    could tell. *)
Definition same_objects (w w' : ExtWorld) : Prop :=
  ScmExt_handlePool w' = ScmExt_handlePool w
  /\ SourceControl_handlePool w' = SourceControl_handlePool w
  /\ Group_handlePool w' = Group_handlePool w
  /\ _sourceControls w' = _sourceControls w
  /\ Forall2 same_links_sc (sourceControlStore w) (sourceControlStore w')
  /\ Forall2 same_links (groupStore w) (groupStore w')
  /\ Forall2 same_shown (groupStore w) (groupStore w').

(** A call that leaves the groups of a provider as they are. *)
Definition harmless (call : MainCall) : Prop :=
  keeps_repositories call
  /\ forall p,
       p_handle (provider_after call p) = p_handle p
       /\ groups (provider_after call p) = groups p
       /\ forall gh, groupByHandle (provider_after call p) gh = groupByHandle p gh.

(** From [w] to [w'] the shape of the world and the exactness of the
    groups were kept, and the main side, once it has received what was sent
    in between, shows [w'] when it showed [w]. *)
Definition step_shown (w w' : ExtWorld) : Prop :=
  world_shape w'
  /\ Forall group_exact (groupStore w')
  /\ exists calls,
       outbox w' = outbox w ++ calls
       /\ forall m, mirror_ok m -> shows w m -> shows w' (deliver calls m).2.

Definition keeps_shown (f : ExtWorld -> ExtWorld) : Prop :=
  forall w, world_shape w -> Forall group_exact (groupStore w) -> step_shown w (f w).

End Quiet.

(** ** Ties of the comparators, in words *)

Section Ties.
Context `{Host}.

(** Two commands that [$executeResourceCommand] runs in the same way: the
    same identifier, title and tooltip, and arguments that are the same
    array or strictly equal one by one. *)
Definition same_call (a b : Command) : Prop :=
  cmd_command a = cmd_command b
  /\ cmd_title a = cmd_title b
  /\ cmd_tooltip a = cmd_tooltip b
  /\ match cmd_arguments a, cmd_arguments b with
     | None, None => True
     | Some aa, Some ab =>
         arr_id aa = arr_id ab
         \/ Forall2 (fun x y => arg_strict_eq x y = true) (arr_items aa) (arr_items ab)
     | _, _ => False
     end.

(** Two flags that are both falsy and not the same value: one is
    [undefined], the other one [false]. *)
Definition falsy_apart (x y : option bool) : Prop :=
  x <> y /\ truthy_bool x = false /\ truthy_bool y = false.

End Ties.

(** ** A host for the examples

    URIs are their paths; paths and tooltips are compared byte by byte;
    command arguments are integers; arrays are sorted by insertion. *)

Lemma insertion_sort_perm {A : Type} (compare : A -> A -> Z) (l : list A) :
  insertion_sort compare l ≡ₚ l.
Proof.
  induction l as [|x l IH]; [done|]. unfold insertion_sort in *. cbn.
  rewrite <- IH at 2. generalize (foldr (sort_insert compare) [] l) as sorted.
  intros sorted. induction sorted as [|y sorted IHs]; [done|]. cbn.
  case_match; [done|]. rewrite IHs. apply Permutation_swap.
Qed.

Definition string_order (a b : string) : Z :=
  match String.compare a b with
  | Lt => -1
  | Eq => 0
  | Gt => 1
  end.

Definition exampleHost : Host := {|
  Uri := string;
  fsPath := fun u => u;
  uri_file := fun path => path;
  uri_toString := fun u => u;
  comparePaths := fun one other _ => string_order one other;
  localeCompare := string_order;
  Arg := Z;
  arg_strict_eq := Z.eqb;
  arg_lt := Z.ltb;
  array_sort := @insertion_sort;
  array_sort_perm := @insertion_sort_perm;
|}.

Section Examples.
#[local] Existing Instance exampleHost.

(** A changed file without command and decorations. *)
Definition file (path : string) : ResourceState :=
  {| rs_resourceUri := path; rs_command := None; rs_decorations := None;
     rs_contextValue := None |}.

(** Decorations with the two flags given and nothing else. *)
Definition flags (strikeThrough0 faded0 : option bool) : ResourceDecorations :=
  {| rd_iconPath := None; rd_strikeThrough := strikeThrough0; rd_faded := faded0;
     rd_tooltip := None; rd_light := None; rd_dark := None |}.

Definition decorated (path : string) (d : ResourceDecorations) : ResourceState :=
  {| rs_resourceUri := path; rs_command := None; rs_decorations := Some d;
     rs_contextValue := None |}.

(** A changed file with a command that has the identifier [id] and one
    argument. *)
Definition withCommand (path id : string) : ResourceState :=
  {| rs_resourceUri := path;
     rs_command :=
       Some {| cmd_command := Some id; cmd_title := Some "Open"; cmd_tooltip := None;
               cmd_arguments := Some {| arr_id := 1; arr_items := [42] |} |};
     rs_decorations := None; rs_contextValue := None |}.

(** A group "changes" with the handle 0 of the source control with the
    handle 0, as its constructor leaves it, and the mirror's provider for
    this source control after it has registered the group. *)
Definition changes : Group := newGroup 0 0 "changes" "Changes".

Definition git : PluginScmProvider :=
  PluginScmProvider.registerGroups
    (mkProvider 0 "git" "Git" None (mkFeatures None None None None None) [] [] ∅)
    [mkGroupEntry 0 "changes" "Changes" (mkGroupFeatures (Some None))].

(** Two source controls, with the handles 0 and 1, of which the second one
    is selected. *)
Definition twoSourceControls : ExtWorld :=
  (ScmExtImpl.createSourceControl "svn" "Subversion" None
     (ScmExtImpl.createSourceControl "git" "Git" None initialWorld).2).2.

Definition secondSelected : ExtWorld :=
  (ScmExtImpl.setSelectedSourceControl (Some 1) twoSourceControls).2.

(** One source control with the handle 0; the same after the plugin has
    created two groups; and after it has then assigned one file to each. *)
Definition oneSourceControl : ExtWorld :=
  (ScmExtImpl.createSourceControl "git" "Git" None initialWorld).2.

Definition twoGroups : ExtWorld :=
  createResourceGroups 0 [("index", "Staged"); ("workingTree", "Changes")] oneSourceControl.

Definition twoUpdates : ExtWorld :=
  assignAll [(0%nat, [file "a"]); (1%nat, [file "b"])] twoGroups.





(** A plugin that creates a source control and a group and declares two
    files for the group. *)
Definition firstDeclaration : ExtWorld :=
  run [CreateSourceControl "git" "Git" None;
       CreateResourceGroup 0 "changes" "Changes";
       AssignResourceStates 0 [file "d"; file "b"]] initialWorld.

(** The one source control after the plugin has disposed of it; and a
    source control with one group, which the plugin declared a file with a
    command of its own for and then disposed of. *)
Definition disposedSourceControl : ExtWorld :=
  ExtHostSourceControl.dispose 0 oneSourceControl.

Definition staleGroup : ExtWorld :=
  run [CreateSourceControl "git" "Git" None;
       CreateResourceGroup 0 "changes" "Changes";
       AssignResourceStates 0 [withCommand "a" "git.stage"];
       DisposeGroup 0] initialWorld.

(** What a plugin does in one session: it creates a source control and two
    groups, assigns resource states, disposes of the first group, creates
    it anew, disposes of the source control and creates that anew. *)
Definition session : list Operation :=
  [CreateSourceControl "git" "Git" None;
   CreateResourceGroup 0 "index" "Staged";
   CreateResourceGroup 0 "workingTree" "Changes";
   AssignResourceStates 0 [file "a"; file "b"];
   AssignResourceStates 1 [file "c"];
   AssignResourceStates 0 [file "b"; file "c"];
   DisposeGroup 0;
   CreateResourceGroup 0 "index" "Staged";
   DisposeSourceControl 0;
   CreateSourceControl "git" "Git" None].

(** A provider as [$registerSourceControl] creates it, and the main side
    after two source controls, with the handles 0 and 1, were registered. *)
Definition newProvider : PluginScmProvider :=
  mkProvider 0 "git" "Git" None (mkFeatures None None None None None) [] [] ∅.

Definition twoRepositories : MainWorld :=
  (deliver [Main_registerSourceControl 0 "git" "Git" None;
            Main_registerSourceControl 1 "svn" "Subversion" None] emptyMirror).2.

(** What a plugin does first: it creates a source control and two groups;
    the source control and the second group as this leaves them, and the
    first group once the file a was declared for it. *)
Definition setup : list Action :=
  [Plain (CreateSourceControl "git" "Git" None);
   Plain (CreateResourceGroup 0 "index" "Staged");
   Plain (CreateResourceGroup 0 "workingTree" "Changes")].

Definition gitSourceControl : SourceControl :=
  mkSourceControl 0 "git" "Git" None (mkInputBox "" "" None 0) None false
    [(0, 0%nat); (1, 1%nat)] [] [].

Definition workingTree : Group := registeredGroup 0 1 0 "workingTree" "Changes".

Definition indexWithFile : Group :=
  mkGroup 0 0 "index" "Staged" None 1 [file "a"] {[0 := file "a"]} ∅ ∅ [MarkUpdated 0]
    false [Unregister 0] [0] [file "a"].

(** The repository that the main side has for it once the calls arrived. *)
Definition setupRepository : ScmRepository :=
  default (mkRepository newProvider "" "")
    (_repositories (deliver (outbox (play setup initialWorld)) emptyMirror).2 !! 0).




End Examples.

(** A host whose command arguments are integers or [undefined]. *)
Definition valuesHost : Host := {|
  Uri := string;
  fsPath := fun u => u;
  uri_file := fun path => path;
  uri_toString := fun u => u;
  comparePaths := fun one other _ => string_order one other;
  localeCompare := string_order;
  Arg := option Z;
  arg_strict_eq := fun x y => bool_decide (x = y);
  arg_lt := fun x y => match x, y with Some a, Some b => a <? b | _, _ => false end;
  array_sort := @insertion_sort;
  array_sort_perm := @insertion_sort_perm;
|}.

Section ValueExamples.
#[local] Existing Instance valuesHost.

(** [undefined] for this host. *)
Definition noValue : @Arg valuesHost := None.

(** The command [id] with the arguments [items] in the array [array]. *)
Definition statusCommand (id : string) (array : positive) (items : list (option Z))
  : Command :=
  {| cmd_command := Some id; cmd_title := Some "Sync"; cmd_tooltip := None;
     cmd_arguments := Some {| arr_id := array; arr_items := items |} |}.

End ValueExamples.

(** * Properties *)

(** ** Arrays *)

Section ArrayFacts.
Context {A : Type}.
Implicit Types l pre del rest items : list A.

Lemma array_splice_within l (start0 deleteCount0 : Z) items :
  0 <= start0 -> 0 <= deleteCount0 ->
  start0 + deleteCount0 <= Z.of_nat (length l) ->
  array_splice l start0 deleteCount0 items =
    (take (Z.to_nat start0) l ++ items
       ++ drop (Z.to_nat (start0 + deleteCount0)) l,
     take (Z.to_nat deleteCount0) (drop (Z.to_nat start0) l)).
Proof.
  intros Hs Hd Hb. unfold array_splice.
  assert ((start0 <? 0) = false) as -> by lia.
  replace (Z.min start0 (Z.of_nat (length l))) with start0 by lia.
  replace (Z.min (Z.max deleteCount0 0) (Z.of_nat (length l) - start0))
    with deleteCount0 by lia.
  reflexivity.
Qed.

Lemma array_splice_app pre del rest (start0 deleteCount0 : Z) items :
  Z.of_nat (length pre) = start0 ->
  Z.of_nat (length del) = deleteCount0 ->
  array_splice (pre ++ del ++ rest) start0 deleteCount0 items =
    (pre ++ items ++ rest, del).
Proof.
  intros Hp Hd.
  rewrite array_splice_within by (rewrite ?length_app; lia).
  replace (Z.to_nat start0) with (length pre) by lia.
  replace (Z.to_nat (start0 + deleteCount0)) with (length pre + length del)%nat by lia.
  replace (Z.to_nat deleteCount0) with (length del) by lia.
  rewrite take_app_length.
  rewrite (app_assoc pre del rest), <- (length_app pre del), drop_app_length.
  rewrite <- (app_assoc pre del rest), drop_app_length.
  by rewrite take_app_length.
Qed.

Lemma array_splice_fmap {B} (f : A -> B) l (start0 deleteCount0 : Z) items :
  array_splice (f <$> l) start0 deleteCount0 (f <$> items) =
    (f <$> (array_splice l start0 deleteCount0 items).1,
     f <$> (array_splice l start0 deleteCount0 items).2).
Proof.
  unfold array_splice. cbn [fst snd].
  rewrite !length_fmap, !fmap_app, !fmap_take, !fmap_drop. reflexivity.
Qed.

(** What an array holds after a splice was already in it or is inserted. *)
Lemma array_splice_elem_of l (start0 deleteCount0 : Z) items x :
  x ∈ (array_splice l start0 deleteCount0 items).1 -> (x ∈ l) \/ (x ∈ items).
Proof.
  unfold array_splice. cbn [fst].
  rewrite !elem_of_app. intros [Hx | [Hx | Hx]]; auto.
  - left. exact (subseteq_take _ _ _ Hx).
  - left. exact (subseteq_drop _ _ _ Hx).
Qed.

Lemma array_splice_removed_elem_of l (start0 deleteCount0 : Z) items x :
  x ∈ (array_splice l start0 deleteCount0 items).2 -> x ∈ l.
Proof.
  unfold array_splice. cbn [snd]. intros Hx.
  exact (subseteq_drop _ _ _ (subseteq_take _ _ _ Hx)).
Qed.

End ArrayFacts.

Section ReplayFacts.
Context {A : Type}.
Implicit Types l pre del rest : list A.
Implicit Types s : Splice A.

Lemma replay_cons s splices l :
  replay (s :: splices) l =
    replay splices (array_splice l (start s) (deleteCount s) (toInsert s)).1.
Proof. reflexivity. Qed.

Lemma replay_fmap {B} (f : A -> B) splices l :
  f <$> replay splices l = replay (splice_map f <$> splices) (f <$> l).
Proof.
  revert l. induction splices as [|s splices IH]; intros l; [done|].
  change (f <$> replay splices
                  (array_splice l (start s) (deleteCount s) (toInsert s)).1 =
          replay (splice_map f <$> splices)
            (array_splice (f <$> l) (start s) (deleteCount s) (f <$> toInsert s)).1).
  by rewrite IH, array_splice_fmap.
Qed.

Lemma ascending_nonneg (applied : list (Splice A)) bound :
  ascending applied bound -> 0 <= bound.
Proof.
  revert bound. induction applied as [|s applied IH]; intros bound; cbn; [done|].
  intros (Hd & Hb & Hrest). apply IH in Hrest. lia.
Qed.

Lemma ascending_mono (applied : list (Splice A)) bound bound' :
  ascending applied bound -> bound <= bound' -> ascending applied bound'.
Proof.
  destruct applied as [|s applied]; cbn; [lia|].
  intros (Hd & Hb & Hrest) Hle. repeat split; [done|lia|done].
Qed.

(** Splices that end at or before [bound] leave what lies behind [bound]
    alone. *)
Lemma replay_frame (applied : list (Splice A)) bound pre rest :
  ascending applied bound -> bound <= Z.of_nat (length pre) ->
  replay applied (pre ++ rest) = replay applied pre ++ rest.
Proof.
  revert bound pre. induction applied as [|s applied IH]; intros bound pre; [done|].
  cbn [ascending]. intros (Hd & Hb & Hrest) Hlen.
  pose proof (ascending_nonneg _ _ Hrest) as Hs.
  rewrite !replay_cons.
  rewrite !array_splice_within by (rewrite ?length_app; lia). cbn [fst].
  rewrite take_app_le, drop_app_le by lia.
  rewrite (app_assoc (toInsert s) _ rest), (app_assoc (take _ pre) _ rest).
  apply (IH (start s)); [done|].
  rewrite length_app, length_take. lia.
Qed.

End ReplayFacts.

(** ** The sorted diff *)

Section SortedDiffFacts.
Context {T : Type} (compare : T -> T -> Z).
Implicit Types before after pre sent : list T.
Implicit Types result : list (Splice T).

Lemma sortedDiff_from_nil after beforeIdx result :
  sortedDiff_from compare [] after beforeIdx result =
    pushSplice result beforeIdx 0 after.
Proof. reflexivity. Qed.

Lemma sortedDiff_from_cons_nil b before beforeIdx result :
  sortedDiff_from compare (b :: before) [] beforeIdx result =
    pushSplice result beforeIdx (Z.of_nat (length (b :: before))) [].
Proof. reflexivity. Qed.

Lemma sortedDiff_from_cons_cons b before a after beforeIdx result :
  sortedDiff_from compare (b :: before) (a :: after) beforeIdx result =
    if compare b a =? 0 then
      sortedDiff_from compare before after (beforeIdx + 1) result
    else if compare b a <? 0 then
      sortedDiff_from compare before (a :: after) (beforeIdx + 1)
        (pushSplice result beforeIdx 1 [])
    else
      sortedDiff_from compare (b :: before) after beforeIdx
        (pushSplice result beforeIdx 0 [a]).
Proof. reflexivity. Qed.

(** The splices recorded so far, latest first, after one more edit. *)
Lemma pushSplice_rev result (start0 deleteCount0 : Z) (toInsert0 : list T) :
  rev (pushSplice result start0 deleteCount0 toInsert0) =
    if (deleteCount0 =? 0) && bool_decide (length toInsert0 = 0%nat) then rev result
    else
      match rev result with
      | latest :: earlier =>
          if start latest + deleteCount latest =? start0 then
            mkSplice (start latest) (deleteCount latest + deleteCount0)
              (toInsert latest ++ toInsert0) :: earlier
          else mkSplice start0 deleteCount0 toInsert0 :: latest :: earlier
      | [] => [mkSplice start0 deleteCount0 toInsert0]
      end.
Proof.
  unfold pushSplice. case_match; [done|].
  destruct result as [|latest result _] using rev_ind; [done|].
  rewrite last_snoc, rev_app_distr. cbn [rev app].
  case_match.
  - by rewrite removelast_last, rev_app_distr.
  - by rewrite rev_app_distr, rev_app_distr.
Qed.

(** One more edit at the cursor: replayed latest first, the recorded edits
    turn the part of the previous array before the cursor, followed by what
    the edit deletes, into what they produced so far followed by what the
    edit inserts. *)
Lemma pushSplice_replay result (beforeIdx deleteCount0 : Z) (toInsert0 : list T)
    (pre del : list T) :
  ascending (rev result) beforeIdx ->
  Z.of_nat (length pre) = beforeIdx ->
  Z.of_nat (length del) = deleteCount0 ->
  replay (rev (pushSplice result beforeIdx deleteCount0 toInsert0)) (pre ++ del) =
    replay (rev result) pre ++ toInsert0
  /\ ascending (rev (pushSplice result beforeIdx deleteCount0 toInsert0))
       (beforeIdx + deleteCount0).
Proof.
  intros Hasc Hpre Hdel. rewrite pushSplice_rev.
  destruct ((deleteCount0 =? 0) && bool_decide (length toInsert0 = 0%nat)) eqn:Hempty.
  { apply andb_prop in Hempty as [Hd%Z.eqb_eq Hi%bool_decide_eq_true].
    destruct del; [|simpl in Hdel; lia]. destruct toInsert0; [|done].
    rewrite !app_nil_r. split; [done|]. eapply ascending_mono; [done|lia]. }
  destruct (rev result) as [|latest earlier] eqn:Hrev.
  { cbn in Hasc. rewrite replay_cons. cbn [start deleteCount toInsert replay foldl].
    rewrite <- (app_nil_r del) at 1. rewrite array_splice_app by done.
    cbn [fst]. rewrite app_nil_r. split; [done|]. cbn. lia. }
  cbn [ascending] in Hasc. destruct Hasc as (Hd & Hb & Hearlier).
  pose proof (ascending_nonneg _ _ Hearlier) as Hs.
  destruct (start latest + deleteCount latest =? beforeIdx) eqn:Hadj.
  - apply Z.eqb_eq in Hadj.
    rewrite !replay_cons. cbn [start deleteCount toInsert].
    rewrite <- (take_drop (Z.to_nat (start latest)) pre).
    set (kept := take (Z.to_nat (start latest)) pre).
    set (gone := drop (Z.to_nat (start latest)) pre).
    assert (Z.of_nat (length kept) = start latest) as Hkept
      by (unfold kept; rewrite length_take; lia).
    assert (Z.of_nat (length gone) = deleteCount latest) as Hgone
      by (unfold gone; rewrite length_drop; lia).
    rewrite <- (app_assoc kept gone del), <- (app_nil_r (gone ++ del)).
    rewrite <- (app_nil_r gone) at 2.
    rewrite !array_splice_app by (rewrite ?length_app; lia).
    cbn [fst]. rewrite !app_nil_r.
    rewrite !(replay_frame earlier (start latest) kept) by (done || lia).
    split; [by rewrite <- !app_assoc|].
    cbn. repeat split; [lia|lia|done].
  - rewrite replay_cons. cbn [start deleteCount toInsert].
    rewrite <- (app_nil_r del) at 1. rewrite array_splice_app by done.
    cbn [fst]. rewrite app_nil_r.
    rewrite (replay_frame (latest :: earlier) beforeIdx) by (cbn; auto with lia).
    split; [done|]. cbn. repeat split; [lia|lia|done|done|done].
Qed.

(** The walk from a cursor onwards, for a list [sent] that stands position
    by position in a relation [E] to the rest of the previous array: the
    edits turn it into a list that stands in [E] to the rest of the new
    array, provided that, on the elements of the two arrays, which satisfy
    [P], [E] relates every element to itself and follows the comparator's
    verdict "equal". *)
Lemma sortedDiff_from_replay (E : T -> T -> Prop) (P : T -> Prop) :
  (forall a, P a -> E a a) ->
  (forall x b a, P b -> P a -> E x b -> compare b a = 0 -> E x a) ->
  forall before after beforeIdx result pre sent,
    Forall P before -> Forall P after ->
    ascending (rev result) beforeIdx ->
    Z.of_nat (length pre) = beforeIdx ->
    Forall2 E sent before ->
    exists tail,
      replay (rev (sortedDiff_from compare before after beforeIdx result)) (pre ++ sent) =
        replay (rev result) pre ++ tail
      /\ Forall2 E tail after
      /\ ascending (rev (sortedDiff_from compare before after beforeIdx result))
           (beforeIdx + Z.of_nat (length before)).
Proof.
  intros Hrefl Hstep before.
  induction before as [|b before IHb];
    intros after beforeIdx result pre sent HPb HPa Hasc Hpre Hsent.
  { apply Forall2_nil_inv_r in Hsent as ->.
    rewrite sortedDiff_from_nil.
    destruct (pushSplice_replay result beforeIdx 0 after pre [] Hasc Hpre eq_refl)
      as [Heq Hasc'].
    exists after. split; [done|]. split; [|done].
    apply Forall_Forall2_diag. eapply Forall_impl; [exact HPa|]. auto. }
  apply Forall2_cons_inv_r in Hsent as (x & sent' & Hx & Hsent' & ->).
  apply Forall_cons in HPb as [Pb HPb].
  revert result Hasc.
  induction after as [|a after IHa]; intros result Hasc.
  { rewrite sortedDiff_from_cons_nil.
    destruct (pushSplice_replay result beforeIdx (Z.of_nat (length (b :: before))) []
                pre (x :: sent') Hasc Hpre) as [Heq Hasc'].
    { apply Forall2_length in Hsent'. cbn. lia. }
    exists []. rewrite Heq. split; [done|]. split; [constructor|done]. }
  rewrite sortedDiff_from_cons_cons.
  pose proof HPa as [Pa HPa']%Forall_cons.
  destruct (compare b a =? 0) eqn:Heq0; [|destruct (compare b a <? 0) eqn:Hlt].
  - apply Z.eqb_eq in Heq0.
    destruct (IHb after (beforeIdx + 1) result (pre ++ [x]) sent')
      as (tail & Heq & Htail & Hasc'); [done|done|..|done|].
    { eapply ascending_mono; [done|lia]. }
    { rewrite length_app. cbn. lia. }
    exists (x :: tail). split; [|split].
    + rewrite <- app_assoc in Heq. cbn [app] in Heq. rewrite Heq.
      rewrite (replay_frame _ beforeIdx) by (done || lia).
      by rewrite <- app_assoc.
    + constructor; eauto.
    + cbn [length]. by replace (beforeIdx + Z.of_nat (S (length before)))
        with (beforeIdx + 1 + Z.of_nat (length before)) by lia.
  - destruct (pushSplice_replay result beforeIdx 1 [] pre [x] Hasc Hpre eq_refl)
      as [Heq1 Hasc1].
    destruct (IHb (a :: after) (beforeIdx + 1) (pushSplice result beforeIdx 1 [])
                (pre ++ [x]) sent')
      as (tail & Heq & Htail & Hasc'); [done|done|done|..|done|].
    { rewrite length_app. cbn. lia. }
    exists tail. split; [|split].
    + rewrite <- app_assoc in Heq. cbn [app] in Heq. rewrite Heq, Heq1.
      by rewrite app_nil_r.
    + done.
    + cbn [length]. by replace (beforeIdx + Z.of_nat (S (length before)))
        with (beforeIdx + 1 + Z.of_nat (length before)) by lia.
  - destruct (pushSplice_replay result beforeIdx 0 [a] pre [] Hasc Hpre eq_refl)
      as [Heq1 Hasc1].
    rewrite app_nil_r in Heq1.
    destruct (IHa HPa' (pushSplice result beforeIdx 0 [a]))
      as (tail & Heq & Htail & Hasc').
    { eapply ascending_mono; [done|lia]. }
    exists (a :: tail). split; [|split].
    + rewrite Heq, Heq1. by rewrite <- app_assoc.
    + constructor; auto.
    + done.
Qed.

End SortedDiffFacts.

(** ** Taking a snapshot: the encoding pass *)

Section EncodingPass.
Context `{Host}.
Import ExtHostSourceControlResourceGroup.

Lemma same_frame_refl g : same_frame g g.
Proof. by repeat split. Qed.

Lemma same_frame_trans g1 g2 g3 :
  same_frame g1 g2 -> same_frame g2 g3 -> same_frame g1 g3.
Proof. unfold same_frame. intros H12 H23. destruct_and!. repeat split; congruence. Qed.

Lemma maps_agree_trans g1 g2 g3 k :
  maps_agree g1 g2 k -> maps_agree g2 g3 k -> maps_agree g1 g3 k.
Proof. unfold maps_agree. intros H12 H23. destruct_and!. repeat split; congruence. Qed.

Lemma toSafeCommand_trusted conv c disposables :
  trustedCommand (cmd_command c) = true ->
  toSafeCommand conv c disposables = (PlainCommand c, conv, disposables).
Proof. unfold toSafeCommand. by intros ->. Qed.

(** One inserted state: its encoding is a function of the handle and the
    state, the converter is left as it was, and the group records the state
    under the next handle of the pool. *)
Lemma encodeInserted_spec g conv r :
  pool_fresh g ->
  exists g1,
    encodeInserted (g, conv) r =
      (wirePair (_resourceHandlePool g, r), (g1, conv))
    /\ same_frame g g1
    /\ _resourceHandlePool g1 = _resourceHandlePool g + 1
    /\ pool_fresh g1
    /\ (forall k, k < _resourceHandlePool g -> maps_agree g g1 k)
    /\ recorded g1 (_resourceHandlePool g, r).
Proof.
  intros Hfresh.
  destruct (Hfresh (_resourceHandlePool g)) as (Hs & Hc & Hd); [lia|].
  unfold encodeInserted, wirePair, wireResource, wireCommand, recorded, keptCommand.
  cbn [fst snd].
  destruct (rs_command r) as [c|];
    [destruct (trustedCommand (cmd_command c)) eqn:Htrusted|].
  - rewrite toSafeCommand_trusted by done.
    eexists. split; [reflexivity|]. cbn.
    split; [by repeat split|]. split; [done|].
    split; [|split; [|by rewrite lookup_insert_eq]].
    + intros k Hk. cbn in Hk. destruct (Hfresh k) as (?&?&?); [lia|].
      cbn. by rewrite !lookup_insert_ne by lia.
    + intros k Hk. unfold maps_agree. cbn. by rewrite !lookup_insert_ne by lia.
  - eexists. split; [reflexivity|]. cbn.
    split; [by repeat split|]. split; [done|].
    split; [|split; [|by rewrite !lookup_insert_eq]].
    + intros k Hk. cbn in Hk. destruct (Hfresh k) as (?&?&?); [lia|].
      cbn. by rewrite !lookup_insert_ne by lia.
    + intros k Hk. unfold maps_agree. cbn. by rewrite !lookup_insert_ne by lia.
  - eexists. split; [reflexivity|]. cbn.
    split; [by repeat split|]. split; [done|].
    split; [|split; [|by rewrite !lookup_insert_eq]].
    + intros k Hk. cbn in Hk. destruct (Hfresh k) as (?&?&?); [lia|].
      cbn. by rewrite !lookup_insert_ne by lia.
    + intros k Hk. unfold maps_agree. cbn. by rewrite !lookup_insert_ne by lia.
Qed.

Lemma number_length {T} (pool : Z) (l : list T) :
  (number pool l).2 = pool + Z.of_nat (length l)
  /\ length (number pool l).1 = length l
  /\ Forall (fun hr => pool <= hr.1 < pool + Z.of_nat (length l)) (number pool l).1
  /\ NoDup (fst <$> (number pool l).1)
  /\ snd <$> (number pool l).1 = l.
Proof.
  revert pool. induction l as [|x l IH]; intros pool.
  { cbn. repeat split; [lia|constructor|constructor]. }
  unfold number in *. cbn [map_state].
  specialize (IH (pool + 1)).
  destruct (map_state _ (pool + 1) l) as [out p'] eqn:Hrest.
  cbn [fst snd length] in *. destruct IH as (Hp & Hlen & Hall & Hnd & Hsnd).
  repeat split.
  - lia.
  - by rewrite Hlen.
  - constructor; [cbn; lia|]. eapply Forall_impl; [done|]. cbn. intros; lia.
  - rewrite fmap_cons. constructor; [|done]. cbn.
    intros (hr & -> & Hin)%list_elem_of_fmap.
    eapply Forall_forall in Hall; [|done]. lia.
  - by rewrite fmap_cons, Hsnd.
Qed.

(** The inserted states of one splice. *)
Lemma encode_list l g conv :
  pool_fresh g ->
  exists g1,
    map_state encodeInserted (g, conv) l =
      (wirePair <$> (number (_resourceHandlePool g) l).1, (g1, conv))
    /\ same_frame g g1
    /\ _resourceHandlePool g1 = (number (_resourceHandlePool g) l).2
    /\ pool_fresh g1
    /\ (forall k, k < _resourceHandlePool g -> maps_agree g g1 k)
    /\ Forall (recorded g1) (number (_resourceHandlePool g) l).1.
Proof.
  revert g. induction l as [|r l IH]; intros g Hfresh.
  { exists g. cbn. repeat split; auto using same_frame_refl. all: by apply Hfresh. }
  destruct (encodeInserted_spec g conv r Hfresh)
    as (g1 & Henc & Hframe1 & Hpool1 & Hfresh1 & Hold1 & Hrec1).
  destruct (IH g1 Hfresh1) as (g2 & Hmap & Hframe2 & Hpool2 & Hfresh2 & Hold2 & Hrec2).
  exists g2. unfold number in *. cbn [map_state]. rewrite Henc, Hmap, Hpool1.
  destruct (map_state _ (_resourceHandlePool g + 1) l) as [out p'] eqn:Hrest.
  cbn [fst snd] in *. rewrite Hpool1, Hrest in Hpool2, Hrec2. cbn [fst snd] in *.
  split; [done|]. split; [by eapply same_frame_trans|]. split; [done|].
  split; [done|]. split.
  - intros k Hk. eapply maps_agree_trans; [by apply Hold1|]. apply Hold2. lia.
  - constructor; [|done].
    destruct (Hold2 (_resourceHandlePool g)) as (Hs & Hc & _); [lia|].
    destruct Hrec1 as [Hrs Hrc]. split; cbn [fst snd] in *; congruence.
Qed.

(** The inserted states of all splices. *)
Lemma encode_splices (diffs : list (Splice ResourceState)) g conv :
  pool_fresh g ->
  exists g1,
    map_state
      (fun st diff =>
         let '(toInsert0, st) := map_state encodeInserted st (toInsert diff) in
         (mkSplice (start diff) (deleteCount diff) toInsert0, st))
      (g, conv) diffs =
      (splice_map wirePair <$> (number_splices (_resourceHandlePool g) diffs).1,
       (g1, conv))
    /\ same_frame g g1
    /\ _resourceHandlePool g1 = (number_splices (_resourceHandlePool g) diffs).2
    /\ pool_fresh g1
    /\ (forall k, k < _resourceHandlePool g -> maps_agree g g1 k)
    /\ Forall (recorded g1)
         (inserted (number_splices (_resourceHandlePool g) diffs).1).
Proof.
  revert g. induction diffs as [|diff diffs IH]; intros g Hfresh.
  { exists g. cbn. repeat split; auto using same_frame_refl. all: by apply Hfresh. }
  destruct (encode_list (toInsert diff) g conv Hfresh)
    as (g1 & Henc & Hframe1 & Hpool1 & Hfresh1 & Hold1 & Hrec1).
  destruct (IH g1 Hfresh1) as (g2 & Hmap & Hframe2 & Hpool2 & Hfresh2 & Hold2 & Hrec2).
  destruct (number_length (_resourceHandlePool g) (toInsert diff))
    as (Hnext & _ & Hrange & _).
  exists g2. unfold number_splices in *. cbn [map_state]. rewrite Henc, Hmap.
  destruct (number (_resourceHandlePool g) (toInsert diff)) as [out1 p1] eqn:Hnum.
  cbn [fst snd] in *. rewrite Hpool1 in Hpool2, Hrec2, Hmap |- *.
  destruct (map_state _ p1 diffs) as [out p'] eqn:Hrest.
  cbn [fst snd] in *.
  split; [done|]. split; [by eapply same_frame_trans|]. split; [done|].
  split; [done|]. split.
  - intros k Hk. eapply maps_agree_trans; [by apply Hold1|]. apply Hold2. lia.
  - unfold inserted. rewrite fmap_cons. cbn [concat toInsert].
    apply Forall_app. split; [|done].
    eapply Forall_impl; [apply Forall_and; split; [exact Hrec1|exact Hrange]|].
    cbn beta. intros hr [[Hrs Hrc] Hr]. destruct (Hold2 hr.1) as (Hs & Hc & _); [lia|].
    split; congruence.
Qed.

End EncodingPass.

(** ** Taking a snapshot: the pass over the handles *)

Section HandlesPass.
Context `{Host}.
Import ExtHostSourceControlResourceGroup.

Lemma same_identity_refl g : same_identity g g.
Proof. by repeat split. Qed.

Lemma same_identity_trans g1 g2 g3 :
  same_identity g1 g2 -> same_identity g2 g3 -> same_identity g1 g3.
Proof. unfold same_identity. intros H12 H23. destruct_and!. repeat split; congruence. Qed.

Lemma same_frame_identity g g' : same_frame g g' -> same_identity g g'.
Proof. unfold same_frame, same_identity. intros ?. destruct_and!. by repeat split. Qed.

Lemma maps_agree_refl g k : maps_agree g g k.
Proof. by repeat split. Qed.

(** Retiring handles touches the three maps at these handles only, and
    only by removing entries. *)
Lemma retire_all (handles : list Z) g conv :
  exists g' conv',
    foldl retireHandle (g, conv) handles = (g', conv')
    /\ same_identity g g'
    /\ _resourceHandlePool g' = _resourceHandlePool g
    /\ _handlesSnapshot g' = _handlesSnapshot g
    /\ _resourceSnapshot g' = _resourceSnapshot g
    /\ (pool_fresh g -> pool_fresh g')
    /\ (forall k, k ∉ handles -> maps_agree g g' k).
Proof.
  revert g conv. induction handles as [|h handles IH]; intros g conv.
  { exists g, conv. split_and!; auto using same_identity_refl, maps_agree_refl. }
  cbn [foldl]. unfold retireHandle at 2.
  match goal with |- context [foldl retireHandle (?g1, ?c1) handles] =>
    destruct (IH g1 c1) as (g' & conv' & Hfold & Hid & Hpool & Hhs & Hsnap & Hfresh & Hagree)
  end.
  exists g', conv'. split; [exact Hfold|]. cbn in *.
  split; [exact Hid|]. split; [exact Hpool|]. split; [exact Hhs|]. split; [exact Hsnap|].
  split.
  - intros Hf. apply Hfresh. intros k Hk. cbn in *.
    destruct (Hf k Hk) as (?&?&?).
    repeat split; (destruct (decide (h = k)) as [->|];
      [by rewrite lookup_delete_eq|by rewrite lookup_delete_ne]).
  - intros k [Hne Hk]%not_elem_of_cons.
    eapply maps_agree_trans; [|by apply Hagree].
    unfold maps_agree. cbn. by rewrite !lookup_delete_ne.
Qed.

Lemma applyToHandles_spec (s : Splice (ScmRawResource * Z)) g conv :
  exists g' conv',
    applyToHandles (g, conv) s = (g', conv')
    /\ same_identity g g'
    /\ _resourceHandlePool g' = _resourceHandlePool g
    /\ _handlesSnapshot g' =
         (array_splice (_handlesSnapshot g) (start s) (deleteCount s)
            (snd <$> toInsert s)).1
    /\ _resourceSnapshot g' = _resourceSnapshot g
    /\ (pool_fresh g -> pool_fresh g')
    /\ (forall k,
          k ∉ (array_splice (_handlesSnapshot g) (start s) (deleteCount s)
                 (snd <$> toInsert s)).2 ->
          maps_agree g g' k).
Proof.
  unfold applyToHandles.
  destruct (array_splice _ _ _ _) as [kept gone] eqn:Hsplice. cbn [fst snd].
  destruct (retire_all gone (set_handlesSnapshot kept g) conv)
    as (g' & conv' & Hfold & Hid & Hpool & Hhs & Hsnap & Hfresh & Hagree).
  exists g', conv'. split; [exact Hfold|].
  unfold same_identity, pool_fresh, maps_agree in *. cbn in *.
  split_and!; try done; by destruct_and!.
Qed.

(** The pass over the reversed splices, for splices that are [ascending] in
    the order the pass applies them. *)
Lemma handles_pass (applied : list (Splice (ScmRawResource * Z))) g conv :
  exists g' conv',
    foldl applyToHandles (g, conv) applied = (g', conv')
    /\ same_identity g g'
    /\ _resourceHandlePool g' = _resourceHandlePool g
    /\ _handlesSnapshot g' = replay (splice_map snd <$> applied) (_handlesSnapshot g)
    /\ _resourceSnapshot g' = _resourceSnapshot g
    /\ (pool_fresh g -> pool_fresh g')
    /\ (forall bound k,
          ascending applied bound ->
          bound <= Z.of_nat (length (_handlesSnapshot g)) ->
          k ∉ take (Z.to_nat bound) (_handlesSnapshot g) ->
          maps_agree g g' k).
Proof.
  revert g conv. induction applied as [|s applied IH]; intros g conv.
  { exists g, conv. split_and!; auto using same_identity_refl, maps_agree_refl. }
  cbn [foldl].
  destruct (applyToHandles_spec s g conv)
    as (g1 & conv1 & Hstep & Hid1 & Hpool1 & Hhs1 & Hsnap1 & Hfresh1 & Hagree1).
  destruct (IH g1 conv1)
    as (g2 & conv2 & Hfold & Hid2 & Hpool2 & Hhs2 & Hsnap2 & Hfresh2 & Hagree2).
  exists g2, conv2. rewrite Hstep.
  split; [exact Hfold|]. split; [by eapply same_identity_trans|].
  split; [congruence|]. split; [by rewrite Hhs2, Hhs1|]. split; [congruence|].
  split; [auto|].
  intros bound k (Hd & Hb & Hrest) Hlen Hk.
  pose proof (ascending_nonneg _ _ Hrest) as Hs.
  rewrite array_splice_within in Hhs1, Hagree1 by lia. cbn [fst snd] in *.
  eapply maps_agree_trans.
  - apply Hagree1. intros Hin. apply Hk.
    apply list_elem_of_lookup in Hin as [i Hi].
    apply lookup_take_Some in Hi as [Hi Hlt].
    rewrite lookup_drop in Hi.
    apply list_elem_of_lookup. exists (Z.to_nat (start s) + i)%nat.
    rewrite lookup_take_lt by lia. done.
  - apply (Hagree2 (start s)); [done|..].
    + rewrite Hhs1, length_app, length_take. lia.
    + rewrite Hhs1, take_app_le by (rewrite length_take; lia).
      rewrite take_take. intros Hin. apply Hk.
      apply list_elem_of_lookup in Hin as [i Hi].
      apply lookup_take_Some in Hi as [Hi Hlt].
      apply list_elem_of_lookup. exists i.
      rewrite lookup_take_lt by lia. done.
Qed.

End HandlesPass.

(** ** Numbered splices, and lists that are spliced *)

Section NumberingFacts.
Context {T : Type}.

Lemma splice_map_compose {A B C} (f : A -> B) (g : B -> C) (s : Splice A) :
  splice_map g (splice_map f s) = splice_map (g ∘ f) s.
Proof. unfold splice_map. cbn. by rewrite <- list_fmap_compose. Qed.

Lemma ascending_splice_map {A B} (f : A -> B) (applied : list (Splice A)) bound :
  ascending (splice_map f <$> applied) bound <-> ascending applied bound.
Proof.
  revert bound. induction applied as [|s applied IH]; intros bound; [done|].
  rewrite fmap_cons. cbn. by rewrite IH.
Qed.

Lemma inserted_app {A} (ss1 ss2 : list (Splice A)) :
  inserted (ss1 ++ ss2) = inserted ss1 ++ inserted ss2.
Proof. unfold inserted. by rewrite fmap_app, concat_app. Qed.

Lemma inserted_rev {A} (ss : list (Splice A)) : inserted (rev ss) ≡ₚ inserted ss.
Proof.
  induction ss as [|s ss IH]; [done|].
  cbn [rev]. rewrite inserted_app, IH. unfold inserted at 2 3. cbn.
  rewrite app_nil_r. unfold inserted. apply Permutation_app_comm.
Qed.

Lemma inserted_splice_map {A B} (f : A -> B) (ss : list (Splice A)) :
  inserted (splice_map f <$> ss) = f <$> inserted ss.
Proof.
  induction ss as [|s ss IH]; [done|].
  rewrite fmap_cons. unfold inserted in *. cbn. by rewrite fmap_app, IH.
Qed.

(** Numbering keeps the splices and hands out consecutive handles. *)
Lemma number_splices_spec (pool : Z) (diffs : list (Splice T)) :
  splice_map snd <$> (number_splices pool diffs).1 = diffs
  /\ pool <= (number_splices pool diffs).2
  /\ Forall (fun hr => pool <= hr.1 < (number_splices pool diffs).2)
       (inserted (number_splices pool diffs).1)
  /\ NoDup (fst <$> inserted (number_splices pool diffs).1).
Proof.
  revert pool. induction diffs as [|diff diffs IH]; intros pool.
  { cbn. split_and!; [done|lia|constructor|constructor]. }
  unfold number_splices in *. cbn [map_state].
  destruct (number_length pool (toInsert diff)) as (Hnext & _ & Hrange & Hnd & Hsnd).
  destruct (number pool (toInsert diff)) as [out1 p1] eqn:Hnum.
  specialize (IH p1).
  destruct (map_state _ p1 diffs) as [out p'] eqn:Hrest.
  cbn [fst snd] in *. destruct IH as (Hshape & Hle & Hrange' & Hnd').
  split_and!.
  - rewrite fmap_cons, Hshape. unfold splice_map at 1. cbn. rewrite Hsnd.
    by destruct diff.
  - lia.
  - unfold inserted. rewrite fmap_cons. cbn [concat toInsert].
    apply Forall_app. split.
    + eapply Forall_impl; [done|]. cbn. intros; lia.
    + eapply Forall_impl; [done|]. cbn. intros; lia.
  - unfold inserted in *. rewrite fmap_cons. cbn [concat toInsert].
    rewrite fmap_app. apply NoDup_app. split; [done|]. split; [|done].
    intros h (hr & -> & Hin)%list_elem_of_fmap (hr' & Heq & Hin')%list_elem_of_fmap.
    eapply Forall_forall in Hrange; [|done].
    eapply Forall_forall in Hrange'; [|done]. cbn in *. lia.
Qed.

End NumberingFacts.

Section SplicedLists.
Context {A : Type}.
Implicit Types l : list A.

Lemma replay_elem_of (splices : list (Splice A)) l x :
  x ∈ replay splices l -> (x ∈ l) \/ (x ∈ inserted splices).
Proof.
  revert l. induction splices as [|s splices IH]; intros l; [by left|].
  rewrite replay_cons. intros [Hx | Hx]%IH.
  - apply array_splice_elem_of in Hx as [Hx | Hx]; [by left|right].
    unfold inserted. rewrite fmap_cons. cbn. apply elem_of_app. by left.
  - right. unfold inserted in *. rewrite fmap_cons. cbn. apply elem_of_app. by right.
Qed.

(** A splice of a duplicate-free array with new, distinct items. *)
Lemma array_splice_NoDup l (start0 deleteCount0 : Z) (items : list A) :
  NoDup l -> NoDup items -> (forall x, x ∈ items -> x ∉ l) ->
  NoDup (array_splice l start0 deleteCount0 items).1.
Proof.
  intros Hl Hi Hdisj. unfold array_splice. cbn [fst].
  set (a := Z.to_nat _). set (b := Z.to_nat _).
  assert (a <= b)%nat as Hab
    by (unfold a, b; destruct (Z.ltb_spec start0 0); lia).
  rewrite (Permutation_app_comm (take a l)), <- app_assoc.
  apply NoDup_app. split; [done|]. split.
  - intros x Hx [Hin | Hin]%elem_of_app; apply (Hdisj x Hx).
    + exact (subseteq_drop _ _ _ Hin).
    + exact (subseteq_take _ _ _ Hin).
  - rewrite Permutation_app_comm.
    apply (sublist_NoDup _ l); [exact Hl|].
    rewrite <- (take_drop a l) at 3. apply sublist_app; [done|].
    replace b with (a + (b - a))%nat by lia. rewrite <- drop_drop.
    apply sublist_drop.
Qed.

Lemma replay_NoDup (splices : list (Splice A)) l :
  NoDup l -> NoDup (inserted splices) ->
  (forall x, x ∈ inserted splices -> x ∉ l) ->
  NoDup (replay splices l).
Proof.
  revert l. induction splices as [|s splices IH]; intros l Hl Hi Hdisj; [done|].
  unfold inserted in Hi, Hdisj. rewrite fmap_cons in Hi, Hdisj. cbn in Hi, Hdisj.
  apply NoDup_app in Hi as (Hs & Hcross & Hrest).
  rewrite replay_cons. apply IH; [|done|].
  - apply array_splice_NoDup; [done..|].
    intros x Hx. apply Hdisj, elem_of_app. by left.
  - intros x Hx [Hin | Hin]%array_splice_elem_of.
    + apply (Hdisj x); [|done]. apply elem_of_app. by right.
    + by apply (Hcross x).
Qed.

End SplicedLists.

(** ** Sorting *)

Section SortFacts.
Context `{Host} {A : Type} (compare : A -> A -> Z).

Lemma array_sort_nil : array_sort compare [] = [].
Proof. apply Permutation_nil_r, array_sort_perm. Qed.

End SortFacts.

(** ** Taking a snapshot *)

Section Snapshot.
Context `{Host}.
Import ExtHostSourceControlResourceGroup.

Lemma fmap_rev {A B} (f : A -> B) (l : list A) : f <$> rev l = rev (f <$> l).
Proof. induction l as [|x l IH]; [done|]. cbn. by rewrite fmap_app, IH. Qed.

(** The diff of two snapshots, numbered and replayed latest first on a list
    of sent states that stands in [E] to the previous snapshot. *)
Lemma replay_numbered_diff {T} (compare : T -> T -> Z) (E : T -> T -> Prop)
    (P : T -> Prop) (before after : list T) (pool : Z) (sent : list (Z * T)) :
  (forall a, P a -> E a a) ->
  (forall x b a, P b -> P a -> E x b -> compare b a = 0 -> E x a) ->
  Forall P before -> Forall P after ->
  Forall2 E (snd <$> sent) before ->
  Forall2 E
    (snd <$> replay (rev (number_splices pool (sortedDiff before after compare)).1) sent)
    after
  /\ ascending (rev (sortedDiff before after compare)) (Z.of_nat (length before)).
Proof.
  intros Hrefl Hstep HPb HPa Hsent.
  rewrite replay_fmap, fmap_rev.
  destruct (number_splices_spec pool (sortedDiff before after compare)) as [-> _].
  destruct (sortedDiff_from_replay compare E P Hrefl Hstep before after 0 [] []
              (snd <$> sent)) as (tail & Heq & Htail & Hasc);
    [done|done|cbn; lia|done|done|].
  cbn [app] in Heq. unfold sortedDiff. rewrite Heq. cbn. done.
Qed.

Lemma takeSnapshot_spec g conv :
  group_ok g ->
  let after := array_sort compareResourceStates (_resourceStates g) in
  let numbered :=
    (number_splices (_resourceHandlePool g)
       (sortedDiff (_resourceSnapshot g) after compareResourceStates)).1 in
  exists g' conv',
    _takeResourceStateSnapshot g conv = (splice_map wireResource <$> numbered, g', conv')
    /\ same_identity g g'
    /\ _resourceSnapshot g' = after
    /\ _handlesSnapshot g' = replay (rev (splice_map fst <$> numbered)) (_handlesSnapshot g)
    /\ Forall (fun hr => _resourceHandlePool g <= hr.1 < _resourceHandlePool g')
         (inserted numbered)
    /\ _resourceHandlePool g <= _resourceHandlePool g'
    /\ group_ok g'
    /\ Forall (recorded g') (inserted numbered).
Proof.
  intros (Hlen & Hbelow & Hnd & Hfresh) after numbered.
  set (diffs := sortedDiff (_resourceSnapshot g) after compareResourceStates) in *.
  destruct (encode_splices diffs g conv Hfresh)
    as (g1 & Henc & Hframe1 & Hpool1 & Hfresh1 & Hold1 & Hrec1).
  fold numbered in Henc, Hrec1.
  destruct (handles_pass (rev (splice_map wirePair <$> numbered)) g1 conv)
    as (g2 & conv2 & Hpass & Hid2 & Hpool2 & Hhs2 & Hsnap2 & Hfresh2 & Hagree2).
  destruct (number_splices_spec (_resourceHandlePool g) diffs)
    as (Hshape & Hle & Hrange & Hndi).
  fold numbered in Hshape, Hrange, Hndi. rewrite <- Hpool1, <- Hpool2 in Hle, Hrange.
  assert (_handlesSnapshot g1 = _handlesSnapshot g) as Hhs1
    by (unfold same_frame in Hframe1; by destruct_and!).
  assert (_handlesSnapshot g2 =
            replay (rev (splice_map fst <$> numbered)) (_handlesSnapshot g)) as Hhs.
  { rewrite Hhs2, Hhs1, fmap_rev, <- list_fmap_compose. do 2 f_equal.
    apply list_fmap_ext. intros _ s _. apply splice_map_compose. }
  exists (set_resourceSnapshot after g2), conv2.
  split; [|split; [|split; [done|split; [done|split; [done|split; [done|split]]]]]].
  - unfold _takeResourceStateSnapshot. fold after diffs. rewrite Henc, Hpass.
    f_equal. f_equal. rewrite <- list_fmap_compose.
    apply list_fmap_ext. intros _ s _. apply (splice_map_compose wirePair fst).
  - apply same_frame_identity in Hframe1.
    pose proof (same_identity_trans _ _ _ Hframe1 Hid2) as Hid.
    unfold same_identity in *. cbn. by destruct_and!.
  - (* the group is in order again *)
    unfold group_ok. cbn. split_and!.
    + destruct (replay_numbered_diff compareResourceStates (fun _ _ => True)
                  (fun _ => True)
                  (_resourceSnapshot g) after (_resourceHandlePool g)
                  (zip (_handlesSnapshot g) (_resourceSnapshot g)))
        as [Hall _]; [done|done|by apply Forall_true|by apply Forall_true|..].
      { rewrite snd_zip by lia. apply Forall_Forall2_diag, Forall_true. done. }
      apply Forall2_length in Hall. fold diffs numbered in Hall.
      rewrite <- Hall, Hhs, length_fmap.
      rewrite <- (fst_zip (_handlesSnapshot g) (_resourceSnapshot g)) at 1 by lia.
      rewrite <- fmap_rev, <- replay_fmap. by rewrite length_fmap.
    + rewrite Hhs. apply Forall_forall. intros h [Hin | Hin]%replay_elem_of.
      * eapply Forall_forall in Hbelow; [|done]. cbn in Hbelow. lia.
      * rewrite inserted_rev, inserted_splice_map in Hin.
        apply list_elem_of_fmap in Hin as (hr & -> & Hin).
        eapply Forall_forall in Hrange; [|done]. cbn in Hrange. lia.
    + rewrite Hhs. apply replay_NoDup; [done|..].
      * by rewrite inserted_rev, inserted_splice_map.
      * intros h Hin Hold. rewrite inserted_rev, inserted_splice_map in Hin.
        apply list_elem_of_fmap in Hin as (hr & -> & Hin).
        eapply Forall_forall in Hrange; [|done].
        eapply Forall_forall in Hbelow; [|done]. cbn in *. lia.
    + unfold pool_fresh in *. cbn. auto.
  - (* the inserted states are on record *)
    destruct (replay_numbered_diff compareResourceStates (fun _ _ => True)
                (fun _ => True)
                (_resourceSnapshot g) after 0 (zip (_handlesSnapshot g) (_resourceSnapshot g)))
      as [_ Hasc]; [done|done|by apply Forall_true|by apply Forall_true|..].
    { rewrite snd_zip by lia. apply Forall_Forall2_diag, Forall_true. done. }
    fold diffs in Hasc. rewrite <- Hshape, <- fmap_rev in Hasc.
    apply ascending_splice_map in Hasc.
    apply Forall_forall. intros hr Hin.
    eapply Forall_forall in Hrec1 as [Hrs Hrc]; [|done].
    eapply Forall_forall in Hrange; [|done]. cbn in Hrange.
    destruct (Hagree2 (Z.of_nat (length (_resourceSnapshot g))) hr.1) as (Hs & Hc & _).
    + rewrite <- fmap_rev. by apply ascending_splice_map.
    + rewrite Hhs1. lia.
    + rewrite Hhs1. intros Hold%subseteq_take.
      eapply Forall_forall in Hbelow; [|done]. cbn in Hbelow. lia.
    + unfold recorded. cbn. split; congruence.
Qed.

End Snapshot.

(** ** The mirror's replay *)

Section MirrorReplay.
Context `{Host}.
Import PluginScmProvider.

Lemma decodeResource_ext p1 p2 groupHandle raw :
  p_handle p1 = p_handle p2 ->
  decodeResource p1 groupHandle raw = decodeResource p2 groupHandle raw.
Proof. unfold decodeResource. by intros ->. Qed.

Lemma mirrorReplay_replay p groupHandle splices m :
  mirrorReplay p groupHandle splices m =
    replay (rev (splice_map (decodeResource p groupHandle) <$> splices)) m.
Proof.
  unfold mirrorReplay, replay, SCMRawResourceSplice in *. rewrite <- fmap_rev.
  generalize (rev splices) as applied. intros applied. revert m.
  induction applied as [|s applied IH]; intros m; [done|].
  rewrite fmap_cons. cbn [foldl]. rewrite IH. done.
Qed.



End MirrorReplay.

(** ** Provider and mirror, one update after the other *)

Section InSync.
Context `{Host}.
Import ExtHostSourceControlResourceGroup PluginScmProvider.


Lemma mirrorReplay_ext p1 p2 groupHandle splices m :
  p_handle p1 = p_handle p2 ->
  mirrorReplay p1 groupHandle splices m = mirrorReplay p2 groupHandle splices m.
Proof.
  intros Hp. rewrite !mirrorReplay_replay. do 2 f_equal.
  apply list_fmap_ext. intros _ s _. unfold splice_map. f_equal.
  apply list_fmap_ext. intros _ raw _. by apply decodeResource_ext.
Qed.

Lemma number_zip {T} (pool : Z) (l : list T) :
  (number pool l).1 = zip (seqZ pool (Z.of_nat (length l))) l.
Proof.
  revert pool. induction l as [|x l IH]; intros pool; [done|].
  unfold number in *. cbn [map_state length]. specialize (IH (pool + 1)).
  destruct (map_state _ (pool + 1) l) as [out p']. cbn [fst] in *.
  rewrite seqZ_cons by lia. cbn. rewrite IH. do 3 f_equal; lia.
Qed.

End InSync.

(** ** The order of resource states *)

Section OrderFacts.
Context `{Host}.

(** Two states on the same path with equal commands are ranked by their
    decorations. *)
Lemma compareResourceStates_decorations a b da db :
  rs_decorations a = Some da -> rs_decorations b = Some db ->
  comparePaths (fsPath (rs_resourceUri a)) (fsPath (rs_resourceUri b)) (Some true) = 0 ->
  commands_rank_equal a b ->
  compareResourceStates a b = compareResourceStatesDecorations da db.
Proof.
  intros Ha Hb Hpath Hcmd. unfold compareResourceStates, commands_rank_equal in *.
  rewrite Hpath, Ha, Hb. cbn.
  destruct (rs_command a), (rs_command b); try done.
  by rewrite Hcmd.
Qed.

(** C4, as the code has it. Among states on the same path with equal
    commands: a state without strike-through is sorted before one with it;
    with the same strike-through value, a state that is not faded is sorted
    before a faded one; with the same flags and different tooltips the
    verdict is the locale comparison of the tooltips (an absent one read as
    empty); with the same tooltip as well it is the comparison of the icon
    paths, of the default icon first, then of the light and of the dark
    one. *)
Theorem decorations_tie_break a b da db :
  rs_decorations a = Some da -> rs_decorations b = Some db ->
  comparePaths (fsPath (rs_resourceUri a)) (fsPath (rs_resourceUri b)) (Some true) = 0 ->
  commands_rank_equal a b ->
  (truthy_bool (rd_strikeThrough da) = false ->
   truthy_bool (rd_strikeThrough db) = true -> orders_before a b)
  /\ (rd_strikeThrough da = rd_strikeThrough db ->
      truthy_bool (rd_faded da) = false ->
      truthy_bool (rd_faded db) = true -> orders_before a b)
  /\ (rd_strikeThrough da = rd_strikeThrough db -> rd_faded da = rd_faded db ->
      (rd_tooltip da <> rd_tooltip db ->
       compareResourceStates a b =
         localeCompare (or_empty (rd_tooltip da)) (or_empty (rd_tooltip db)))
      /\ (rd_tooltip da = rd_tooltip db ->
          let byIcon := compareResourceThemableDecorations (themable da) (themable db) in
          (byIcon <> 0 -> compareResourceStates a b = byIcon)
          /\ (byIcon = 0 ->
              forall la lb, rd_light da = Some la -> rd_light db = Some lb ->
              let byLight := compareResourceThemableDecorations la lb in
              (byLight <> 0 -> compareResourceStates a b = byLight)
              /\ (byLight = 0 ->
                  forall ka kb, rd_dark da = Some ka -> rd_dark db = Some kb ->
                  compareResourceStates a b = compareResourceThemableDecorations ka kb)))).
Proof.
  intros Ha Hb Hpath Hcmd.
  rewrite (compareResourceStates_decorations a b da db) by done.
  unfold orders_before.
  rewrite (compareResourceStates_decorations a b da db) by done.
  unfold compareResourceStatesDecorations, strict_ne_bool, strict_ne_string.
  split; [|split].
  - intros Hna Hsb. rewrite bool_decide_eq_false_2 by congruence.
    cbn. rewrite Hna. lia.
  - intros Hs Hna Hfb. rewrite (bool_decide_eq_true_2 _ Hs). cbn.
    rewrite bool_decide_eq_false_2 by congruence. cbn. rewrite Hna. lia.
  - intros Hs Hf. rewrite (bool_decide_eq_true_2 _ Hs), (bool_decide_eq_true_2 _ Hf). cbn.
    split.
    + intros Ht. by rewrite (bool_decide_eq_false_2 _ Ht).
    + intros Ht. rewrite (bool_decide_eq_true_2 _ Ht). cbn.
      split.
      * intros Hicon. by apply Z.eqb_neq in Hicon as ->.
      * intros Hicon la lb Hla Hlb. rewrite Hicon, Hla, Hlb. cbn. split.
        -- intros Hlight. by apply Z.eqb_neq in Hlight as ->.
        -- intros Hlight ka kb Hka Hkb. by rewrite Hlight, Hka, Hkb.
Qed.

End OrderFacts.

Section OrderExamples.
#[local] Existing Instance exampleHost.

(** C4 as the specification words it fails: of two states on the same path
    without commands, the one with strike-through is sorted after the one
    without, and the faded one after the one that is not. *)
Lemma strikeThrough_is_sorted_last :
  comparePaths "a.txt" "a.txt" (Some true) = 0
  /\ commands_rank_equal (decorated "a.txt" (flags (Some true) None))
       (decorated "a.txt" (flags (Some false) None))
  /\ compareResourceStates (decorated "a.txt" (flags (Some true) None))
       (decorated "a.txt" (flags (Some false) None)) = 1
  /\ ~ orders_before (decorated "a.txt" (flags (Some true) None))
         (decorated "a.txt" (flags (Some false) None))
  /\ compareResourceStates (decorated "a.txt" (flags None (Some true)))
       (decorated "a.txt" (flags None (Some false))) = 1
  /\ ~ orders_before (decorated "a.txt" (flags None (Some true)))
         (decorated "a.txt" (flags None (Some false))).
Proof.
  unfold orders_before. split_and!; try by vm_compute.
  all: vm_compute; discriminate.
Qed.

Lemma decorations_tie_break_witness :
  orders_before (decorated "a.txt" (flags (Some false) None))
    (decorated "a.txt" (flags (Some true) None)).
Proof.
  refine (proj1 (decorations_tie_break (decorated "a.txt" (flags (Some false) None))
                   (decorated "a.txt" (flags (Some true) None))
                   (flags (Some false) None) (flags (Some true) None) _ _ _ _) _ _);
    reflexivity || exact I.
Defined.

End OrderExamples.

Section GroupExamples.
#[local] Existing Instance exampleHost.

Lemma group_ok_initially : group_ok changes.
Proof. repeat split; try constructor; apply lookup_empty. Qed.

End GroupExamples.

(** ** Maps in insertion order *)

Section MapFacts.
Context {K V : Type} `{EqDecision K}.
Implicit Types m : list (K * V).

Lemma map_get_set_eq m k v : map_get (map_set m k v) k = Some v.
Proof.
  induction m as [|[k' v'] m IH]; cbn.
  - by rewrite decide_True.
  - destruct (decide (k' = k)) as [->|Hne]; cbn.
    + by rewrite decide_True.
    + by rewrite decide_False.
Qed.

Lemma map_get_set_ne m k k' v : k <> k' -> map_get (map_set m k v) k' = map_get m k'.
Proof.
  intros Hne. induction m as [|[k0 v0] m IH]; cbn.
  - by rewrite decide_False.
  - destruct (decide (k0 = k)) as [->|Hne0]; cbn.
    + by rewrite !decide_False.
    + destruct (decide (k0 = k')); [done|apply IH].
Qed.

Lemma map_get_delete_eq m k : map_get (map_delete m k) k = None.
Proof.
  unfold map_delete. induction m as [|[k0 v0] m IH]; [done|].
  destruct (decide (k0 = k)) as [->|Hne].
  - by rewrite filter_cons_False by (cbn; intros Hk; by apply Hk).
  - rewrite filter_cons_True by done. cbn. by rewrite decide_False.
Qed.

Lemma map_get_delete_ne m k k' : k <> k' -> map_get (map_delete m k) k' = map_get m k'.
Proof.
  intros Hne. unfold map_delete. induction m as [|[k0 v0] m IH]; [done|].
  destruct (decide (k0 = k)) as [->|Hne0].
  - rewrite filter_cons_False by (cbn; intros Hk; by apply Hk). cbn.
    by rewrite decide_False.
  - rewrite filter_cons_True by done. cbn. by rewrite IH.
Qed.

Lemma map_set_keys m k v x : x ∈ (map_set m k v).*1 -> x = k \/ x ∈ m.*1.
Proof.
  induction m as [|[k0 v0] m IH]; cbn.
  - intros ->%list_elem_of_singleton. by left.
  - destruct (decide (k0 = k)) as [->|Hne]; cbn.
    + intros [->|?]%elem_of_cons; [by left|]. right. by right.
    + intros [->|Hx]%elem_of_cons; [right; by left|].
      destruct (IH Hx); [by left|]. right. by right.
Qed.

Lemma map_set_NoDup m k v : NoDup m.*1 -> NoDup (map_set m k v).*1.
Proof.
  induction m as [|[k0 v0] m IH]; cbn.
  - intros _. apply NoDup_singleton.
  - intros [Hk0 Hm]%NoDup_cons. destruct (decide (k0 = k)) as [->|Hne]; cbn.
    + by apply NoDup_cons.
    + apply NoDup_cons. split; [|by apply IH].
      intros [->|?]%map_set_keys; done.
Qed.

Lemma map_delete_keys m k x : x ∈ (map_delete m k).*1 -> x ∈ m.*1.
Proof.
  unfold map_delete.
  intros ([k0 v0] & -> & [_ Hin]%list_elem_of_filter)%list_elem_of_fmap.
  apply list_elem_of_fmap. by exists (k0, v0).
Qed.

Lemma map_delete_NoDup m k : NoDup m.*1 -> NoDup (map_delete m k).*1.
Proof.
  unfold map_delete. induction m as [|[k0 v0] m IH]; [done|].
  cbn [fmap list_fmap fst]. intros [Hk0 Hm]%NoDup_cons.
  destruct (decide (k0 = k)) as [->|Hne].
  - rewrite filter_cons_False by (cbn; intros Hk; by apply Hk). by apply IH.
  - rewrite filter_cons_True by done. cbn. apply NoDup_cons. split; [|by apply IH].
    intros Hin. apply Hk0. by eapply map_delete_keys.
Qed.

Lemma map_delete_head m k v : k ∉ m.*1 -> map_delete ((k, v) :: m) k = m.
Proof.
  intros Hk. unfold map_delete.
  rewrite filter_cons_False by (cbn; intros Hne; by apply Hne).
  induction m as [|[k0 v0] m IH]; [done|].
  rewrite filter_cons_True.
  - f_equal. apply IH. intros Hin. apply Hk. cbn. by right.
  - cbn. intros ->. apply Hk. cbn. by left.
Qed.

Lemma map_get_is_Some m k : k ∈ m.*1 -> is_Some (map_get m k).
Proof.
  induction m as [|[k0 v0] m IH]; cbn; [by intros ?%elem_of_nil|].
  intros [->|Hin]%elem_of_cons.
  - by rewrite decide_True.
  - destruct (decide (k0 = k)); [done|by apply IH].
Qed.

Lemma map_get_None_keys m k : map_get m k = None -> k ∉ m.*1.
Proof. intros Hnone [v Hv]%map_get_is_Some. congruence. Qed.

Lemma map_set_fresh m k v : k ∉ m.*1 -> map_set m k v = m ++ [(k, v)].
Proof.
  induction m as [|[k0 v0] m IH]; cbn; [done|].
  intros Hk. rewrite decide_False; [|intros ->; apply Hk; by left].
  rewrite IH; [done|]. intros Hin. apply Hk. by right.
Qed.

Lemma map_delete_keys_filter m k :
  (map_delete m k).*1 = filter (fun k' => k' <> k) m.*1.
Proof.
  unfold map_delete. induction m as [|[k0 v0] m IH]; [done|]. cbn [fmap list_fmap fst].
  destruct (decide (k0 = k)) as [->|Hne].
  - rewrite !filter_cons_False by (cbn; intros Hk; by apply Hk). apply IH.
  - rewrite !filter_cons_True by done. cbn. by rewrite IH.
Qed.

End MapFacts.

(** ** Commands of resource states *)

Section Commands.
Context `{Host}.
Import ExtHostSourceControlResourceGroup.

(** Retiring handles removes their commands and adds none. *)
Lemma retire_all_commands (handles : list Z) g conv :
  (forall k, _resourceStatesCommandsMap g !! k = None ->
     _resourceStatesCommandsMap (foldl retireHandle (g, conv) handles).1 !! k = None)
  /\ (forall k, k ∈ handles ->
        _resourceStatesCommandsMap (foldl retireHandle (g, conv) handles).1 !! k = None).
Proof.
  revert g conv. induction handles as [|h handles IH]; intros g conv.
  { split; [done|]. by intros k ?%elem_of_nil. }
  cbn [foldl]. unfold retireHandle at 2 4.
  match goal with |- context [foldl retireHandle (?g1, ?c1) handles] =>
    destruct (IH g1 c1) as [Hshrink Hgone]
  end.
  split.
  - intros k Hk. apply Hshrink. cbn.
    destruct (decide (h = k)) as [->|];
      [by rewrite lookup_delete_eq|by rewrite lookup_delete_ne].
  - intros k [->|Hk]%elem_of_cons; [|by apply Hgone].
    apply Hshrink. cbn. by rewrite lookup_delete_eq.
Qed.

(** Whatever the arguments, a splice cuts a stretch out of the array. *)
Lemma array_splice_shape {A} (l : list A) (start0 deleteCount0 : Z) items :
  exists a n : nat,
    array_splice l start0 deleteCount0 items =
      (take a l ++ items ++ drop (a + n) l, take n (drop a l)).
Proof.
  unfold array_splice.
  set (actualStart := if start0 <? 0 then _ else _).
  set (actualDeleteCount := Z.min _ _).
  assert (0 <= actualStart <= Z.of_nat (length l)) as Hstart
    by (unfold actualStart; destruct (Z.ltb_spec start0 0); lia).
  exists (Z.to_nat actualStart), (Z.to_nat actualDeleteCount).
  do 4 f_equal. unfold actualDeleteCount. lia.
Qed.

Lemma array_splice_elem_of_inv {A} (l : list A) (start0 deleteCount0 : Z) items x :
  x ∈ l ->
  (x ∈ (array_splice l start0 deleteCount0 items).1)
  \/ (x ∈ (array_splice l start0 deleteCount0 items).2).
Proof.
  destruct (array_splice_shape l start0 deleteCount0 items) as (a & n & ->).
  cbn [fst snd]. intros Hx. rewrite <- (take_drop a l) in Hx.
  apply elem_of_app in Hx as [Hx | Hx].
  { left. apply elem_of_app. by left. }
  rewrite <- (take_drop n (drop a l)), drop_drop in Hx.
  apply elem_of_app in Hx as [Hx | Hx]; [by right|].
  left. rewrite !elem_of_app. by right; right.
Qed.

Lemma handles_pass_commands (applied : list (Splice (ScmRawResource * Z))) g conv :
  (forall k, _resourceStatesCommandsMap g !! k = None ->
     _resourceStatesCommandsMap (foldl applyToHandles (g, conv) applied).1 !! k = None)
  /\ (forall k, k ∈ _handlesSnapshot g ->
        (k ∈ _handlesSnapshot (foldl applyToHandles (g, conv) applied).1)
        \/ _resourceStatesCommandsMap (foldl applyToHandles (g, conv) applied).1 !! k = None).
Proof.
  revert g conv. induction applied as [|s applied IH]; intros g conv.
  { split; [done|]. by left. }
  cbn [foldl]. unfold applyToHandles at 2 4 6.
  destruct (array_splice (_handlesSnapshot g) (start s) (deleteCount s) (toInsert s).*2)
    as [kept gone] eqn:Hsplice.
  destruct (retire_all gone (set_handlesSnapshot kept g) conv)
    as (g1 & conv1 & Hfold & _ & _ & Hhs1 & _).
  destruct (retire_all_commands gone (set_handlesSnapshot kept g) conv) as [Hshrink1 Hgone1].
  rewrite Hfold in *. cbn [fst] in *. cbn in Hhs1.
  destruct (IH g1 conv1) as [Hshrink Hlive].
  split.
  - intros k Hk. by apply Hshrink, Hshrink1.
  - intros k Hk.
    destruct (array_splice_elem_of_inv _ (start s) (deleteCount s) (toInsert s).*2 k Hk)
      as [Hkept | Hgone]; rewrite Hsplice in *; cbn [fst snd] in *.
    + apply Hlive. by rewrite Hhs1.
    + right. by apply Hshrink, Hgone1.
Qed.

(** C9. Every resource that a snapshot of a group in order puts on the wire
    encodes a state the group has on record under the resource's handle.
    When this state carries a command with one of the trusted identifiers,
    the encoded resource carries the command as a plain descriptor and the
    group keeps no command for the handle. Any other command is not on the
    wire at all: the group keeps it under the handle, and
    [$executeResourceCommand] with this handle hands exactly this command's
    identifier and arguments to the registry, whatever the caller passes
    besides the handle. A handle that the snapshot retires has no command
    any more. *)
Theorem commands_cross_the_wire_safely g conv :
  group_ok g ->
  exists splices g' conv',
    _takeResourceStateSnapshot g conv = (splices, g', conv')
    /\ (forall raw, raw ∈ inserted splices ->
         exists r,
           getResourceState g' (raw_handle raw) = Some r
           /\ raw = wireResource (raw_handle raw, r)
           /\ forall c, rs_command r = Some c ->
                (trustedCommand (cmd_command c) = true ->
                 raw_command raw = Some (PlainCommand c)
                 /\ forall preserveFocus,
                      executeResourceCommand g' (raw_handle raw) preserveFocus =
                        (Resolved tt, None))
                /\ (trustedCommand (cmd_command c) = false ->
                    raw_command raw = None
                    /\ forall preserveFocus,
                         executeResourceCommand g' (raw_handle raw) preserveFocus =
                           (Pending,
                            Some (mkExecution (cmd_command c)
                                    (match cmd_arguments c with
                                     | Some a => arr_items a
                                     | None => []
                                     end)
                                    preserveFocus))))
    /\ (forall h preserveFocus,
         h ∈ _handlesSnapshot g -> h ∉ _handlesSnapshot g' ->
         executeResourceCommand g' h preserveFocus = (Resolved tt, None)).
Proof.
  intros Hok.
  destruct (takeSnapshot_spec g conv Hok)
    as (g' & conv' & Htake & _ & _ & _ & _ & _ & _ & Hrec).
  set (numbered := (number_splices _ _).1) in *.
  exists (splice_map wireResource <$> numbered), g', conv'.
  split; [exact Htake|]. split.
  - intros raw Hraw. rewrite inserted_splice_map in Hraw.
    apply list_elem_of_fmap in Hraw as (hr & -> & Hin).
    eapply Forall_forall in Hrec as [Hstate Hcommand]; [|exact Hin].
    destruct hr as [h r]. cbn [fst snd] in *.
    exists r. split; [exact Hstate|]. split; [done|].
    intros c Hc. unfold executeResourceCommand.
    change (raw_handle (wireResource (h, r))) with h.
    change (raw_command (wireResource (h, r))) with (wireCommand r).
    rewrite Hcommand. unfold wireCommand, keptCommand. rewrite Hc.
    split; intros ->; done.
  - intros h preserveFocus Hold Hnew.
    destruct Hok as (_ & Hbelow & _ & Hfresh).
    unfold _takeResourceStateSnapshot in Htake.
    set (diffs := sortedDiff _ _ _) in *.
    destruct (encode_splices diffs g conv Hfresh)
      as (g1 & Henc & Hframe1 & _ & _ & Hold1 & _).
    rewrite Henc in Htake.
    pose proof (handles_pass_commands
                  (rev (splice_map wirePair <$> (number_splices (_resourceHandlePool g) diffs).1))
                  g1 conv) as [_ Hlive].
    destruct (foldl applyToHandles (g1, conv) _) as [g2 conv2] eqn:Hpass.
    injection Htake as _ <- _. cbn [fst] in Hlive.
    unfold executeResourceCommand. cbn.
    destruct (Hlive h) as [Hin | ->]; [|done|done].
    unfold same_frame in Hframe1. destruct_and!. congruence.
Qed.

End Commands.

(** ** Selection *)

Section SelectionFacts.
Context `{Host}.
Import ScmExtImpl.

Lemma sourceControlAt_Some w h i sc :
  sourceControlAt w h = Some (i, sc) ->
  _sourceControls w !! h = Some i /\ sourceControlStore w !! i = Some sc.
Proof.
  unfold sourceControlAt. destruct (_sourceControls w !! h) as [k|]; [|done]. cbn.
  destruct (sourceControlStore w !! k) as [sc'|] eqn:Hk; [|done]. cbn.
  by intros [= -> ->].
Qed.

Lemma selectIfRegistered_registered w h i sc selected :
  sourceControlAt w h = Some (i, sc) ->
  selectIfRegistered h selected w =
    notify (DidChangeSelection i selected)
      (updateSourceControlAt i (set_selected selected) w).
Proof. unfold selectIfRegistered. by intros ->. Qed.

(** Looking a handle up after the selected flag of one source control was
    written. *)
Lemma sourceControlAt_selected w h i k sc selected :
  sourceControlAt w h = Some (k, sc) ->
  sourceControlAt
    (notify (DidChangeSelection i selected)
       (updateSourceControlAt i (set_selected selected) w)) h =
    Some (k, if decide (k = i) then set_selected selected sc else sc).
Proof.
  intros [Hh Hk]%sourceControlAt_Some. unfold sourceControlAt. cbn. rewrite Hh. cbn.
  destruct (decide (k = i)) as [->|Hne].
  - by rewrite list_lookup_alter_eq, Hk.
  - by rewrite list_lookup_alter_ne, Hk.
Qed.

(** C5, as the code has it. X and Y registered and distinct, Y the recorded
    selection: the call notifies X with true and then Y with false, once
    each, and records X. When the listeners of X run, the flags of both X
    and Y are set; when those of Y run, only that of X is. *)
Theorem selection_moves_to_new_source_control w x y i j scx scy :
  sourceControlAt w x = Some (i, scx) ->
  sourceControlAt w y = Some (j, scy) ->
  i <> j ->
  _selectedSourceControlHandle w = Some y ->
  _selected scy = true ->
  exists w' store1 store2,
    setSelectedSourceControl (Some x) w = (Resolved tt, w')
    /\ observed w' =
         observed w
           ++ [(DidChangeSelection i true, store1); (DidChangeSelection j false, store2)]
    /\ (_selected <$> store1 !! i) = Some true
    /\ (_selected <$> store1 !! j) = Some true
    /\ (_selected <$> store2 !! i) = Some true
    /\ (_selected <$> store2 !! j) = Some false
    /\ sourceControlStore w' = store2
    /\ _selectedSourceControlHandle w' = Some x
    /\ outbox w' = outbox w.
Proof.
  intros Hx Hy Hij Hsel Hflag.
  pose proof (sourceControlAt_Some _ _ _ _ Hx) as [_ Hi].
  pose proof (sourceControlAt_Some _ _ _ _ Hy) as [_ Hj].
  unfold setSelectedSourceControl.
  rewrite (selectIfRegistered_registered w x i scx true Hx).
  change (_selectedSourceControlHandle (notify _ (updateSourceControlAt _ _ w)))
    with (_selectedSourceControlHandle w).
  rewrite Hsel.
  pose proof (sourceControlAt_selected w y i j scy true Hy) as Hy'.
  rewrite decide_False in Hy' by congruence.
  rewrite (selectIfRegistered_registered _ y j scy false Hy').
  eexists _, _, _. split; [reflexivity|]. cbn.
  split; [by rewrite <- app_assoc|].
  rewrite !list_lookup_alter_eq, !list_lookup_alter_ne, Hi, Hj by congruence.
  rewrite !list_lookup_alter_eq, Hi. cbn. rewrite Hflag. by split_and!.
Qed.

(** C10. The handle passed is the recorded selection and it is registered:
    its source control is notified with true and then with false, so its
    flag ends up cleared while the handle stays recorded. *)
Theorem reselecting_clears_the_flag w h i sc :
  sourceControlAt w h = Some (i, sc) ->
  _selectedSourceControlHandle w = Some h ->
  exists w',
    setSelectedSourceControl (Some h) w = (Resolved tt, w')
    /\ fst <$> observedSince w w' = [DidChangeSelection i true; DidChangeSelection i false]
    /\ sourceControlStore w' !! i = Some (set_selected false sc)
    /\ _selectedSourceControlHandle w' = Some h.
Proof.
  intros Hh Hsel.
  pose proof (sourceControlAt_Some _ _ _ _ Hh) as [_ Hi].
  unfold setSelectedSourceControl.
  rewrite (selectIfRegistered_registered w h i sc true Hh).
  change (_selectedSourceControlHandle (notify _ (updateSourceControlAt _ _ w)))
    with (_selectedSourceControlHandle w).
  rewrite Hsel.
  pose proof (sourceControlAt_selected w h i i sc true Hh) as Hh'.
  rewrite decide_True in Hh' by done.
  rewrite (selectIfRegistered_registered _ h i _ false Hh').
  eexists. split; [reflexivity|]. unfold observedSince. cbn.
  rewrite <- app_assoc, drop_app_length. split; [done|].
  rewrite !list_lookup_alter_eq, Hi. by split.
Qed.

End SelectionFacts.

Section SelectionExamples.
#[local] Existing Instance exampleHost.

(** C5 as the specification words it fails: with the source control 1
    selected, the selection of the source control 0 lets the listeners of
    the first notification see two selected source controls. *)
Lemma two_selected_at_first_notification :
  _selectedSourceControlHandle secondSelected = Some 1
  /\ selectedCount (sourceControlStore secondSelected) = 1%nat
  /\ (fun o => (o.1, selectedCount o.2))
       <$> observedSince secondSelected
             (ScmExtImpl.setSelectedSourceControl (Some 0) secondSelected).2
     = [(DidChangeSelection 0 true, 2%nat); (DidChangeSelection 1 false, 1%nat)].
Proof. by vm_compute. Qed.

Lemma selection_moves_to_new_source_control_witness :
  exists w',
    ScmExtImpl.setSelectedSourceControl (Some 0) secondSelected = (Resolved tt, w')
    /\ fst <$> observedSince secondSelected w' =
         [DidChangeSelection 0 true; DidChangeSelection 1 false]
    /\ _selectedSourceControlHandle w' = Some 0.
Proof.
  destruct (selection_moves_to_new_source_control secondSelected 0 1 0%nat 1%nat
              (mkSourceControl 0 "git" "Git" None (mkInputBox "" "" None 0) None false [] [] [])
              (mkSourceControl 1 "svn" "Subversion" None (mkInputBox "" "" None 1) None true
                 [] [] []))
    as (w' & store1 & store2 & Hcall & Hobs & _ & _ & _ & _ & _ & Hsel & _);
    [reflexivity|reflexivity|lia|reflexivity|reflexivity|].
  exists w'. split; [exact Hcall|]. split; [|exact Hsel].
  unfold observedSince. rewrite Hobs, drop_app_length. reflexivity.
Defined.

Lemma reselecting_clears_the_flag_witness :
  exists w',
    ScmExtImpl.setSelectedSourceControl (Some 1) secondSelected = (Resolved tt, w')
    /\ (_selected <$> sourceControlStore w' !! 1%nat) = Some false
    /\ _selectedSourceControlHandle w' = Some 1.
Proof.
  destruct (reselecting_clears_the_flag secondSelected 1 1%nat
              (mkSourceControl 1 "svn" "Subversion" None (mkInputBox "" "" None 1) None true
                 [] [] []))
    as (w' & Hcall & _ & Hstore & Hsel); [reflexivity|reflexivity|].
  exists w'. split; [exact Hcall|]. split; [|exact Hsel]. by rewrite Hstore.
Defined.

End SelectionExamples.

(** ** Calls that name a handle nobody is registered under *)

Section StaleHandles.
Context `{Host}.

Lemma put_repository_same m h r :
  _repositories m !! h = Some r -> put_repository h (provider r) [] m = m.
Proof.
  intros Hr. unfold put_repository. rewrite Hr. destruct m as [repos disposables log].
  cbn in *. rewrite app_nil_r. f_equal. apply insert_id. by destruct r.
Qed.

(** C6, as the code has it. A call on either side that names a handle the
    receiving side has nothing under resolves with nothing and leaves the
    receiving side as it was, with two exceptions: a batch of splices for
    an unregistered group of a registered source control changes no
    resource list but fires its notifications, and
    [$setSelectedSourceControl] with an unregistered handle still
    deselects the recorded selection and records the handle. On the
    provider side a source control is under its handle from its creation
    on: only a handle that was never handed out has nothing under it. *)
Theorem stale_handles_resolve_with_nothing (w : ExtWorld) (m : MainWorld) :
  (* the provider side, source control *)
  (forall h, ScmExtImpl.sourceControlAt w h = None ->
     (forall uri, ScmExtImpl.provideOriginalResource h uri w = (Resolved None, w))
     /\ (forall value, ScmExtImpl.onInputBoxValueChange h value w = (Resolved tt, w))
     /\ (forall groupHandle handle0 preserveFocus,
           ScmExtImpl.executeResourceCommand h groupHandle handle0 preserveFocus w =
             (Resolved tt, w))
     /\ (forall value cursorPosition,
           ScmExtImpl.validateInput h value cursorPosition w = (Resolved None, w))
     /\ ScmExtImpl.setSelectedSourceControl (Some h) w =
          (Resolved tt,
           put_selectedSourceControlHandle (Some h)
             match _selectedSourceControlHandle w with
             | Some previous => ScmExtImpl.selectIfRegistered previous false w
             | None => w
             end))
  (* the provider side, group and resource *)
  /\ (forall h' i sc groupHandle handle0 preserveFocus,
        ScmExtImpl.sourceControlAt w h' = Some (i, sc) ->
        (ExtHostSourceControl.getResourceGroup sc groupHandle
           ≫= fun k => groupStore w !! k) = None ->
        ScmExtImpl.executeResourceCommand h' groupHandle handle0 preserveFocus w =
          (Resolved tt, w))
  /\ (forall h' i sc groupHandle g handle0 preserveFocus,
        ScmExtImpl.sourceControlAt w h' = Some (i, sc) ->
        (ExtHostSourceControl.getResourceGroup sc groupHandle
           ≫= fun k => groupStore w !! k) = Some g ->
        _resourceStatesCommandsMap g !! handle0 = None ->
        ScmExtImpl.executeResourceCommand h' groupHandle handle0 preserveFocus w =
          (Resolved tt, w))
  (* the mirror side, source control *)
  /\ (forall h, _repositories m !! h = None ->
        (forall features, ScmMainImpl.updateSourceControl h features m = (Resolved tt, m))
        /\ ScmMainImpl.unregisterSourceControl h m = (Resolved tt, m)
        /\ (forall groups0 splices,
              ScmMainImpl.registerGroups h groups0 splices m = (Resolved tt, m))
        /\ (forall groupHandle features,
              ScmMainImpl.updateGroup h groupHandle features m = (Resolved tt, m))
        /\ (forall groupHandle label,
              ScmMainImpl.updateGroupLabel h groupHandle label m = (Resolved tt, m))
        /\ (forall splices, ScmMainImpl.spliceResourceStates h splices m = (Resolved tt, m))
        /\ (forall groupHandle, ScmMainImpl.unregisterGroup h groupHandle m = (Resolved tt, m))
        /\ (forall value, ScmMainImpl.setInputBoxValue h value m = (Resolved tt, m))
        /\ (forall placeholder,
              ScmMainImpl.setInputBoxPlaceholder h placeholder m = (Resolved tt, m))
        /\ (forall call, addressee call = h ->
              (forall id label rootUri, call <> Main_registerSourceControl h id label rootUri) ->
              ScmMainImpl.receive call m = (Resolved tt, m)))
  (* the mirror side, group *)
  /\ (forall h' r groupHandle,
        _repositories m !! h' = Some r ->
        groupByHandle (provider r) groupHandle = None ->
        (forall features,
           ScmMainImpl.updateGroup h' groupHandle features m = (Resolved tt, m))
        /\ (forall label,
              ScmMainImpl.updateGroupLabel h' groupHandle label m = (Resolved tt, m))
        /\ ScmMainImpl.unregisterGroup h' groupHandle m = (Resolved tt, m)
        /\ (forall splices,
              exists m',
                ScmMainImpl.spliceResourceStates h'
                  [TupleArray (mkGroupSlices groupHandle splices)] m = (Resolved tt, m')
                /\ _repositories m' = _repositories m
                /\ _repositoryDisposables m' = _repositoryDisposables m
                /\ fired m' = fired m ++ [(h', Warn groupHandle); (h', DidChangeResources)])).
Proof.
  split_and!.
  - intros h Hw. split_and!.
    + intros uri. unfold ScmExtImpl.provideOriginalResource. by rewrite Hw.
    + intros value. unfold ScmExtImpl.onInputBoxValueChange. by rewrite Hw.
    + intros groupHandle handle0 preserveFocus.
      unfold ScmExtImpl.executeResourceCommand. by rewrite Hw.
    + intros value cursorPosition. unfold ScmExtImpl.validateInput. by rewrite Hw.
    + unfold ScmExtImpl.setSelectedSourceControl.
      replace (ScmExtImpl.selectIfRegistered h true w) with w; [done|].
      unfold ScmExtImpl.selectIfRegistered. by rewrite Hw.
  - intros h' i sc groupHandle handle0 preserveFocus Hsc Hgroup.
    unfold ScmExtImpl.executeResourceCommand. by rewrite Hsc, Hgroup.
  - intros h' i sc groupHandle g handle0 preserveFocus Hsc Hgroup Hcommand.
    unfold ScmExtImpl.executeResourceCommand,
      ExtHostSourceControlResourceGroup.executeResourceCommand.
    by rewrite Hsc, Hgroup, Hcommand.
  - intros h Hm.
    assert (forall features, ScmMainImpl.updateSourceControl h features m = (Resolved tt, m))
      as H1 by (intros; unfold ScmMainImpl.updateSourceControl; by rewrite Hm).
    assert (ScmMainImpl.unregisterSourceControl h m = (Resolved tt, m))
      as H2 by (unfold ScmMainImpl.unregisterSourceControl; by rewrite Hm).
    assert (forall groups0 splices,
              ScmMainImpl.registerGroups h groups0 splices m = (Resolved tt, m))
      as H3 by (intros; unfold ScmMainImpl.registerGroups; by rewrite Hm).
    assert (forall groupHandle features,
              ScmMainImpl.updateGroup h groupHandle features m = (Resolved tt, m))
      as H4 by (intros; unfold ScmMainImpl.updateGroup; by rewrite Hm).
    assert (forall groupHandle label,
              ScmMainImpl.updateGroupLabel h groupHandle label m = (Resolved tt, m))
      as H5 by (intros; unfold ScmMainImpl.updateGroupLabel; by rewrite Hm).
    assert (forall splices, ScmMainImpl.spliceResourceStates h splices m = (Resolved tt, m))
      as H6 by (intros; unfold ScmMainImpl.spliceResourceStates; by rewrite Hm).
    assert (forall groupHandle, ScmMainImpl.unregisterGroup h groupHandle m = (Resolved tt, m))
      as H7 by (intros; unfold ScmMainImpl.unregisterGroup; by rewrite Hm).
    assert (forall value, ScmMainImpl.setInputBoxValue h value m = (Resolved tt, m))
      as H8 by (intros; unfold ScmMainImpl.setInputBoxValue; by rewrite Hm).
    assert (forall placeholder,
              ScmMainImpl.setInputBoxPlaceholder h placeholder m = (Resolved tt, m))
      as H9 by (intros; unfold ScmMainImpl.setInputBoxPlaceholder; by rewrite Hm).
    split_and!; try done.
    intros call <- Hcall. destruct call; cbn [ScmMainImpl.receive addressee] in *; auto.
    by destruct (Hcall id label rootUri).
  - intros h' r groupHandle Hr Hgroup. split_and!.
    + intros features. unfold ScmMainImpl.updateGroup, PluginScmProvider.updateGroup.
      by rewrite Hr, Hgroup, put_repository_same.
    + intros label. unfold ScmMainImpl.updateGroupLabel, PluginScmProvider.updateGroupLabel.
      by rewrite Hr, Hgroup, put_repository_same.
    + unfold ScmMainImpl.unregisterGroup, PluginScmProvider.unregisterGroup.
      by rewrite Hr, Hgroup, put_repository_same.
    + intros splices.
      unfold ScmMainImpl.spliceResourceStates, PluginScmProvider.spliceGroupResourceStates.
      rewrite Hr. cbn [PluginScmProvider.spliceEach]. unfold PluginScmProvider.spliceOneGroup.
      cbn [slices_groupHandle]. rewrite Hgroup. cbn [ScmMainImpl.settle].
      unfold put_repository. rewrite Hr.
      eexists. split; [reflexivity|]. cbn. split_and!; [|done|done].
      apply insert_id. by destruct r.
Qed.

End StaleHandles.

Section StaleHandleExamples.
#[local] Existing Instance exampleHost.

(** C6 as the specification words it fails. No source control has the
    handle 7, and selecting it deselects the source control 1 and records
    7. And a source control that was disposed of, whose repository the main
    side has unregistered, is still found under its handle on the provider
    side: a change of the input box that is reported for it is taken and
    announced. *)
Lemma stale_selection_changes_the_state :
  (ScmExtImpl.sourceControlAt secondSelected 7 = None
   /\ (ScmExtImpl.setSelectedSourceControl (Some 7) secondSelected).1 = Resolved tt
   /\ _selectedSourceControlHandle secondSelected = Some 1
   /\ _selectedSourceControlHandle
        (ScmExtImpl.setSelectedSourceControl (Some 7) secondSelected).2 = Some 7
   /\ (_selected <$> sourceControlStore secondSelected !! 1%nat) = Some true
   /\ (_selected
         <$> sourceControlStore
               (ScmExtImpl.setSelectedSourceControl (Some 7) secondSelected).2 !! 1%nat)
        = Some false
   /\ (ScmExtImpl.setSelectedSourceControl (Some 7) secondSelected).2 <> secondSelected)
  /\ (sentSince oneSourceControl disposedSourceControl = [Main_unregisterSourceControl 0]
      /\ _repositories (deliver (outbox disposedSourceControl) emptyMirror).2 !! 0 = None
      /\ fst <$> ScmExtImpl.sourceControlAt disposedSourceControl 0 = Some 0%nat
      /\ (ScmExtImpl.onInputBoxValueChange 0 "fix" disposedSourceControl).1 = Resolved tt
      /\ (_value ∘ _inputBox <$> sourceControlStore disposedSourceControl !! 0%nat)
         = Some ""
      /\ (_value ∘ _inputBox
            <$> sourceControlStore
                  (ScmExtImpl.onInputBoxValueChange 0 "fix" disposedSourceControl).2
                  !! 0%nat)
         = Some "fix"
      /\ fst <$> observedSince disposedSourceControl
                   (ScmExtImpl.onInputBoxValueChange 0 "fix" disposedSourceControl).2
         = [InputBoxDidChange 0 "fix"]).
Proof.
  split.
  - repeat (split; [vm_compute; reflexivity|]).
    intros Heq. apply (f_equal _selectedSourceControlHandle) in Heq.
    vm_compute in Heq. discriminate.
  - repeat split; vm_compute; reflexivity.
Qed.

Lemma staleGroup_sourceControl :
  ScmExtImpl.sourceControlAt staleGroup 0 =
    Some (0%nat, mkSourceControl 0 "git" "Git" None (mkInputBox "" "" None 0) None false
                   [] [] []).
Proof. vm_compute; reflexivity. Qed.

Lemma stale_handles_resolve_with_nothing_witness :
  ScmExtImpl.executeResourceCommand 0 0 0 true staleGroup = (Resolved tt, staleGroup)
  /\ ScmExtImpl.validateInput 7 "message" 3 staleGroup = (Resolved None, staleGroup)
  /\ ScmMainImpl.receive
       (Main_spliceResourceStates 0
          [mkGroupSplices 0 [mkSplice 0 0 [wireResource (1, file "b")]]])
       (deliver (outbox disposedSourceControl) emptyMirror).2
     = (Resolved tt, (deliver (outbox disposedSourceControl) emptyMirror).2).
Proof.
  destruct (stale_handles_resolve_with_nothing staleGroup
              (deliver (outbox disposedSourceControl) emptyMirror).2)
    as (Hnever & Hgroup & _ & Hmain & _).
  split; [|split].
  - apply (Hgroup 0 0%nat _ 0 0 true staleGroup_sourceControl). reflexivity.
  - destruct (Hnever 7) as (_ & _ & _ & Hvalidate & _); [vm_compute; reflexivity|].
    apply Hvalidate.
  - destruct (Hmain 0) as (_ & _ & _ & _ & _ & _ & _ & _ & _ & Hcall);
      [vm_compute; reflexivity|].
    apply Hcall; [reflexivity|]. intros id label rootUri Heq. discriminate Heq.
Defined.

End StaleHandleExamples.

Section CommandExamples.
#[local] Existing Instance exampleHost.
Import ExtHostSourceControlResourceGroup.

(** A snapshot of a trusted and of another command: what is on the wire and
    what the two handles execute. *)
Example commands_on_the_wire :
  let '(splices, g, _) :=
    _takeResourceStateSnapshot
      (assignResourceStates [withCommand "a" "theia.open"; withCommand "b" "git.stage"]
         changes) (mkConverter 0 ∅) in
  (fun raw => (raw_handle raw, raw_command raw)) <$> inserted splices =
    [(0, rs_command (withCommand "a" "theia.open") ≫= fun c => Some (PlainCommand c));
     (1, None)]
  /\ executeResourceCommand g 0 true = (Resolved tt, None)
  /\ executeResourceCommand g 1 true =
       (Pending, Some (mkExecution (Some "git.stage") [42] true)).
Proof. by vm_compute. Qed.

Lemma commands_cross_the_wire_safely_witness :
  exists splices g' conv',
    _takeResourceStateSnapshot
      (assignResourceStates [withCommand "a" "theia.open"; withCommand "b" "git.stage"]
         changes) (mkConverter 0 ∅) = (splices, g', conv')
    /\ forall raw, raw ∈ inserted splices ->
         exists r, getResourceState g' (raw_handle raw) = Some r
                   /\ raw = wireResource (raw_handle raw, r).
Proof.
  destruct (commands_cross_the_wire_safely
              (assignResourceStates
                 [withCommand "a" "theia.open"; withCommand "b" "git.stage"] changes)
              (mkConverter 0 ∅) group_ok_initially)
    as (splices & g' & conv' & Htake & Hwire & _).
  exists splices, g', conv'. split; [exact Htake|].
  intros raw Hraw. destruct (Hwire raw Hraw) as (r & Hstate & Hraw' & _).
  exists r. split; [exact Hstate|exact Hraw'].
Defined.

End CommandExamples.

(** ** Flushing *)

Section StoreFacts.
Context {A : Type}.
Implicit Types l : list A.

Lemma alter_at l i x (f : A -> A) : l !! i = Some x -> alter f i l = <[i := f x]> l.
Proof.
  revert i. induction l as [|y l IH]; intros [|i] Hi; try done.
  - cbn in *. congruence.
  - cbn in *. by rewrite (IH i Hi).
Qed.

Lemma lookup_snoc l x : (l ++ [x]) !! length l = Some x.
Proof. by rewrite lookup_app_r, Nat.sub_diag by lia. Qed.

Lemma insert_snoc l x y : <[length l := y]> (l ++ [x]) = l ++ [y].
Proof. by rewrite insert_app_r_alt, Nat.sub_diag by lia. Qed.

Lemma alter_insert l i x (f : A -> A) :
  (i < length l)%nat -> alter f i (<[i := x]> l) = <[i := f x]> l.
Proof.
  intros Hi. rewrite (alter_at _ i x) by (by apply list_lookup_insert_eq).
  apply list_insert_insert_eq.
Qed.

Lemma insert_same l i x : l !! i = Some x -> <[i := x]> l = l.
Proof. apply list_insert_id. Qed.

End StoreFacts.

Section Flushing.
Context `{Host}.
Import ExtHostSourceControlResourceGroup ExtHostSourceControl.

(** A group without declared states and with an empty snapshot has nothing
    to send. *)
Lemma takeSnapshot_nothing_declared g conv :
  _resourceStates g = [] -> _resourceSnapshot g = [] ->
  _takeResourceStateSnapshot g conv = ([], set_resourceSnapshot [] g, conv).
Proof.
  intros Hs Hn. unfold _takeResourceStateSnapshot. by rewrite Hs, Hn, array_sort_nil.
Qed.

Lemma createResourceGroup_spec this id label w sc :
  sourceControlStore w !! this = Some sc ->
  createdResourceGroups sc = [] ->
  createResourceGroup this id label w =
    (Some (length (groupStore w)),
     mkExtWorld (Group_handlePool w + 1) (SourceControl_handlePool w) (ScmExt_handlePool w)
       (groupStore w ++ [registeredGroup this (Group_handlePool w) (sc_handle sc) id label])
       (<[this := set_groups
                    (map_set (_groups sc) (Group_handlePool w) (length (groupStore w))) sc]>
          (sourceControlStore w))
       (_sourceControls w) (_selectedSourceControlHandle w) (_commands w)
       (outbox w
          ++ [Main_registerGroups (sc_handle sc)
                [mkGroupEntry (Group_handlePool w) id label (mkGroupFeatures (Some None))]
                []])
       (observed w) (executed w)).
Proof.
  intros Hsc Hcreated.
  assert (this < length (sourceControlStore w))%nat as Hthis by (by eapply lookup_lt_Some).
  destruct w as [gp sp ep store scs scm sel cmds out obs exe].
  destruct sc as [sch scid sclabel root box qd selected grps created updated].
  cbn in Hsc, Hcreated, Hthis. subst created.
  unfold createResourceGroup, eventuallyAddResourceGroups, updateSourceControlAt, send.
  cbn [sourceControlStore groupStore put_sourceControlStore put_groupStore
       put_Group_handlePool put_outbox Group_handlePool outbox].
  rewrite Hsc. f_equal.
  rewrite (alter_at _ _ _ _ Hsc), list_lookup_insert_eq by done.
  cbn [createdResourceGroups set_createdResourceGroups map_set foldl].
  unfold addResourceGroup, updateGroupAt, takeSnapshotAt, updateSourceControlAt.
  cbn [sourceControlStore groupStore put_sourceControlStore put_groupStore
       put_commands _commands].
  repeat (rewrite (alter_at _ _ _ _ (lookup_snoc _ _)), insert_snoc).
  rewrite !lookup_snoc.
  cbn -[_takeResourceStateSnapshot map_set]. rewrite decide_True by done.
  cbn -[_takeResourceStateSnapshot map_set].
  rewrite takeSnapshot_nothing_declared by done.
  cbn -[map_set]. rewrite insert_snoc.
  rewrite !alter_insert by done.
  cbn -[map_set]. reflexivity.
Qed.

Lemma assign_registered_spec group resources0 this w g sc :
  groupStore w !! group = Some g ->
  _onDidUpdateResourceStates g = [MarkUpdated this] ->
  sourceControlStore w !! this = Some sc ->
  updatedResourceGroups sc = [] ->
  assignGroupResourceStates group resources0 w =
    let '(splices, g', conv') :=
      _takeResourceStateSnapshot (assignResourceStates resources0 g) (_commands w) in
    mkExtWorld (Group_handlePool w) (SourceControl_handlePool w) (ScmExt_handlePool w)
      (<[group := g']> (groupStore w)) (sourceControlStore w)
      (_sourceControls w) (_selectedSourceControlHandle w) conv'
      (outbox w ++ spliceMessage (sc_handle sc) (handle g') splices)
      (observed w) (executed w).
Proof.
  intros Hg Hlisteners Hsc Hupdated.
  assert (this < length (sourceControlStore w))%nat as Hthis by (by eapply lookup_lt_Some).
  assert (group < length (groupStore w))%nat as Hgroup by (by eapply lookup_lt_Some).
  destruct w as [gp sp ep store scs scm sel cmds out obs exe].
  destruct sc as [sch scid sclabel root box qd selected grps created updated].
  cbn in Hg, Hsc, Hupdated, Hthis, Hgroup. subst updated.
  unfold assignGroupResourceStates. cbn [groupStore]. rewrite Hg, Hlisteners.
  cbn [foldl]. unfold onDidUpdateResourceStates, eventuallyUpdateResourceStates,
    updateSourceControlAt, updateGroupAt, send.
  cbn [sourceControlStore groupStore put_sourceControlStore put_groupStore].
  rewrite (alter_at _ _ _ _ Hsc), (alter_at _ _ _ _ Hg).
  rewrite list_lookup_insert_eq by done.
  cbn [updatedResourceGroups set_updatedResourceGroups]. unfold set_add.
  rewrite decide_False by (by intros ?%elem_of_nil). cbn [app foldl].
  unfold takeSnapshotAt. cbn [groupStore put_groupStore put_sourceControlStore _commands].
  rewrite list_lookup_insert_eq by done.
  destruct (_takeResourceStateSnapshot (assignResourceStates resources0 g) cmds)
    as [[splices g'] conv'].
  rewrite list_insert_insert_eq. unfold spliceMessage.
  destruct splices as [|s splices]; cbn [length].
  - rewrite !(bool_decide_eq_true_2 (0%nat = 0%nat)) by done.
    rewrite bool_decide_eq_false_2 by (cbn; lia).
    cbn -[set_updatedResourceGroups]. rewrite alter_insert by done.
    cbn. by rewrite insert_same, app_nil_r.
  - rewrite !(bool_decide_eq_false_2 (S _ = 0%nat)) by done.
    rewrite bool_decide_eq_true_2 by (cbn; lia).
    cbn -[set_updatedResourceGroups]. rewrite alter_insert by done.
    cbn. by rewrite insert_same.
Qed.



Lemma createResourceGroups_outbox this specs w sc :
  sourceControlStore w !! this = Some sc ->
  createdResourceGroups sc = [] ->
  outbox (createResourceGroups this specs w) =
    outbox w
      ++ imap (fun k spec =>
                 Main_registerGroups (sc_handle sc)
                   [mkGroupEntry (Group_handlePool w + Z.of_nat k) spec.1 spec.2
                      (mkGroupFeatures (Some None))] [])
           specs.
Proof.
  revert w sc. induction specs as [|spec specs IH]; intros w sc Hsc Hcreated.
  { cbn. by rewrite app_nil_r. }
  assert (this < length (sourceControlStore w))%nat as Hthis by (by eapply lookup_lt_Some).
  unfold createResourceGroups in *. cbn [foldl imap].
  rewrite (createResourceGroup_spec this spec.1 spec.2 w sc Hsc Hcreated). cbn [snd].
  erewrite IH; cycle 1.
  { cbn. by apply list_lookup_insert_eq. }
  { done. }
  cbn. rewrite <- app_assoc. cbn. rewrite Z.add_0_r. do 2 f_equal.
  apply imap_ext. intros k spec' _. cbn. do 3 f_equal. lia.
Qed.

Lemma spliceMessage_shape sourceControlHandle groupHandle splices :
  Forall (coversOneGroup sourceControlHandle)
    (spliceMessage sourceControlHandle groupHandle splices)
  /\ (length (spliceMessage sourceControlHandle groupHandle splices) <= 1)%nat.
Proof.
  unfold spliceMessage. case_bool_decide as Hlen; cbn; [split; [constructor|lia]|].
  split; [|lia]. constructor; [|constructor].
  exists groupHandle, splices. split; [done|]. by intros ->.
Qed.

Lemma assignAll_outbox this updates w sc :
  sourceControlStore w !! this = Some sc ->
  updatedResourceGroups sc = [] ->
  (forall u, u ∈ updates ->
     exists g, groupStore w !! u.1 = Some g
               /\ _onDidUpdateResourceStates g = [MarkUpdated this]
               /\ group_ok g) ->
  exists calls,
    outbox (assignAll updates w) = outbox w ++ calls
    /\ Forall (coversOneGroup (sc_handle sc)) calls
    /\ (length calls <= length updates)%nat.
Proof.
  revert w. induction updates as [|u updates IH]; intros w Hsc Hupdated Hgroups.
  { exists []. cbn. by rewrite app_nil_r. }
  destruct (Hgroups u) as (g & Hg & Hlisteners & Hok); [by left|].
  assert (u.1 < length (groupStore w))%nat as Hu by (by eapply lookup_lt_Some).
  unfold assignAll in *. cbn [foldl].
  rewrite (assign_registered_spec u.1 u.2 this w g sc Hg Hlisteners Hsc Hupdated).
  destruct (takeSnapshot_spec (assignResourceStates u.2 g) (_commands w) Hok)
    as (g' & conv' & Htake & Hid & _ & _ & _ & _ & Hok' & _).
  rewrite Htake. set (splices := splice_map wireResource <$> _).
  cbn beta iota.
  destruct (IH (mkExtWorld (Group_handlePool w) (SourceControl_handlePool w)
                  (ScmExt_handlePool w) (<[u.1 := g']> (groupStore w))
                  (sourceControlStore w) (_sourceControls w)
                  (_selectedSourceControlHandle w) conv'
                  (outbox w ++ spliceMessage (sc_handle sc) (handle g') splices)
                  (observed w) (executed w)))
    as (calls & Hout & Hshape & Hlen); [done|done|..].
  { intros u' Hu'. cbn. destruct (decide (u'.1 = u.1)) as [->|Hne].
    - exists g'. rewrite list_lookup_insert_eq by done. split; [done|]. split; [|done].
      unfold same_identity in Hid. cbn in Hid. destruct_and!. congruence.
    - rewrite list_lookup_insert_ne by done. apply Hgroups. by right. }
  destruct (spliceMessage_shape (sc_handle sc) (handle g') splices) as [Hshape1 Hlen1].
  eexists (_ ++ calls). rewrite Hout. cbn [outbox]. rewrite <- app_assoc.
  split; [reflexivity|]. split; [by apply Forall_app|].
  rewrite length_app. cbn [length]. lia.
Qed.

Lemma update_flush_nothing_pending this w sc :
  sourceControlStore w !! this = Some sc ->
  updatedResourceGroups sc = [] ->
  eventuallyUpdateResourceStates this w = w.
Proof.
  intros Hsc Hupdated. unfold eventuallyUpdateResourceStates. rewrite Hsc, Hupdated.
  cbn. unfold updateSourceControlAt. rewrite (alter_at _ _ _ _ Hsc).
  destruct sc. cbn in *. subst. rewrite insert_same by done. by destruct w.
Qed.

(** Re-running the flush of created groups when none is pending: the
    registration goes out all the same, without groups. *)
Lemma add_flush_nothing_pending this w sc :
  sourceControlStore w !! this = Some sc ->
  createdResourceGroups sc = [] ->
  eventuallyAddResourceGroups this w =
    send (Main_registerGroups (sc_handle sc) [] []) w.
Proof.
  intros Hsc Hcreated. unfold eventuallyAddResourceGroups. rewrite Hsc, Hcreated.
  cbn [foldl]. unfold updateSourceControlAt, send. cbn.
  rewrite (alter_at _ _ _ _ Hsc).
  destruct sc. cbn in *. subst. rewrite insert_same by done. by destruct w.
Qed.


Lemma sentSince_app w w' calls : outbox w' = outbox w ++ calls -> sentSince w w' = calls.
Proof. intros Hout. unfold sentSince. by rewrite Hout, drop_app_length. Qed.

(** C2, as the code has it. Nothing defers a flush: with no group pending
    for the source control, creating N groups one after the other sends N
    [$registerGroups] messages, the [k]-th one carrying the [k]-th group
    and nothing else; assigning the resource states of registered groups M
    times sends at most M [$spliceResourceStates] messages, each for one
    group and with splices, an assignment sending exactly the splices of
    its own diff, or nothing when there are none; and the flush of updated
    groups changes nothing when no group is pending. *)
Theorem mutations_are_flushed_one_by_one this w sc specs updates :
  sourceControlStore w !! this = Some sc ->
  createdResourceGroups sc = [] ->
  updatedResourceGroups sc = [] ->
  (forall u, u ∈ updates ->
     exists g, groupStore w !! u.1 = Some g
               /\ _onDidUpdateResourceStates g = [MarkUpdated this]
               /\ group_ok g) ->
  sentSince w (createResourceGroups this specs w) =
    imap (fun k spec =>
            Main_registerGroups (sc_handle sc)
              [mkGroupEntry (Group_handlePool w + Z.of_nat k) spec.1 spec.2
                 (mkGroupFeatures (Some None))] [])
      specs
  /\ Forall (coversOneGroup (sc_handle sc)) (sentSince w (assignAll updates w))
  /\ (length (sentSince w (assignAll updates w)) <= length updates)%nat
  /\ (forall u, u ∈ updates ->
        forall g, groupStore w !! u.1 = Some g ->
        let '(splices, g', _) :=
          _takeResourceStateSnapshot (assignResourceStates u.2 g) (_commands w) in
        sentSince w (assignGroupResourceStates u.1 u.2 w) =
          spliceMessage (sc_handle sc) (handle g') splices)
  /\ eventuallyUpdateResourceStates this w = w.
Proof.
  intros Hsc Hcreated Hupdated Hgroups.
  destruct (assignAll_outbox this updates w sc Hsc Hupdated Hgroups)
    as (calls & Hout & Hshape & Hlen).
  rewrite (sentSince_app _ _ _ Hout).
  split; [|split; [done|split; [done|split]]].
  - apply sentSince_app. by apply createResourceGroups_outbox.
  - intros u Hu g Hg. destruct (Hgroups u Hu) as (g0 & Hg0 & Hlisteners & _).
    assert (g0 = g) as -> by congruence.
    rewrite (assign_registered_spec u.1 u.2 this w g sc Hg Hlisteners Hsc Hupdated).
    destruct (_takeResourceStateSnapshot _ _) as [[splices g'] conv'].
    by apply sentSince_app.
  - by eapply update_flush_nothing_pending.
Qed.

Lemma takeSnapshot_nothing_to_send g conv :
  nothing_to_send g ->
  _takeResourceStateSnapshot g conv =
    ([], set_resourceSnapshot (array_sort compareResourceStates (_resourceStates g)) g, conv).
Proof. intros Hnone. unfold _takeResourceStateSnapshot. by rewrite Hnone. Qed.

(** The loop of the flush of updated groups over groups that have nothing
    to send: it collects nothing and sends nothing. *)
Lemma update_loop_nothing_to_send (dirty : list nat) (w : ExtWorld) :
  NoDup dirty ->
  (forall group g, group ∈ dirty -> groupStore w !! group = Some g -> nothing_to_send g) ->
  exists w',
    foldl
      (fun '(splices, w) group =>
         match takeSnapshotAt group w with
         | (Some (snapshot, g), w) =>
             if bool_decide (length snapshot = 0%nat) then (splices, w)
             else (splices ++ [mkGroupSplices (handle g) snapshot], w)
         | (None, w) => (splices, w)
         end)
      ([], w) dirty = ([], w')
    /\ outbox w' = outbox w.
Proof.
  revert w. induction dirty as [|group dirty IH]; intros w Hnd Hnone.
  { by exists w. }
  apply NoDup_cons in Hnd as [Hfirst Hnd]. cbn [foldl]. unfold takeSnapshotAt at 2.
  destruct (groupStore w !! group) as [g|] eqn:Hg.
  - rewrite (takeSnapshot_nothing_to_send g (_commands w));
      [|by apply (Hnone group); [left|]].
    cbn [length]. rewrite bool_decide_eq_true_2 by done.
    set (w1 := put_commands _ _).
    destruct (IH w1 Hnd) as (w' & Hfold & Hout).
    + intros group' g' Hin Hg'. apply (Hnone group'); [by right|].
      unfold w1 in Hg'. cbn in Hg'. rewrite list_lookup_insert_ne in Hg'; [done|].
      by intros ->.
    + exists w'. split; [exact Hfold|]. by rewrite Hout.
  - destruct (IH w Hnd) as (w' & Hfold & Hout).
    + intros group' g' Hin Hg'. apply (Hnone group'); [by right|done].
    + by exists w'.
Qed.

(** C3. A flush whose change set is empty sends nothing. The flush of
    updated groups sends nothing when the splice set of every group that
    is marked is empty; so does an assignment to a registered group, which
    runs this flush, when the splice set of the group is empty. The flush
    of created groups is run by [createResourceGroup] alone, once it has
    put the new group into [createdResourceGroups]: its change set is never
    empty. *)
Theorem empty_flushes_send_nothing this w sc :
  sourceControlStore w !! this = Some sc ->
  NoDup (updatedResourceGroups sc) ->
  ((forall group g,
      group ∈ updatedResourceGroups sc -> groupStore w !! group = Some g ->
      nothing_to_send g) ->
   sentSince w (eventuallyUpdateResourceStates this w) = [])
  /\ (forall group g resources0,
        groupStore w !! group = Some g ->
        _onDidUpdateResourceStates g = [MarkUpdated this] ->
        updatedResourceGroups sc = [] ->
        nothing_to_send (assignResourceStates resources0 g) ->
        sentSince w (assignGroupResourceStates group resources0 w) = [])
  /\ (forall id label,
        exists queued scq,
          createResourceGroup this id label w =
            (Some (length (groupStore w)), eventuallyAddResourceGroups this queued)
          /\ sourceControlStore queued !! this = Some scq
          /\ map_get (createdResourceGroups scq) (length (groupStore w))
             = Some (ForgetCreated this)).
Proof.
  intros Hsc Hnd. split_and!.
  - intros Hnone. unfold eventuallyUpdateResourceStates. rewrite Hsc.
    destruct (update_loop_nothing_to_send (updatedResourceGroups sc) w Hnd Hnone)
      as (w' & -> & Hout).
    cbn [length]. rewrite bool_decide_eq_false_2 by lia.
    apply sentSince_app. cbn. by rewrite Hout, app_nil_r.
  - intros group g resources0 Hg Hlisteners Hupdated Hnone.
    rewrite (assign_registered_spec group resources0 this w g sc Hg Hlisteners Hsc Hupdated).
    rewrite (takeSnapshot_nothing_to_send _ _ Hnone).
    apply sentSince_app. by cbn.
  - intros id label. unfold createResourceGroup. rewrite Hsc.
    eexists _, _. split; [reflexivity|].
    unfold updateSourceControlAt. cbn [sourceControlStore put_sourceControlStore put_groupStore
                                       put_Group_handlePool].
    rewrite list_lookup_alter_eq, Hsc. cbn [fmap option_fmap option_map].
    split; [reflexivity|]. cbn [createdResourceGroups set_createdResourceGroups].
    apply map_get_set_eq.
Qed.

End Flushing.

Section FlushingExamples.
#[local] Existing Instance exampleHost.
Import ExtHostSourceControl.

(** C2 as the specification words it fails: two groups created one after
    the other are registered by two messages, and two assignments are sent
    as two messages. *)
Lemma two_groups_two_messages :
  sentSince oneSourceControl twoGroups =
    [Main_registerGroups 0
       [mkGroupEntry 0 "index" "Staged" (mkGroupFeatures (Some None))] [];
     Main_registerGroups 0
       [mkGroupEntry 1 "workingTree" "Changes" (mkGroupFeatures (Some None))] []]
  /\ sentSince twoGroups twoUpdates =
       [Main_spliceResourceStates 0
          [mkGroupSplices 0 [mkSplice 0 0 [wireResource (0, file "a")]]];
        Main_spliceResourceStates 0
          [mkGroupSplices 1 [mkSplice 0 0 [wireResource (0, file "b")]]]].
Proof. split; vm_compute; reflexivity. Qed.

Lemma mutations_are_flushed_one_by_one_witness :
  length (sentSince twoGroups
            (createResourceGroups 0 [("merge", "Merge"); ("stash", "Stash")] twoGroups))
    = 2%nat
  /\ (length (sentSince twoGroups twoUpdates) <= 2)%nat.
Proof.
  destruct (mutations_are_flushed_one_by_one 0%nat twoGroups
              (mkSourceControl 0 "git" "Git" None (mkInputBox "" "" None 0) None false
                 [(0, 0%nat); (1, 1%nat)] [] [])
              [("merge", "Merge"); ("stash", "Stash")]
              [(0%nat, [file "a"]); (1%nat, [file "b"])])
    as (Hcreate & _ & Hlen & _).
  - vm_compute; reflexivity.
  - reflexivity.
  - reflexivity.
  - intros u [->|[->|[]%elem_of_nil]%elem_of_cons]%elem_of_cons.
    + exists (registeredGroup 0 0 0 "index" "Staged").
      split; [vm_compute; reflexivity|]. split; [reflexivity|].
      repeat split; try constructor; apply lookup_empty.
    + exists (registeredGroup 0 1 0 "workingTree" "Changes").
      split; [vm_compute; reflexivity|]. split; [reflexivity|].
      repeat split; try constructor; apply lookup_empty.
  - split; [by rewrite Hcreate|exact Hlen].
Defined.

Lemma twoUpdates_sourceControl :
  sourceControlStore twoUpdates !! 0%nat = Some gitSourceControl.
Proof. vm_compute; reflexivity. Qed.

Lemma twoUpdates_group : groupStore twoUpdates !! 0%nat = Some indexWithFile.
Proof. vm_compute; reflexivity. Qed.

Lemma declared_again_nothing_to_send :
  nothing_to_send
    (ExtHostSourceControlResourceGroup.assignResourceStates [file "a"] indexWithFile).
Proof. vm_compute; reflexivity. Qed.

Lemma empty_flushes_send_nothing_witness :
  sentSince twoUpdates (assignGroupResourceStates 0 [file "a"] twoUpdates) = [].
Proof.
  destruct (empty_flushes_send_nothing 0%nat twoUpdates gitSourceControl
              twoUpdates_sourceControl (NoDup_nil_2 : NoDup []))
    as (_ & Hassign & _).
  exact (Hassign 0%nat indexWithFile [file "a"] twoUpdates_group eq_refl eq_refl
           declared_again_nothing_to_send).
Defined.

End FlushingExamples.

(** ** Handles over time *)

Ltac world_cbn :=
  cbn [Group_handlePool SourceControl_handlePool ScmExt_handlePool groupStore
       sourceControlStore _sourceControls _selectedSourceControlHandle _commands
       outbox observed executed put_Group_handlePool put_SourceControl_handlePool
       put_ScmExt_handlePool put_groupStore put_sourceControlStore put_sourceControls
       put_selectedSourceControlHandle put_commands put_outbox put_observed
       put_executed send notify updateGroupAt updateSourceControlAt fst snd].

Section HandleFacts.
Context `{Host}.
Import ExtHostSourceControl.

Lemma pendingHandles_app gh p q :
  pendingHandles gh (p ++ q) = pendingHandles gh p ++ pendingHandles gh q.
Proof. unfold pendingHandles. by rewrite fmap_app, concat_app. Qed.

Lemma pendingHandles_one gh h splices :
  pendingHandles gh [mkGroupSplices h splices]
  = if bool_decide (h = gh) then raw_handle <$> inserted splices else [].
Proof. unfold pendingHandles. cbn [fmap list_fmap concat gs_handle gs_splices]. apply app_nil_r. Qed.

Lemma sentHandles_app gh p q :
  sentHandles gh (p ++ q) = sentHandles gh p ++ sentHandles gh q.
Proof. unfold sentHandles. by rewrite fmap_app, concat_app. Qed.

Lemma grows_refl w : grows w w.
Proof. unfold grows. split_and!; try lia; eauto with lia. Qed.

Lemma grows_trans w1 w2 w3 : grows w1 w2 -> grows w2 w3 -> grows w1 w3.
Proof.
  intros (? & ? & ? & Hsc & Hg) (? & ? & ? & Hsc' & Hg').
  unfold grows. split_and!; try lia.
  - intros i sc (sc' & Hl & ?)%Hsc. apply Hsc' in Hl as (sc'' & ? & ?).
    exists sc''. split; [done|congruence].
  - intros i g (g' & Hl & ? & ?)%Hg. apply Hg' in Hl as (g'' & ? & ? & ?).
    exists g''. split_and!; [done|congruence|lia].
Qed.

Lemma grows_same_objects w w' :
  Group_handlePool w' = Group_handlePool w ->
  SourceControl_handlePool w' = SourceControl_handlePool w ->
  ScmExt_handlePool w' = ScmExt_handlePool w ->
  sourceControlStore w' = sourceControlStore w ->
  groupStore w' = groupStore w ->
  grows w w'.
Proof.
  intros Hg Hs He Hsc Hgs. unfold grows. rewrite Hg, Hs, He, Hsc, Hgs.
  apply grows_refl.
Qed.

Lemma keeps_id : keeps (fun w => w).
Proof. intros w p Hw. split; [done|apply grows_refl]. Qed.

Lemma keeps_compose f g : keeps f -> keeps g -> keeps (fun w => g (f w)).
Proof.
  intros Hf Hg w p Hw. destruct (Hf w p Hw) as [Hw1 Hg1].
  destruct (Hg _ p Hw1) as [Hw2 Hg2]. split; [done|by eapply grows_trans].
Qed.

Lemma keeps_foldl {A} (f : ExtWorld -> A -> ExtWorld) (l : list A) :
  (forall x, keeps (fun w => f w x)) -> keeps (fun w => foldl f w l).
Proof.
  intros Hf. induction l as [|x l IH]; [apply keeps_id|].
  cbn. apply (keeps_compose (fun w => f w x) (fun w => foldl f w l)); auto.
Qed.

Lemma keeps_send call :
  (forall gh, sentHandles gh [call] = []) -> keeps (send call).
Proof.
  intros Hcall w p (? & ? & ? & ? & Hg & Hnone). split; [|by apply grows_same_objects].
  unfold handles_in_order. world_cbn. split_and!; try done.
  - intros i g Hi. destruct (Hg i g Hi) as (? & ? & ? & Hsent). split_and!; try done.
    by rewrite sentHandles_app, Hcall, app_nil_r.
  - intros gh Hgh. rewrite sentHandles_app, Hcall, app_nil_r. auto.
Qed.

Lemma keeps_notify event : keeps (notify event).
Proof. intros w p Hw. split; [done|by apply grows_same_objects]. Qed.

Lemma keeps_updateSourceControlAt i f :
  (forall sc, sc_handle (f sc) = sc_handle sc) -> keeps (updateSourceControlAt i f).
Proof.
  intros Hf w p (? & ? & Hsc & ? & Hg & Hnone). split.
  - unfold handles_in_order. world_cbn.
    rewrite length_alter. split_and!; try done.
    intros j sc. rewrite list_lookup_alter. case_decide as Hij; [|by auto].
    subst j. destruct (_ !! i) as [sc0|] eqn:Hi; [|done].
    cbn. intros [= <-]. rewrite Hf. by apply Hsc.
  - unfold grows. world_cbn. split_and!; try lia; [|by eauto with lia].
    intros j sc Hj. rewrite list_lookup_alter. case_decide as Hij; [|by eauto].
    subst j. rewrite Hj. cbn. eauto.
Qed.

Lemma keeps_updateGroupAt i f : keeps_tracking f -> keeps (updateGroupAt i f).
Proof.
  intros Hf w p (? & ? & ? & ? & Hg & Hnone). split.
  - unfold handles_in_order. world_cbn.
    rewrite length_alter. split_and!; try done.
    intros j g. rewrite list_lookup_alter. case_decide as Hij; [|by auto].
    subst j. destruct (_ !! i) as [g0|] eqn:Hi; [|done].
    cbn. intros [= <-]. destruct (Hf g0) as (-> & -> & Hok).
    destruct (Hg i g0 Hi) as (? & ? & ? & ?). auto.
  - unfold grows. world_cbn. split_and!; try lia; [by eauto|].
    intros j g Hj. rewrite list_lookup_alter. case_decide as Hij; [|by eauto with lia].
    subst j. rewrite Hj. cbn. destruct (Hf g) as (? & ? & _). eauto with lia.
Qed.

Lemma number_handles {T} (pool : Z) (l : list T) :
  fst <$> (number pool l).1 = seqZ pool (Z.of_nat (length l)).
Proof. rewrite number_zip. apply fst_zip. rewrite length_seqZ. lia. Qed.

Lemma number_splices_handles {T} (pool : Z) (diffs : list (Splice T)) :
  fst <$> inserted (number_splices pool diffs).1
  = seqZ pool ((number_splices pool diffs).2 - pool).
Proof.
  revert pool. induction diffs as [|diff diffs IH]; intros pool.
  { cbn. by rewrite Z.sub_diag. }
  unfold number_splices in *. cbn [map_state].
  pose proof (number_handles pool (toInsert diff)) as Hhere.
  destruct (number_length pool (toInsert diff)) as (Hnext & _).
  destruct (number pool (toInsert diff)) as [out1 p1] eqn:Hnum.
  specialize (IH p1).
  pose proof (number_splices_spec p1 diffs) as (_ & Hle & _).
  unfold number_splices in Hle.
  destruct (map_state _ p1 diffs) as [out p'] eqn:Hrest.
  cbn [fst snd] in *. unfold inserted in *. rewrite fmap_cons. cbn [concat toInsert].
  rewrite fmap_app, Hhere, IH.
  replace (p' - pool) with (Z.of_nat (length (toInsert diff)) + (p' - p1)) by lia.
  rewrite seqZ_app by lia. do 2 f_equal. lia.
Qed.

Lemma raw_handle_wireResource hr : raw_handle (wireResource hr) = hr.1.
Proof. done. Qed.

(** The pool after a snapshot, and the handles the snapshot carries. *)
Lemma takeSnapshot_handles g conv :
  group_ok g ->
  exists snapshot g' conv',
    ExtHostSourceControlResourceGroup._takeResourceStateSnapshot g conv
      = (snapshot, g', conv')
    /\ handle g' = handle g
    /\ group_ok g'
    /\ _resourceHandlePool g <= _resourceHandlePool g'
    /\ raw_handle <$> inserted snapshot
       = seqZ (_resourceHandlePool g) (_resourceHandlePool g' - _resourceHandlePool g).
Proof.
  intros Hok.
  destruct (takeSnapshot_spec g conv Hok)
    as (g' & conv' & Htake & Hid & _ & _ & _ & Hle & Hok' & _).
  eexists _, g', conv'. split; [exact Htake|].
  split; [by destruct Hid|]. split; [done|]. split; [done|].
  rewrite inserted_splice_map, <- list_fmap_compose.
  erewrite (list_fmap_ext (raw_handle ∘ wireResource) fst) by done.
  rewrite number_splices_handles. f_equal. f_equal.
  (* the pool is where the numbering stopped *)
  destruct Hok as (_ & _ & _ & Hfresh).
  set (diffs := sortedDiff _ _ _).
  destruct (encode_splices diffs g conv Hfresh) as (g1 & Henc & _ & Hpool1 & _).
  destruct (handles_pass
              (rev (splice_map wirePair <$> (number_splices (_resourceHandlePool g) diffs).1))
              g1 conv) as (g2 & conv2 & Hpass & _ & Hpool2 & _).
  unfold ExtHostSourceControlResourceGroup._takeResourceStateSnapshot in Htake.
  fold diffs in Htake. rewrite Henc, Hpass in Htake.
  injection Htake as _ <- _. cbn. by rewrite Hpool2.
Qed.

Lemma takeSnapshotAt_handles group w pending :
  handles_in_order w pending ->
  match takeSnapshotAt group w with
  | (Some (snapshot, g'), w') =>
      handles_in_order w' (pending ++ [mkGroupSplices (handle g') snapshot])
      /\ grows w w'
  | (None, w') => w' = w
  end.
Proof.
  intros (He & Hs & Hsc & Hp & Hg & Hnone). unfold takeSnapshotAt.
  destruct (groupStore w !! group) as [g|] eqn:Hgroup; [|done].
  destruct (Hg group g Hgroup) as (Hh & Hok & Hpos & Hsent).
  destruct (takeSnapshot_handles g (_commands w) Hok)
    as (snapshot & g' & conv' & -> & Hh' & Hok' & Hle & Hnew).
  pose proof (lookup_lt_Some _ _ _ Hgroup) as Hlt.
  split.
  - unfold handles_in_order. world_cbn. rewrite length_insert.
    split_and!; try done; cycle 1.
    { intros gh Hgh. rewrite pendingHandles_app, pendingHandles_one.
      rewrite bool_decide_eq_false_2 by lia. rewrite app_nil_r. auto. }
    intros j gj Hj. rewrite pendingHandles_app.
    destruct (decide (group = j)) as [<-|Hne].
    + rewrite list_lookup_insert_eq in Hj by done. injection Hj as <-.
      split_and!; [congruence|done|lia|].
      rewrite pendingHandles_one, bool_decide_eq_true_2 by done.
      rewrite app_assoc, Hh', Hsent, Hnew.
      rewrite <- seqZ_app by lia. f_equal. lia.
    + rewrite list_lookup_insert_ne in Hj by done.
      destruct (Hg j gj Hj) as (Hhj & ? & ? & Hsentj). split_and!; try done.
      rewrite pendingHandles_one, bool_decide_eq_false_2.
      * by rewrite app_nil_r.
      * rewrite Hh', Hh, Hhj. lia.
  - unfold grows. world_cbn. split_and!; try lia; [by eauto|].
    intros j gj Hj. destruct (decide (group = j)) as [<-|Hne].
    + rewrite list_lookup_insert_eq by done. rewrite Hgroup in Hj. injection Hj as <-.
      eauto.
    + rewrite list_lookup_insert_ne by done. eauto with lia.
Qed.

(** A group entry without splices carries no handle. *)
Lemma handles_in_order_nothing w pending gh :
  handles_in_order w (pending ++ [mkGroupSplices gh []]) ->
  handles_in_order w pending.
Proof.
  intros (? & ? & ? & ? & Hg & Hnone). unfold handles_in_order. split_and!; try done.
  - intros i g Hi. destruct (Hg i g Hi) as (? & ? & ? & Hsent). split_and!; try done.
    rewrite pendingHandles_app, pendingHandles_one in Hsent.
    case_bool_decide; by rewrite app_nil_r in Hsent.
  - intros gh' Hgh. specialize (Hnone gh' Hgh).
    rewrite pendingHandles_app, pendingHandles_one in Hnone.
    case_bool_decide; by rewrite app_nil_r in Hnone.
Qed.

(** Sending what is pending. *)
Lemma send_pending w pending call :
  (forall gh, sentHandles gh [call] = pendingHandles gh pending) ->
  handles_in_order w pending ->
  handles_in_order (send call w) [] /\ grows w (send call w).
Proof.
  intros Hcall (? & ? & ? & ? & Hg & Hnone). split; [|by apply grows_same_objects].
  unfold handles_in_order. world_cbn. split_and!; try done.
  - intros i g Hi. destruct (Hg i g Hi) as (? & ? & ? & Hsent). split_and!; try done.
    by rewrite sentHandles_app, Hcall, app_nil_r.
  - intros gh Hgh. rewrite sentHandles_app, Hcall, app_nil_r. auto.
Qed.

(** One more step of a run that keeps the handles in order. *)
Lemma and_then f w0 w pending :
  keeps f ->
  handles_in_order w pending /\ grows w0 w ->
  handles_in_order (f w) pending /\ grows w0 (f w).
Proof.
  intros Hf [Hw Hg]. destruct (Hf w pending Hw). split; [done|by eapply grows_trans].
Qed.

Lemma from_here w pending :
  handles_in_order w pending -> handles_in_order w pending /\ grows w w.
Proof. split; [done|apply grows_refl]. Qed.

Lemma eventuallyUpdateResourceStates_handles this w :
  handles_in_order w [] ->
  handles_in_order (eventuallyUpdateResourceStates this w) []
  /\ grows w (eventuallyUpdateResourceStates this w).
Proof.
  intros Hw. unfold eventuallyUpdateResourceStates.
  destruct (sourceControlStore w !! this) as [sc|]; [|by apply from_here].
  assert (forall l pending w1,
            handles_in_order w1 pending /\ grows w w1 ->
            forall splices w2,
              foldl
                (fun '(splices, w) group =>
                   match takeSnapshotAt group w with
                   | (Some (snapshot, g), w) =>
                       if bool_decide (length snapshot = 0%nat) then (splices, w)
                       else (splices ++ [mkGroupSplices (handle g) snapshot], w)
                   | (None, w) => (splices, w)
                   end)
                (pending, w1) l = (splices, w2) ->
              handles_in_order w2 splices /\ grows w w2) as Hfold.
  { induction l as [|group l IH]; intros pending w1 [Hw1 Hg1] splices w2.
    { cbn. by intros [= <- <-]. }
    cbn [foldl]. pose proof (takeSnapshotAt_handles group w1 pending Hw1) as Hsnap.
    destruct (takeSnapshotAt group w1) as [[[snapshot g']|] w1'].
    - destruct Hsnap as [Hw1' Hg1'].
      case_bool_decide as Hempty; intros Hrun; (eapply IH; [|exact Hrun]).
      + apply nil_length_inv in Hempty as ->.
        split; [by eapply handles_in_order_nothing|by eapply grows_trans].
      + split; [done|by eapply grows_trans].
    - subst w1'. by apply IH. }
  destruct (foldl _ _ _) as [splices w2] eqn:Hrun.
  apply Hfold in Hrun as [Hw2 Hg2]; [|by apply from_here].
  apply and_then; [by apply keeps_updateSourceControlAt|].
  case_bool_decide as Hsome.
  - destruct (send_pending w2 splices (Main_spliceResourceStates (sc_handle sc) splices))
      as [? ?]; [|done|].
    + intros gh. unfold sentHandles. cbn. apply app_nil_r.
    + split; [done|by eapply grows_trans].
  - destruct splices; [done|cbn in Hsome; lia].
Qed.

Lemma keeps_settles f : keeps f -> settles f.
Proof. intros Hf w. apply Hf. Qed.

Lemma then_settled f w0 w :
  settles f ->
  handles_in_order w [] /\ grows w0 w ->
  handles_in_order (f w) [] /\ grows w0 (f w).
Proof.
  intros Hf [Hw Hg]. destruct (Hf w Hw). split; [done|by eapply grows_trans].
Qed.

Lemma settles_foldl {A} (f : ExtWorld -> A -> ExtWorld) (l : list A) :
  (forall x, settles (fun w => f w x)) -> settles (fun w => foldl f w l).
Proof.
  intros Hf. induction l as [|x l IH]; intros w Hw; [by apply from_here|].
  cbn. apply (then_settled (fun w => foldl f w l)); [done|]. by apply Hf.
Qed.

Ltac tracking :=
  intros []; unfold group_ok, pool_fresh; cbn; tauto.

Lemma onDidUpdateResourceStates_handles this group :
  settles (onDidUpdateResourceStates this group).
Proof.
  intros w Hw. unfold onDidUpdateResourceStates.
  apply then_settled; [exact (eventuallyUpdateResourceStates_handles this)|].
  apply and_then; [by apply keeps_updateSourceControlAt|]. by apply from_here.
Qed.

Lemma assignGroupResourceStates_handles group resources0 :
  settles (assignGroupResourceStates group resources0).
Proof.
  intros w Hw. unfold assignGroupResourceStates.
  destruct (groupStore w !! group) as [g|]; [|by apply from_here].
  apply (then_settled (fun w => foldl _ w (_onDidUpdateResourceStates g))).
  - apply settles_foldl. intros [owner]. apply onDidUpdateResourceStates_handles.
  - apply and_then; [|by apply from_here].
    apply keeps_updateGroupAt. tracking.
Qed.

Lemma addResourceGroup_handles this groups0 pending w entry :
  handles_in_order w pending ->
  forall groups1 splices w',
    addResourceGroup this (groups0, pending, w) entry = (groups1, splices, w') ->
    handles_in_order w' splices /\ grows w w'.
Proof.
  intros Hw groups1 splices w'. destruct entry as [group disposable].
  unfold addResourceGroup.
  set (w1 := updateGroupAt group _ (updateGroupAt group _ (updateGroupAt group _ w))).
  assert (handles_in_order w1 pending /\ grows w w1) as [Hw1 Hg1].
  { unfold w1. repeat (apply and_then; [apply keeps_updateGroupAt; tracking|]).
    by apply from_here. }
  destruct (groupStore w1 !! group) as [g|].
  2: { intros [= <- <- <-]. by apply from_here. }
  pose proof (takeSnapshotAt_handles group w1 pending Hw1) as Hsnap.
  destruct (takeSnapshotAt group w1) as [[[snapshot g']|] w2].
  - destruct Hsnap as [Hw2 Hg2]. intros [= <- <- <-].
    pose proof (grows_trans _ _ _ Hg1 Hg2) as Hg.
    apply and_then; [by apply keeps_updateSourceControlAt|].
    case_bool_decide as Hsome; [done|].
    destruct snapshot; [|cbn in Hsome; lia].
    split; [by eapply handles_in_order_nothing|done].
  - subst w2. by intros [= <- <- <-].
Qed.

Lemma eventuallyAddResourceGroups_handles this :
  settles (eventuallyAddResourceGroups this).
Proof.
  intros w Hw. unfold eventuallyAddResourceGroups.
  destruct (sourceControlStore w !! this) as [sc|]; [|by apply from_here].
  assert (forall l groups0 pending w1,
            handles_in_order w1 pending /\ grows w w1 ->
            forall groups1 splices w2,
              foldl (addResourceGroup this) (groups0, pending, w1) l
                = (groups1, splices, w2) ->
              handles_in_order w2 splices /\ grows w w2) as Hfold.
  { induction l as [|entry l IH]; intros groups0 pending w1 [Hw1 Hg1] groups1 splices w2.
    { cbn. by intros [= <- <- <-]. }
    cbn [foldl].
    destruct (addResourceGroup this (groups0, pending, w1) entry)
      as [[groups0' pending'] w1'] eqn:Hstep.
    apply (addResourceGroup_handles _ _ _ _ _ Hw1) in Hstep as [Hw1' Hg1'].
    apply IH. split; [done|by eapply grows_trans]. }
  destruct (foldl _ _ _) as [[groups1 splices] w2] eqn:Hrun.
  apply Hfold in Hrun as [Hw2 Hg2]; [|by apply from_here].
  apply and_then; [by apply keeps_updateSourceControlAt|].
  destruct (send_pending w2 splices (Main_registerGroups (sc_handle sc) groups1 splices))
    as [? ?]; [|done|].
  - intros gh. unfold sentHandles. cbn. apply app_nil_r.
  - split; [done|by eapply grows_trans].
Qed.

Lemma createResourceGroup_handles this id label :
  settles (fun w => (createResourceGroup this id label w).2).
Proof.
  intros w Hw. unfold createResourceGroup.
  destruct (sourceControlStore w !! this) as [sc|]; [|by apply from_here].
  cbn [snd].
  apply then_settled; [exact (eventuallyAddResourceGroups_handles this)|].
  apply and_then; [by apply keeps_updateSourceControlAt|].
  destruct Hw as (He & Hs & Hsc & Hp & Hg & Hnone).
  split.
  - unfold handles_in_order. world_cbn. rewrite length_app. cbn [length].
    split_and!; [done|done|done|lia| |].
    + intros i g [[Hlt Hi]|[-> <-]]%lookup_snoc_Some.
      * destruct (Hg i g Hi) as (? & ? & ? & ?). split_and!; done.
      * cbn. split_and!; [done| |lia|].
        -- unfold group_ok, pool_fresh. cbn. split_and!; [done|constructor|constructor|done].
        -- rewrite Hp. apply Hnone. lia.
    + intros gh Hgh. apply Hnone. lia.
  - unfold grows. world_cbn. split_and!; try lia; [by eauto|].
    intros i g Hi. exists g. rewrite lookup_app_l by (by eapply lookup_lt_Some).
    split_and!; [done|done|lia].
Qed.

Lemma onDidDispose_handles listener group : keeps (fun w => onDidDispose listener group w).
Proof.
  intros w pending Hw. unfold onDidDispose.
  destruct listener as [this|this].
  - apply and_then; [by apply keeps_updateSourceControlAt|]. by apply from_here.
  - destruct (groupStore w !! group) as [g|]; [|by apply from_here].
    set (w1 := updateSourceControlAt this _ (updateGroupAt group _ _)).
    assert (handles_in_order w1 pending /\ grows w w1) as Hw1.
    { unfold w1. apply and_then; [by apply keeps_updateSourceControlAt|].
      apply and_then; [apply keeps_updateGroupAt; tracking|].
      apply and_then; [by apply keeps_updateSourceControlAt|]. by apply from_here. }
    destruct (sourceControlStore w1 !! this) as [sc|]; [|done].
    apply and_then; [by apply keeps_send|done].
Qed.

Lemma disposeGroup_handles group : keeps (disposeGroup group).
Proof.
  intros w pending Hw. unfold disposeGroup.
  destruct (groupStore w !! group) as [g|]; [|by apply from_here].
  apply (and_then (fun w => foldl _ w (_onDidDispose g))).
  - apply keeps_foldl. intros listener. apply onDidDispose_handles.
  - apply and_then; [apply keeps_updateGroupAt; tracking|]. by apply from_here.
Qed.

Lemma dispose_handles this : keeps (dispose this).
Proof.
  intros w pending Hw. unfold dispose.
  destruct (sourceControlStore w !! this) as [sc|]; [|by apply from_here].
  apply and_then; [by apply keeps_send|].
  apply (and_then (fun w => foldl _ w (_groups sc))); [|by apply from_here].
  apply keeps_foldl. intros entry w1 p1 Hw1.
  destruct (sourceControlStore w1 !! this) as [sc'|]; [|by apply from_here].
  case_bool_decide; [by apply disposeGroup_handles|by apply from_here].
Qed.

Lemma updateValue_handles sourceControl value :
  keeps (ScmInputBoxImpl.updateValue sourceControl value).
Proof.
  intros w pending Hw. unfold ScmInputBoxImpl.updateValue.
  apply and_then; [apply keeps_notify|].
  apply and_then; [by apply keeps_updateSourceControlAt|]. by apply from_here.
Qed.

Lemma set_value_handles sourceControl value :
  keeps (ScmInputBoxImpl.set_value sourceControl value).
Proof.
  intros w pending Hw. unfold ScmInputBoxImpl.set_value.
  destruct (sourceControlStore w !! sourceControl) as [sc|]; [|by apply from_here].
  apply and_then; [apply updateValue_handles|].
  apply and_then; [by apply keeps_send|]. by apply from_here.
Qed.

Lemma createSourceControl_handles id label rootUri :
  keeps (fun w => (ScmExtImpl.createSourceControl id label rootUri w).2).
Proof.
  intros w pending (He & Hs & Hsc & Hp & Hg & Hnone).
  unfold ScmExtImpl.createSourceControl. world_cbn. split.
  - unfold handles_in_order. world_cbn. rewrite length_app. cbn [length].
    split_and!; [lia|lia| |done| |].
    + intros i sc [[Hlt Hi]|[-> <-]]%lookup_snoc_Some; [by auto|done].
    + intros i g Hi. destruct (Hg i g Hi) as (? & ? & ? & Hsent). split_and!; try done.
      by rewrite sentHandles_app, app_nil_r.
    + intros gh Hgh. rewrite sentHandles_app, app_nil_r. auto.
  - unfold grows. world_cbn. split_and!; try lia; [|by eauto with lia].
    intros i sc Hi. exists sc. rewrite lookup_app_l by (by eapply lookup_lt_Some). done.
Qed.

Lemma onInputBoxValueChange_handles sourceControlHandle value :
  keeps (fun w => (ScmExtImpl.onInputBoxValueChange sourceControlHandle value w).2).
Proof.
  intros w pending Hw. unfold ScmExtImpl.onInputBoxValueChange.
  destruct (ScmExtImpl.sourceControlAt w sourceControlHandle) as [[i sc]|];
    [|by apply from_here].
  by apply updateValue_handles.
Qed.

Lemma executeResourceCommand_handles sourceControlHandle groupHandle handle0 preserveFocus :
  keeps (fun w => (ScmExtImpl.executeResourceCommand sourceControlHandle groupHandle
                     handle0 preserveFocus w).2).
Proof.
  intros w pending Hw. unfold ScmExtImpl.executeResourceCommand.
  destruct (ScmExtImpl.sourceControlAt w sourceControlHandle) as [[i sc]|];
    [|by apply from_here].
  destruct (_ ≫= _) as [g|]; [|by apply from_here].
  destruct (ExtHostSourceControlResourceGroup.executeResourceCommand _ _ _)
    as [promise [e|]]; [|by apply from_here].
  split; [done|by apply grows_same_objects].
Qed.

Lemma selectIfRegistered_handles handle0 selected :
  keeps (ScmExtImpl.selectIfRegistered handle0 selected).
Proof.
  intros w pending Hw. unfold ScmExtImpl.selectIfRegistered.
  destruct (ScmExtImpl.sourceControlAt w handle0) as [[i sc]|]; [|by apply from_here].
  unfold setSelectionState.
  apply and_then; [apply keeps_notify|].
  apply and_then; [by apply keeps_updateSourceControlAt|]. by apply from_here.
Qed.

Lemma setSelectedSourceControl_handles selectedSourceControlHandle :
  keeps (fun w => (ScmExtImpl.setSelectedSourceControl selectedSourceControlHandle w).2).
Proof.
  intros w pending Hw. unfold ScmExtImpl.setSelectedSourceControl. cbn [snd].
  set (w1 := match selectedSourceControlHandle with Some _ => _ | None => _ end).
  assert (handles_in_order w1 pending /\ grows w w1) as Hw1.
  { unfold w1. destruct selectedSourceControlHandle; [|by apply from_here].
    by apply selectIfRegistered_handles. }
  set (w2 := match _selectedSourceControlHandle w1 with Some _ => _ | None => _ end).
  assert (handles_in_order w2 pending /\ grows w w2) as [Hw2 Hg2].
  { unfold w2. destruct (_selectedSourceControlHandle w1); [|done].
    by apply and_then; [apply selectIfRegistered_handles|]. }
  split; [done|]. eapply grows_trans; [done|]. by apply grows_same_objects.
Qed.

Lemma perform_handles op : settles (fun w => perform w op).
Proof.
  destruct op; cbn [perform].
  - apply keeps_settles, createSourceControl_handles.
  - apply createResourceGroup_handles.
  - apply assignGroupResourceStates_handles.
  - apply keeps_settles, disposeGroup_handles.
  - apply keeps_settles, dispose_handles.
  - apply keeps_settles, set_value_handles.
  - apply eventuallyAddResourceGroups_handles.
  - intros w. apply eventuallyUpdateResourceStates_handles.
  - apply keeps_settles, onInputBoxValueChange_handles.
  - apply keeps_settles, executeResourceCommand_handles.
  - apply keeps_settles, setSelectedSourceControl_handles.
Qed.

Lemma run_handles ops : settles (run ops).
Proof. apply settles_foldl, perform_handles. Qed.

Lemma initialWorld_handles : handles_in_order initialWorld [].
Proof.
  unfold handles_in_order. cbn. split_and!; try done.
Qed.

End HandleFacts.

Section HandlesOverTime.
Context `{Host}.

(** C7: whatever the plugin and the main side do, and in whatever order:
    the counters of the source controls (the one of [ScmExtImpl] and the
    one of [ExtHostSourceControl], which move together) and the counter of
    the groups stand at the number of objects created so far, and each
    object carries its position in creation order as its handle, disposed
    or not, so that no two source controls and no two groups ever share a
    handle; each group numbers its resource states with a counter of its
    own, the handles it has sent so far are 0, 1, 2, ... up to that
    counter, each of them once, and the handles of the resource states it
    holds now are pairwise distinct; and from then on no counter goes down
    and no object changes its handle. *)
Theorem handles_are_never_reused (ops more : list Operation) :
  let w := run ops initialWorld in
  let w' := run more w in
  handles_in_order w []
  /\ grows w w'
  /\ (forall i j sc sc',
        sourceControlStore w !! i = Some sc -> sourceControlStore w !! j = Some sc' ->
        sc_handle sc = sc_handle sc' -> i = j)
  /\ (forall i j g g',
        groupStore w !! i = Some g -> groupStore w !! j = Some g' ->
        handle g = handle g' -> i = j)
  /\ (forall i g,
        groupStore w !! i = Some g ->
        NoDup (_handlesSnapshot g)
        /\ Forall (fun h => h < _resourceHandlePool g) (_handlesSnapshot g)
        /\ sentHandles (handle g) (outbox w) = seqZ 0 (_resourceHandlePool g)
        /\ NoDup (sentHandles (handle g) (outbox w))).
Proof.
  intros w w'.
  destruct (run_handles ops initialWorld initialWorld_handles) as [Hw _].
  fold w in Hw. destruct (run_handles more w Hw) as [_ Hgrows]. fold w' in Hgrows.
  split; [done|]. split; [done|].
  destruct Hw as (_ & _ & Hsc & _ & Hg & _). split_and!.
  - intros i j sc sc' Hi%Hsc Hj%Hsc. lia.
  - intros i j g g' (Hi & _)%Hg (Hj & _)%Hg. lia.
  - intros i g (_ & (_ & Hbelow & Hnd & _) & _ & Hsent)%Hg.
    rewrite app_nil_r in Hsent. rewrite Hsent.
    split_and!; [done|done|done|apply NoDup_seqZ].
Qed.

End HandlesOverTime.

Section HandleExamples.
#[local] Existing Instance exampleHost.

(** The session in numbers: the second source control and the third group
    get new handles although everything before them was disposed of; the
    first group has sent the handles 0, 1 and 2 and holds 1 and 2; the
    second group, with a counter of its own, has sent the handle 0. *)
Lemma handles_of_the_session :
  sc_handle <$> sourceControlStore (run session initialWorld) = [0; 1]
  /\ handle <$> groupStore (run session initialWorld) = [0; 1; 2]
  /\ _disposed <$> groupStore (run session initialWorld) = [true; true; true]
  /\ _handlesSnapshot <$> groupStore (run session initialWorld) = [[1; 2]; [0]; []]
  /\ sentHandles 0 (outbox (run session initialWorld)) = [0; 1; 2]
  /\ sentHandles 1 (outbox (run session initialWorld)) = [0].
Proof. split_and!; vm_compute; reflexivity. Qed.

End HandleExamples.

Section HandleWitness.
#[local] Existing Instance exampleHost.

Lemma handles_are_never_reused_witness :
  Forall
    (fun g =>
       NoDup (_handlesSnapshot g)
       /\ sentHandles (handle g) (outbox (run session initialWorld))
          = seqZ 0 (_resourceHandlePool g))
    (groupStore (run session initialWorld)).
Proof.
  apply Forall_lookup. intros i g Hg.
  destruct (handles_are_never_reused session [CreateResourceGroup 1 "merge" "Merge"])
    as (_ & _ & _ & _ & Hgroups).
  destruct (Hgroups i g Hg) as (Hnd & _ & Hsent & _).
  split; [exact Hnd|exact Hsent].
Defined.

End HandleWitness.

(** ** The registries of the main side *)

Section RegistryFacts.
Context `{Host}.
Import PluginScmProvider.

Lemma array_splice_append {A} (l items : list A) :
  (array_splice l (Z.of_nat (length l)) 0 items).1 = l ++ items.
Proof.
  unfold array_splice. cbn [fst].
  destruct (Z.ltb_spec (Z.of_nat (length l)) 0); [lia|].
  rewrite Z.min_id, Z.sub_diag. cbn. rewrite Z.add_0_r, Nat2Z.id.
  by rewrite firstn_all, drop_all, app_nil_r.
Qed.

(** The loop of [$registerGroups]. *)
Lemma registerGroups_loop (entries : list GroupEntry) p :
  let r :=
    map_state
      (fun p entry =>
         let group :=
           mkMirrorGroup (p_handle p) (ge_handle entry) (ge_features entry)
             (ge_label entry) (ge_id entry) [] in
         let i := length (groupObjects p) in
         (i,
          mkProvider (p_handle p) (p_contextValue p) (p_label p) (p_rootUri p)
            (p_features p) (groupObjects p ++ [group]) (groups p)
            (<[ge_handle entry := i]> (_groupsByHandle p))))
      p entries in
  r.1 = seq (length (groupObjects p)) (length entries)
  /\ groupObjects r.2 = groupObjects p ++ (registeredMirrorGroup p <$> entries)
  /\ groups r.2 = groups p
  /\ p_handle r.2 = p_handle p
  /\ p_contextValue r.2 = p_contextValue p
  /\ p_label r.2 = p_label p
  /\ p_rootUri r.2 = p_rootUri p
  /\ p_features r.2 = p_features p
  /\ (forall h i, _groupsByHandle r.2 !! h = Some i ->
        _groupsByHandle p !! h = Some i
        \/ exists k e, entries !! k = Some e /\ ge_handle e = h
                       /\ i = (length (groupObjects p) + k)%nat)
  /\ (forall k e, entries !! k = Some e ->
        (forall k' e', (k < k')%nat -> entries !! k' = Some e' ->
                       ge_handle e' <> ge_handle e) ->
        _groupsByHandle r.2 !! ge_handle e = Some (length (groupObjects p) + k)%nat)
  /\ (forall h, (forall e, e ∈ entries -> ge_handle e <> h) ->
        _groupsByHandle r.2 !! h = _groupsByHandle p !! h).
Proof.
  revert p. induction entries as [|entry entries IH]; intros p.
  { cbn. split_and!; try done.
    - by rewrite app_nil_r.
    - auto. }
  cbn [map_state].
  set (p1 := mkProvider _ _ _ _ _ _ _ _).
  specialize (IH p1). cbn zeta in IH.
  destruct (map_state _ p1 entries) as [created p'] eqn:Hrest.
  cbn [fst snd] in *.
  destruct IH as (Hc & Hobjs & Hg & Hh & Hcv & Hl & Hr & Hf & Hfrom & Hto & Hother).
  unfold p1 in *. cbn [groupObjects groups p_handle p_contextValue p_label p_rootUri
                       p_features _groupsByHandle] in *.
  rewrite length_app in *. cbn [length] in *.
  split_and!; try done.
  - rewrite Hc. cbn. f_equal. f_equal. lia.
  - rewrite Hobjs, <- app_assoc. done.
  - intros h i [Hi|(k & e & Hk & He & ->)]%Hfrom.
    + apply lookup_insert_Some in Hi as [[<- <-]|[_ Hi]]; [|by left].
      right. exists 0%nat, entry. split_and!; [done|done|lia].
    + right. exists (S k), e. split_and!; [done|done|lia].
  - intros [|k] e Hk Hlater.
    + cbn in Hk. injection Hk as <-.
      rewrite Hother.
      * rewrite lookup_insert_eq. f_equal. lia.
      * intros e' [k' Hk']%list_elem_of_lookup.
        apply (Hlater (S k') e'); [lia|done].
    + cbn in Hk. rewrite (Hto k e Hk).
      * f_equal. lia.
      * intros k' e' Hlt Hk'. apply (Hlater (S k') e'); [lia|done].
  - intros h Hnone. rewrite Hother.
    + apply lookup_insert_ne. apply Hnone. by left.
    + intros e He. apply Hnone. by right.
Qed.

Lemma groupByHandle_Some p h i g :
  groupByHandle p h = Some (i, g) <->
  _groupsByHandle p !! h = Some i /\ groupObjects p !! i = Some g.
Proof.
  unfold groupByHandle. split.
  - destruct (_groupsByHandle p !! h) as [j|]; [|done]. cbn.
    destruct (groupObjects p !! j) as [g'|] eqn:Hj; [|done]. cbn. by intros [= <- <-].
  - intros [-> Hg]. cbn. by rewrite Hg.
Qed.

Lemma groupByHandle_None p h :
  registry_ok p -> groupByHandle p h = None <-> _groupsByHandle p !! h = None.
Proof.
  intros (_ & _ & Hby). unfold groupByHandle.
  destruct (_groupsByHandle p !! h) as [j|] eqn:Hj; cbn; [|done].
  destruct (Hby h j Hj) as (_ & g & -> & _). done.
Qed.

(** What [$registerGroups] leaves: the registry of [p] extended by one new
    group object per entry. *)
Lemma registerGroups_spec p (entries : list GroupEntry) :
  let p' := registerGroups p entries in
  groupObjects p' = groupObjects p ++ (registeredMirrorGroup p <$> entries)
  /\ groups p' = groups p ++ seq (length (groupObjects p)) (length entries)
  /\ p_handle p' = p_handle p
  /\ p_contextValue p' = p_contextValue p
  /\ p_label p' = p_label p
  /\ p_rootUri p' = p_rootUri p
  /\ p_features p' = p_features p
  /\ (forall h i, _groupsByHandle p' !! h = Some i ->
        _groupsByHandle p !! h = Some i
        \/ exists k e, entries !! k = Some e /\ ge_handle e = h
                       /\ i = (length (groupObjects p) + k)%nat)
  /\ (forall k e, entries !! k = Some e ->
        (forall k' e', (k < k')%nat -> entries !! k' = Some e' ->
                       ge_handle e' <> ge_handle e) ->
        _groupsByHandle p' !! ge_handle e = Some (length (groupObjects p) + k)%nat)
  /\ (forall h, (forall e, e ∈ entries -> ge_handle e <> h) ->
        _groupsByHandle p' !! h = _groupsByHandle p !! h).
Proof.
  pose proof (registerGroups_loop entries p) as Hloop. cbn zeta in Hloop.
  unfold registerGroups.
  destruct (map_state _ p entries) as [created p1].
  cbn [fst snd] in Hloop.
  destruct Hloop as (Hc & Hobjs & Hg & Hh & Hcv & Hl & Hr & Hf & Hfrom & Hto & Hother).
  cbn [groupObjects groups p_handle p_contextValue p_label p_rootUri p_features
       _groupsByHandle].
  rewrite array_splice_append, Hg, Hc. split_and!; done.
Qed.

Lemma registerGroups_ok p entries :
  registry_ok p -> registry_ok (registerGroups p entries).
Proof.
  intros (Hnd & Hlt & Hby).
  destruct (registerGroups_spec p entries)
    as (Hobjs & Hg & _ & _ & _ & _ & _ & Hfrom & _ & _).
  unfold registry_ok. rewrite Hg, Hobjs. split_and!.
  - apply NoDup_app. split; [done|]. split; [|apply NoDup_seq].
    intros i Hi [Hge _]%elem_of_seq.
    eapply Forall_forall in Hlt; [|done]. cbn in Hlt. lia.
  - apply Forall_app. split.
    + eapply Forall_impl; [done|]. cbn. intros i ?. rewrite length_app. lia.
    + apply Forall_forall. intros i [_ Hi]%elem_of_seq.
      rewrite length_app, length_fmap. lia.
  - intros h i [Hi|(k & e & Hk & He & ->)]%Hfrom.
    + destruct (Hby h i Hi) as (Hin & g & Hg' & Hh). split.
      * apply elem_of_app. by left.
      * exists g. split; [|done]. rewrite lookup_app_l; [done|]. by eapply lookup_lt_Some.
    + split.
      * apply elem_of_app. right. apply elem_of_seq.
        apply lookup_lt_Some in Hk. lia.
      * exists (registeredMirrorGroup p e). split; [|done].
        rewrite lookup_app_r by lia.
        replace (length (groupObjects p) + k - length (groupObjects p))%nat with k by lia.
        by rewrite list_lookup_fmap, Hk.
Qed.

Lemma indexOf_elem_of (l : list nat) x :
  x ∈ l ->
  exists k : nat, indexOf l x = Z.of_nat k /\ l !! k = Some x.
Proof.
  induction l as [|y l IH]; [by intros ?%elem_of_nil|].
  intros Hx. cbn [indexOf]. destruct (decide (y = x)) as [->|Hne].
  { by exists 0%nat. }
  apply elem_of_cons in Hx as [->|Hx]; [done|].
  destruct (IH Hx) as (k & -> & Hk). exists (S k).
  destruct (Z.ltb_spec (Z.of_nat k) 0); [lia|]. split; [lia|done].
Qed.

Lemma filter_other_id (l : list nat) x : x ∉ l -> filter (fun y => y <> x) l = l.
Proof.
  induction l as [|y l IH]; [done|]. intros Hx.
  apply not_elem_of_cons in Hx as [Hne Hx].
  rewrite filter_cons_True by done. by rewrite IH.
Qed.

(** [array.splice(array.indexOf(x), 1)] on an array that holds [x] once. *)
Lemma remove_at_NoDup (l : list nat) k x :
  NoDup l -> l !! k = Some x ->
  (array_splice l (Z.of_nat k) 1 []).1 = filter (fun y => y <> x) l.
Proof.
  intros Hnd Hk. pose proof (lookup_lt_Some _ _ _ Hk) as Hlt.
  unfold array_splice. cbn [fst app].
  destruct (Z.ltb_spec (Z.of_nat k) 0) as [Hneg|_]; [lia|].
  rewrite Z.min_l by lia. rewrite Z.min_l by lia. rewrite Nat2Z.id.
  replace (Z.to_nat (Z.of_nat k + Z.max 1 0)) with (S k) by lia.
  clear Hlt. revert k Hk. induction Hnd as [|y l Hy Hnd IH]; intros k Hk; [done|].
  destruct k as [|k]; cbn in Hk.
  - injection Hk as ->. cbn [take drop app]. rewrite drop_0.
    rewrite filter_cons_False by (intros ?; done).
    by rewrite filter_other_id.
  - cbn [take drop app]. rewrite filter_cons_True.
    + f_equal. by apply IH.
    + intros ->. apply Hy. by eapply list_elem_of_lookup_2.
Qed.

Lemma unregisterGroup_spec p h i g :
  registry_ok p ->
  groupByHandle p h = Some (i, g) ->
  let p' := unregisterGroup p h in
  groups p' = filter (fun j => j <> i) (groups p)
  /\ groupObjects p' = groupObjects p
  /\ _groupsByHandle p' = delete h (_groupsByHandle p)
  /\ p_handle p' = p_handle p
  /\ p_features p' = p_features p.
Proof.
  intros (Hnd & Hlt & Hby) Hg. unfold unregisterGroup. rewrite Hg.
  cbn [groupObjects groups p_handle p_features _groupsByHandle].
  apply groupByHandle_Some in Hg as [Hh Hi].
  destruct (Hby h i Hh) as (Hin & _).
  destruct (indexOf_elem_of _ _ Hin) as (k & -> & Hk).
  split_and!; try done. by apply remove_at_NoDup.
Qed.

Lemma unregisterGroup_ok p h : registry_ok p -> registry_ok (unregisterGroup p h).
Proof.
  intros Hok. destruct (groupByHandle p h) as [[i g]|] eqn:Hg.
  2: { unfold unregisterGroup. by rewrite Hg. }
  destruct (unregisterGroup_spec p h i g Hok Hg) as (Hgs & Hobjs & Hm & _).
  destruct Hok as (Hnd & Hlt & Hby).
  apply groupByHandle_Some in Hg as [Hh Hi].
  unfold registry_ok. rewrite Hgs, Hobjs, Hm. split_and!.
  - by apply NoDup_filter.
  - apply Forall_forall. intros j [_ Hj]%list_elem_of_filter.
    by eapply Forall_forall in Hlt.
  - intros h' j [Hne Hj]%lookup_delete_Some.
    destruct (Hby h' j Hj) as (Hin & gj & Hgj & Hhj). split; [|by eauto].
    apply list_elem_of_filter. split; [|done].
    intros ->. rewrite Hi in Hgj. injection Hgj as <-.
    destruct (Hby h i Hh) as (_ & g' & Hg' & Hh'). congruence.
Qed.

(** The inner loop of [$spliceGroupResourceStates] on the group object at
    position [i], with what it fires. *)
Lemma spliceGroup_run groupHandle i (applied : list SCMRawResourceSplice) p events mg :
  groupObjects p !! i = Some mg ->
  foldl (spliceGroup groupHandle i) (p, events) applied =
    (set_groupObjects
       (<[i := set_resources
                 (foldl (fun m s =>
                           (array_splice m (start s) (deleteCount s)
                              (decodeResource p groupHandle <$> toInsert s)).1)
                    (resources mg) applied) mg]> (groupObjects p)) p,
     events ++ ((fun s => DidSplice i (start s) (deleteCount s)
                            (decodeResource p groupHandle <$> toInsert s)) <$> applied)).
Proof.
  revert p events mg. induction applied as [|s applied IH]; intros p events mg Hi.
  { cbn. rewrite app_nil_r. f_equal. destruct p, mg. cbn in *.
    unfold set_groupObjects, set_resources. cbn. f_equal.
    symmetry. by apply list_insert_id. }
  cbn [foldl]. unfold spliceGroup at 2. rewrite Hi.
  set (mg1 := PluginScmResourceGroup.splice mg _ _ _).
  set (p1 := set_groupObjects _ p).
  rewrite (IH p1 _ mg1).
  2: { unfold p1. cbn. apply list_lookup_insert_eq. by eapply lookup_lt_Some. }
  rewrite fmap_cons, <- app_assoc. cbn [app]. f_equal.
  unfold p1, set_groupObjects. cbn. by rewrite list_insert_insert_eq.
Qed.

Lemma batchReplay_cons p i entry batch m :
  batchReplay p i (entry :: batch) m =
    batchReplay p i batch
      (if bool_decide (_groupsByHandle p !! slices_groupHandle entry = Some i)
       then mirrorReplay p (slices_groupHandle entry) (slices_groupSlices entry) m else m).
Proof. done. Qed.

Lemma batchReplay_unnamed p i batch m :
  (forall entry, entry ∈ batch -> _groupsByHandle p !! slices_groupHandle entry <> Some i) ->
  batchReplay p i batch m = m.
Proof.
  induction batch as [|entry batch IH]; intros Hnone; [done|].
  rewrite batchReplay_cons, bool_decide_eq_false_2.
  - apply IH. intros e He. apply Hnone. by right.
  - apply Hnone. by left.
Qed.

(** The outer loop of [$spliceGroupResourceStates]. *)
Lemma spliceOneGroup_run (batch : list SCMRawResourceSplices) p0 p events :
  p_handle p = p_handle p0 ->
  _groupsByHandle p = _groupsByHandle p0 ->
  groups p = groups p0 ->
  p_features p = p_features p0 ->
  Forall2 same_mirror_group (groupObjects p0) (groupObjects p) ->
  exists p' events',
    foldl spliceOneGroup (p, events) batch = (p', events')
    /\ events' = events ++ (batch ≫= entryEvents p0)
    /\ p_handle p' = p_handle p0
    /\ p_contextValue p' = p_contextValue p
    /\ p_label p' = p_label p
    /\ p_rootUri p' = p_rootUri p
    /\ _groupsByHandle p' = _groupsByHandle p0
    /\ groups p' = groups p0
    /\ p_features p' = p_features p0
    /\ Forall2 same_mirror_group (groupObjects p0) (groupObjects p')
    /\ (forall i mg, groupObjects p !! i = Some mg ->
          groupObjects p' !! i =
            Some (set_resources (batchReplay p0 i batch (resources mg)) mg)).
Proof.
  revert p events.
  induction batch as [|entry batch IH]; intros p events Hh Hby Hgs Hf Hobjs.
  { exists p, events. cbn. rewrite app_nil_r. split_and!; try done.
    intros i mg Hi. rewrite Hi. by destruct mg. }
  cbn [foldl]. unfold spliceOneGroup at 2.
  assert (forall i, is_Some (groupObjects p0 !! i) <-> is_Some (groupObjects p !! i)) as Hsame.
  { intros i. rewrite !lookup_lt_is_Some. by rewrite (Forall2_length _ _ _ Hobjs). }
  destruct (groupByHandle p0 (slices_groupHandle entry)) as [[i mg0]|] eqn:Hentry.
  - (* a group the provider knows *)
    pose proof Hentry as [Hi Hmg0]%groupByHandle_Some.
    destruct (proj1 (Hsame i) (mk_is_Some _ _ Hmg0)) as [mg Hmg].
    assert (groupByHandle p (slices_groupHandle entry) = Some (i, mg)) as ->
      by (apply groupByHandle_Some; by rewrite Hby).
    rewrite (spliceGroup_run _ _ _ _ _ _ Hmg).
    set (mg1 := set_resources _ mg). set (p1 := set_groupObjects _ p).
    destruct (IH p1 (events ++ ((fun s => DidSplice i (start s) (deleteCount s)
                (decodeResource p (slices_groupHandle entry) <$> toInsert s))
                <$> rev (slices_groupSlices entry))))
      as (p' & events' & Hrun & Hev & Hh' & Hcv' & Hl' & Hr' & Hby' & Hgs' & Hf' & Hobjs' & Hres);
      try done.
    { unfold p1. cbn. apply Forall2_lookup. intros j.
      destruct (decide (i = j)) as [<-|Hne].
      - rewrite list_lookup_insert_eq by (by eapply lookup_lt_Some). rewrite Hmg0.
        constructor. eapply Forall2_lookup_lr in Hobjs; [|done..].
        unfold same_mirror_group in *. by destruct mg.
      - rewrite list_lookup_insert_ne by done. by apply Forall2_lookup. }
    exists p', events'. split; [exact Hrun|]. split_and!; try done.
    + rewrite Hev, <- app_assoc. f_equal. cbn [mbind list_bind]. fold (batch ≫= entryEvents p0).
      f_equal. unfold entryEvents. rewrite Hentry.
      apply list_fmap_ext. intros _ s _. f_equal.
      apply list_fmap_ext. intros _ raw _. by apply decodeResource_ext.
    + intros j mgj Hj. rewrite batchReplay_cons, Hi.
      destruct (decide (i = j)) as [<-|Hne].
      * rewrite Hmg in Hj. injection Hj as <-. rewrite bool_decide_eq_true_2 by done.
        rewrite (Hres i mg1).
        2: { unfold p1. cbn. apply list_lookup_insert_eq. by eapply lookup_lt_Some. }
        unfold mg1, set_resources. cbn. do 3 f_equal. by apply mirrorReplay_ext.
      * rewrite bool_decide_eq_false_2 by congruence.
        apply Hres. unfold p1. cbn. by rewrite list_lookup_insert_ne.
  - (* a group it does not know *)
    assert (groupByHandle p (slices_groupHandle entry) = None) as ->.
    { unfold groupByHandle in *. rewrite Hby.
      destruct (_groupsByHandle p0 !! slices_groupHandle entry) as [i|]; [|done]. cbn in *.
      destruct (groupObjects p0 !! i) as [mg0|] eqn:Hmg0; [done|].
      destruct (groupObjects p !! i) as [mg|] eqn:Hmg; [|done].
      destruct (proj2 (Hsame i) (mk_is_Some _ _ Hmg)) as [? ?]. congruence. }
    destruct (IH p (events ++ [Warn (slices_groupHandle entry)]))
      as (p' & events' & Hrun & Hev & Hrest); try done.
    exists p', events'. split; [exact Hrun|]. destruct_and!. split_and!; try done.
    + rewrite Hev, <- app_assoc. f_equal. cbn [mbind list_bind].
      fold (batch ≫= entryEvents p0). f_equal. unfold entryEvents.
      by rewrite Hentry.
    + intros j mgj Hj. rewrite batchReplay_cons.
      rewrite bool_decide_eq_false_2; [by auto|].
      intros Hj'. unfold groupByHandle in Hentry. rewrite Hj' in Hentry. cbn in Hentry.
      destruct (proj2 (Hsame j) (mk_is_Some _ _ Hj)) as [mg0 Hmg0].
      by rewrite Hmg0 in Hentry.
Qed.

Lemma same_mirror_group_refl (l : list PluginScmResourceGroup) :
  Forall2 same_mirror_group l l.
Proof. apply Forall_Forall2_diag, Forall_forall. intros g _. by unfold same_mirror_group. Qed.

Lemma spliceEach_tuples (batch : list SCMRawResourceSplices) st :
  spliceEach st (TupleArray <$> batch) = Through (foldl spliceOneGroup st batch).
Proof. revert st. induction batch as [|entry batch IH]; intros st; [done|]. cbn. apply IH. Qed.

Lemma spliceEach_objects (batch : list ScmRawResourceSplices) st :
  spliceEach st (ObjectLiteral <$> batch)
  = match batch with [] => Through st | _ :: _ => Thrown st end.
Proof. by destruct batch. Qed.

(** What [$spliceGroupResourceStates] does with a batch of arrays. *)
Lemma spliceGroupResourceStates_spec p (batch : list SCMRawResourceSplices) :
  let r := left_behind (spliceGroupResourceStates p (TupleArray <$> batch)) in
  spliceGroupResourceStates p (TupleArray <$> batch) = Through r
  /\ r.2 = (batch ≫= entryEvents p) ++ [DidChangeResources]
  /\ p_handle r.1 = p_handle p
  /\ p_contextValue r.1 = p_contextValue p
  /\ p_label r.1 = p_label p
  /\ p_rootUri r.1 = p_rootUri p
  /\ _groupsByHandle r.1 = _groupsByHandle p
  /\ groups r.1 = groups p
  /\ p_features r.1 = p_features p
  /\ Forall2 same_mirror_group (groupObjects p) (groupObjects r.1)
  /\ (forall i mg, groupObjects p !! i = Some mg ->
        groupObjects r.1 !! i =
          Some (set_resources (batchReplay p i batch (resources mg)) mg)).
Proof.
  unfold spliceGroupResourceStates. rewrite spliceEach_tuples.
  destruct (spliceOneGroup_run batch p p []) as (p' & events' & -> & -> & Hrest);
    [done..|apply same_mirror_group_refl|].
  cbn. destruct_and!. split_and!; done.
Qed.

(** And with a batch as scm.ts sends it: an empty one passes, any other
    one is refused at its first element, before anything is done. *)
Lemma spliceGroupResourceStates_objects p (batch : list ScmRawResourceSplices) :
  spliceGroupResourceStates p (ObjectLiteral <$> batch)
  = match batch with
    | [] => Through (p, [DidChangeResources])
    | _ :: _ => Thrown (p, [])
    end.
Proof. unfold spliceGroupResourceStates. rewrite spliceEach_objects. by destruct batch. Qed.

Lemma spliceGroupResourceStates_objects_left p (batch : list ScmRawResourceSplices) :
  (left_behind (spliceGroupResourceStates p (ObjectLiteral <$> batch))).1 = p.
Proof. rewrite spliceGroupResourceStates_objects. by destruct batch. Qed.

End RegistryFacts.

Section MirrorFacts.
Context `{Host}.
Import PluginScmProvider.

Lemma registry_ok_insert p i g g' :
  registry_ok p ->
  groupObjects p !! i = Some g ->
  mg_handle g' = mg_handle g ->
  registry_ok (set_groupObjects (<[i := g']> (groupObjects p)) p).
Proof.
  intros (Hnd & Hlt & Hby) Hi Hh. unfold registry_ok. cbn.
  rewrite length_insert. split_and!; [done|done|].
  intros h j Hj. destruct (Hby h j Hj) as (Hin & gj & Hgj & Hhj). split; [done|].
  destruct (decide (i = j)) as [<-|Hne].
  - exists g'. rewrite list_lookup_insert_eq by (by eapply lookup_lt_Some).
    split; [done|]. congruence.
  - exists gj. by rewrite list_lookup_insert_ne.
Qed.

Lemma updateGroup_ok p h features :
  registry_ok p ->
  registry_ok (updateGroup p h features).1 /\ p_handle (updateGroup p h features).1 = p_handle p.
Proof.
  intros Hok. unfold updateGroup.
  destruct (groupByHandle p h) as [[i g]|] eqn:Hg; [|done]. cbn [fst].
  apply groupByHandle_Some in Hg as [_ Hi]. split; [|done].
  by eapply registry_ok_insert.
Qed.

Lemma updateGroupLabel_ok p h label :
  registry_ok p ->
  registry_ok (updateGroupLabel p h label).1
  /\ p_handle (updateGroupLabel p h label).1 = p_handle p.
Proof.
  intros Hok. unfold updateGroupLabel.
  destruct (groupByHandle p h) as [[i g]|] eqn:Hg; [|done]. cbn [fst].
  apply groupByHandle_Some in Hg as [_ Hi]. split; [|done].
  by eapply registry_ok_insert.
Qed.

Lemma put_repository_ok m h p events :
  mirror_ok m -> p_handle p = h -> registry_ok p ->
  mirror_ok (put_repository h p events m).
Proof.
  intros [Hdom Hrepos] Hh Hok. unfold put_repository.
  destruct (_repositories m !! h) as [r|] eqn:Hr; [|done].
  unfold mirror_ok. cbn [_repositories _repositoryDisposables]. split.
  - intros h'. rewrite lookup_insert_is_Some, <- Hdom.
    split; [intros [<-|[_ ?]]; [by rewrite Hr|done]|].
    intros ?. destruct (decide (h = h')); [by left|by right].
  - intros h' r' [[<- <-]|[_ Hr']]%lookup_insert_Some; [done|by apply Hrepos].
Qed.

Lemma registry_ok_new h id label rootUri features :
  registry_ok (mkProvider h id label rootUri features [] [] ∅).
Proof.
  unfold registry_ok. cbn. split_and!; [constructor|constructor|].
  intros ? ?. by rewrite lookup_empty.
Qed.

(** One call: it is refused when it hands over resources and answered
    otherwise, and the registries stay in order either way. *)
Lemma receive_ok call m :
  mirror_ok m ->
  (ScmMainImpl.receive call m).1
  = (if hands_over_resources call m then Rejected else Resolved tt)
  /\ mirror_ok (ScmMainImpl.receive call m).2.
Proof.
  intros Hm. pose proof Hm as [Hdom Hrepos].
  destruct call as [h id label rootUri|h features|h|h entries batch|h gh features
                   |h gh label|h batch|h gh|h value|h placeholder|h visible];
    cbn [ScmMainImpl.receive].
  - (* $registerSourceControl *)
    unfold ScmMainImpl.registerSourceControl. cbn [fst snd]. split; [done|].
    unfold mirror_ok; cbn [_repositories _repositoryDisposables]. split.
    + intros h'. rewrite !lookup_insert_is_Some, Hdom. done.
    + intros h' r [[<- <-]|[_ Hr]]%lookup_insert_Some; [|by apply Hrepos].
      cbn. split; [done|]. apply registry_ok_new.
  - (* $updateSourceControl *)
    unfold ScmMainImpl.updateSourceControl.
    destruct (_repositories m !! h) as [r|] eqn:Hr; [|done]. cbn.
    destruct (Hrepos h r Hr) as [Hh Hok]. split; [done|].
    apply put_repository_ok; [done|done|]. by destruct Hok.
  - (* $unregisterSourceControl *)
    unfold ScmMainImpl.unregisterSourceControl.
    destruct (_repositories m !! h) as [r|] eqn:Hr; [|done].
    destruct (proj1 (Hdom h) (mk_is_Some _ _ Hr)) as [d ->]. cbn [fst snd]. split; [done|].
    unfold mirror_ok; cbn [_repositories _repositoryDisposables]. split.
    + intros h'. destruct (decide (h = h')) as [<-|Hne].
      * rewrite !lookup_delete_eq. split; by intros [? ?].
      * by rewrite !lookup_delete_ne.
    + intros h' r' [_ Hr']%lookup_delete_Some. by apply Hrepos.
  - (* $registerGroups *)
    unfold ScmMainImpl.registerGroups, hands_over_resources.
    destruct (_repositories m !! h) as [r|] eqn:Hr; [|by destruct batch].
    destruct (Hrepos h r Hr) as [Hh Hok].
    pose proof (registerGroups_ok _ entries Hok) as Hok1.
    destruct (registerGroups_spec (provider r) entries) as (_ & _ & Hh1 & _).
    rewrite spliceGroupResourceStates_objects.
    destruct batch as [|entry batch]; cbn [ScmMainImpl.settle fst snd].
    all: split; [done|]; apply put_repository_ok; [done|congruence|done].
  - (* $updateGroup *)
    unfold ScmMainImpl.updateGroup.
    destruct (_repositories m !! h) as [r|] eqn:Hr; [|done].
    destruct (Hrepos h r Hr) as [Hh Hok].
    destruct (updateGroup_ok (provider r) gh features Hok) as [Hok1 Hh1].
    destruct (updateGroup _ gh features) as [p events]. cbn in *.
    split; [done|]. apply put_repository_ok; [done|congruence|done].
  - (* $updateGroupLabel *)
    unfold ScmMainImpl.updateGroupLabel.
    destruct (_repositories m !! h) as [r|] eqn:Hr; [|done].
    destruct (Hrepos h r Hr) as [Hh Hok].
    destruct (updateGroupLabel_ok (provider r) gh label Hok) as [Hok1 Hh1].
    destruct (updateGroupLabel _ gh label) as [p events]. cbn in *.
    split; [done|]. apply put_repository_ok; [done|congruence|done].
  - (* $spliceResourceStates *)
    unfold ScmMainImpl.spliceResourceStates, hands_over_resources.
    destruct (_repositories m !! h) as [r|] eqn:Hr; [|by destruct batch].
    destruct (Hrepos h r Hr) as [Hh Hok].
    rewrite spliceGroupResourceStates_objects.
    destruct batch as [|entry batch]; cbn [ScmMainImpl.settle fst snd].
    all: split; [done|]; apply put_repository_ok; [done|congruence|done].
  - (* $unregisterGroup *)
    unfold ScmMainImpl.unregisterGroup.
    destruct (_repositories m !! h) as [r|] eqn:Hr; [|done].
    destruct (Hrepos h r Hr) as [Hh Hok]. cbn. split; [done|].
    apply put_repository_ok; [done| |by apply unregisterGroup_ok].
    unfold unregisterGroup. by destruct (groupByHandle _ _) as [[? ?]|].
  - (* $setInputBoxValue *)
    unfold ScmMainImpl.setInputBoxValue.
    destruct (_repositories m !! h) as [r|] eqn:Hr; [|done]. cbn [fst snd]. split; [done|].
    unfold mirror_ok; cbn [_repositories _repositoryDisposables]. split.
    + intros h'. rewrite lookup_insert_is_Some, <- Hdom.
      split; [intros [<-|[_ ?]]; [by rewrite Hr|done]|].
      intros ?. destruct (decide (h = h')); [by left|by right].
    + intros h' r' [[<- <-]|[_ Hr']]%lookup_insert_Some; [cbn; by apply Hrepos|by apply Hrepos].
  - (* $setInputBoxPlaceholder *)
    unfold ScmMainImpl.setInputBoxPlaceholder.
    destruct (_repositories m !! h) as [r|] eqn:Hr; [|done]. cbn [fst snd]. split; [done|].
    unfold mirror_ok; cbn [_repositories _repositoryDisposables]. split.
    + intros h'. rewrite lookup_insert_is_Some, <- Hdom.
      split; [intros [<-|[_ ?]]; [by rewrite Hr|done]|].
      intros ?. destruct (decide (h = h')); [by left|by right].
    + intros h' r' [[<- <-]|[_ Hr']]%lookup_insert_Some; [cbn; by apply Hrepos|by apply Hrepos].
  - done.
Qed.

Lemma deliver_ok calls m :
  mirror_ok m -> mirror_ok (deliver calls m).2.
Proof.
  revert m. induction calls as [|call calls IH]; intros m Hm; [done|].
  unfold deliver in *. cbn [map_state].
  destruct (receive_ok call m Hm) as [_ Hm1].
  destruct (ScmMainImpl.receive call m) as [answer m1]. cbn in Hm1.
  specialize (IH m1 Hm1). by destruct (map_state _ m1 calls) as [answers m2].
Qed.

Lemma emptyMirror_ok : mirror_ok emptyMirror.
Proof.
  split.
  - intros h. cbn. rewrite !lookup_empty. split; by intros [? ?].
  - intros h r. cbn. by rewrite lookup_empty.
Qed.

End MirrorFacts.

Section MirrorTheorems.
Context `{Host}.
Import PluginScmProvider.

(** Whatever calls of the extension host have arrived at the main side,
    and in whatever order, the registries are in order: every repository
    has its collection of disposables (so [$unregisterSourceControl] never
    reaches for a missing one), every provider is registered under its own
    handle, and every handle of a provider's [_groupsByHandle] leads to a
    group object with this handle that [groups] lists exactly once. The
    next call is refused when it hands a batch of splices that is not
    empty to a source control that has a repository, and in no other case:
    every other call is answered. *)
Theorem mirror_answers_every_call (calls : list MainCall) (call : MainCall) :
  let m := (deliver calls emptyMirror).2 in
  mirror_ok m
  /\ (ScmMainImpl.receive call m).1
     = (if hands_over_resources call m then Rejected else Resolved tt).
Proof.
  intros m. assert (mirror_ok m) as Hm by apply deliver_ok, emptyMirror_ok.
  split; [done|]. by apply receive_ok.
Qed.

(** A call changes nothing about a source control it is not addressed to:
    neither its repository nor its disposables, and what it fires, it fires
    for its addressee. *)
Theorem calls_touch_one_source_control (call : MainCall) (m : MainWorld) (h : Z) :
  h <> addressee call ->
  _repositories (ScmMainImpl.receive call m).2 !! h = _repositories m !! h
  /\ _repositoryDisposables (ScmMainImpl.receive call m).2 !! h
     = _repositoryDisposables m !! h
  /\ exists events,
       fired (ScmMainImpl.receive call m).2
       = fired m ++ ((fun e => (addressee call, e)) <$> events).
Proof.
  intros Hne.
  assert (forall p events,
            _repositories (put_repository (addressee call) p events m) !! h
              = _repositories m !! h
            /\ _repositoryDisposables (put_repository (addressee call) p events m) !! h
               = _repositoryDisposables m !! h
            /\ exists events',
                 fired (put_repository (addressee call) p events m)
                 = fired m ++ ((fun e => (addressee call, e)) <$> events')) as Hput.
  { intros p events. unfold put_repository.
    destruct (_repositories m !! addressee call) as [r|].
    - cbn. rewrite lookup_insert_ne by done. split_and!; [done|done|by exists events].
    - split_and!; [done|done|]. exists []. by rewrite app_nil_r. }
  assert (exists events', fired m = fired m ++ ((fun e => (addressee call, e)) <$> events'))
    as Hnone by (exists []; by rewrite app_nil_r).
  destruct call as [h0 id label rootUri|h0 features|h0|h0 entries batch|h0 gh features
                   |h0 gh label|h0 batch|h0 gh|h0 value|h0 placeholder|h0 visible];
    cbn [ScmMainImpl.receive addressee] in *.
  - unfold ScmMainImpl.registerSourceControl. cbn.
    by rewrite !lookup_insert_ne by done.
  - unfold ScmMainImpl.updateSourceControl.
    destruct (_repositories m !! h0) as [r|]; [|done].
    destruct (updateSourceControl _ _) as [p events]. apply Hput.
  - unfold ScmMainImpl.unregisterSourceControl.
    destruct (_repositories m !! h0) as [r|]; [|done].
    destruct (_repositoryDisposables m !! h0); [|done]. cbn.
    by rewrite !lookup_delete_ne by done.
  - unfold ScmMainImpl.registerGroups, ScmMainImpl.settle.
    destruct (_repositories m !! h0) as [r|]; [|done].
    destruct (spliceGroupResourceStates _ _) as [[p events]|[p events]]; apply Hput.
  - unfold ScmMainImpl.updateGroup.
    destruct (_repositories m !! h0) as [r|]; [|done].
    destruct (updateGroup _ _ _) as [p events]. apply Hput.
  - unfold ScmMainImpl.updateGroupLabel.
    destruct (_repositories m !! h0) as [r|]; [|done].
    destruct (updateGroupLabel _ _ _) as [p events]. apply Hput.
  - unfold ScmMainImpl.spliceResourceStates, ScmMainImpl.settle.
    destruct (_repositories m !! h0) as [r|]; [|done].
    destruct (spliceGroupResourceStates _ _) as [[p events]|[p events]]; apply Hput.
  - unfold ScmMainImpl.unregisterGroup.
    destruct (_repositories m !! h0) as [r|]; [|done]. apply Hput.
  - unfold ScmMainImpl.setInputBoxValue.
    destruct (_repositories m !! h0) as [r|]; [|done]. cbn.
    by rewrite lookup_insert_ne by done.
  - unfold ScmMainImpl.setInputBoxPlaceholder.
    destruct (_repositories m !! h0) as [r|]; [|done]. cbn.
    by rewrite lookup_insert_ne by done.
  - done.
Qed.

(** [$registerGroups] appends one new group object per entry to [groups],
    in the order of the entries. An entry resolves, by its handle, to a
    group with the entry's id, label and features, the provider's handle
    and no resources, unless a later entry of the same call names the same
    handle; the handles the call does not name resolve as before. *)
Theorem registered_groups_resolve p (entries : list GroupEntry) :
  registry_ok p ->
  let p' := registerGroups p entries in
  groups p' = groups p ++ seq (length (groupObjects p)) (length entries)
  /\ (forall k e, entries !! k = Some e ->
        (forall k' e', (k < k')%nat -> entries !! k' = Some e' ->
                       ge_handle e' <> ge_handle e) ->
        groupByHandle p' (ge_handle e)
        = Some ((length (groupObjects p) + k)%nat,
                mkMirrorGroup (p_handle p) (ge_handle e) (ge_features e) (ge_label e)
                  (ge_id e) []))
  /\ (forall h, (forall e, e ∈ entries -> ge_handle e <> h) ->
        groupByHandle p' h = groupByHandle p h)
  /\ registry_ok p'.
Proof.
  intros Hok p'.
  destruct (registerGroups_spec p entries)
    as (Hobjs & Hg & _ & _ & _ & _ & _ & _ & Hto & Hother).
  fold p' in Hobjs, Hg, Hto, Hother.
  split; [done|]. split; [|split; [|by apply registerGroups_ok]].
  - intros k e Hk Hlater. apply groupByHandle_Some. split; [by apply Hto|].
    rewrite Hobjs, lookup_app_r by lia.
    replace (length (groupObjects p) + k - length (groupObjects p))%nat with k by lia.
    by rewrite list_lookup_fmap, Hk.
  - intros h Hnone. unfold groupByHandle. rewrite (Hother h Hnone).
    destruct (_groupsByHandle p !! h) as [i|] eqn:Hi; [|done]. cbn.
    destruct Hok as (_ & _ & Hby). destruct (Hby h i Hi) as (_ & g & Hgi & _).
    rewrite Hobjs, lookup_app_l by (by eapply lookup_lt_Some). done.
Qed.

(** [$unregisterGroup] for a handle the provider knows takes exactly the
    group of this handle out of [groups], keeps the order of the others,
    and forgets the handle; the other handles resolve as before. *)
Theorem unregistering_removes_its_group p h i g :
  registry_ok p ->
  groupByHandle p h = Some (i, g) ->
  let p' := unregisterGroup p h in
  groups p' = filter (fun j => j <> i) (groups p)
  /\ i ∈ groups p
  /\ groupByHandle p' h = None
  /\ (forall h', h' <> h -> groupByHandle p' h' = groupByHandle p h')
  /\ registry_ok p'.
Proof.
  intros Hok Hg p'.
  destruct (unregisterGroup_spec p h i g Hok Hg) as (Hgs & Hobjs & Hm & _).
  fold p' in Hgs, Hobjs, Hm.
  pose proof Hg as [Hh Hi]%groupByHandle_Some.
  split; [done|]. split.
  { destruct Hok as (_ & _ & Hby). by destruct (Hby h i Hh). }
  split; [|split; [|by apply unregisterGroup_ok]].
  - unfold groupByHandle. by rewrite Hm, lookup_delete_eq.
  - intros h' Hne. unfold groupByHandle. by rewrite Hm, Hobjs, lookup_delete_ne.
Qed.

(** A batch of [$spliceGroupResourceStates] in the shape the method takes
    apart, an array of pairs of a group handle and an array of triples:
    the method returns, and entry by entry, a group the provider does not
    know gives a warning and is skipped, a group it knows fires one
    [onDidSplice] per splice, last splice first; at the end
    [onDidChangeResources] fires once. Each group object ends with its
    resources after the entries that name it, a group no entry names keeps
    its resources, and the registry is as before. *)
Theorem splice_batch_group_by_group p (batch : list SCMRawResourceSplices) :
  let r := left_behind (spliceGroupResourceStates p (TupleArray <$> batch)) in
  spliceGroupResourceStates p (TupleArray <$> batch) = Through r
  /\ r.2 = (batch ≫= entryEvents p) ++ [DidChangeResources]
  /\ _groupsByHandle r.1 = _groupsByHandle p
  /\ groups r.1 = groups p
  /\ (forall i mg, groupObjects p !! i = Some mg ->
        groupObjects r.1 !! i =
          Some (set_resources (batchReplay p i batch (resources mg)) mg))
  /\ (forall i mg, groupObjects p !! i = Some mg ->
        (forall entry, entry ∈ batch ->
           _groupsByHandle p !! slices_groupHandle entry <> Some i) ->
        groupObjects r.1 !! i = Some mg).
Proof.
  intros r.
  destruct (spliceGroupResourceStates_spec p batch)
    as (Hrun & Hev & _ & _ & _ & _ & Hm & Hg & _ & _ & Hres).
  fold r in Hrun, Hev, Hm, Hg, Hres. split_and!; try done.
  intros i mg Hi Hnone. rewrite (Hres i mg Hi).
  rewrite batchReplay_unnamed by done. by destruct mg.
Qed.

(** The batches of the extension host are arrays of object literals, and
    the array patterns of the main side do not take an object literal
    apart. So [$spliceResourceStates] for a source control that has a
    repository is refused when the batch is not empty, before anything is
    done: no resource list changes, and neither [onDidSplice] nor
    [onDidChangeResources] fires. An empty batch fires
    [onDidChangeResources]. [$registerGroups] registers the groups first,
    and is refused in the same way for splices that are not empty. *)
Theorem object_batches_are_refused (h : Z) (entries : list GroupEntry)
    (batch : list ScmRawResourceSplices) (m : MainWorld) :
  ScmMainImpl.receive (Main_spliceResourceStates h batch) m
  = match _repositories m !! h, batch with
    | None, _ => (Resolved tt, m)
    | Some r, [] => (Resolved tt, put_repository h (provider r) [DidChangeResources] m)
    | Some r, _ :: _ => (Rejected, m)
    end
  /\ ScmMainImpl.receive (Main_registerGroups h entries batch) m
     = match _repositories m !! h, batch with
       | None, _ => (Resolved tt, m)
       | Some r, [] =>
           (Resolved tt,
            put_repository h (registerGroups (provider r) entries) [DidChangeResources] m)
       | Some r, _ :: _ =>
           (Rejected, put_repository h (registerGroups (provider r) entries) [] m)
       end.
Proof.
  cbn [ScmMainImpl.receive].
  unfold ScmMainImpl.spliceResourceStates, ScmMainImpl.registerGroups.
  destruct (_repositories m !! h) as [r|] eqn:Hr; [|done].
  rewrite !spliceGroupResourceStates_objects.
  destruct batch as [|entry batch]; cbn [ScmMainImpl.settle]; [done|].
  by rewrite put_repository_same.
Qed.

End MirrorTheorems.

Section MirrorExamples.
#[local] Existing Instance exampleHost.
Import PluginScmProvider.

Lemma calls_touch_one_source_control_witness :
  _repositories (ScmMainImpl.receive (Main_unregisterSourceControl 0) twoRepositories).2 !! 1
  = _repositories twoRepositories !! 1.
Proof.
  destruct (calls_touch_one_source_control (Main_unregisterSourceControl 0)
              twoRepositories 1) as [Hr _]; [cbn; lia|exact Hr].
Defined.

Lemma registered_groups_resolve_witness :
  groups (registerGroups newProvider
            [mkGroupEntry 0 "index" "Staged" (mkGroupFeatures (Some None));
             mkGroupEntry 1 "workingTree" "Changes" (mkGroupFeatures (Some None))])
  = [0; 1]%nat.
Proof.
  destruct (registered_groups_resolve newProvider
              [mkGroupEntry 0 "index" "Staged" (mkGroupFeatures (Some None));
               mkGroupEntry 1 "workingTree" "Changes" (mkGroupFeatures (Some None))])
    as [Hg _]; [apply registry_ok_new|exact Hg].
Defined.

Lemma unregistering_removes_its_group_witness :
  groups (unregisterGroup git 0) = filter (fun j => j <> 0%nat) (groups git).
Proof.
  destruct (unregistering_removes_its_group git 0 0%nat
              (mkMirrorGroup 0 0 (mkGroupFeatures (Some None)) "Changes" "changes" []))
    as [Hg _]; [unfold git; apply registerGroups_ok, registry_ok_new
               |vm_compute; reflexivity|exact Hg].
Defined.

End MirrorExamples.

(** ** The maps of a group and its live handles *)

Section TrackingFacts.
Context `{Host}.
Import ExtHostSourceControlResourceGroup.

Lemma array_splice_perm {A} (l : list A) (start0 deleteCount0 : Z) items :
  (array_splice l start0 deleteCount0 items).1
    ++ (array_splice l start0 deleteCount0 items).2 ≡ₚ l ++ items.
Proof.
  destruct (array_splice_shape l start0 deleteCount0 items) as (a & n & ->).
  cbn [fst snd].
  assert (l = take a l ++ take n (drop a l) ++ drop (a + n) l) as Hl
    by (by rewrite <- drop_drop, !take_drop).
  set (pre := take a l) in *. set (del := take n (drop a l)) in *.
  set (rest := drop (a + n) l) in *. rewrite Hl. rewrite <- !app_assoc.
  apply Permutation_app_head.
  rewrite (Permutation_app_comm items), (Permutation_app_comm rest del).
  by rewrite <- app_assoc.
Qed.

Lemma retire_all_states (handles : list Z) g conv :
  (forall k, _resourceStatesMap g !! k = None ->
     _resourceStatesMap (foldl retireHandle (g, conv) handles).1 !! k = None)
  /\ (forall k, k ∈ handles ->
        _resourceStatesMap (foldl retireHandle (g, conv) handles).1 !! k = None).
Proof.
  revert g conv. induction handles as [|h handles IH]; intros g conv.
  { split; [done|]. by intros k ?%elem_of_nil. }
  cbn [foldl]. unfold retireHandle at 2 4.
  match goal with |- context [foldl retireHandle (?g1, ?c1) handles] =>
    destruct (IH g1 c1) as [Hshrink Hgone]
  end.
  split.
  - intros k Hk. apply Hshrink. cbn.
    destruct (decide (h = k)) as [->|];
      [by rewrite lookup_delete_eq|by rewrite lookup_delete_ne].
  - intros k [->|Hk]%elem_of_cons; [|by apply Hgone].
    apply Hshrink. cbn. by rewrite lookup_delete_eq.
Qed.

(** One step of the pass over the handles: the entries of the handles it
    removes are gone, the other entries are as they were. *)
Lemma applyToHandles_maps (s : Splice (ScmRawResource * Z)) g conv :
  let cut := array_splice (_handlesSnapshot g) (start s) (deleteCount s)
               (snd <$> toInsert s) in
  exists g' conv',
    applyToHandles (g, conv) s = (g', conv')
    /\ _handlesSnapshot g' = cut.1
    /\ (forall k, k ∉ cut.2 ->
          _resourceStatesMap g' !! k = _resourceStatesMap g !! k
          /\ _resourceStatesCommandsMap g' !! k = _resourceStatesCommandsMap g !! k)
    /\ (forall k, k ∈ cut.2 ->
          _resourceStatesMap g' !! k = None
          /\ _resourceStatesCommandsMap g' !! k = None).
Proof.
  intros cut.
  destruct (applyToHandles_spec s g conv)
    as (g' & conv' & Hstep & _ & _ & Hhs & _ & _ & Hagree).
  exists g', conv'. split; [done|]. split; [done|]. split.
  - intros k Hk. destruct (Hagree k Hk) as (? & ? & _). done.
  - intros k Hk. unfold applyToHandles in Hstep. fold cut in Hstep.
    destruct cut as [kept gone]. cbn [snd] in Hk.
    pose proof (proj2 (retire_all_states gone (set_handlesSnapshot kept g) conv) k Hk) as Hs.
    pose proof (proj2 (retire_all_commands gone (set_handlesSnapshot kept g) conv) k Hk) as Hc.
    rewrite Hstep in Hs, Hc. done.
Qed.

Lemma inserted_cons {A} (s : Splice A) (ss : list (Splice A)) :
  inserted (s :: ss) = toInsert s ++ inserted ss.
Proof. done. Qed.

(** The pass over the handles, for splices whose inserted states are
    already on record. *)
Lemma handles_pass_tracks (appliedN : list (Splice (Z * ResourceState))) g conv held :
  fst <$> held = _handlesSnapshot g ->
  NoDup (fst <$> (held ++ inserted appliedN)) ->
  (forall h, _resourceStatesMap g !! h
             = (list_to_map (held ++ inserted appliedN) : gmap Z ResourceState) !! h) ->
  (forall h, _resourceStatesCommandsMap g !! h
             = (list_to_map (held ++ inserted appliedN) : gmap Z ResourceState) !! h
               ≫= keptCommand) ->
  tracks (foldl applyToHandles (g, conv) (splice_map wirePair <$> appliedN)).1
    (replay appliedN held)
  /\ NoDup (fst <$> replay appliedN held).
Proof.
  revert g conv held.
  induction appliedN as [|s appliedN IH]; intros g conv held Hhs Hnd Hstates Hcommands.
  { cbn in *. rewrite app_nil_r in *. by split. }
  rewrite fmap_cons, replay_cons. cbn [foldl].
  destruct (applyToHandles_maps (splice_map wirePair s) g conv)
    as (g' & conv' & -> & Hhs' & Hkeep & Hgone).
  assert (snd <$> toInsert (splice_map wirePair s) = fst <$> toInsert s) as Hitems.
  { cbn. rewrite <- list_fmap_compose. by apply list_fmap_ext. }
  rewrite Hitems, <- Hhs in Hhs', Hkeep, Hgone. cbn [start deleteCount splice_map] in *.
  rewrite array_splice_fmap in Hhs', Hkeep, Hgone. cbn [fst snd] in *.
  pose proof (array_splice_perm held (start s) (deleteCount s) (toInsert s)) as Hperm.
  destruct (array_splice held (start s) (deleteCount s) (toInsert s)) as [K R].
  cbn [fst snd] in *.
  assert (held ++ inserted (s :: appliedN) ≡ₚ R ++ (K ++ inserted appliedN)) as Hall.
  { rewrite inserted_cons, app_assoc, <- Hperm.
    rewrite (Permutation_app_comm K R). by rewrite <- app_assoc. }
  pose proof Hnd as Hnd'. rewrite Hall, fmap_app in Hnd'.
  apply NoDup_app in Hnd' as (HndR & Hdisj & HndX).
  assert (forall h, h ∉ R.*1 ->
            (list_to_map (held ++ inserted (s :: appliedN)) : gmap Z ResourceState) !! h
            = (list_to_map (K ++ inserted appliedN) : gmap Z ResourceState) !! h) as Hsame.
  { intros h Hh. rewrite (list_to_map_proper _ _ Hnd Hall), list_to_map_app.
    apply lookup_union_r. by apply not_elem_of_list_to_map_1. }
  apply IH; [done|done|..].
  - intros h. destruct (decide (h ∈ R.*1)) as [Hin|Hout].
    + destruct (Hgone h Hin) as [-> _]. symmetry.
      apply not_elem_of_list_to_map_1. by apply Hdisj.
    + destruct (Hkeep h Hout) as [-> _]. by rewrite Hstates, Hsame.
  - intros h. destruct (decide (h ∈ R.*1)) as [Hin|Hout].
    + destruct (Hgone h Hin) as [_ ->].
      by rewrite (not_elem_of_list_to_map_1 _ _ (Hdisj h Hin)).
    + destruct (Hkeep h Hout) as [_ ->]. by rewrite Hcommands, Hsame.
Qed.

(** A snapshot keeps the maps exact: afterwards the group holds the states
    it held, spliced like the handles. *)
Lemma takeSnapshot_tracks g conv held splices g' conv' :
  group_ok g -> tracks g held ->
  _takeResourceStateSnapshot g conv = (splices, g', conv') ->
  let numbered :=
    (number_splices (_resourceHandlePool g)
       (sortedDiff (_resourceSnapshot g)
          (array_sort compareResourceStates (_resourceStates g)) compareResourceStates)).1 in
  tracks g' (replay (rev numbered) held).
Proof.
  intros (Hlen & Hbelow & Hnd & Hfresh) (Hhs & Hstates & Hcommands) Htake numbered.
  set (diffs := sortedDiff _ _ _) in *.
  destruct (encode_splices diffs g conv Hfresh)
    as (g1 & Henc & Hframe1 & Hpool1 & Hfresh1 & Hold1 & Hrec1).
  fold numbered in Henc, Hrec1.
  unfold _takeResourceStateSnapshot in Htake. fold diffs in Htake.
  rewrite Henc, <- fmap_rev in Htake.
  assert (_handlesSnapshot g1 = _handlesSnapshot g) as Hhs1
    by (unfold same_frame in Hframe1; by destruct_and!).
  destruct (number_splices_spec (_resourceHandlePool g) diffs)
    as (_ & Hle & Hrange & Hndi).
  fold numbered in Hrange, Hndi.
  pose proof (number_splices_handles (_resourceHandlePool g) diffs) as Hseq.
  fold numbered in Hseq.
  assert (NoDup (fst <$> (held ++ inserted numbered))) as Hndall.
  { rewrite fmap_app. apply NoDup_app. split; [by rewrite Hhs|]. split; [|done].
    intros h Hold (hr & -> & Hin)%list_elem_of_fmap.
    rewrite Hhs in Hold. eapply Forall_forall in Hbelow; [|done].
    eapply Forall_forall in Hrange; [|done]. cbn in *. lia. }
  assert (forall h, _resourceHandlePool g <= h ->
            (list_to_map held : gmap Z ResourceState) !! h = None) as Hhigh.
  { intros h Hh. apply not_elem_of_list_to_map_1. rewrite Hhs. intros Hin.
    eapply Forall_forall in Hbelow; [|done]. cbn in Hbelow. lia. }
  assert (forall h, h < _resourceHandlePool g ->
            (list_to_map (inserted numbered) : gmap Z ResourceState) !! h = None) as Hlow.
  { intros h Hh. apply not_elem_of_list_to_map_1.
    intros (hr & -> & Hin)%list_elem_of_fmap.
    eapply Forall_forall in Hrange; [|done]. cbn in Hrange. lia. }
  assert (forall h,
            _resourceStatesMap g1 !! h
              = (list_to_map (held ++ inserted numbered) : gmap Z ResourceState) !! h
            /\ _resourceStatesCommandsMap g1 !! h
               = (list_to_map (held ++ inserted numbered) : gmap Z ResourceState) !! h
                 ≫= keptCommand) as Hmaps1.
  { intros h. rewrite list_to_map_app.
    destruct (Z.lt_ge_cases h (_resourceHandlePool g)) as [Hlt|Hge].
    - destruct (Hold1 h Hlt) as (-> & -> & _).
      rewrite lookup_union_l by (by apply Hlow). by rewrite Hstates, Hcommands.
    - rewrite lookup_union_r by (by apply Hhigh).
      destruct ((list_to_map (inserted numbered) : gmap Z ResourceState) !! h)
        as [r|] eqn:Hr.
      + apply elem_of_list_to_map_2 in Hr.
        eapply Forall_forall in Hrec1; [|done]. unfold recorded in Hrec1.
        cbn [fst snd] in Hrec1. by destruct Hrec1 as [-> ->].
      + apply not_elem_of_list_to_map in Hr. rewrite Hseq, elem_of_seqZ in Hr.
        destruct (Hfresh1 h) as (-> & -> & _); [lia|done]. }
  destruct (handles_pass_tracks (rev numbered) g1 conv held) as [Htracks _].
  - by rewrite Hhs1.
  - by rewrite fmap_app, inserted_rev, <- fmap_app.
  - intros h. rewrite (proj1 (Hmaps1 h)). f_equal.
    apply list_to_map_proper; [done|]. by rewrite inserted_rev.
  - intros h. rewrite (proj2 (Hmaps1 h)). do 2 f_equal.
    apply list_to_map_proper; [done|]. by rewrite inserted_rev.
  - destruct (foldl applyToHandles _ _) as [g2 conv2]. injection Htake as _ <- _.
    cbn [fst] in Htracks. unfold tracks in *. by cbn.
Qed.

End TrackingFacts.

Section EveryGroup.
Context `{Host} (P : Group -> Prop).
Import ExtHostSourceControl.

Hypothesis P_new : forall handle0 sourceControlHandle id label,
  P (newGroup handle0 sourceControlHandle id label).
Hypothesis P_onDidDispose : forall v g, P g -> P (set_onDidDispose v g).
Hypothesis P_onDidUpdate : forall v g, P g -> P (set_onDidUpdateResourceStates v g).
Hypothesis P_disposed : forall v g, P g -> P (set_disposed v g).
Hypothesis P_assign : forall v g,
  P g -> P (ExtHostSourceControlResourceGroup.assignResourceStates v g).
Hypothesis P_snapshot : forall g conv,
  P g -> P (ExtHostSourceControlResourceGroup._takeResourceStateSnapshot g conv).1.2.

(** A world function that keeps [P] on every group object. *)
Let keepsP (f : ExtWorld -> ExtWorld) : Prop :=
  forall w, Forall P (groupStore w) -> Forall P (groupStore (f w)).

Lemma keepsP_foldl {A} (f : ExtWorld -> A -> ExtWorld) (l : list A) :
  (forall x, keepsP (fun w => f w x)) -> keepsP (fun w => foldl f w l).
Proof.
  intros Hf. induction l as [|x l IH]; intros w Hw; [done|].
  cbn. apply IH. by apply Hf.
Qed.

Lemma keepsP_updateGroupAt i f :
  (forall g, P g -> P (f g)) -> keepsP (updateGroupAt i f).
Proof.
  intros Hf w Hw. unfold updateGroupAt. cbn. apply Forall_lookup.
  intros j g. rewrite list_lookup_alter. case_decide as Hij.
  - subst j. destruct (groupStore w !! i) as [g0|] eqn:Hi; [|done]. cbn.
    intros [= <-]. apply Hf. by eapply Forall_lookup_1.
  - intros Hj. by eapply Forall_lookup_1.
Qed.

Lemma takeSnapshotAt_P group w :
  Forall P (groupStore w) -> Forall P (groupStore (takeSnapshotAt group w).2).
Proof.
  intros Hw. unfold takeSnapshotAt.
  destruct (groupStore w !! group) as [g|] eqn:Hg; [|done].
  pose proof (P_snapshot g (_commands w) (Forall_lookup_1 _ _ _ _ Hw Hg)) as Hg'.
  destruct (ExtHostSourceControlResourceGroup._takeResourceStateSnapshot g (_commands w))
    as [[snapshot g'] conv']. cbn in *.
  apply Forall_lookup. intros j gj [(_ & <- & _)|[_ Hj]]%list_lookup_insert_Some; [done|].
  by eapply Forall_lookup_1.
Qed.

Lemma eventuallyUpdateResourceStates_P this : keepsP (eventuallyUpdateResourceStates this).
Proof.
  intros w Hw. unfold eventuallyUpdateResourceStates.
  destruct (sourceControlStore w !! this) as [sc|]; [|done].
  assert (forall l splices w1,
            Forall P (groupStore w1) ->
            Forall P (groupStore
              (foldl
                 (fun '(splices, w) group =>
                    match takeSnapshotAt group w with
                    | (Some (snapshot, g), w) =>
                        if bool_decide (length snapshot = 0%nat) then (splices, w)
                        else (splices ++ [mkGroupSplices (handle g) snapshot], w)
                    | (None, w) => (splices, w)
                    end)
                 (splices, w1) l).2)) as Hfold.
  { induction l as [|group l IH]; intros splices w1 Hw1; [done|].
    cbn [foldl]. pose proof (takeSnapshotAt_P group w1 Hw1) as Hsnap.
    destruct (takeSnapshotAt group w1) as [[[snapshot g']|] w1']; cbn in Hsnap.
    - case_bool_decide; by apply IH.
    - by apply IH. }
  specialize (Hfold (updatedResourceGroups sc) [] w Hw).
  destruct (foldl _ _ _) as [splices w2]. cbn in Hfold.
  by case_bool_decide.
Qed.

Lemma onDidUpdateResourceStates_P this group :
  keepsP (onDidUpdateResourceStates this group).
Proof.
  intros w Hw. unfold onDidUpdateResourceStates.
  by apply eventuallyUpdateResourceStates_P.
Qed.

Lemma assignGroupResourceStates_P group resources0 :
  keepsP (assignGroupResourceStates group resources0).
Proof.
  intros w Hw. unfold assignGroupResourceStates.
  destruct (groupStore w !! group) as [g|]; [|done].
  apply (keepsP_foldl (fun w listener => match listener with
                                         | MarkUpdated owner => _
                                         end)).
  - intros [owner]. apply onDidUpdateResourceStates_P.
  - apply keepsP_updateGroupAt; [|done]. intros g0. apply P_assign.
Qed.

Lemma addResourceGroup_P this st entry :
  Forall P (groupStore st.2) -> Forall P (groupStore (addResourceGroup this st entry).2).
Proof.
  destruct st as [[groups0 splices] w], entry as [group disposable]. cbn [snd].
  intros Hw. unfold addResourceGroup.
  set (w1 := updateGroupAt group _ (updateGroupAt group _ (updateGroupAt group _ w))).
  assert (Forall P (groupStore w1)) as Hw1.
  { unfold w1. repeat (apply keepsP_updateGroupAt; [intros g0; auto|]). done. }
  destruct (groupStore w1 !! group) as [g|]; [|done].
  pose proof (takeSnapshotAt_P group w1 Hw1) as Hsnap.
  destruct (takeSnapshotAt group w1) as [[[snapshot g']|] w2]; by cbn in *.
Qed.

Lemma eventuallyAddResourceGroups_P this : keepsP (eventuallyAddResourceGroups this).
Proof.
  intros w Hw. unfold eventuallyAddResourceGroups.
  destruct (sourceControlStore w !! this) as [sc|]; [|done].
  assert (forall l st, Forall P (groupStore st.2) ->
            Forall P (groupStore (foldl (addResourceGroup this) st l).2)) as Hfold.
  { induction l as [|entry l IH]; intros st Hst; [done|].
    cbn [foldl]. apply IH. by apply addResourceGroup_P. }
  specialize (Hfold (createdResourceGroups sc) ([], [], w) Hw).
  by destruct (foldl _ _ _) as [[groups1 splices] w2].
Qed.

Lemma createResourceGroup_P this id label :
  keepsP (fun w => (createResourceGroup this id label w).2).
Proof.
  intros w Hw. unfold createResourceGroup.
  destruct (sourceControlStore w !! this) as [sc|]; [|done]. cbn [snd].
  apply eventuallyAddResourceGroups_P. cbn.
  apply Forall_app. split; [done|]. constructor; [|done]. apply P_onDidDispose, P_new.
Qed.

Lemma onDidDispose_P listener group : keepsP (fun w => onDidDispose listener group w).
Proof.
  intros w Hw. unfold onDidDispose. destruct listener as [this|this]; [done|].
  destruct (groupStore w !! group) as [g|]; [|done].
  set (w1 := updateSourceControlAt this _ (updateGroupAt group _ _)).
  assert (Forall P (groupStore w1)) as Hw1.
  { unfold w1. cbn [updateSourceControlAt put_sourceControlStore groupStore].
    apply keepsP_updateGroupAt; [intros g0; auto|done]. }
  by destruct (sourceControlStore w1 !! this).
Qed.

Lemma disposeGroup_P group : keepsP (disposeGroup group).
Proof.
  intros w Hw. unfold disposeGroup.
  destruct (groupStore w !! group) as [g|]; [|done].
  apply (keepsP_foldl (fun w listener => onDidDispose listener group w)).
  - intros listener. apply onDidDispose_P.
  - apply keepsP_updateGroupAt; [intros g0; auto|done].
Qed.

Lemma dispose_P this : keepsP (dispose this).
Proof.
  intros w Hw. unfold dispose.
  destruct (sourceControlStore w !! this) as [sc|]; [|done].
  cbn [send put_outbox groupStore].
  apply (keepsP_foldl (fun w entry =>
                         match sourceControlStore w !! this with
                         | Some sc' => _
                         | None => w
                         end)); [|done].
  intros entry w1 Hw1. destruct (sourceControlStore w1 !! this) as [sc'|]; [|done].
  case_bool_decide; [by apply disposeGroup_P|done].
Qed.

Lemma perform_P op : keepsP (fun w => perform w op).
Proof.
  destruct op; cbn [perform].
  - intros w Hw. exact Hw.
  - apply createResourceGroup_P.
  - apply assignGroupResourceStates_P.
  - apply disposeGroup_P.
  - apply dispose_P.
  - intros w Hw. unfold ScmInputBoxImpl.set_value.
    by destruct (sourceControlStore w !! sourceControl).
  - apply eventuallyAddResourceGroups_P.
  - apply eventuallyUpdateResourceStates_P.
  - intros w Hw. unfold ScmExtImpl.onInputBoxValueChange.
    by destruct (ScmExtImpl.sourceControlAt w sourceControlHandle) as [[? ?]|].
  - intros w Hw. unfold ScmExtImpl.executeResourceCommand.
    destruct (ScmExtImpl.sourceControlAt w sourceControlHandle) as [[? ?]|]; [|done].
    destruct (_ ≫= _) as [g|]; [|done].
    by destruct (ExtHostSourceControlResourceGroup.executeResourceCommand _ _ _)
      as [promise [e|]].
  - intros w Hw. unfold ScmExtImpl.setSelectedSourceControl. cbn [snd].
    cbn [put_selectedSourceControlHandle groupStore].
    assert (forall h b w1, Forall P (groupStore w1) ->
              Forall P (groupStore (ScmExtImpl.selectIfRegistered h b w1))) as Hsel.
    { intros h b w1 Hw1. unfold ScmExtImpl.selectIfRegistered.
      by destruct (ScmExtImpl.sourceControlAt w1 h) as [[? ?]|]. }
    set (w1 := match selectedSourceControlHandle with Some _ => _ | None => _ end).
    assert (Forall P (groupStore w1)) as Hw1
      by (unfold w1; destruct selectedSourceControlHandle; auto).
    destruct (_selectedSourceControlHandle w1); auto.
Qed.

(** Whatever happens, every group object satisfies [P]. *)
Lemma every_group (ops : list Operation) (w : ExtWorld) :
  Forall P (groupStore w) -> Forall P (groupStore (run ops w)).
Proof.
  intros Hw. unfold run.
  by apply (keepsP_foldl perform ops perform_P).
Qed.

End EveryGroup.

Section TrackingTheorems.
Context `{Host}.
Import ExtHostSourceControlResourceGroup.

Lemma group_exact_new handle0 sourceControlHandle id label :
  group_exact (newGroup handle0 sourceControlHandle id label).
Proof.
  split.
  - unfold group_ok, pool_fresh. cbn. split_and!; [done|constructor|constructor|done].
  - exists []. by unfold tracks.
Qed.

Lemma group_exact_snapshot g conv :
  group_exact g -> group_exact (_takeResourceStateSnapshot g conv).1.2.
Proof.
  intros [Hok [held Htracks]].
  destruct (takeSnapshot_spec g conv Hok)
    as (g' & conv' & Htake & _ & _ & _ & _ & _ & Hok' & _).
  pose proof (takeSnapshot_tracks g conv held _ g' conv' Hok Htracks Htake) as Htracks'.
  rewrite Htake. cbn. split; [done|]. eauto.
Qed.

Lemma every_group_exact (ops : list Operation) :
  Forall group_exact (groupStore (run ops initialWorld)).
Proof.
  apply (every_group group_exact); [apply group_exact_new|..|apply group_exact_snapshot|done].
  all: intros v [] [Hok [held Htracks]]; split;
    [unfold group_ok, pool_fresh in *; cbn in *; tauto|exists held; exact Htracks].
Qed.

(** The maps of a group that is exact, read by handle. *)
Lemma tracks_lookup g held h :
  NoDup (_handlesSnapshot g) -> tracks g held ->
  (is_Some (getResourceState g h) <-> h ∈ _handlesSnapshot g)
  /\ (h ∉ _handlesSnapshot g ->
      forall preserveFocus, executeResourceCommand g h preserveFocus = (Resolved tt, None)).
Proof.
  intros Hnd (Hhs & Hstates & Hcommands). unfold getResourceState, executeResourceCommand.
  rewrite Hstates, Hcommands, <- Hhs. split.
  - rewrite <- not_eq_None_Some, <- not_elem_of_list_to_map.
    split; [apply dec_stable|tauto].
  - intros Hout preserveFocus. by rewrite (not_elem_of_list_to_map_1 _ _ Hout).
Qed.

(** Whatever the plugin and the main side do, and in whatever order: in
    every group, [getResourceState] answers for exactly the handles of the
    resource states the group holds at that moment, and
    [$executeResourceCommand] on any other handle runs nothing and
    resolves. No entry outlives its resource state, and none is missing. *)
Theorem live_handles_resolve (ops : list Operation) :
  Forall
    (fun g =>
       forall h,
         (is_Some (getResourceState g h) <-> h ∈ _handlesSnapshot g)
         /\ (h ∉ _handlesSnapshot g ->
             forall preserveFocus,
               executeResourceCommand g h preserveFocus = (Resolved tt, None)))
    (groupStore (run ops initialWorld)).
Proof.
  eapply Forall_impl; [apply every_group_exact|].
  intros g [(_ & _ & Hnd & _) [held Htracks]] h. cbn beta.
  by apply (tracks_lookup g held).
Qed.

End TrackingTheorems.

(** ** Ordering of updates *)

Section Ordering.
Context `{Host}.
Import ExtHostSourceControlResourceGroup PluginScmProvider.






End Ordering.

Section OrderingExamples.
#[local] Existing Instance exampleHost.
Import ExtHostSourceControlResourceGroup PluginScmProvider.


(** C8 on the wire: the plugin creates a source control and a group and
    declares two files. The extension host sends the splice as an object
    literal; the main side answers the two registrations, refuses the
    splices, and lists no resource for the group. *)
Lemma first_snapshot_is_refused :
  outbox firstDeclaration =
    [Main_registerSourceControl 0 "git" "Git" None;
     Main_registerGroups 0 [mkGroupEntry 0 "changes" "Changes" (mkGroupFeatures (Some None))] [];
     Main_spliceResourceStates 0
       [mkGroupSplices 0
          [mkSplice 0 0 [wireResource (0, file "b"); wireResource (1, file "d")]]]]
  /\ (deliver (outbox firstDeclaration) emptyMirror).1 = [Resolved tt; Resolved tt; Rejected]
  /\ (provider <$> _repositories (deliver (outbox firstDeclaration) emptyMirror).2 !! 0)
     = Some git.
Proof.
  split; [vm_compute; reflexivity|]. split; vm_compute; reflexivity.
Qed.





End OrderingExamples.

(** ** Settings of a source control *)

Section SettingsFacts.
Context `{Host} (undefined : Arg).

Lemma compareArgs_prefix (a more : list Arg) :
  Forall (fun x => arg_strict_eq x x = true) a ->
  compareArgs undefined a (a ++ more) = true.
Proof.
  induction 1 as [|x a Hx Ha IH]; [done|]. cbn. by rewrite Hx.
Qed.

Lemma commandEquals_appended (a b : Command) :
  appends_arguments a b ->
  (forall aa, cmd_arguments a = Some aa ->
     Forall (fun x => arg_strict_eq x x = true) (arr_items aa)) ->
  commandEquals undefined a b = true.
Proof.
  intros (Hc & Ht & Htt & aa & ab & more & Ha & Hb & Hitems) Hself.
  unfold commandEquals, strict_ne_string.
  rewrite !bool_decide_eq_true_2 by done. rewrite Ha, Hb, Hitems. cbn.
  apply compareArgs_prefix. by apply Hself.
Qed.

(** An update of the status bar commands that only appends arguments to
    the commands already set is taken for no change: nothing is sent, and
    the getter goes on returning the commands without the new arguments.
    [compareArgs] runs over the arguments of the command that is set and
    never looks at what the new command has beyond them. *)
Theorem appended_arguments_go_unnoticed (handle0 : Z) (old new : CommandList)
    (s : SourceControlSettings) (conv : CommandsConverter) :
  _statusBarCommands s = Some old ->
  Forall2 appends_arguments (cl_items old) (cl_items new) ->
  Forall (fun c => forall aa, cmd_arguments c = Some aa ->
                     Forall (fun x => arg_strict_eq x x = true) (arr_items aa))
    (cl_items old) ->
  assignStatusBarCommands undefined handle0 (Some new) (s, conv) = (s, conv, []).
Proof.
  intros Hold Happ Hself. unfold assignStatusBarCommands. rewrite Hold.
  assert (commandListEquals undefined old new = true) as ->; [|done].
  unfold commandListEquals, equals. destruct (Pos.eqb _ _); [done|].
  rewrite (Forall2_length _ _ _ Happ), Nat.eqb_refl. cbn [negb].
  induction Happ as [|a b one other Hab Happ IH]; [done|].
  apply Forall_cons in Hself as [Ha Hself]. cbn.
  rewrite commandEquals_appended by done. cbn. by apply IH.
Qed.

End SettingsFacts.

Section SettingsOnTheMirror.
Context `{Host}.

(** [set count]: a value that is already set is not sent again; any other
    value is sent in a call of its own and, once the main side has received
    it, is what the [count] getter of the provider there returns, also when
    the value is [undefined]. A main side that had the count of the plugin
    before has it afterwards. *)
Theorem count_reaches_the_mirror (m : MainWorld) (h : Z) (repo : ScmRepository)
    (s : SourceControlSettings) (count0 : option Z) :
  _repositories m !! h = Some repo ->
  get_count (provider repo) = _count s ->
  let r := assignCount h count0 s in
  _count r.1 = count0
  /\ r.2 = (if bool_decide (_count s = count0) then []
            else [Main_updateSourceControl h (mkFeatures None (Some count0) None None None)])
  /\ exists repo',
       _repositories (deliver r.2 m).2 !! h = Some repo'
       /\ get_count (provider repo') = count0
       /\ fired (deliver r.2 m).2
          = fired m ++ (if bool_decide (_count s = count0) then [] else [(h, DidChange)]).
Proof.
  intros Hrepo Hsync r. unfold r, assignCount.
  case_bool_decide as Hsame; cbn [fst snd].
  - split; [done|]. split; [done|]. exists repo. cbn. rewrite app_nil_r.
    split_and!; [done|congruence|done].
  - split; [done|]. split; [done|].
    unfold deliver. cbn [map_state ScmMainImpl.receive].
    unfold ScmMainImpl.updateSourceControl. rewrite Hrepo.
    unfold PluginScmProvider.updateSourceControl, put_repository. rewrite Hrepo.
    cbn [fst snd _repositories fired].
    eexists. split; [apply lookup_insert_eq|]. split; [|done].
    unfold get_count. cbn. by destruct count0.
Qed.

(** [set commitTemplate]: as for the count, a template that is already set
    is not sent again, and any other one reaches the main side. When the
    new template is a string the main side fires [onDidChangeCommitTemplate]
    with it; when the template is cleared, the getter of the main side
    turns to the empty string and only [onDidChange] fires. *)
Theorem commit_template_reaches_the_mirror (m : MainWorld) (h : Z) (repo : ScmRepository)
    (s : SourceControlSettings) (commitTemplate0 : option string) :
  _repositories m !! h = Some repo ->
  let r := assignCommitTemplate h commitTemplate0 s in
  _commitTemplate r.1 = commitTemplate0
  /\ (commitTemplate0 = _commitTemplate s -> r.2 = [] /\ r.1 = s)
  /\ (commitTemplate0 <> _commitTemplate s ->
      exists repo',
        _repositories (deliver r.2 m).2 !! h = Some repo'
        /\ get_commitTemplate (provider repo') = or_empty commitTemplate0
        /\ fired (deliver r.2 m).2
           = fired m
             ++ (h, DidChange)
                :: match commitTemplate0 with
                   | Some template => [(h, DidChangeCommitTemplate template)]
                   | None => []
                   end).
Proof.
  intros Hrepo r. unfold r, assignCommitTemplate.
  case_bool_decide as Hsame; cbn [fst snd].
  - split; [done|]. split; [done|]. done.
  - split; [done|]. split; [done|]. intros _.
    unfold deliver. cbn [map_state ScmMainImpl.receive].
    unfold ScmMainImpl.updateSourceControl. rewrite Hrepo.
    unfold PluginScmProvider.updateSourceControl, put_repository. rewrite Hrepo.
    cbn [fst snd _repositories fired].
    eexists. split; [apply lookup_insert_eq|].
    unfold get_commitTemplate. cbn. by destruct commitTemplate0.
Qed.

End SettingsOnTheMirror.

Section SettingsExamples.
#[local] Existing Instance valuesHost.

Lemma appended_arguments_go_unnoticed_witness :
  assignStatusBarCommands noValue 0
    (Some (mkCommandList 2 [statusCommand "git.sync" 2 [Some 1; Some 2]]))
    (mkSettings None None (Some (mkCommandList 1 [statusCommand "git.sync" 1 [Some 1]])) [],
     mkConverter 0 ∅)
  = (mkSettings None None (Some (mkCommandList 1 [statusCommand "git.sync" 1 [Some 1]])) [],
     mkConverter 0 ∅, []).
Proof.
  apply (appended_arguments_go_unnoticed noValue 0
           (mkCommandList 1 [statusCommand "git.sync" 1 [Some 1]])).
  - reflexivity.
  - constructor; [|constructor]. unfold appends_arguments. split_and!; try done.
    by eexists _, _, [Some 2].
  - constructor; [|constructor]. intros aa [= <-]. by repeat constructor.
Defined.

(** The other way round the change is noticed: the command with fewer
    arguments is not taken for the one that is set. *)
Lemma dropped_arguments_are_noticed :
  commandEquals noValue (statusCommand "git.sync" 1 [Some 1])
    (statusCommand "git.sync" 2 [Some 1; Some 2]) = true
  /\ commandEquals noValue (statusCommand "git.sync" 2 [Some 1; Some 2])
       (statusCommand "git.sync" 1 [Some 1]) = false.
Proof. split; vm_compute; reflexivity. Qed.

End SettingsExamples.

Section SettingsWitnesses.
#[local] Existing Instance exampleHost.

Lemma count_reaches_the_mirror_witness :
  _count (assignCount 0 (Some 3) (mkSettings None None None [])).1 = Some 3.
Proof.
  destruct (count_reaches_the_mirror twoRepositories 0 (mkRepository newProvider "" "")
              (mkSettings None None None []) (Some 3)) as (Hcount & _).
  - vm_compute; reflexivity.
  - reflexivity.
  - exact Hcount.
Defined.

Lemma commit_template_reaches_the_mirror_witness :
  _commitTemplate (assignCommitTemplate 0 (Some "fix: ") (mkSettings None None None [])).1
  = Some "fix: ".
Proof.
  destruct (commit_template_reaches_the_mirror twoRepositories 0
              (mkRepository newProvider "" "") (mkSettings None None None [])
              (Some "fix: ")) as (Htemplate & _).
  - vm_compute; reflexivity.
  - exact Htemplate.
Defined.

End SettingsWitnesses.

(** * The objects of the extension host hang together *)

Section ShapeFacts.
Context `{Host}.
Import ExtHostSourceControlResourceGroup ExtHostSourceControl.

Lemma same_links_sc_refl (l : list SourceControl) : Forall2 same_links_sc l l.
Proof. induction l; constructor; [by unfold same_links_sc|done]. Qed.

Lemma same_links_refl (l : list Group) : Forall2 same_links l l.
Proof. induction l; constructor; [by unfold same_links|done]. Qed.

Lemma same_shown_refl (l : list Group) : Forall2 same_shown l l.
Proof. induction l; constructor; [by unfold same_shown|done]. Qed.

(** The shape of the world is about the counters, [_sourceControls] and
    the links between the objects alone. *)
Lemma shape_frame w w' :
  ScmExt_handlePool w' = ScmExt_handlePool w ->
  SourceControl_handlePool w' = SourceControl_handlePool w ->
  Group_handlePool w' = Group_handlePool w ->
  _sourceControls w' = _sourceControls w ->
  Forall2 same_links_sc (sourceControlStore w) (sourceControlStore w') ->
  Forall2 same_links (groupStore w) (groupStore w') ->
  world_shape w -> world_shape w'.
Proof.
  intros He Hs Hg Hreg Hscs Hgs (Hp1 & Hp2 & Hp3 & Hregistry & Hsc & Hgroup & Hnodup).
  pose proof (Forall2_length _ _ _ Hscs) as Hlen1.
  pose proof (Forall2_length _ _ _ Hgs) as Hlen2.
  unfold world_shape. rewrite He, Hs, Hg, Hreg, <- Hlen1, <- Hlen2.
  split_and!; try done.
  - intros i sc' Hsc'.
    destruct (Forall2_lookup_r _ _ _ _ _ Hscs Hsc') as (sc & Hlook & Hl1 & Hl2 & Hl3 & Hl4 & Hl5).
    destruct (Hsc i sc Hlook) as (H1 & H2 & H3 & H4 & H5).
    rewrite Hl1, Hl2, Hl3, Hl4, Hl5. split_and!; try done.
    intros gh j Hget. destruct (H5 gh j Hget) as (-> & g & Hg0 & Hown).
    split; [done|].
    destruct (Forall2_lookup_l _ _ _ _ _ Hgs Hg0) as (g' & Hg' & Hk1 & Hk2 & _).
    exists g'. split; [done|]. by rewrite Hk2.
  - intros j g' Hg'.
    destruct (Forall2_lookup_r _ _ _ _ _ Hgs Hg')
      as (g & Hlook & Hk1 & Hk2 & Hk3 & Hk4 & Hk5).
    destruct (Hgroup j g Hlook) as (H1 & owner & sc & H2 & H3 & H4 & H5).
    rewrite Hk1, Hk2, Hk3, Hk4, Hk5. split; [done|].
    destruct (Forall2_lookup_l _ _ _ _ _ Hscs H3) as (sc' & Hsc' & _ & _ & _ & _ & Hl5).
    exists owner, sc'. rewrite Hl5. by split_and!.
  - intros i sc' Hsc'.
    destruct (Forall2_lookup_r _ _ _ _ _ Hscs Hsc') as (sc & Hlook & _ & _ & _ & _ & Hl5).
    rewrite Hl5. by eapply Hnodup.
Qed.

Lemma Forall2_alter_same {A} (R : A -> A -> Prop) (f : A -> A) (l k : list A) i :
  (forall x y, R x y -> R x (f y)) -> Forall2 R l k -> Forall2 R l (alter f i k).
Proof. intros Hf Hl. apply Forall2_alter_r; [done|]. intros x y _ _. apply Hf. Qed.

Lemma Forall2_insert_same {A} (R : A -> A -> Prop) (l : list A) i x y :
  l !! i = Some x -> R x y -> (forall z, R z z) -> Forall2 R l (<[i := y]> l).
Proof.
  intros Hi Hxy Hrefl. rewrite <- (list_insert_id l i x) at 1 by done.
  apply Forall2_insert; [|done]. clear Hi. induction l; by constructor.
Qed.

Lemma initialWorld_shape : world_shape initialWorld.
Proof.
  unfold world_shape. cbn. split_and!; try done.
  intros h i. rewrite lookup_empty. split; [done|]. intros [_ ?]. lia.
Qed.

Lemma createSourceControl_shape id label rootUri w :
  world_shape w -> world_shape (ScmExtImpl.createSourceControl id label rootUri w).2.
Proof.
  intros (Hp1 & Hp2 & Hp3 & Hregistry & Hsc & Hgroup & Hnodup).
  unfold ScmExtImpl.createSourceControl, world_shape. world_cbn.
  rewrite length_app. cbn [length]. split_and!; try lia.
  - intros h i. rewrite lookup_insert_Some, Hregistry, Hp1. split.
    + intros [[<- <-]|[Hne [-> Hlt]]]; split; try done; lia.
    + intros [-> Hlt]. destruct (decide (i = length (sourceControlStore w))) as [->|Hne].
      * by left.
      * right. split_and!; [lia|done|lia].
  - intros i sc [[Hlt Hlook]|[-> <-]]%lookup_snoc_Some.
    + apply Hsc. done.
    + cbn. split_and!; done.
  - intros j g Hg. destruct (Hgroup j g Hg) as (H1 & owner & sc & H2 & H3 & H4 & H5).
    split; [done|]. exists owner, sc. split_and!; try done.
    by apply lookup_app_l_Some.
  - intros i sc [[Hlt Hlook]|[-> <-]]%lookup_snoc_Some; [by eapply Hnodup|].
    cbn. constructor.
Qed.

Lemma createResourceGroup_shape this id label w :
  world_shape w -> world_shape (createResourceGroup this id label w).2.
Proof.
  intros Hshape. pose proof Hshape as (Hp1 & Hp2 & Hp3 & Hregistry & Hsc & Hgroup & Hnodup).
  destruct (sourceControlStore w !! this) as [sc|] eqn:Hthis; cycle 1.
  { unfold createResourceGroup. by rewrite Hthis. }
  destruct (Hsc this sc Hthis) as (Hh & Hib & Hcreated & Hupdated & Hgroups).
  rewrite (createResourceGroup_spec this id label w sc Hthis Hcreated).
  unfold world_shape.
  cbn [snd ScmExt_handlePool SourceControl_handlePool Group_handlePool
       groupStore sourceControlStore _sourceControls].
  rewrite length_app, length_insert. cbn [length]. split_and!; try lia; try done.
  - intros i sc' Hsc'.
    destruct (decide (i = this)) as [->|Hne].
    + rewrite list_lookup_insert_eq in Hsc' by (by eapply lookup_lt_Some).
      injection Hsc' as <-. cbn [sc_handle _inputBox createdResourceGroups
        updatedResourceGroups _groups set_groups]. split_and!; try done.
      intros gh j. destruct (decide (Group_handlePool w = gh)) as [<-|Hgh].
      * rewrite map_get_set_eq. intros [= <-]. split; [done|].
        eexists. split; [apply lookup_snoc|]. done.
      * rewrite map_get_set_ne by done. intros Hget.
        destruct (Hgroups gh j Hget) as (-> & g & Hg & Hown). split; [done|].
        exists g. split; [|done]. by apply lookup_app_l_Some.
    + rewrite list_lookup_insert_ne in Hsc' by done.
      destruct (Hsc i sc' Hsc') as (H1 & H2 & H3 & H4 & H5). split_and!; try done.
      intros gh j Hget. destruct (H5 gh j Hget) as (-> & g & Hg & Hown). split; [done|].
      exists g. split; [|done]. by apply lookup_app_l_Some.
  - intros j g [[Hlt Hlook]|[-> <-]]%lookup_snoc_Some.
    + destruct (Hgroup j g Hlook) as (H1 & owner & sc0 & H2 & H3 & H4 & H5).
      split; [done|].
      destruct (decide (owner = this)) as [->|Hne].
      * assert (sc0 = sc) as -> by congruence.
        eexists this, _. split; [done|].
        split; [apply list_lookup_insert_eq; by eapply lookup_lt_Some|].
        split; [done|]. cbn [_groups set_groups].
        rewrite map_get_set_ne by lia. done.
      * exists owner, sc0. split; [done|].
        split; [by rewrite list_lookup_insert_ne|]. done.
    + cbn [handle registeredGroup _sourceControlHandle _onDidDispose
           _onDidUpdateResourceStates]. split; [done|].
      eexists this, _. split; [done|].
      split; [apply list_lookup_insert_eq; by eapply lookup_lt_Some|].
      split; [done|]. left. split; [done|]. split; [done|]. cbn [_groups set_groups].
      rewrite <- Hp3. apply map_get_set_eq.
  - intros i sc' Hsc'. destruct (decide (i = this)) as [->|Hne].
    + rewrite list_lookup_insert_eq in Hsc' by (by eapply lookup_lt_Some).
      injection Hsc' as <-. cbn [_groups set_groups]. apply map_set_NoDup.
      by eapply Hnodup.
    + rewrite list_lookup_insert_ne in Hsc' by done. by eapply Hnodup.
Qed.

Lemma disposeGroup_spec group w g owner sc :
  groupStore w !! group = Some g ->
  _onDidDispose g = [Unregister owner] ->
  sourceControlStore w !! owner = Some sc ->
  disposeGroup group w =
    mkExtWorld (Group_handlePool w) (SourceControl_handlePool w) (ScmExt_handlePool w)
      (<[group := set_onDidUpdateResourceStates
                    (remove_listener (_onDidUpdateResourceStates g) (MarkUpdated owner))
                    (set_disposed true g)]> (groupStore w))
      (<[owner := set_groups (map_delete (_groups sc) (handle g))
                    (set_updatedResourceGroups
                       (set_delete (updatedResourceGroups sc) group) sc)]>
         (sourceControlStore w))
      (_sourceControls w) (_selectedSourceControlHandle w) (_commands w)
      (outbox w ++ [Main_unregisterGroup (sc_handle sc) (handle g)])
      (observed w) (executed w).
Proof.
  intros Hg Hdispose Hsc.
  assert (owner < length (sourceControlStore w))%nat as Howner by (by eapply lookup_lt_Some).
  assert (group < length (groupStore w))%nat as Hgroup by (by eapply lookup_lt_Some).
  destruct w as [gp sp ep store scs scm sel cmds out obs exe].
  cbn in Hg, Hsc, Howner, Hgroup.
  unfold disposeGroup. cbn [groupStore]. rewrite Hg, Hdispose. cbn [foldl].
  unfold onDidDispose. world_cbn.
  rewrite (alter_at _ _ _ _ Hg), list_lookup_insert_eq by done.
  rewrite !(alter_at _ _ _ _ Hsc), !alter_insert, !list_lookup_insert_eq by done.
  unfold send, updateSourceControlAt, updateGroupAt. world_cbn.
  rewrite !(alter_at _ _ _ _ Hg), !(alter_at _ _ _ _ Hsc).
  rewrite !alter_insert by done.
  reflexivity.
Qed.

Lemma disposeGroup_shape group w : world_shape w -> world_shape (disposeGroup group w).
Proof.
  intros Hshape. pose proof Hshape as (Hp1 & Hp2 & Hp3 & Hregistry & Hsc & Hgroup & Hnodup).
  destruct (groupStore w !! group) as [g|] eqn:Hg; cycle 1.
  { unfold disposeGroup. by rewrite Hg. }
  destruct (Hgroup group g Hg) as (Hh & owner & sc & Hown & Howner & Hdispose & Hlisteners).
  destruct (Hsc owner sc Howner) as (Hsch & Hib & Hcreated & Hupdated & Hgroups).
  rewrite (disposeGroup_spec group w g owner sc Hg Hdispose Howner).
  assert (remove_listener (_onDidUpdateResourceStates g) (MarkUpdated owner) = []) as ->.
  { destruct Hlisteners as [[-> _]|[-> _]]; cbn; [by rewrite decide_True|done]. }
  rewrite Hupdated, Hh. cbn [set_delete filter].
  unfold world_shape.
  cbn [ScmExt_handlePool SourceControl_handlePool Group_handlePool
       groupStore sourceControlStore _sourceControls].
  rewrite !length_insert. split_and!; try done.
  - intros i sc' Hsc'.
    destruct (decide (i = owner)) as [->|Hne].
    + rewrite list_lookup_insert_eq in Hsc' by (by eapply lookup_lt_Some).
      injection Hsc' as <-. cbn [sc_handle _inputBox createdResourceGroups
        updatedResourceGroups _groups set_groups set_updatedResourceGroups].
      split_and!; try done.
      intros gh j. destruct (decide (Z.of_nat group = gh)) as [<-|Hgh].
      * by rewrite map_get_delete_eq.
      * rewrite map_get_delete_ne by done. intros Hget.
        destruct (Hgroups gh j Hget) as (-> & g0 & Hg0 & Hown0). split; [done|].
        exists g0. split; [|done]. rewrite list_lookup_insert_ne by lia. done.
    + rewrite list_lookup_insert_ne in Hsc' by done.
      destruct (Hsc i sc' Hsc') as (H1 & H2 & H3 & H4 & H5). split_and!; try done.
      intros gh j Hget. destruct (H5 gh j Hget) as (-> & g0 & Hg0 & Hown0). split; [done|].
      exists g0. split; [|done]. rewrite list_lookup_insert_ne; [done|].
      intros <-. assert (g0 = g) as -> by congruence. rewrite Hown in Hown0. lia.
  - intros j g0 Hg0.
    destruct (decide (j = group)) as [->|Hne].
    + rewrite list_lookup_insert_eq in Hg0 by (by eapply lookup_lt_Some).
      injection Hg0 as <-.
      cbn [handle _sourceControlHandle _onDidDispose _onDidUpdateResourceStates
           set_onDidUpdateResourceStates set_disposed].
      split; [done|]. eexists owner, _. split; [done|].
      split; [apply list_lookup_insert_eq; by eapply lookup_lt_Some|].
      split; [done|]. right. split; [done|]. split; [done|]. cbn [_groups set_groups].
      apply map_get_delete_eq.
    + rewrite list_lookup_insert_ne in Hg0 by done.
      destruct (Hgroup j g0 Hg0) as (H1 & owner0 & sc0 & H2 & H3 & H4 & H5).
      split; [done|].
      destruct (decide (owner0 = owner)) as [->|Hneo].
      * assert (sc0 = sc) as -> by congruence.
        eexists owner, _. split; [done|].
        split; [apply list_lookup_insert_eq; by eapply lookup_lt_Some|].
        split; [done|]. cbn [_groups set_groups set_updatedResourceGroups].
        rewrite map_get_delete_ne by lia. done.
      * exists owner0, sc0. split; [done|].
        split; [by rewrite list_lookup_insert_ne|]. done.
  - intros i sc' Hsc'. destruct (decide (i = owner)) as [->|Hne].
    + rewrite list_lookup_insert_eq in Hsc' by (by eapply lookup_lt_Some).
      injection Hsc' as <-. cbn [_groups set_groups set_updatedResourceGroups].
      apply map_delete_NoDup. by eapply Hnodup.
    + rewrite list_lookup_insert_ne in Hsc' by done. by eapply Hnodup.
Qed.

End ShapeFacts.

Lemma list_filter_True_id {A} (P : A -> Prop) `{forall x, Decision (P x)} (l : list A) :
  Forall P l -> filter P l = l.
Proof.
  induction 1 as [|x l Hx Hl IH]; [done|]. by rewrite filter_cons_True, IH.
Qed.

Section QuietFacts.
Context `{Host}.
Import ExtHostSourceControlResourceGroup ExtHostSourceControl.

#[local] Instance same_links_sc_reflexive : Reflexive same_links_sc.
Proof. by intros sc. Qed.
#[local] Instance same_links_sc_transitive : Transitive same_links_sc.
Proof. intros a b c ? ?. unfold same_links_sc in *. destruct_and!. split_and!; congruence. Qed.
#[local] Instance same_links_reflexive : Reflexive same_links.
Proof. by intros g. Qed.
#[local] Instance same_links_transitive : Transitive same_links.
Proof. intros a b c ? ?. unfold same_links in *. destruct_and!. split_and!; congruence. Qed.
#[local] Instance same_shown_reflexive : Reflexive same_shown.
Proof. by intros g. Qed.
#[local] Instance same_shown_transitive : Transitive same_shown.
Proof. intros a b c ? ?. unfold same_shown in *. destruct_and!. split_and!; congruence. Qed.

#[local] Instance same_objects_reflexive : Reflexive same_objects.
Proof. intros w. by unfold same_objects. Qed.
#[local] Instance same_objects_transitive : Transitive same_objects.
Proof.
  intros a b c (? & ? & ? & ? & ? & ? & ?) (? & ? & ? & ? & ? & ? & ?).
  unfold same_objects. split_and!; try congruence; by etrans.
Qed.

Lemma same_objects_refl w : same_objects w w.
Proof. reflexivity. Qed.

Lemma shape_quiet w w' : same_objects w w' -> world_shape w -> world_shape w'.
Proof. intros (? & ? & ? & ? & ? & ? & ?). by apply shape_frame. Qed.

Lemma send_quiet call w : same_objects w (send call w).
Proof. by unfold same_objects. Qed.

Lemma notify_quiet event w : same_objects w (notify event w).
Proof. by unfold same_objects. Qed.

Lemma put_executed_quiet v w : same_objects w (put_executed v w).
Proof. by unfold same_objects. Qed.

Lemma put_selected_quiet v w : same_objects w (put_selectedSourceControlHandle v w).
Proof. by unfold same_objects. Qed.

Lemma updateSourceControlAt_quiet i f w :
  (forall sc, same_links_sc sc (f sc)) -> same_objects w (updateSourceControlAt i f w).
Proof.
  intros Hf. unfold same_objects. world_cbn. split_and!; try done.
  apply Forall2_alter_r; [done|]. intros x y _ _ Hxy. etrans; [exact Hxy|apply Hf].
Qed.

Lemma updateGroupAt_quiet i f w :
  (forall g, same_links g (f g)) -> (forall g, same_shown g (f g)) ->
  same_objects w (updateGroupAt i f w).
Proof.
  intros Hf1 Hf2. unfold same_objects. world_cbn. split_and!; try done.
  - apply Forall2_alter_r; [done|]. intros x y _ _ Hxy. etrans; [exact Hxy|apply Hf1].
  - apply Forall2_alter_r; [done|]. intros x y _ _ Hxy. etrans; [exact Hxy|apply Hf2].
Qed.

Lemma set_value_quiet sourceControl value w :
  same_objects w (ScmInputBoxImpl.set_value sourceControl value w).
Proof.
  unfold ScmInputBoxImpl.set_value. destruct (sourceControlStore w !! sourceControl); [|done].
  unfold ScmInputBoxImpl.updateValue.
  etrans; [apply send_quiet|]. etrans; [|apply notify_quiet].
  by apply updateSourceControlAt_quiet.
Qed.

Lemma assignPlaceholder_quiet sourceControl placeholder w :
  same_objects w (assignPlaceholder sourceControl placeholder w).
Proof.
  unfold assignPlaceholder. destruct (sourceControlStore w !! sourceControl); [|done].
  etrans; [apply send_quiet|]. by apply updateSourceControlAt_quiet.
Qed.

Lemma onInputBoxValueChange_quiet h value w :
  same_objects w (ScmExtImpl.onInputBoxValueChange h value w).2.
Proof.
  unfold ScmExtImpl.onInputBoxValueChange.
  destruct (ScmExtImpl.sourceControlAt w h) as [[i sc]|]; [|done]. cbn [snd].
  unfold ScmInputBoxImpl.onInputBoxValueChange, ScmInputBoxImpl.updateValue.
  etrans; [|apply notify_quiet]. by apply updateSourceControlAt_quiet.
Qed.

Lemma executeResourceCommand_quiet h gh handle0 preserveFocus w :
  same_objects w (ScmExtImpl.executeResourceCommand h gh handle0 preserveFocus w).2.
Proof.
  unfold ScmExtImpl.executeResourceCommand.
  destruct (ScmExtImpl.sourceControlAt w h) as [[i sc]|]; [|done].
  destruct (_ ≫= _) as [g|]; [|done].
  destruct (executeResourceCommand g handle0 preserveFocus) as [promise [e|]]; [|done].
  apply put_executed_quiet.
Qed.

Lemma selectIfRegistered_quiet h selected w :
  same_objects w (ScmExtImpl.selectIfRegistered h selected w).
Proof.
  unfold ScmExtImpl.selectIfRegistered.
  destruct (ScmExtImpl.sourceControlAt w h) as [[i sc]|]; [|done].
  unfold setSelectionState. etrans; [|apply notify_quiet].
  by apply updateSourceControlAt_quiet.
Qed.

Lemma setSelectedSourceControl_quiet selected w :
  same_objects w (ScmExtImpl.setSelectedSourceControl selected w).2.
Proof.
  unfold ScmExtImpl.setSelectedSourceControl. cbn [snd].
  etrans; [|apply put_selected_quiet].
  set (w1 := match selected with Some _ => _ | None => _ end).
  assert (same_objects w w1) as Hw1.
  { unfold w1. destruct selected; [apply selectIfRegistered_quiet|done]. }
  etrans; [exact Hw1|].
  destruct (_selectedSourceControlHandle w1); [apply selectIfRegistered_quiet|done].
Qed.

(** An assignment to a group that no source control listens to is kept by
    the group and goes no further. *)
Lemma assign_unregistered_spec group resources0 w g :
  groupStore w !! group = Some g ->
  _onDidUpdateResourceStates g = [] ->
  assignGroupResourceStates group resources0 w =
    updateGroupAt group (assignResourceStates resources0) w.
Proof. intros Hg Hl. unfold assignGroupResourceStates. by rewrite Hg, Hl. Qed.

Lemma assign_unregistered_quiet group resources0 w :
  same_objects w (updateGroupAt group (assignResourceStates resources0) w).
Proof. by apply updateGroupAt_quiet. Qed.

End QuietFacts.

(** * What the main side shows *)

Section ShownFacts.
Context `{Host}.
Import PluginScmProvider.

Lemma group_shown_same_shown g g' mg :
  same_shown g g' -> group_shown g mg -> group_shown g' mg.
Proof.
  intros (Hh & Hs & Hi & Hl & Hw) (? & ? & ? & ? & ? & ?). unfold group_shown.
  unfold ExtHostSourceControl.features in *. rewrite Hh, Hs, Hi, Hl, Hw. by split_and!.
Qed.

(** Nothing changed for the group handle [gh]. *)
Lemma shown_unchanged w w' sc sc' p p' gh :
  p_handle p' = p_handle p ->
  groupByHandle p' gh = groupByHandle p gh ->
  map_get (_groups sc') gh = map_get (_groups sc) gh ->
  (forall j g, map_get (_groups sc) gh = Some j -> groupStore w !! j = Some g ->
     exists g', groupStore w' !! j = Some g' /\ same_shown g g') ->
  shown_at w sc p gh -> shown_at w' sc' p' gh.
Proof.
  intros Hp Hby Hget Hgroups. unfold shown_at. rewrite Hby, Hget.
  destruct (groupByHandle p gh) as [[k mg]|]; [|done].
  intros (j & g & Hj & Hg & Hshown).
  destruct (Hgroups j g Hj Hg) as (g' & Hg' & Hsame).
  exists j, g'. split_and!; try done. by eapply group_shown_same_shown.
Qed.

Lemma provider_shows_frame w w' i p :
  (forall sc, sourceControlStore w !! i = Some sc ->
     exists sc', sourceControlStore w' !! i = Some sc' /\ _groups sc' = _groups sc) ->
  (forall sc gh j g,
     sourceControlStore w !! i = Some sc -> map_get (_groups sc) gh = Some j ->
     groupStore w !! j = Some g ->
     exists g', groupStore w' !! j = Some g' /\ same_shown g g') ->
  provider_shows w i p -> provider_shows w' i p.
Proof.
  intros Hscs Hgs (sc & Hsc & Hlisted & Hall).
  destruct (Hscs sc Hsc) as (sc' & Hsc' & Hgroups).
  exists sc'. split; [done|]. split; [by rewrite Hgroups|]. intros gh.
  apply (shown_unchanged w w' sc sc' p p gh); try done.
  - by rewrite Hgroups.
  - intros j g. by apply Hgs.
Qed.

Lemma provider_shows_quiet w w' i p :
  same_objects w w' -> provider_shows w i p -> provider_shows w' i p.
Proof.
  intros (_ & _ & _ & _ & Hscs & _ & Hgs). apply provider_shows_frame.
  - intros sc Hsc. destruct (Forall2_lookup_l _ _ _ _ _ Hscs Hsc) as (sc' & Hsc' & Hl).
    exists sc'. split; [done|]. by destruct Hl as (_ & _ & _ & _ & ?).
  - intros sc gh j g _ _ Hg. by apply (Forall2_lookup_l _ _ _ _ _ Hgs Hg).
Qed.

Lemma shows_quiet w w' m : same_objects w w' -> shows w m -> shows w' m.
Proof.
  intros Hsame Hshows h repo Hrepo. destruct (Hshows h repo Hrepo) as (i & -> & Hp).
  exists i. split; [done|]. by eapply provider_shows_quiet.
Qed.

(** A provider that lists the same group objects for the same handles is
    listed as before. *)
Lemma listed_as_same p p' handles :
  groups p' = groups p ->
  (forall gh i mg, groupByHandle p gh = Some (i, mg) ->
     exists mg', groupByHandle p' gh = Some (i, mg')) ->
  listed_as p handles -> listed_as p' handles.
Proof.
  intros Hgroups Hby Hlisted. unfold listed_as in *. rewrite Hgroups.
  eapply Forall2_impl; [exact Hlisted|]. intros i gh [mg Hmg]. by eapply Hby.
Qed.

Lemma provider_shows_ext w i p p' :
  p_handle p' = p_handle p ->
  groups p' = groups p ->
  (forall gh, groupByHandle p' gh = groupByHandle p gh) ->
  provider_shows w i p -> provider_shows w i p'.
Proof.
  intros Hp Hgroups Hby (sc & Hsc & Hlisted & Hall). exists sc. split; [done|].
  split.
  { apply (listed_as_same p); [done| |done]. intros gh k mg Hmg. exists mg.
    by rewrite Hby. }
  intros gh.
  apply (shown_unchanged w w sc sc p p' gh); try done.
  intros j g _ Hg. by exists g.
Qed.

(** What a call does to the repositories. *)
Lemma receive_provider call m h :
  keeps_repositories call ->
  provider <$> (_repositories (ScmMainImpl.receive call m).2 !! h) =
    (fun r => if decide (h = addressee call) then provider_after call (provider r)
              else provider r) <$> (_repositories m !! h).
Proof.
  assert (forall a p events,
            provider <$> (_repositories (put_repository a p events m) !! h) =
              (fun r => if decide (h = a) then p else provider r)
                <$> (_repositories m !! h)) as Hput.
  { intros a p events. unfold put_repository.
    destruct (_repositories m !! a) as [r|] eqn:Hr.
    - cbn [_repositories]. destruct (decide (h = a)) as [->|Hne].
      + by rewrite lookup_insert_eq, Hr.
      + rewrite lookup_insert_ne by done. by destruct (_repositories m !! h).
    - destruct (decide (h = a)) as [->|Hne]; [by rewrite Hr|].
      by destruct (_repositories m !! h). }
  assert (forall a (f : ScmRepository -> ScmRepository),
            (forall r, provider (f r) = provider r) ->
            provider <$> (_repositories
                            match _repositories m !! a with
                            | None => (Resolved tt, m)
                            | Some r =>
                                (Resolved tt,
                                 mkMainWorld (<[a := f r]> (_repositories m))
                                   (_repositoryDisposables m) (fired m))
                            end.2 !! h) =
              (fun r => if decide (h = a) then provider r else provider r)
                <$> (_repositories m !! h)) as Hinput.
  { intros a f Hf. destruct (_repositories m !! a) as [r|] eqn:Hr; cbn [snd _repositories].
    - destruct (decide (h = a)) as [->|Hne].
      + rewrite lookup_insert_eq, Hr. cbn. by rewrite Hf.
      + rewrite lookup_insert_ne by done. by destruct (_repositories m !! h).
    - destruct (_repositories m !! h); cbn; [|done]. by destruct (decide (h = a)). }
  destruct call as [a id label rootUri|a features|a|a entries batch|a gh features
                   |a gh label|a batch|a gh|a value|a placeholder|a visible];
    cbn [keeps_repositories]; intros Hkeeps; try done;
    cbn [ScmMainImpl.receive addressee provider_after].
  - unfold ScmMainImpl.updateSourceControl.
    destruct (_repositories m !! a) as [r|] eqn:Hr.
    + destruct (updateSourceControl (provider r) features) as [p events] eqn:Hp.
      cbn [snd]. rewrite Hput. destruct (decide (h = a)) as [->|Hne].
      * rewrite Hr. unfold fmap, option_fmap, option_map. by rewrite Hp.
      * by destruct (_repositories m !! h).
    + cbn [snd]. destruct (decide (h = a)) as [->|Hne]; [by rewrite Hr|].
      by destruct (_repositories m !! h).
  - unfold ScmMainImpl.registerGroups, ScmMainImpl.settle.
    destruct (_repositories m !! a) as [r|] eqn:Hr.
    + destruct (spliceGroupResourceStates _ _) as [[p events]|[p events]] eqn:Hp.
      all: cbn [snd]; rewrite Hput; destruct (decide (h = a)) as [->|Hne];
        [rewrite Hr; cbn; by rewrite Hp|by destruct (_repositories m !! h)].
    + cbn [snd]. destruct (decide (h = a)) as [->|Hne]; [by rewrite Hr|].
      by destruct (_repositories m !! h).
  - unfold ScmMainImpl.updateGroup.
    destruct (_repositories m !! a) as [r|] eqn:Hr.
    + destruct (updateGroup (provider r) gh features) as [p events] eqn:Hp.
      cbn [snd]. rewrite Hput. destruct (decide (h = a)) as [->|Hne].
      * rewrite Hr. unfold fmap, option_fmap, option_map. by rewrite Hp.
      * by destruct (_repositories m !! h).
    + cbn [snd]. destruct (decide (h = a)) as [->|Hne]; [by rewrite Hr|].
      by destruct (_repositories m !! h).
  - unfold ScmMainImpl.updateGroupLabel.
    destruct (_repositories m !! a) as [r|] eqn:Hr.
    + destruct (updateGroupLabel (provider r) gh label) as [p events] eqn:Hp.
      cbn [snd]. rewrite Hput. destruct (decide (h = a)) as [->|Hne].
      * rewrite Hr. unfold fmap, option_fmap, option_map. by rewrite Hp.
      * by destruct (_repositories m !! h).
    + cbn [snd]. destruct (decide (h = a)) as [->|Hne]; [by rewrite Hr|].
      by destruct (_repositories m !! h).
  - unfold ScmMainImpl.spliceResourceStates, ScmMainImpl.settle.
    destruct (_repositories m !! a) as [r|] eqn:Hr.
    + destruct (spliceGroupResourceStates (provider r) _) as [[p events]|[p events]] eqn:Hp.
      all: cbn [snd]; rewrite Hput; destruct (decide (h = a)) as [->|Hne];
        [rewrite Hr; cbn; by rewrite Hp|by destruct (_repositories m !! h)].
    + cbn [snd]. destruct (decide (h = a)) as [->|Hne]; [by rewrite Hr|].
      by destruct (_repositories m !! h).
  - unfold ScmMainImpl.unregisterGroup.
    destruct (_repositories m !! a) as [r|] eqn:Hr.
    + cbn [snd]. rewrite Hput. destruct (decide (h = a)) as [->|Hne].
      * by rewrite Hr.
      * by destruct (_repositories m !! h).
    + cbn [snd]. destruct (decide (h = a)) as [->|Hne]; [by rewrite Hr|].
      by destruct (_repositories m !! h).
  - unfold ScmMainImpl.setInputBoxValue.
    apply (Hinput a (fun r => mkRepository (provider r) value (input_placeholder r))). done.
  - unfold ScmMainImpl.setInputBoxPlaceholder.
    apply (Hinput a (fun r => mkRepository (provider r) (input_value r) placeholder)). done.
  - unfold ScmMainImpl.setInputBoxVisibility. cbn [snd].
    destruct (_repositories m !! h); cbn; [|done]. by destruct (decide (h = a)).
Qed.

(** The main side shows the world after a call when the provider the call
    is addressed to does, and no other provider is concerned. *)
Lemma shows_receive w w' call m :
  keeps_repositories call -> mirror_ok m -> shows w m ->
  (forall i p,
     addressee call = Z.of_nat i -> p_handle p = Z.of_nat i -> registry_ok p ->
     provider_shows w i p -> provider_shows w' i (provider_after call p)) ->
  (forall i p,
     addressee call <> Z.of_nat i -> provider_shows w i p -> provider_shows w' i p) ->
  shows w' (ScmMainImpl.receive call m).2.
Proof.
  intros Hkeeps [_ Hm] Hshows Hthis Hother h repo' Hrepo'.
  pose proof (receive_provider call m h Hkeeps) as Hp. rewrite Hrepo' in Hp.
  destruct (_repositories m !! h) as [repo|] eqn:Hrepo; [|done].
  cbn in Hp. injection Hp as Hp.
  destruct (Hshows h repo Hrepo) as (i & -> & Hshown).
  destruct (Hm _ repo Hrepo) as [Hh Hok].
  exists i. split; [done|]. rewrite Hp.
  destruct (decide (Z.of_nat i = addressee call)) as [Ha|Ha].
  - by apply Hthis.
  - apply Hother; [|done]. by intros ?.
Qed.

Lemma shows_harmless w w' call m :
  harmless call -> same_objects w w' -> mirror_ok m -> shows w m ->
  shows w' (ScmMainImpl.receive call m).2.
Proof.
  intros [Hkeeps Hcall] Hsame Hm Hshows. apply (shows_receive w); try done.
  - intros i p _ _ _ Hp. destruct (Hcall p) as (Hh & Hgroups & Hby).
    eapply provider_shows_ext; [exact Hh|exact Hgroups|exact Hby|].
    by eapply provider_shows_quiet.
  - intros i p _. by apply provider_shows_quiet.
Qed.

Lemma deliver_one call m : (deliver [call] m).2 = (ScmMainImpl.receive call m).2.
Proof. unfold deliver. cbn. by destruct (ScmMainImpl.receive call m). Qed.

Lemma deliver_app calls1 calls2 m :
  (deliver (calls1 ++ calls2) m).2 = (deliver calls2 (deliver calls1 m).2).2.
Proof.
  revert m. induction calls1 as [|call calls1 IH]; intros m; [done|].
  unfold deliver in *. cbn [app map_state].
  destruct (ScmMainImpl.receive call m) as [answer m1]. specialize (IH m1).
  destruct (map_state _ m1 (calls1 ++ calls2)) as [answers m2].
  destruct (map_state _ m1 calls1) as [answers1 m3]. cbn in *. done.
Qed.

End ShownFacts.

Section ProviderCalls.
Context `{Host}.
Import PluginScmProvider.

Lemma registry_index_inj p h h' i :
  registry_ok p ->
  _groupsByHandle p !! h = Some i -> _groupsByHandle p !! h' = Some i -> h = h'.
Proof.
  intros (_ & _ & Hby) H1 H2.
  destruct (Hby h i H1) as (_ & g & Hg & <-).
  destruct (Hby h' i H2) as (_ & g' & Hg' & <-). congruence.
Qed.

(** Looking up a handle after the group object of the handle [gh] was
    replaced. *)
Lemma groupByHandle_put p i mg mg' gh gh' :
  registry_ok p ->
  groupByHandle p gh = Some (i, mg) ->
  groupByHandle (set_groupObjects (<[i := mg']> (groupObjects p)) p) gh' =
    if decide (gh' = gh) then Some (i, mg') else groupByHandle p gh'.
Proof.
  intros Hok [Hi Hmg]%groupByHandle_Some. unfold groupByHandle.
  cbn [_groupsByHandle groupObjects set_groupObjects].
  destruct (decide (gh' = gh)) as [->|Hne].
  - rewrite Hi. cbn. by rewrite list_lookup_insert_eq by (by eapply lookup_lt_Some).
  - destruct (_groupsByHandle p !! gh') as [i'|] eqn:Hi'; [|done]. cbn.
    rewrite list_lookup_insert_ne; [done|]. intros <-. apply Hne.
    by eapply registry_index_inj.
Qed.

Lemma after_register p h entry :
  registry_ok p ->
  let p' := provider_after (Main_registerGroups h [entry] []) p in
  p_handle p' = p_handle p
  /\ forall gh,
       groupByHandle p' gh =
         if decide (gh = ge_handle entry)
         then Some (length (groupObjects p), registeredMirrorGroup p entry)
         else groupByHandle p gh.
Proof.
  intros Hok. cbn [provider_after]. rewrite spliceGroupResourceStates_objects_left.
  split; [done|]. intros gh. unfold groupByHandle, registerGroups.
  cbn [map_state _groupsByHandle groupObjects].
  destruct (decide (gh = ge_handle entry)) as [->|Hne].
  - rewrite lookup_insert_eq. cbn. by rewrite lookup_snoc.
  - rewrite lookup_insert_ne by done.
    destruct (_groupsByHandle p !! gh) as [i|] eqn:Hi; [|done]. cbn.
    destruct Hok as (_ & _ & Hby). destruct (Hby gh i Hi) as (_ & g & Hg & _).
    rewrite Hg. by rewrite (lookup_app_l_Some _ _ _ _ Hg).
Qed.

Lemma harmless_register_nothing h : harmless (Main_registerGroups h [] []).
Proof.
  split; [done|]. intros p. cbn [provider_after]. rewrite spliceGroupResourceStates_objects_left.
  split; [done|]. split; [|done].
  unfold registerGroups. cbn [map_state groups]. by rewrite array_splice_append, app_nil_r.
Qed.

Lemma harmless_setInputBoxValue h value : harmless (Main_setInputBoxValue h value).
Proof. by split. Qed.

Lemma harmless_setInputBoxPlaceholder h placeholder :
  harmless (Main_setInputBoxPlaceholder h placeholder).
Proof. by split. Qed.

(** The main side does nothing with the splices of the extension host. *)
Lemma harmless_splice h batch : harmless (Main_spliceResourceStates h batch).
Proof.
  split; [done|]. intros p. cbn [provider_after].
  by rewrite spliceGroupResourceStates_objects_left.
Qed.

Lemma after_unregister p h gh :
  let p' := provider_after (Main_unregisterGroup h gh) p in
  p_handle p' = p_handle p
  /\ forall gh',
       groupByHandle p' gh' = if decide (gh' = gh) then None else groupByHandle p gh'.
Proof.
  cbn [provider_after]. unfold unregisterGroup.
  destruct (groupByHandle p gh) as [[i mg]|] eqn:Hgroup.
  - split; [done|]. intros gh'. unfold groupByHandle at 1.
    cbn [_groupsByHandle groupObjects].
    destruct (decide (gh' = gh)) as [->|Hne].
    + by rewrite lookup_delete_eq.
    + by rewrite lookup_delete_ne.
  - split; [done|]. intros gh'.
    destruct (decide (gh' = gh)) as [->|]; [by rewrite Hgroup|done].
Qed.

Lemma after_label p h gh label :
  registry_ok p ->
  let p' := provider_after (Main_updateGroupLabel h gh label) p in
  p_handle p' = p_handle p
  /\ forall gh',
       groupByHandle p' gh' =
         if decide (gh' = gh)
         then prod_map id (fun mg => PluginScmResourceGroup.updateGroupLabel mg label)
                <$> groupByHandle p gh
         else groupByHandle p gh'.
Proof.
  intros Hok. cbn [provider_after]. unfold updateGroupLabel.
  destruct (groupByHandle p gh) as [[i mg]|] eqn:Hgroup; cbn [fst].
  - split; [done|]. intros gh'.
    rewrite (groupByHandle_put p i mg _ gh gh' Hok Hgroup).
    by destruct (decide (gh' = gh)).
  - split; [done|]. intros gh'.
    destruct (decide (gh' = gh)) as [->|]; [by rewrite Hgroup|done].
Qed.

Lemma after_features p h gh features :
  registry_ok p ->
  let p' := provider_after (Main_updateGroup h gh features) p in
  p_handle p' = p_handle p
  /\ forall gh',
       groupByHandle p' gh' =
         if decide (gh' = gh)
         then prod_map id (fun mg => PluginScmResourceGroup.updateGroup mg features)
                <$> groupByHandle p gh
         else groupByHandle p gh'.
Proof.
  intros Hok. cbn [provider_after]. unfold updateGroup.
  destruct (groupByHandle p gh) as [[i mg]|] eqn:Hgroup; cbn [fst].
  - split; [done|]. intros gh'.
    rewrite (groupByHandle_put p i mg _ gh gh' Hok Hgroup).
    by destruct (decide (gh' = gh)).
  - split; [done|]. intros gh'.
    destruct (decide (gh' = gh)) as [->|]; [by rewrite Hgroup|done].
Qed.

(** What the calls do to [groups]. *)
Lemma groups_after_register p h entry :
  groups (provider_after (Main_registerGroups h [entry] []) p)
  = groups p ++ [length (groupObjects p)].
Proof.
  cbn [provider_after]. rewrite spliceGroupResourceStates_objects_left. unfold registerGroups.
  cbn [map_state groups]. by rewrite array_splice_append.
Qed.

Lemma groups_after_label p h gh label :
  groups (provider_after (Main_updateGroupLabel h gh label) p) = groups p.
Proof.
  cbn [provider_after]. unfold updateGroupLabel.
  by destruct (groupByHandle p gh) as [[i mg]|].
Qed.

Lemma groups_after_features p h gh features :
  groups (provider_after (Main_updateGroup h gh features) p) = groups p.
Proof.
  cbn [provider_after]. unfold updateGroup.
  by destruct (groupByHandle p gh) as [[i mg]|].
Qed.

Lemma groups_after_unregister p h gh :
  registry_ok p ->
  groups (provider_after (Main_unregisterGroup h gh) p) =
    match groupByHandle p gh with
    | Some (i, _) => filter (fun j => j <> i) (groups p)
    | None => groups p
    end.
Proof.
  intros Hok. cbn [provider_after].
  destruct (groupByHandle p gh) as [[i mg]|] eqn:Hgroup.
  - by destruct (unregisterGroup_spec p gh i mg Hok Hgroup) as (Hg & _).
  - unfold unregisterGroup. by rewrite Hgroup.
Qed.

Lemma Forall2_filter_both {A B} (R R' : A -> B -> Prop) (P : A -> Prop) (Q : B -> Prop)
    `{forall x, Decision (P x)} `{forall y, Decision (Q y)} (l : list A) (k : list B) :
  Forall2 R l k -> (forall x y, R x y -> (P x <-> Q y)) ->
  (forall x y, R x y -> Q y -> R' x y) ->
  Forall2 R' (filter P l) (filter Q k).
Proof.
  intros Hl HPQ HR. induction Hl as [|x y l k Hxy Hl IH]; [constructor|].
  destruct (decide (P x)) as [Hx|Hx].
  - assert (Q y) as Hy by (by apply (HPQ x y)).
    rewrite !filter_cons_True by done. constructor; [by apply HR|done].
  - assert (~ Q y) as Hy by (by rewrite <- (HPQ x y)).
    by rewrite !filter_cons_False by done.
Qed.

End ProviderCalls.

Section ShownOverTime.
Context `{Host}.
Import ExtHostSourceControlResourceGroup ExtHostSourceControl.

Lemma group_exact_field (f : Group -> Group) g :
  _resourceHandlePool (f g) = _resourceHandlePool g ->
  _resourceStatesMap (f g) = _resourceStatesMap g ->
  _resourceStatesCommandsMap (f g) = _resourceStatesCommandsMap g ->
  _resourceStatesDisposablesMap (f g) = _resourceStatesDisposablesMap g ->
  _handlesSnapshot (f g) = _handlesSnapshot g ->
  _resourceSnapshot (f g) = _resourceSnapshot g ->
  group_exact g -> group_exact (f g).
Proof.
  intros Hp Hm Hc Hd Hh Hs [Hok [held Htracks]]. split.
  - unfold group_ok, pool_fresh in *. rewrite Hp, Hm, Hc, Hd, Hh, Hs. done.
  - exists held. unfold tracks in *. by rewrite Hm, Hc, Hh.
Qed.

Lemma perform_exact op w :
  Forall group_exact (groupStore w) -> Forall group_exact (groupStore (perform w op)).
Proof.
  apply (perform_P group_exact); [apply group_exact_new|..|apply group_exact_snapshot].
  all: intros v g; by apply (group_exact_field (fun g => _ v g)).
Qed.

Lemma shape_sc w i sc :
  world_shape w -> sourceControlStore w !! i = Some sc ->
  sc_handle sc = Z.of_nat i
  /\ ib_sourceControlHandle (_inputBox sc) = Z.of_nat i
  /\ createdResourceGroups sc = []
  /\ updatedResourceGroups sc = [].
Proof.
  intros (_ & _ & _ & _ & Hsc & _) Hi. destruct (Hsc i sc Hi) as (? & ? & ? & ? & _). done.
Qed.

Lemma shape_groups w i sc gh k :
  world_shape w -> sourceControlStore w !! i = Some sc ->
  map_get (_groups sc) gh = Some k ->
  gh = Z.of_nat k
  /\ exists g, groupStore w !! k = Some g /\ _sourceControlHandle g = Z.of_nat i.
Proof.
  intros (_ & _ & _ & _ & Hsc & _) Hi. destruct (Hsc i sc Hi) as (_ & _ & _ & _ & Hg).
  apply Hg.
Qed.

Lemma shape_group w j g :
  world_shape w -> groupStore w !! j = Some g ->
  handle g = Z.of_nat j
  /\ exists owner sc,
       _sourceControlHandle g = Z.of_nat owner
       /\ sourceControlStore w !! owner = Some sc
       /\ _onDidDispose g = [Unregister owner]
       /\ (_onDidUpdateResourceStates g = [MarkUpdated owner]
           /\ _disposed g = false
           /\ map_get (_groups sc) (Z.of_nat j) = Some j
           \/ _onDidUpdateResourceStates g = []
              /\ _disposed g = true
              /\ map_get (_groups sc) (Z.of_nat j) = None).
Proof. intros (_ & _ & _ & _ & _ & Hg & _). apply Hg. Qed.

(** A change of the group at [j] does not concern the provider of a source
    control that does not own it. *)
Lemma other_provider_frame w w' i p j g owner :
  world_shape w -> groupStore w !! j = Some g ->
  _sourceControlHandle g = Z.of_nat owner -> i <> owner ->
  sourceControlStore w' !! i = sourceControlStore w !! i ->
  (forall k, k <> j -> groupStore w' !! k = groupStore w !! k) ->
  provider_shows w i p -> provider_shows w' i p.
Proof.
  intros Hshape Hg Hown Hne Hscs Hgs. apply provider_shows_frame.
  - intros sc Hsc. exists sc. by rewrite Hscs.
  - intros sc gh k g0 Hsc Hget Hg0.
    destruct (shape_groups w i sc gh k Hshape Hsc Hget) as (_ & g1 & Hg1 & Hown1).
    exists g0. split; [|done]. rewrite Hgs; [done|].
    intros ->. assert (g1 = g) as -> by congruence. rewrite Hown in Hown1. lia.
Qed.

(** Nor does it concern what the provider of its owner has under another
    handle. *)
Lemma other_handle_shown w w' i sc sc' p p' gh j :
  world_shape w -> sourceControlStore w !! i = Some sc ->
  gh <> Z.of_nat j ->
  p_handle p' = p_handle p ->
  groupByHandle p' gh = groupByHandle p gh ->
  map_get (_groups sc') gh = map_get (_groups sc) gh ->
  (forall k, k <> j -> groupStore w' !! k = groupStore w !! k) ->
  shown_at w sc p gh -> shown_at w' sc' p' gh.
Proof.
  intros Hshape Hsc Hne Hp Hby Hget Hgs. apply shown_unchanged; try done.
  intros k g Hk Hg. destruct (shape_groups w i sc gh k Hshape Hsc Hk) as (-> & _).
  exists g. split; [|done]. rewrite Hgs; [done|]. intros ->. done.
Qed.

Lemma step_shown_refl w :
  world_shape w -> Forall group_exact (groupStore w) -> step_shown w w.
Proof.
  intros Hshape Hexact. split; [done|]. split; [done|].
  exists []. split; [by rewrite app_nil_r|]. done.
Qed.

Lemma step_shown_trans w1 w2 w3 : step_shown w1 w2 -> step_shown w2 w3 -> step_shown w1 w3.
Proof.
  intros (_ & _ & calls1 & Hout1 & Hshows1) (Hshape & Hexact & calls2 & Hout2 & Hshows2).
  split; [done|]. split; [done|]. exists (calls1 ++ calls2).
  split; [by rewrite Hout2, Hout1, app_assoc|].
  intros m Hm Hshows. rewrite deliver_app. apply Hshows2.
  - by apply deliver_ok.
  - by apply Hshows1.
Qed.

Lemma keeps_shown_foldl {A} (f : ExtWorld -> A -> ExtWorld) (l : list A) :
  (forall x, keeps_shown (fun w => f w x)) -> keeps_shown (fun w => foldl f w l).
Proof.
  intros Hf. induction l as [|x l IH]; intros w Hshape Hexact; cbn [foldl].
  - by apply step_shown_refl.
  - destruct (Hf x w Hshape Hexact) as (Hshape1 & Hexact1 & Hrest).
    eapply step_shown_trans; [by split|]. by apply IH.
Qed.

(** A step that changes nothing the main side could tell, and sends only
    calls that leave the groups alone. *)
Lemma step_shown_quiet w w' calls :
  world_shape w -> same_objects w w' -> Forall group_exact (groupStore w') ->
  outbox w' = outbox w ++ calls -> Forall harmless calls ->
  step_shown w w'.
Proof.
  intros Hshape Hsame Hexact Hout Hcalls. split; [by eapply shape_quiet|].
  split; [done|]. exists calls. split; [done|].
  intros m Hm Hshows. eapply shows_quiet; [exact Hsame|].
  clear Hout. revert m Hm Hshows.
  induction Hcalls as [|call calls Hcall _ IH]; intros m Hm Hshows; [done|].
  change (call :: calls) with ([call] ++ calls). rewrite deliver_app, deliver_one.
  apply IH.
  - by apply receive_ok.
  - apply (shows_harmless w w); try done. apply same_objects_refl.
Qed.

End ShownOverTime.

Section ActionsShown.
Context `{Host}.
Import ExtHostSourceControlResourceGroup ExtHostSourceControl.

Lemma same_shown_same g : same_shown g g.
Proof. by unfold same_shown. Qed.

Lemma selectIfRegistered_outbox h selected w :
  outbox (ScmExtImpl.selectIfRegistered h selected w) = outbox w.
Proof.
  unfold ScmExtImpl.selectIfRegistered.
  by destruct (ScmExtImpl.sourceControlAt w h) as [[i sc]|].
Qed.

Lemma set_value_shown sourceControl value :
  keeps_shown (ScmInputBoxImpl.set_value sourceControl value).
Proof.
  intros w Hshape Hexact.
  apply (step_shown_quiet w _
           (match sourceControlStore w !! sourceControl with
            | Some sc => [Main_setInputBoxValue (ib_sourceControlHandle (_inputBox sc)) value]
            | None => []
            end)); try done.
  - apply set_value_quiet.
  - by apply (perform_exact (SetInputBoxValue sourceControl value)).
  - unfold ScmInputBoxImpl.set_value.
    destruct (sourceControlStore w !! sourceControl); [done|by rewrite app_nil_r].
  - destruct (sourceControlStore w !! sourceControl); [|done].
    constructor; [apply harmless_setInputBoxValue|done].
Qed.

Lemma assignPlaceholder_shown sourceControl placeholder :
  keeps_shown (assignPlaceholder sourceControl placeholder).
Proof.
  intros w Hshape Hexact.
  apply (step_shown_quiet w _
           (match sourceControlStore w !! sourceControl with
            | Some sc =>
                [Main_setInputBoxPlaceholder (ib_sourceControlHandle (_inputBox sc))
                   placeholder]
            | None => []
            end)); try done.
  - apply assignPlaceholder_quiet.
  - unfold assignPlaceholder. by destruct (sourceControlStore w !! sourceControl).
  - unfold assignPlaceholder.
    destruct (sourceControlStore w !! sourceControl); [done|by rewrite app_nil_r].
  - destruct (sourceControlStore w !! sourceControl); [|done].
    constructor; [apply harmless_setInputBoxPlaceholder|done].
Qed.

Lemma eventuallyAddResourceGroups_shown this : keeps_shown (eventuallyAddResourceGroups this).
Proof.
  intros w Hshape Hexact.
  destruct (sourceControlStore w !! this) as [sc|] eqn:Hsc; cycle 1.
  { unfold eventuallyAddResourceGroups. rewrite Hsc. by apply step_shown_refl. }
  destruct (shape_sc w this sc Hshape Hsc) as (_ & _ & Hcreated & _).
  rewrite (add_flush_nothing_pending this w sc Hsc Hcreated).
  apply (step_shown_quiet w _ [Main_registerGroups (sc_handle sc) [] []]); try done.
  - apply send_quiet.
  - constructor; [apply harmless_register_nothing|done].
Qed.

Lemma eventuallyUpdateResourceStates_shown this :
  keeps_shown (eventuallyUpdateResourceStates this).
Proof.
  intros w Hshape Hexact.
  destruct (sourceControlStore w !! this) as [sc|] eqn:Hsc; cycle 1.
  { unfold eventuallyUpdateResourceStates. rewrite Hsc. by apply step_shown_refl. }
  destruct (shape_sc w this sc Hshape Hsc) as (_ & _ & _ & Hupdated).
  rewrite (update_flush_nothing_pending this w sc Hsc Hupdated).
  by apply step_shown_refl.
Qed.

Lemma onInputBoxValueChange_shown h value :
  keeps_shown (fun w => (ScmExtImpl.onInputBoxValueChange h value w).2).
Proof.
  intros w Hshape Hexact. apply (step_shown_quiet w _ []); try done.
  - apply onInputBoxValueChange_quiet.
  - by apply (perform_exact (OnInputBoxValueChange h value)).
  - unfold ScmExtImpl.onInputBoxValueChange. rewrite app_nil_r.
    by destruct (ScmExtImpl.sourceControlAt w h) as [[i sc]|].
Qed.

Lemma executeResourceCommand_shown h gh handle0 preserveFocus :
  keeps_shown (fun w => (ScmExtImpl.executeResourceCommand h gh handle0 preserveFocus w).2).
Proof.
  intros w Hshape Hexact. apply (step_shown_quiet w _ []); try done.
  - apply executeResourceCommand_quiet.
  - by apply (perform_exact (ExecuteResourceCommand h gh handle0 preserveFocus)).
  - unfold ScmExtImpl.executeResourceCommand. rewrite app_nil_r.
    destruct (ScmExtImpl.sourceControlAt w h) as [[i sc]|]; [|done].
    destruct (_ ≫= _) as [g|]; [|done].
    by destruct (executeResourceCommand g handle0 preserveFocus) as [promise [e|]].
Qed.

Lemma setSelectedSourceControl_shown selected :
  keeps_shown (fun w => (ScmExtImpl.setSelectedSourceControl selected w).2).
Proof.
  intros w Hshape Hexact. apply (step_shown_quiet w _ []); try done.
  - apply setSelectedSourceControl_quiet.
  - by apply (perform_exact (SetSelectedSourceControl selected)).
  - unfold ScmExtImpl.setSelectedSourceControl. cbn [snd]. rewrite app_nil_r.
    cbn [put_selectedSourceControlHandle outbox].
    set (w1 := match selected with Some _ => _ | None => _ end).
    assert (outbox w1 = outbox w) as <-.
    { unfold w1. destruct selected; [apply selectIfRegistered_outbox|done]. }
    destruct (_selectedSourceControlHandle w1); [apply selectIfRegistered_outbox|done].
Qed.

Lemma createSourceControl_shown id label rootUri :
  keeps_shown (fun w => (ScmExtImpl.createSourceControl id label rootUri w).2).
Proof.
  intros w Hshape Hexact. split; [by apply createSourceControl_shape|].
  split; [by apply (perform_exact (CreateSourceControl id label rootUri))|].
  exists [Main_registerSourceControl (SourceControl_handlePool w) id label rootUri].
  split; [done|].
  intros m Hm Hshows h repo'. rewrite deliver_one.
  cbn [ScmMainImpl.receive]. unfold ScmMainImpl.registerSourceControl.
  cbn [snd _repositories]. pose proof Hshape as (_ & Hp2 & _).
  intros [[<- <-]|[Hne Hrepo]]%lookup_insert_Some.
  - exists (length (sourceControlStore w)). split; [done|]. cbn [provider].
    eexists. split.
    + unfold ScmExtImpl.createSourceControl. world_cbn. apply lookup_snoc.
    + split; [constructor|]. intros gh. unfold shown_at, groupByHandle.
      cbn [_groupsByHandle]. by rewrite lookup_empty.
  - destruct (Hshows h repo' Hrepo) as (i & -> & Hp). exists i. split; [done|].
    revert Hp. apply provider_shows_frame.
    + intros sc Hsc. exists sc. split; [|done].
      unfold ScmExtImpl.createSourceControl. world_cbn. by apply lookup_app_l_Some.
    + intros sc gh j g _ _ Hg. exists g. split; [done|apply same_shown_same].
Qed.

Lemma createResourceGroup_shown this id label :
  keeps_shown (fun w => (createResourceGroup this id label w).2).
Proof.
  intros w Hshape Hexact.
  destruct (sourceControlStore w !! this) as [sc|] eqn:Hsc; cycle 1.
  { unfold createResourceGroup. rewrite Hsc. by apply step_shown_refl. }
  split; [by apply createResourceGroup_shape|].
  split; [by apply (perform_exact (CreateResourceGroup this id label))|].
  destruct (shape_sc w this sc Hshape Hsc) as (Hh & _ & Hcreated & _).
  pose proof Hshape as (_ & _ & Hp3 & _).
  rewrite (createResourceGroup_spec this id label w sc Hsc Hcreated). cbn [snd outbox].
  eexists [_]. split; [done|].
  intros m Hm Hshows. rewrite deliver_one.
  set (entry := mkGroupEntry _ _ _ _).
  apply (shows_receive w); try done; cbn [addressee]; rewrite Hh.
  - intros i p <-%(inj Z.of_nat) Hp Hok (sc0 & Hsc0 & Hlisted & Hall).
    assert (sc0 = sc) as -> by congruence.
    destruct (after_register p (Z.of_nat this) entry Hok) as [Hp' Hby].
    assert (forall gh j, map_get (_groups sc) gh = Some j -> gh <> Group_handlePool w)
      as Hbelow.
    { intros gh j Hj. destruct (shape_groups w this sc gh j Hshape Hsc Hj)
        as (-> & g & Hg & _). apply lookup_lt_Some in Hg. lia. }
    eexists. split.
    { cbn [sourceControlStore]. apply list_lookup_insert_eq. by eapply lookup_lt_Some. }
    split.
    { cbn [_groups set_groups]. rewrite map_set_fresh, fmap_app; cycle 1.
      { intros [j Hj]%map_get_is_Some. by eapply Hbelow. }
      unfold listed_as. rewrite groups_after_register. apply Forall2_app.
      - eapply Forall2_impl; [exact Hlisted|]. intros k gh [mg Hmg]. exists mg.
        rewrite Hby, decide_False; [done|]. intros ->.
        change (ge_handle entry) with (Group_handlePool w) in Hmg.
        specialize (Hall (Group_handlePool w)). unfold shown_at in Hall.
        rewrite Hmg in Hall. destruct Hall as (j & _ & Hj & _). by eapply Hbelow.
      - constructor; [|constructor]. eexists. by rewrite Hby, decide_True. }
    intros gh. destruct (decide (gh = Group_handlePool w)) as [->|Hne].
    + unfold shown_at. rewrite Hby, decide_True by done.
      eexists (length (groupStore w)), _. cbn [_groups set_groups groupStore].
      split; [apply map_get_set_eq|]. split; [apply lookup_snoc|].
      unfold group_shown, registeredMirrorGroup. cbn. by rewrite Hp.
    + apply (other_handle_shown w _ this sc _ p _ gh (length (groupStore w))); try done.
      * by rewrite <- Hp3.
      * by rewrite Hby, decide_False.
      * cbn [_groups set_groups]. by rewrite map_get_set_ne.
      * intros k Hk. cbn [groupStore].
        destruct (decide (k < length (groupStore w))%nat).
        -- by rewrite lookup_app_l.
        -- rewrite !lookup_ge_None_2; [done|lia|rewrite length_app; cbn; lia].
  - intros i p Hne. apply provider_shows_frame.
    + intros sc0 Hsc0. exists sc0. split; [|done]. cbn [sourceControlStore].
      rewrite list_lookup_insert_ne; [done|]. intros ->. done.
    + intros sc0 gh j g _ _ Hg. exists g. split; [|apply same_shown_same].
      cbn [groupStore]. by apply lookup_app_l_Some.
Qed.

End ActionsShown.

Section AssignShown.
Context `{Host}.
Import ExtHostSourceControlResourceGroup ExtHostSourceControl.

(** An assignment changes nothing the main side could tell: the splices
    it sends are refused there. *)
Lemma assignGroupResourceStates_shown group resources0 :
  keeps_shown (assignGroupResourceStates group resources0).
Proof.
  intros w Hshape Hexact.
  destruct (groupStore w !! group) as [g|] eqn:Hg; cycle 1.
  { unfold assignGroupResourceStates. rewrite Hg. by apply step_shown_refl. }
  pose proof (perform_exact (AssignResourceStates group resources0) w Hexact) as Hexact'.
  cbn [perform] in Hexact'.
  destruct (shape_group w group g Hshape Hg)
    as (Hh & owner & sc & Hown & Hsc & Hdispose & [(Hl & Hd & Hget)|(Hl & Hd & Hget)]); cycle 1.
  { rewrite (assign_unregistered_spec group resources0 w g Hg Hl) in *.
    apply (step_shown_quiet w _ []); try done.
    - apply assign_unregistered_quiet.
    - by rewrite app_nil_r. }
  destruct (shape_sc w owner sc Hshape Hsc) as (Hsch & _ & _ & Hupdated).
  revert Hexact'.
  rewrite (assign_registered_spec group resources0 owner w g sc Hg Hl Hsc Hupdated).
  pose proof (Forall_lookup_1 _ _ _ _ Hexact Hg) as [Hok _].
  set (g1 := assignResourceStates resources0 g).
  assert (group_ok g1) as Hok1 by done.
  destruct (takeSnapshot_spec g1 (_commands w) Hok1) as (g' & conv' & Htake & Hid & _).
  rewrite Htake. cbn [fst snd].
  set (splices := splice_map wireResource <$> _) in *.
  intros Hexact'. cbn [groupStore] in Hexact'.
  destruct Hid as (Hid1 & Hid2 & Hid3 & Hid4 & Hid5 & _ & Hid7 & Hid8 & Hid9).
  cbn [g1 assignResourceStates handle _sourceControlHandle _id _label _hideWhenEmpty
       _onDidUpdateResourceStates _onDidDispose _disposed set_resourceStates] in Hid1, Hid2,
       Hid3, Hid4, Hid5, Hid7, Hid8, Hid9.
  apply (step_shown_quiet w _ (spliceMessage (sc_handle sc) (handle g') splices));
    try done.
  - unfold same_objects. cbn [ScmExt_handlePool SourceControl_handlePool Group_handlePool
                              _sourceControls sourceControlStore groupStore].
    split_and!; try done.
    + apply same_links_sc_refl.
    + apply (Forall2_insert_same _ _ _ g); [done|by unfold same_links|by unfold same_links].
    + apply (Forall2_insert_same _ _ _ g); [done|by unfold same_shown|by unfold same_shown].
  - unfold spliceMessage. case_bool_decide; [constructor|].
    constructor; [apply harmless_splice|constructor].
Qed.

End AssignShown.

Section DisposalShown.
Context `{Host}.
Import ExtHostSourceControlResourceGroup ExtHostSourceControl.

Lemma disposeGroup_shown group : keeps_shown (disposeGroup group).
Proof.
  intros w Hshape Hexact.
  destruct (groupStore w !! group) as [g|] eqn:Hg; cycle 1.
  { unfold disposeGroup. rewrite Hg. by apply step_shown_refl. }
  split; [by apply disposeGroup_shape|].
  split; [by apply (perform_exact (DisposeGroup group))|].
  destruct (shape_group w group g Hshape Hg)
    as (Hh & owner & sc & Hown & Hsc & Hdispose & Hl).
  destruct (shape_sc w owner sc Hshape Hsc) as (Hsch & _).
  rewrite (disposeGroup_spec group w g owner sc Hg Hdispose Hsc). cbn [outbox].
  rewrite Hsch, Hh. eexists [_]. split; [done|].
  intros m Hm Hshows. rewrite deliver_one.
  set (w' := mkExtWorld _ _ _ _ _ _ _ _ _ _ _).
  assert (forall k, k <> group -> groupStore w' !! k = groupStore w !! k) as Hothers.
  { intros k Hk. cbn. by rewrite list_lookup_insert_ne. }
  apply (shows_receive w); try done; cbn [addressee].
  - intros i p <-%(inj Z.of_nat) Hp Hok (sc0 & Hsc0 & Hlisted & Hall).
    assert (sc0 = sc) as -> by congruence.
    destruct (after_unregister p (Z.of_nat owner) (Z.of_nat group)) as [Hp' Hby].
    eexists. split.
    { cbn [w' sourceControlStore]. apply list_lookup_insert_eq. by eapply lookup_lt_Some. }
    split.
    { cbn [_groups set_groups set_updatedResourceGroups].
      rewrite map_delete_keys_filter. unfold listed_as.
      rewrite (groups_after_unregister p _ _ Hok).
      destruct (groupByHandle p (Z.of_nat group)) as [[i0 mg0]|] eqn:Hgroup.
      - eapply Forall2_filter_both; [exact Hlisted| |].
        + intros k gh [mg Hmg]. split.
          * intros Hk ->. rewrite Hgroup in Hmg. by injection Hmg as -> _.
          * intros Hgh ->. apply Hgh.
            apply groupByHandle_Some in Hmg as [Hmg _].
            apply groupByHandle_Some in Hgroup as [Hgroup _].
            by eapply registry_index_inj.
        + intros k gh [mg Hmg] Hgh. exists mg. cbn in Hgh.
          by rewrite Hby, decide_False.
      - specialize (Hall (Z.of_nat group)) as Hnone. unfold shown_at in Hnone.
        rewrite Hgroup in Hnone. apply map_get_None_keys in Hnone.
        rewrite list_filter_True_id; cycle 1.
        { apply Forall_forall. intros gh Hin ->. done. }
        eapply Forall2_impl; [exact Hlisted|]. intros k gh [mg Hmg]. exists mg.
        rewrite Hby, decide_False; [done|]. intros ->. by rewrite Hgroup in Hmg. }
    intros gh. destruct (decide (gh = Z.of_nat group)) as [->|Hne].
    + unfold shown_at. rewrite Hby, decide_True by done.
      cbn [_groups set_groups]. apply map_get_delete_eq.
    + apply (other_handle_shown w w' owner sc _ p _ gh group); try done.
      * by rewrite Hby, decide_False.
      * cbn [_groups set_groups set_updatedResourceGroups]. by rewrite map_get_delete_ne.
  - intros i p Hne. apply (other_provider_frame w w' i p group g owner); try done.
    + by intros ->.
    + cbn. rewrite list_lookup_insert_ne; [done|]. by intros ->.
Qed.

Lemma unregisterSourceControl_shown h : keeps_shown (send (Main_unregisterSourceControl h)).
Proof.
  intros w Hshape Hexact. split; [by eapply shape_quiet; [apply send_quiet|]|].
  split; [done|]. eexists [_]. split; [done|].
  intros m Hm Hshows h' repo. rewrite deliver_one.
  cbn [ScmMainImpl.receive]. unfold ScmMainImpl.unregisterSourceControl.
  assert (forall Hrepo : _repositories m !! h' = Some repo,
            exists i, h' = Z.of_nat i
                      /\ provider_shows (send (Main_unregisterSourceControl h) w) i
                           (provider repo)) as Hold.
  { intros Hrepo. destruct (Hshows h' repo Hrepo) as (i & -> & Hp).
    exists i. split; [done|]. eapply provider_shows_quiet; [apply send_quiet|done]. }
  destruct (_repositories m !! h) as [r|] eqn:Hr; [|done].
  destruct (_repositoryDisposables m !! h); [|done].
  cbn [snd _repositories]. intros [_ Hrepo]%lookup_delete_Some. by apply Hold.
Qed.

Lemma dispose_shown this : keeps_shown (dispose this).
Proof.
  intros w Hshape Hexact. unfold dispose.
  destruct (sourceControlStore w !! this) as [sc|] eqn:Hsc; [|by apply step_shown_refl].
  set (step := fun (w : ExtWorld) (entry : Z * nat) => _).
  assert (keeps_shown (fun w => foldl step w (_groups sc))) as Hfold.
  { apply keeps_shown_foldl. intros entry w1 Hshape1 Hexact1. unfold step.
    destruct (sourceControlStore w1 !! this); [|by apply step_shown_refl].
    case_bool_decide; [by apply disposeGroup_shown|by apply step_shown_refl]. }
  pose proof (Hfold w Hshape Hexact) as Hstep. pose proof Hstep as (Hshape2 & Hexact2 & _).
  eapply step_shown_trans; [exact Hstep|]. by apply unregisterSourceControl_shown.
Qed.

End DisposalShown.

Section SettersShown.
Context `{Host}.
Import ExtHostSourceControlResourceGroup ExtHostSourceControl.

(** What the two setters of a group have in common: the group at [group]
    becomes [g'], which has the links and the states of [g], and the call
    goes to its source control. *)
Lemma group_setter_shown w group g g' call (change : PluginScmResourceGroup -> PluginScmResourceGroup) :
  world_shape w -> Forall group_exact (groupStore w) ->
  groupStore w !! group = Some g ->
  same_links g g' ->
  group_exact g' ->
  (forall mg, group_shown g mg -> group_shown g' (change mg)) ->
  keeps_repositories call ->
  addressee call = _sourceControlHandle g ->
  (forall p, registry_ok p ->
     p_handle (provider_after call p) = p_handle p
     /\ groups (provider_after call p) = groups p
     /\ forall gh',
          groupByHandle (provider_after call p) gh' =
            if decide (gh' = handle g)
            then prod_map id change <$> groupByHandle p (handle g)
            else groupByHandle p gh') ->
  step_shown w (send call (put_groupStore (<[group := g']> (groupStore w)) w)).
Proof.
  intros Hshape Hexact Hg Hlinks Hexact' Hchange Hkeeps Haddr Hafter.
  destruct (shape_group w group g Hshape Hg)
    as (Hh & owner & sc & Hown & Hsc & Hdispose & Hl).
  set (w' := send call _).
  assert (forall k, k <> group -> groupStore w' !! k = groupStore w !! k) as Hothers.
  { intros k Hk. cbn. by rewrite list_lookup_insert_ne. }
  split.
  { apply (shape_frame w); try done; cbn.
    - apply same_links_sc_refl.
    - apply (Forall2_insert_same _ _ _ g); [done|done|by unfold same_links]. }
  split.
  { cbn. apply Forall_insert; done. }
  exists [call]. split; [done|].
  intros m Hm Hshows. rewrite deliver_one.
  apply (shows_receive w); try done; rewrite Haddr, Hown.
  - intros i p <-%(inj Z.of_nat) Hp Hok (sc0 & Hsc0 & Hlisted & Hall).
    assert (sc0 = sc) as -> by congruence.
    destruct (Hafter p Hok) as (Hp' & Hgroups & Hby). rewrite Hh in Hby.
    exists sc. split; [done|]. split.
    { apply (listed_as_same p); [done| |done]. intros gh k mg Hmg. rewrite Hby.
      destruct (decide (gh = Z.of_nat group)) as [->|]; [|by eexists].
      rewrite Hmg. by eexists. }
    intros gh. destruct (decide (gh = Z.of_nat group)) as [->|Hne].
    + specialize (Hall (Z.of_nat group)). unfold shown_at in *.
      rewrite Hby, decide_True by done.
      destruct (groupByHandle p (Z.of_nat group)) as [[k mg]|]; [|done].
      cbn [fmap option_fmap option_map prod_map fst snd id].
      destruct Hall as (j0 & g0 & Hj0 & Hg0 & Hshown0).
      destruct (shape_groups w owner sc _ j0 Hshape Hsc Hj0) as (<-%(inj Z.of_nat) & _).
      assert (g0 = g) as -> by congruence.
      exists group, g'. split; [done|].
      split; [apply list_lookup_insert_eq; by eapply lookup_lt_Some|].
      by apply Hchange.
    + apply (other_handle_shown w w' owner sc sc p _ gh group); try done.
      by rewrite Hby, decide_False.
  - intros i p Hne. apply (other_provider_frame w w' i p group g owner); try done.
    by intros ->.
Qed.

Lemma assignLabel_shown group label : keeps_shown (assignLabel group label).
Proof.
  intros w Hshape Hexact. unfold assignLabel.
  destruct (groupStore w !! group) as [g|] eqn:Hg; [|by apply step_shown_refl].
  unfold updateGroupAt. rewrite (alter_at _ _ _ _ Hg).
  apply (group_setter_shown w group g (set_label label g) _
           (fun mg => PluginScmResourceGroup.updateGroupLabel mg label)); try done.
  - apply (group_exact_field (set_label label)); try done.
    by apply (Forall_lookup_1 _ _ _ _ Hexact Hg).
  - intros mg (? & ? & ? & ? & ? & ?). unfold group_shown. by split_and!.
  - intros p Hok. destruct (after_label p (_sourceControlHandle g) (handle g) label Hok).
    split_and!; [done|apply groups_after_label|done].
Qed.

Lemma assignHideWhenEmpty_shown group hideWhenEmpty0 :
  keeps_shown (assignHideWhenEmpty group hideWhenEmpty0).
Proof.
  intros w Hshape Hexact. unfold assignHideWhenEmpty.
  destruct (groupStore w !! group) as [g|] eqn:Hg; [|by apply step_shown_refl].
  apply (group_setter_shown w group g (set_hideWhenEmpty hideWhenEmpty0 g) _
           (fun mg => PluginScmResourceGroup.updateGroup mg
                        (features (set_hideWhenEmpty hideWhenEmpty0 g)))); try done.
  - apply (group_exact_field (set_hideWhenEmpty hideWhenEmpty0)); try done.
    by apply (Forall_lookup_1 _ _ _ _ Hexact Hg).
  - intros mg (? & ? & ? & ? & ? & ?). unfold group_shown. by split_and!.
  - intros p Hok.
    destruct (after_features p (_sourceControlHandle g) (handle g)
                (features (set_hideWhenEmpty hideWhenEmpty0 g)) Hok).
    split_and!; [done|apply groups_after_features|done].
Qed.

Lemma act_shown a : keeps_shown (fun w => act w a).
Proof.
  destruct a as [[id label rootUri|sourceControl id label|group resources0|group
                 |sourceControl|sourceControl value|sourceControl|sourceControl
                 |h value|h gh handle0 preserveFocus|selected]
                |group label|group hideWhenEmpty0|sourceControl placeholder];
    cbn [act perform].
  - apply createSourceControl_shown.
  - apply createResourceGroup_shown.
  - apply assignGroupResourceStates_shown.
  - apply disposeGroup_shown.
  - apply dispose_shown.
  - apply set_value_shown.
  - apply eventuallyAddResourceGroups_shown.
  - apply eventuallyUpdateResourceStates_shown.
  - apply onInputBoxValueChange_shown.
  - apply executeResourceCommand_shown.
  - apply setSelectedSourceControl_shown.
  - apply assignLabel_shown.
  - apply assignHideWhenEmpty_shown.
  - apply assignPlaceholder_shown.
Qed.

(** Whatever was done, the objects hang together, the groups are exact, and
    the main side, having received everything that was sent, shows the
    world. *)
Lemma play_shown acts :
  let w := play acts initialWorld in
  world_shape w
  /\ Forall group_exact (groupStore w)
  /\ mirror_ok (deliver (outbox w) emptyMirror).2
  /\ shows w (deliver (outbox w) emptyMirror).2.
Proof.
  cbn zeta.
  assert (forall w,
            world_shape w /\ Forall group_exact (groupStore w)
            /\ shows w (deliver (outbox w) emptyMirror).2 ->
            world_shape (play acts w) /\ Forall group_exact (groupStore (play acts w))
            /\ shows (play acts w) (deliver (outbox (play acts w)) emptyMirror).2) as Hall.
  { induction acts as [|a acts IH]; intros w (Hshape & Hexact & Hshows); [done|].
    cbn [play foldl]. apply IH.
    destruct (act_shown a w Hshape Hexact) as (Hshape' & Hexact' & calls & Hout & Hstep).
    split; [done|]. split; [done|]. rewrite Hout, deliver_app. apply Hstep; [|done].
    apply deliver_ok, emptyMirror_ok. }
  destruct (Hall initialWorld) as (Hshape & Hexact & Hshows).
  { split; [apply initialWorld_shape|]. split; [constructor|].
    intros h repo. cbn. by rewrite lookup_empty. }
  split; [done|]. split; [done|]. split; [|done]. apply deliver_ok, emptyMirror_ok.
Qed.

End SettersShown.

(** * What holds whatever the plugin and the main side do *)

Section WholeWorld.
Context `{Host}.
Import ExtHostSourceControlResourceGroup ExtHostSourceControl.

Lemma shape_sourceControlAt w i sc :
  world_shape w -> sourceControlStore w !! i = Some sc ->
  ScmExtImpl.sourceControlAt w (Z.of_nat i) = Some (i, sc).
Proof.
  intros (_ & _ & _ & Hregistry & _) Hsc. unfold ScmExtImpl.sourceControlAt.
  rewrite (proj2 (Hregistry (Z.of_nat i) i)); [cbn; by rewrite Hsc|].
  split; [done|]. by eapply lookup_lt_Some.
Qed.

Lemma shape_sourceControlAt_Some w h i sc :
  world_shape w -> ScmExtImpl.sourceControlAt w h = Some (i, sc) ->
  h = Z.of_nat i /\ sourceControlStore w !! i = Some sc.
Proof.
  intros (_ & _ & _ & Hregistry & _) [Hh Hsc]%sourceControlAt_Some.
  apply Hregistry in Hh as [-> _]. done.
Qed.

(** A group that its source control finds is not disposed of, and the
    other way round. *)
Lemma shape_found w i sc j g :
  world_shape w -> sourceControlStore w !! i = Some sc ->
  groupStore w !! j = Some g -> _sourceControlHandle g = Z.of_nat i ->
  (map_get (_groups sc) (Z.of_nat j) = Some j <-> _disposed g = false)
  /\ (map_get (_groups sc) (Z.of_nat j) = None <-> _disposed g = true).
Proof.
  intros Hshape Hsc Hg Hown.
  destruct (shape_group w j g Hshape Hg) as (_ & owner & sc0 & Hown0 & Hsc0 & _ & Hcases).
  assert (owner = i) as -> by lia. assert (sc0 = sc) as -> by congruence.
  destruct Hcases as [(_ & -> & ->)|(_ & -> & ->)]; by split.
Qed.

(** What the invariant says about a group object of the main side. *)
Lemma shown_group_facts w m h repo gh k mg :
  world_shape w -> Forall group_exact (groupStore w) -> mirror_ok m -> shows w m ->
  _repositories m !! h = Some repo ->
  groupByHandle (provider repo) gh = Some (k, mg) ->
  exists i sc j g,
    h = Z.of_nat i
    /\ p_handle (provider repo) = h
    /\ ScmExtImpl.sourceControlAt w h = Some (i, sc)
    /\ sc_handle sc = h
    /\ getResourceGroup sc gh = Some j
    /\ groupStore w !! j = Some g
    /\ handle g = gh
    /\ _disposed g = false
    /\ group_shown g mg.
Proof.
  intros Hshape Hexact [_ Hm] Hshows Hrepo Hgroup.
  destruct (Hshows h repo Hrepo) as (i & -> & sc & Hsc & Hlisted & Hall).
  destruct (Hm _ repo Hrepo) as [Hp _].
  specialize (Hall gh). unfold shown_at in Hall. rewrite Hgroup in Hall.
  destruct Hall as (j & g & Hj & Hg & Hshown).
  destruct (shape_groups w i sc gh j Hshape Hsc Hj) as (-> & g0 & Hg0 & Hown).
  assert (g0 = g) as -> by congruence.
  destruct (shape_group w j g Hshape Hg) as (Hh & _).
  destruct (shape_sc w i sc Hshape Hsc) as (Hsch & _).
  destruct (shape_found w i sc j g Hshape Hsc Hg Hown) as [Hfound _].
  exists i, sc, j, g. split_and!; try done.
  - by apply shape_sourceControlAt.
  - by apply Hfound.
Qed.

(** Every source control ever created, disposed of or not, is found in
    [_sourceControls] under the handle it uses towards the main side, and
    its input box uses this handle too: the counter of [ScmExtImpl] and the
    one of [ExtHostSourceControl] stay in step. [getResourceGroup] finds
    under a handle a group that carries this handle, that this source
    control has created and that is not disposed of; and a group is found
    by its source control as long as it is not disposed of, and no
    longer. *)
Theorem handles_find_their_objects (acts : list Action) :
  let w := play acts initialWorld in
  (forall i sc, sourceControlStore w !! i = Some sc ->
     ScmExtImpl.sourceControlAt w (sc_handle sc) = Some (i, sc)
     /\ ib_sourceControlHandle (_inputBox sc) = sc_handle sc)
  /\ (forall h i sc, ScmExtImpl.sourceControlAt w h = Some (i, sc) -> sc_handle sc = h)
  /\ (forall i sc gh j,
        sourceControlStore w !! i = Some sc -> getResourceGroup sc gh = Some j ->
        exists g, groupStore w !! j = Some g
                  /\ handle g = gh
                  /\ _sourceControlHandle g = sc_handle sc
                  /\ _disposed g = false)
  /\ (forall j g, groupStore w !! j = Some g ->
        exists i sc,
          ScmExtImpl.sourceControlAt w (_sourceControlHandle g) = Some (i, sc)
          /\ (getResourceGroup sc (handle g) = Some j <-> _disposed g = false)
          /\ (getResourceGroup sc (handle g) = None <-> _disposed g = true)).
Proof.
  intros w. destruct (play_shown acts) as (Hshape & _). fold w in Hshape.
  split_and!.
  - intros i sc Hsc. destruct (shape_sc w i sc Hshape Hsc) as (-> & -> & _).
    split; [|done]. by apply shape_sourceControlAt.
  - intros h i sc Hat. destruct (shape_sourceControlAt_Some w h i sc Hshape Hat) as [-> Hsc].
    by destruct (shape_sc w i sc Hshape Hsc) as (-> & _).
  - intros i sc gh j Hsc Hj. unfold getResourceGroup in Hj.
    destruct (shape_groups w i sc gh j Hshape Hsc Hj) as (-> & g & Hg & Hown).
    destruct (shape_group w j g Hshape Hg) as (Hh & _).
    destruct (shape_sc w i sc Hshape Hsc) as (Hsch & _).
    destruct (shape_found w i sc j g Hshape Hsc Hg Hown) as [Hfound _].
    exists g. split_and!; try done; [congruence|by apply Hfound].
  - intros j g Hg.
    destruct (shape_group w j g Hshape Hg) as (Hh & owner & sc & Hown & Hsc & _).
    exists owner, sc. rewrite Hown, Hh. split; [by apply shape_sourceControlAt|].
    unfold getResourceGroup. by apply (shape_found w owner sc j g).
Qed.


(** The main side lists the groups of a repository in the order in which
    the source control holds them: the group object at a position of the
    provider's [groups] is the one that the provider has under the handle
    at this position of the source control's [_groups]; so the two are as
    many, and a group that is unregistered leaves the others in place. *)
Theorem main_side_lists_groups_in_held_order (acts : list Action) :
  let w := play acts initialWorld in
  let m := (deliver (outbox w) emptyMirror).2 in
  forall h repo, _repositories m !! h = Some repo ->
    exists i sc,
      ScmExtImpl.sourceControlAt w h = Some (i, sc)
      /\ Forall2
           (fun k gh =>
              exists mg,
                groupByHandle (provider repo) gh = Some (k, mg)
                /\ groupObjects (provider repo) !! k = Some mg)
           (groups (provider repo)) (fst <$> _groups sc).
Proof.
  intros w m h repo Hrepo.
  destruct (play_shown acts) as (Hshape & Hexact & Hm & Hshows).
  fold w in Hshape, Hexact, Hm, Hshows. fold m in Hm, Hshows.
  destruct (Hshows h repo Hrepo) as (i & -> & sc & Hsc & Hlisted & _).
  exists i, sc. split; [by apply shape_sourceControlAt|].
  eapply Forall2_impl; [exact Hlisted|]. intros k gh [mg Hmg]. exists mg.
  split; [done|]. by apply groupByHandle_Some in Hmg as [_ Hk].
Qed.

(** The handles lead back through the argument processor: it turns the
    handle of a repository of the main side into its source control, and
    the handles of a group object of the main side into the group with
    this handle; and for a group that a source control finds, it turns the
    handles together with a handle of [_handlesSnapshot] into the resource
    state that the group holds under this handle. It never hands out a
    group that is disposed of. *)
Theorem arguments_lead_back (acts : list Action) :
  let w := play acts initialWorld in
  let m := (deliver (outbox w) emptyMirror).2 in
  (forall h repo, _repositories m !! h = Some repo ->
     (exists i sc,
        processArgument w (ScmArgument (mkScmCommandArg h None None))
        = SourceControlArgument i
        /\ sourceControlStore w !! i = Some sc
        /\ sc_handle sc = h)
     /\ forall gh k mg, groupByHandle (provider repo) gh = Some (k, mg) ->
          exists j g,
            processArgument w (ScmArgument (mkScmCommandArg h (Some gh) None))
            = GroupArgument j
            /\ groupStore w !! j = Some g
            /\ handle g = gh)
  /\ (forall i sc gh j g handle0,
        sourceControlStore w !! i = Some sc -> getResourceGroup sc gh = Some j ->
        groupStore w !! j = Some g -> handle0 ∈ _handlesSnapshot g ->
        exists state,
          processArgument w
            (ScmArgument (mkScmCommandArg (sc_handle sc) (Some gh) (Some handle0)))
          = ResourceStateArgument state
          /\ getResourceState g handle0 = Some state)
  /\ (forall arg j, processArgument w arg = GroupArgument j ->
        exists g, groupStore w !! j = Some g /\ _disposed g = false).
Proof.
  intros w m.
  destruct (play_shown acts) as (Hshape & Hexact & Hm & Hshows).
  fold w in Hshape, Hexact, Hm, Hshows. fold m in Hm, Hshows.
  split; [|split].
  - intros h repo Hrepo. split.
    + destruct (Hshows h repo Hrepo) as (i & -> & sc & Hsc & Hlisted & Hall).
      destruct (shape_sc w i sc Hshape Hsc) as (Hsch & _).
      exists i, sc. split; [|done]. cbn [processArgument arg_sourceControlHandle].
      by rewrite (shape_sourceControlAt w i sc Hshape Hsc).
    + intros gh k mg Hgroup.
      destruct (shown_group_facts w m _ repo gh k mg Hshape Hexact Hm Hshows Hrepo Hgroup)
        as (i & sc & j & g & _ & Hp & Hat & _ & Hj & Hg & Hh & Hd & Hshown).
      exists j, g. split; [|done].
      cbn [processArgument arg_sourceControlHandle arg_resourceGroupHandle
           arg_resourceStateHandle].
      by rewrite Hat, Hj.
  - intros i sc gh j g handle0 Hsc Hj Hg Hin.
    destruct (shape_sc w i sc Hshape Hsc) as (Hsch & _).
    destruct (Forall_lookup_1 _ _ _ _ Hexact Hg) as [(_ & _ & Hnd & _) [held Htracks]].
    destruct (tracks_lookup g held handle0 Hnd Htracks) as [Hsome _].
    destruct (proj2 Hsome Hin) as [state Hstate].
    exists state. split; [|done].
    cbn [processArgument arg_sourceControlHandle arg_resourceGroupHandle
         arg_resourceStateHandle].
    rewrite Hsch, (shape_sourceControlAt w i sc Hshape Hsc), Hj.
    cbn [mbind option_bind]. rewrite Hg. by rewrite Hstate.
  - intros [arg|[h [gh|] [sh|]]] j; cbn [processArgument arg_sourceControlHandle
      arg_resourceGroupHandle arg_resourceStateHandle]; try done.
    + destruct (ScmExtImpl.sourceControlAt w h) as [[i sc]|]; [|done].
      destruct (getResourceGroup sc gh ≫= _) as [g|]; [|done].
      by destruct (getResourceState g sh).
    + destruct (ScmExtImpl.sourceControlAt w h) as [[i sc]|] eqn:Hat; [|done].
      destruct (getResourceGroup sc gh) as [j'|] eqn:Hj; [|done]. intros [= ->].
      apply (shape_sourceControlAt_Some w _ i sc Hshape) in Hat as [-> Hsc].
      destruct (shape_groups w i sc gh j Hshape Hsc Hj) as (-> & g & Hg & Hown).
      destruct (shape_found w i sc j g Hshape Hsc Hg Hown) as [Hfound _].
      exists g. split; [done|]. by apply Hfound.
    + by destruct (ScmExtImpl.sourceControlAt w h) as [[i sc]|].
    + by destruct (ScmExtImpl.sourceControlAt w h) as [[i sc]|].
Qed.

End WholeWorld.

Section Disposal.
Context `{Host}.
Import ExtHostSourceControlResourceGroup ExtHostSourceControl.

Lemma play_snoc acts a w : play (acts ++ [a]) w = act (play acts w) a.
Proof. unfold play. by rewrite foldl_app. Qed.

(** The loop of [dispose] over the groups of a source control. *)
Lemma dispose_groups_run this (l : list (Z * nat)) :
  forall w sc,
    world_shape w -> sourceControlStore w !! this = Some sc -> _groups sc = l ->
    let w' :=
      foldl (fun w entry =>
               match sourceControlStore w !! this with
               | Some sc' =>
                   if bool_decide (map_get (_groups sc') entry.1 = Some entry.2)
                   then disposeGroup entry.2 w else w
               | None => w
               end) w l in
    outbox w' = outbox w ++ (Main_unregisterGroup (Z.of_nat this) <$> l.*1)
    /\ exists sc', sourceControlStore w' !! this = Some sc' /\ _groups sc' = [].
Proof.
  induction l as [|[gh j] l IH]; intros w sc Hshape Hsc Hl; cbn zeta.
  { cbn. rewrite app_nil_r. split; [done|]. by exists sc. }
  assert (map_get (_groups sc) gh = Some j) as Hget.
  { rewrite Hl. cbn. by rewrite decide_True. }
  cbn [foldl fst snd]. rewrite Hsc, Hget. rewrite bool_decide_eq_true_2 by done.
  destruct (shape_groups w this sc gh j Hshape Hsc Hget) as (-> & g & Hg & Hown).
  destruct (shape_group w j g Hshape Hg)
    as (Hh & owner & sc0 & Hown0 & Hsc0 & Hdispose & _).
  assert (owner = this) as -> by lia. assert (sc0 = sc) as -> by congruence.
  destruct (shape_sc w this sc Hshape Hsc) as (Hsch & _).
  pose proof (disposeGroup_shape j w Hshape) as Hshape1.
  pose proof Hshape as (_ & _ & _ & _ & _ & _ & Hnodup).
  specialize (Hnodup this sc Hsc). rewrite Hl in Hnodup.
  apply NoDup_cons in Hnodup as [Hfresh _].
  rewrite (disposeGroup_spec j w g this sc Hg Hdispose Hsc) in Hshape1 |- *.
  set (w1 := mkExtWorld _ _ _ _ _ _ _ _ _ _ _) in *.
  edestruct (IH w1) as [Hout Hrest]; [exact Hshape1| | |].
  - cbn [w1 sourceControlStore]. apply list_lookup_insert_eq. by eapply lookup_lt_Some.
  - cbn [_groups set_groups set_updatedResourceGroups]. rewrite Hh, Hl.
    by apply map_delete_head.
  - cbn zeta in Hout. rewrite Hout. split; [|done].
    cbn [w1 outbox fmap list_fmap fst]. by rewrite Hsch, Hh, <- app_assoc.
Qed.

Lemma unregistered_is_gone h m :
  mirror_ok m ->
  _repositories (ScmMainImpl.receive (Main_unregisterSourceControl h) m).2 !! h = None.
Proof.
  intros [Hdom _]. cbn [ScmMainImpl.receive]. unfold ScmMainImpl.unregisterSourceControl.
  destruct (_repositories m !! h) as [r|] eqn:Hr; [|done].
  destruct (proj1 (Hdom h) (mk_is_Some _ _ Hr)) as [d ->]. cbn. apply lookup_delete_eq.
Qed.

(** [dispose()] of a source control unregisters its groups, one call for
    each in the order in which they were registered, and then the source
    control. Afterwards it has no group, every group it has created is
    disposed of, the main side has no repository for it, and it is still
    found in [_sourceControls]. *)
Theorem dispose_unregisters_the_groups_first (acts : list Action) this sc :
  let w := play acts initialWorld in
  sourceControlStore w !! this = Some sc ->
  let w' := dispose this w in
  sentSince w w' =
    (Main_unregisterGroup (sc_handle sc) <$> (_groups sc).*1)
    ++ [Main_unregisterSourceControl (sc_handle sc)]
  /\ (exists sc',
        ScmExtImpl.sourceControlAt w' (sc_handle sc) = Some (this, sc')
        /\ _groups sc' = [])
  /\ (forall j g, groupStore w' !! j = Some g ->
        _sourceControlHandle g = sc_handle sc -> _disposed g = true)
  /\ _repositories (deliver (outbox w') emptyMirror).2 !! sc_handle sc = None.
Proof.
  intros w Hsc w'.
  destruct (play_shown acts) as (Hshape & _). fold w in Hshape.
  destruct (play_shown (acts ++ [Plain (DisposeSourceControl this)])) as (Hshape' & _).
  rewrite play_snoc in Hshape'. cbn [act perform] in Hshape'. fold w w' in Hshape'.
  destruct (shape_sc w this sc Hshape Hsc) as (Hsch & _).
  destruct (dispose_groups_run this (_groups sc) w sc Hshape Hsc eq_refl)
    as [Hout (sc' & Hsc' & Hempty)].
  assert (outbox w' =
            outbox w ++ (Main_unregisterGroup (sc_handle sc) <$> (_groups sc).*1)
            ++ [Main_unregisterSourceControl (sc_handle sc)]) as Hsent.
  { unfold w', dispose. rewrite Hsc. cbn [send put_outbox outbox].
    rewrite Hout, Hsch. by rewrite <- app_assoc. }
  assert (sourceControlStore w' !! this = Some sc') as Hsc2.
  { unfold w', dispose. rewrite Hsc. exact Hsc'. }
  split_and!.
  - by apply sentSince_app.
  - exists sc'. split; [|done]. rewrite Hsch. by apply shape_sourceControlAt.
  - intros j g Hg Hown. rewrite Hsch in Hown.
    destruct (shape_found w' this sc' j g Hshape' Hsc2 Hg Hown) as [_ Hgone].
    apply Hgone. by rewrite Hempty.
  - rewrite Hsent, app_assoc, deliver_app, deliver_one.
    apply unregistered_is_gone, deliver_ok, emptyMirror_ok.
Qed.

(** Disposing of a group sends [$unregisterGroup] for it, every time, also
    for a group that is disposed of already. What is assigned to the group
    from then on is kept in [_resourceStates] and goes no further: nothing
    is sent, no snapshot is taken, and the handles of the last snapshot keep
    resolving to the states of that snapshot. *)
Theorem disposed_groups_fall_silent (acts : list Action) group g :
  let w := play acts initialWorld in
  groupStore w !! group = Some g ->
  let w1 := disposeGroup group w in
  sentSince w w1 = [Main_unregisterGroup (_sourceControlHandle g) (handle g)]
  /\ forall resources0,
       let w2 := assignGroupResourceStates group resources0 w1 in
       sentSince w1 w2 = []
       /\ exists g2,
            groupStore w2 !! group = Some g2
            /\ _resourceStates g2 = resources0
            /\ _disposed g2 = true
            /\ _resourceSnapshot g2 = _resourceSnapshot g
            /\ _handlesSnapshot g2 = _handlesSnapshot g
            /\ forall handle0, getResourceState g2 handle0 = getResourceState g handle0.
Proof.
  intros w Hg w1.
  destruct (play_shown acts) as (Hshape & _). fold w in Hshape.
  destruct (shape_group w group g Hshape Hg)
    as (Hh & owner & sc & Hown & Hsc & Hdispose & Hcases).
  destruct (shape_sc w owner sc Hshape Hsc) as (Hsch & _).
  assert (remove_listener (_onDidUpdateResourceStates g) (MarkUpdated owner) = []) as Hl.
  { destruct Hcases as [(-> & _)|(-> & _)]; cbn; [by rewrite decide_True|done]. }
  pose proof (disposeGroup_spec group w g owner sc Hg Hdispose Hsc) as Hw1.
  fold w1 in Hw1. rewrite Hl in Hw1.
  split.
  { apply sentSince_app. rewrite Hw1. cbn [outbox]. by rewrite Hsch, Hown. }
  intros resources0 w2.
  set (g1 := set_onDidUpdateResourceStates [] (set_disposed true g)) in *.
  assert (groupStore w1 !! group = Some g1) as Hg1.
  { rewrite Hw1. cbn [groupStore]. apply list_lookup_insert_eq. by eapply lookup_lt_Some. }
  pose proof (assign_unregistered_spec group resources0 w1 g1 Hg1 eq_refl) as Hw2.
  fold w2 in Hw2. split.
  { apply sentSince_app. rewrite Hw2. cbn. by rewrite app_nil_r. }
  exists (assignResourceStates resources0 g1). split; [|done].
  rewrite Hw2. unfold updateGroupAt. cbn [groupStore put_groupStore].
  by rewrite list_lookup_alter_eq, Hg1.
Qed.

End Disposal.

Section InputBox.
Context `{Host}.

Lemma observedSince_app w w' events :
  observed w' = observed w ++ events -> observedSince w w' = events.
Proof. intros Hobs. unfold observedSince. by rewrite Hobs, drop_app_length. Qed.

(** The [value] setter of an input box sends the value to the main side,
    under the handle of its source control, and tells the listeners of
    [onDidChange] of it although the plugin has set it itself. A main side
    that has the repository has the value as its input afterwards. *)
Theorem input_value_reaches_the_main_side (acts : list Action) i sc value :
  let w := play acts initialWorld in
  sourceControlStore w !! i = Some sc ->
  let w' := ScmInputBoxImpl.set_value i value w in
  sentSince w w' = [Main_setInputBoxValue (sc_handle sc) value]
  /\ observedSince w w' = [(InputBoxDidChange i value, sourceControlStore w')]
  /\ (exists sc', sourceControlStore w' !! i = Some sc' /\ _value (_inputBox sc') = value)
  /\ forall repo,
       _repositories (deliver (outbox w) emptyMirror).2 !! sc_handle sc = Some repo ->
       _repositories (deliver (outbox w') emptyMirror).2 !! sc_handle sc
       = Some (mkRepository (provider repo) value (input_placeholder repo)).
Proof.
  intros w Hsc w'.
  destruct (play_shown acts) as (Hshape & _). fold w in Hshape.
  destruct (shape_sc w i sc Hshape Hsc) as (Hsch & Hib & _).
  assert (outbox w' = outbox w ++ [Main_setInputBoxValue (sc_handle sc) value]) as Hout.
  { unfold w', ScmInputBoxImpl.set_value. rewrite Hsc. cbn. by rewrite Hib, Hsch. }
  split_and!.
  - by apply sentSince_app.
  - apply observedSince_app. unfold w', ScmInputBoxImpl.set_value. by rewrite Hsc.
  - unfold w', ScmInputBoxImpl.set_value, ScmInputBoxImpl.updateValue. rewrite Hsc.
    world_cbn. rewrite list_lookup_alter_eq, Hsc. by eexists.
  - intros repo Hrepo. rewrite Hout, deliver_app, deliver_one.
    cbn [ScmMainImpl.receive]. unfold ScmMainImpl.setInputBoxValue. rewrite Hrepo.
    cbn [snd _repositories]. apply lookup_insert_eq.
Qed.

(** A value that the main side reports for the handle of a source control,
    disposed of or not, becomes the value of the input box of this source
    control and of no other; the listeners of [onDidChange] are told, and
    nothing is sent back. *)
Theorem reported_input_is_not_echoed (acts : list Action) i sc value :
  let w := play acts initialWorld in
  sourceControlStore w !! i = Some sc ->
  let r := ScmExtImpl.onInputBoxValueChange (sc_handle sc) value w in
  r.1 = Resolved tt
  /\ sentSince w r.2 = []
  /\ observedSince w r.2 = [(InputBoxDidChange i value, sourceControlStore r.2)]
  /\ (exists sc', sourceControlStore r.2 !! i = Some sc' /\ _value (_inputBox sc') = value)
  /\ forall k, k <> i -> sourceControlStore r.2 !! k = sourceControlStore w !! k.
Proof.
  intros w Hsc r.
  destruct (play_shown acts) as (Hshape & _). fold w in Hshape.
  destruct (shape_sc w i sc Hshape Hsc) as (Hsch & _).
  pose proof (shape_sourceControlAt w i sc Hshape Hsc) as Hat. rewrite <- Hsch in Hat.
  unfold r, ScmExtImpl.onInputBoxValueChange. rewrite Hat. cbn [fst snd].
  unfold ScmInputBoxImpl.onInputBoxValueChange, ScmInputBoxImpl.updateValue.
  split_and!.
  - done.
  - apply sentSince_app. cbn. by rewrite app_nil_r.
  - by apply observedSince_app.
  - world_cbn. rewrite list_lookup_alter_eq, Hsc. by eexists.
  - intros k Hk. world_cbn. by rewrite list_lookup_alter_ne.
Qed.

End InputBox.

Section WholeWorldWitnesses.
#[local] Existing Instance exampleHost.

Lemma setup_sourceControl :
  sourceControlStore (play setup initialWorld) !! 0%nat = Some gitSourceControl.
Proof. vm_compute; reflexivity. Qed.

Lemma setup_group : groupStore (play setup initialWorld) !! 1%nat = Some workingTree.
Proof. vm_compute; reflexivity. Qed.

Lemma setup_shown :
  _repositories (deliver (outbox (play setup initialWorld)) emptyMirror).2 !! 0
  = Some setupRepository.
Proof. vm_compute; reflexivity. Qed.

Lemma main_side_lists_groups_in_held_order_witness :
  exists i sc,
    ScmExtImpl.sourceControlAt (play setup initialWorld) 0 = Some (i, sc)
    /\ Forall2
         (fun k gh =>
            exists mg,
              groupByHandle (provider setupRepository) gh = Some (k, mg)
              /\ groupObjects (provider setupRepository) !! k = Some mg)
         (groups (provider setupRepository)) (fst <$> _groups sc).
Proof.
  exact (main_side_lists_groups_in_held_order setup 0 setupRepository setup_shown).
Defined.





Lemma dispose_unregisters_the_groups_first_witness :
  sentSince (play setup initialWorld)
    (ExtHostSourceControl.dispose 0 (play setup initialWorld))
  = [Main_unregisterGroup 0 0; Main_unregisterGroup 0 1; Main_unregisterSourceControl 0].
Proof.
  destruct (dispose_unregisters_the_groups_first setup 0%nat gitSourceControl
              setup_sourceControl) as (Hsent & _).
  exact Hsent.
Defined.

Lemma disposed_groups_fall_silent_witness :
  sentSince (play setup initialWorld)
    (ExtHostSourceControl.disposeGroup 1 (play setup initialWorld))
  = [Main_unregisterGroup 0 1].
Proof.
  destruct (disposed_groups_fall_silent setup 1%nat workingTree setup_group)
    as (Hsent & _).
  exact Hsent.
Defined.

Lemma input_value_reaches_the_main_side_witness :
  sentSince (play setup initialWorld)
    (ScmInputBoxImpl.set_value 0 "fix: " (play setup initialWorld))
  = [Main_setInputBoxValue 0 "fix: "].
Proof.
  destruct (input_value_reaches_the_main_side setup 0%nat gitSourceControl "fix: "
              setup_sourceControl) as (Hsent & _).
  exact Hsent.
Defined.

Lemma reported_input_is_not_echoed_witness :
  sentSince (play setup initialWorld)
    (ScmExtImpl.onInputBoxValueChange 0 "fix: " (play setup initialWorld)).2
  = [].
Proof.
  destruct (reported_input_is_not_echoed setup 0%nat gitSourceControl "fix: "
              setup_sourceControl) as (_ & Hsent & _).
  exact Hsent.
Defined.

End WholeWorldWitnesses.


(** * Ties of the comparators *)

Section ComparatorFacts.
Context `{Host}.

Lemma compareArguments_zero (a b : list Arg) :
  length a = length b -> compareArguments a b = 0 ->
  Forall2 (fun x y => arg_strict_eq x y = true) a b.
Proof.
  revert b. induction a as [|x a IH]; intros [|y b]; cbn; try done.
  intros [= Hlen]. destruct (arg_strict_eq x y) eqn:Hxy.
  - intros Hrest. constructor; [done|by apply IH].
  - by destruct (arg_lt x y).
Qed.

Lemma compareCommands_zero a b : compareCommands a b = 0 -> same_call a b.
Proof.
  unfold compareCommands, same_call, strict_ne_string.
  case_bool_decide as Hc; cbn [negb]; [|by destruct (js_lt_string _ _)].
  case_bool_decide as Ht; cbn [negb]; [|by destruct (js_lt_string _ _)].
  case_bool_decide as Hp; cbn [negb].
  - destruct (cmd_arguments a) as [aa|], (cmd_arguments b) as [ab|]; try done.
    destruct (Pos.eqb (arr_id aa) (arr_id ab)) eqn:Hid.
    + intros _. split_and!; try done. left. by apply Pos.eqb_eq.
    + destruct (length (arr_items aa) =? length (arr_items ab))%nat eqn:Hlen; cbn [negb].
      * apply Nat.eqb_eq in Hlen. intros Hz. split_and!; try done. right.
        by apply compareArguments_zero.
      * apply Nat.eqb_neq in Hlen. lia.
  - destruct (cmd_tooltip a) as [ta|], (cmd_tooltip b) as [tb|]; try done.
    by destruct (string_lt ta tb).
Qed.

Lemma compareResourceStatesDecorations_zero a b :
  compareResourceStatesDecorations a b = 0 ->
  rd_strikeThrough a = rd_strikeThrough b /\ rd_faded a = rd_faded b.
Proof.
  unfold compareResourceStatesDecorations, strict_ne_bool.
  case_bool_decide as Hs; cbn [negb]; [|by destruct (truthy_bool _)].
  case_bool_decide as Hf; cbn [negb]; [|by destruct (truthy_bool _)].
  done.
Qed.

(** Two resource states that the comparator ranks equal, so that the diff
    keeps what was sent for the one when the other is declared: they are on
    paths that compare equal, both without command or with commands that
    [$executeResourceCommand] runs in the same way, and both without
    decorations or with the same [strikeThrough] and [faded]. *)
Theorem states_that_tie_run_the_same_command (a b : ResourceState) :
  compareResourceStates a b = 0 ->
  comparePaths (fsPath (rs_resourceUri a)) (fsPath (rs_resourceUri b)) (Some true) = 0
  /\ match rs_command a, rs_command b with
     | None, None => True
     | Some ca, Some cb => same_call ca cb
     | _, _ => False
     end
  /\ match rs_decorations a, rs_decorations b with
     | None, None => True
     | Some da, Some db =>
         rd_strikeThrough da = rd_strikeThrough db /\ rd_faded da = rd_faded db
     | _, _ => False
     end.
Proof.
  unfold compareResourceStates.
  destruct (comparePaths _ _ _ =? 0) eqn:Hpath; cbn [negb]; cycle 1.
  { intros Hz. rewrite Hz in Hpath. done. }
  apply Z.eqb_eq in Hpath. rewrite Hpath.
  destruct (rs_command a) as [ca|], (rs_command b) as [cb|]; try done.
  - destruct (compareCommands ca cb =? 0) eqn:Hcmd; cbn [negb]; cycle 1.
    { intros Hz. rewrite Hz in Hcmd. done. }
    apply Z.eqb_eq in Hcmd. apply compareCommands_zero in Hcmd.
    destruct (rs_decorations a) as [da|], (rs_decorations b) as [db|]; try done.
    intros Hd%compareResourceStatesDecorations_zero. done.
  - cbn. destruct (rs_decorations a) as [da|], (rs_decorations b) as [db|]; try done.
    intros Hd%compareResourceStatesDecorations_zero. done.
Qed.

(** The comparator is not a consistent one: of two resource states on the
    same path with commands that rank equal, whose [strikeThrough] is
    [undefined] in the one and [false] in the other, each one is sorted
    before the other; and with the same [strikeThrough], the same holds for
    [faded]. *)
Theorem falsy_flags_are_sorted_both_ways (a b : ResourceState) da db :
  rs_decorations a = Some da -> rs_decorations b = Some db ->
  comparePaths (fsPath (rs_resourceUri a)) (fsPath (rs_resourceUri b)) (Some true) = 0 ->
  comparePaths (fsPath (rs_resourceUri b)) (fsPath (rs_resourceUri a)) (Some true) = 0 ->
  commands_rank_equal a b -> commands_rank_equal b a ->
  (falsy_apart (rd_strikeThrough da) (rd_strikeThrough db) ->
   compareResourceStates a b = -1 /\ compareResourceStates b a = -1)
  /\ (rd_strikeThrough da = rd_strikeThrough db ->
      falsy_apart (rd_faded da) (rd_faded db) ->
      compareResourceStates a b = -1 /\ compareResourceStates b a = -1).
Proof.
  intros Ha Hb Hab Hba Hcab Hcba.
  rewrite (compareResourceStates_decorations a b da db Ha Hb Hab Hcab).
  rewrite (compareResourceStates_decorations b a db da Hb Ha Hba Hcba).
  unfold compareResourceStatesDecorations, strict_ne_bool, falsy_apart. split.
  - intros (Hne & -> & ->).
    rewrite (bool_decide_eq_false_2 (rd_strikeThrough da = rd_strikeThrough db)) by done.
    by rewrite (bool_decide_eq_false_2 (rd_strikeThrough db = rd_strikeThrough da))
      by (by intros ?).
  - intros Hs (Hne & -> & ->). rewrite Hs.
    rewrite !(bool_decide_eq_true_2 (rd_strikeThrough db = rd_strikeThrough db)) by done.
    cbn [negb].
    rewrite (bool_decide_eq_false_2 (rd_faded da = rd_faded db)) by done.
    by rewrite (bool_decide_eq_false_2 (rd_faded db = rd_faded da)) by (by intros ?).
Qed.

Section Reflexive.
Hypothesis comparePaths_same : forall path caseSensitive, comparePaths path path caseSensitive = 0.

Lemma compareResourceThemableDecorations_same d :
  compareResourceThemableDecorations d d = 0.
Proof.
  unfold compareResourceThemableDecorations.
  destruct (truthy_icon (td_iconPath d)); cbn; [|done].
  destruct (td_iconPath d); [apply comparePaths_same|done].
Qed.

(** A resource state ties with itself, as far as [comparePaths] ranks a
    path equal to itself: declaring the same state again is no change for
    the comparator. *)
Theorem a_state_ties_with_itself (a : ResourceState) : compareResourceStates a a = 0.
Proof.
  unfold compareResourceStates. rewrite comparePaths_same. cbn.
  assert (forall c, compareCommands c c = 0) as Hcmd.
  { intros c. unfold compareCommands, strict_ne_string.
    rewrite !bool_decide_eq_true_2 by done. cbn.
    destruct (cmd_arguments c); [|done]. by rewrite Pos.eqb_refl. }
  assert (forall d, compareResourceStatesDecorations d d = 0) as Hdec.
  { intros d. unfold compareResourceStatesDecorations, strict_ne_bool, strict_ne_string.
    rewrite !bool_decide_eq_true_2 by done. cbn [negb].
    rewrite compareResourceThemableDecorations_same. cbn.
    destruct (rd_light d) as [l|].
    - rewrite compareResourceThemableDecorations_same. cbn.
      destruct (rd_dark d); [apply compareResourceThemableDecorations_same|done].
    - cbn. destruct (rd_dark d); [apply compareResourceThemableDecorations_same|done]. }
  destruct (rs_command a) as [c|].
  - rewrite Hcmd. cbn. destruct (rs_decorations a); [apply Hdec|done].
  - cbn. destruct (rs_decorations a); [apply Hdec|done].
Qed.

End Reflexive.

End ComparatorFacts.

Section TieWitnesses.
#[local] Existing Instance exampleHost.

Lemma string_order_same (a : string) : string_order a a = 0.
Proof.
  assert (String.compare a a = Eq) as Heq.
  { induction a as [|c a IH]; [done|]. cbn. unfold Ascii.compare.
    by rewrite N.compare_refl. }
  unfold string_order. by rewrite Heq.
Qed.

Lemma states_that_tie_run_the_same_command_witness :
  comparePaths (fsPath (rs_resourceUri (withCommand "a" "git.openChange")))
    (fsPath (rs_resourceUri (withCommand "a" "git.openChange"))) (Some true) = 0.
Proof.
  destruct (states_that_tie_run_the_same_command (withCommand "a" "git.openChange")
              (withCommand "a" "git.openChange")) as [Hpath _].
  - vm_compute; reflexivity.
  - exact Hpath.
Defined.

Lemma falsy_flags_are_sorted_both_ways_witness :
  compareResourceStates (decorated "a.txt" (flags None None))
    (decorated "a.txt" (flags (Some false) None)) = -1
  /\ compareResourceStates (decorated "a.txt" (flags (Some false) None))
       (decorated "a.txt" (flags None None)) = -1.
Proof.
  destruct (falsy_flags_are_sorted_both_ways (decorated "a.txt" (flags None None))
              (decorated "a.txt" (flags (Some false) None))
              (flags None None) (flags (Some false) None)) as [Hboth _].
  - reflexivity.
  - reflexivity.
  - vm_compute; reflexivity.
  - vm_compute; reflexivity.
  - exact I.
  - exact I.
  - apply Hboth. split; [discriminate|]. split; reflexivity.
Defined.

Lemma a_state_ties_with_itself_witness :
  compareResourceStates (withCommand "a" "git.openChange")
    (withCommand "a" "git.openChange") = 0.
Proof.
  apply (@a_state_ties_with_itself exampleHost (fun path _ => string_order_same path)).
Defined.

End TieWitnesses.
